(* ===== verification/_CoqProject ===== *)
-Q . S2P
Prelude.v
GoStd.v
Json.v
Env.v
Keys.v
MemEnv.v
Utf8.v
Counters.v
Sha256.v
ChatBuffer.v
ChatStore.v
SessionStore.v
RateLimit.v
BanStore.v
Validator.v
Report.v
Regex.v
Filter.v
FilterProofs.v
Blocklist.v
Scraper.v
Protocol.v
Messaging.v
Subscriptions.v
Connection.v
Queue.v
Tiers.v
Matcher.v
Cleanup.v
App.v
WsServer.v
Handlers.v
Moderator.v
HandlerProofs.v
LifeCycle.v
Reporting.v
Moves.v
ServerInv.v
Heartbeat.v
ChatStart.v
Service.v
Shutdown.v
Entry.v
LoadClient.v
Harness.v
Stats.v
LoadChat.v
PairProofs.v
PairScript.v
Ramp.v
LoadTests.v
ChatTest.v
MatchTest.v
E2e.v
E2eProofs.v
E2eEvidence.v
Startup.v
Workers.v
EpollOther.v
EventLoop.v
Upgrades.v
Metrics.v
EndChat.v
SaturateTest.v
ClientTypes.v
WriteLocks.v
