(* ===== verification/Prelude.v ===== *)
(** * Whisper: a verification of the anonymous chat services

    Whisper pairs anonymous users by shared interests and relays messages
    between them.  Three Go programs make up the system: the WebSocket server
    (src/cmd/wsserver), the matcher (src/cmd/matcher) and the moderator
    (src/cmd/moderator).  They share state in Redis, talk to each other over
    NATS subjects, and keep abuse reports in PostgreSQL.  Two more programs
    exercise them from outside: the load tests (src/loadtest/cmd/loadtest) and the
    end-to-end test (src/loadtest/cmd/e2etest).

    ** How the program is modelled

    Every operation is a definition in the state monad [M W A] (this file): a
    total function from the world to a result and a world, written call by call
    as the Go code is.  A Go pair [(T, error)] is [res T]; an error alone is
    [option error]; a nil pointer is [None].  [wp m Q w] says that [m], run from
    [w], ends in a state satisfying [Q]; the rules of this file and of Env.v step
    through an operation.

    What is not in the repository is a parameter.  [Env] (Env.v) is Redis, NATS
    publishing, the clock, UUIDs and the unspecified orders of the Go runtime,
    with [EnvLaws] stating the documented effect of every command the program
    sends; a call may fail at any time unless the world is [up].  [Broker]
    (Subscriptions.v) is the NATS subscription API, [Net] (Connection.v) sockets,
    WebSocket frames and epoll, [ReportDB] (Report.v) PostgreSQL, [Unicode]
    (Filter.v) the Unicode tables, [ClientNet] (LoadClient.v) the sockets of the
    test clients.  MemEnv.v, and the ends of Subscriptions.v,
    Connection.v, Report.v, Filter.v and LoadClient.v give instances in memory; the witnesses
    of the theorems run on them.

    JSON payloads are JSON values ([json], Json.v) with the conventions of
    encoding/json for structs: tags, omitempty, case folding, null, nil slices.
    Strings are byte strings; Utf8.v decodes them as Go does.  Times are
    milliseconds, durations nanoseconds; 64-bit counters wrap where the code can
    overflow, and float64 rounding is explicit where numbers pass through it.

    ** The parts, and the files that model them

    - Prelude.v, GoStd.v, Json.v, Utf8.v, Regex.v, Sha256.v: the monad and its
      rules, and what the program uses of Go's standard library (strconv,
      strings, sort, encoding/json, unicode/utf8, regexp, crypto/sha256).
    - Env.v, Keys.v, MemEnv.v, Counters.v: the services, the key schema of the
      program ([wf_ks]), a Redis in memory, INCR counters with a TTL.
    - ChatBuffer.v: internal/chat/buffer.go, the ring of the last five messages,
      index panics included.  ChatStore.v: internal/chat/store.go with the Lua
      script of [AcceptMatch].  Validator.v: internal/chat/validator.go.
    - SessionStore.v: internal/session/store.go.  RateLimit.v:
      internal/ratelimit/limiter.go.  BanStore.v: internal/ban/store.go.
      Report.v: internal/report/store.go.
    - Filter.v and FilterProofs.v: internal/moderation/filter.go and spam.go,
      parametric in the list of blocked terms.  Blocklist.v: the default list of
      internal/moderation/blocklist.go.  Moderator.v: the handler of
      cmd/moderator.
    - Protocol.v: internal/protocol/messages.go.
    - Messaging.v and Subscriptions.v: internal/messaging/nats.go.
    - Queue.v, Tiers.v, Matcher.v, Cleanup.v: internal/matching (queue.go; the
      tiers exact.go, overlap.go, single.go, random.go; service.go and
      publisher.go; cleanup.go).
    - Connection.v: internal/ws/connection.go and epoll.go, connections as
      objects in a heap that two maps share.  WsServer.v: internal/ws/server.go,
      dispatcher.go and heartbeat.go over the process state [app] of App.v.
    - Handlers.v: the closures of cmd/wsserver/main.go: ten message handlers, the
      NATS callbacks (first-order values of [callback], run by [deliver]) and the
      disconnect callback.  HandlerProofs.v (messages, events), LifeCycle.v
      (connections, the end of a chat), ChatStart.v (its start) and Reporting.v
      hold their theorems.
    - Moves.v: relations between states that every handler respects, as type
      classes.  ServerInv.v: the server process as a transition system and its
      invariant.
      Heartbeat.v: the eviction of dead connections.  Shutdown.v: the shutdown.
      Entry.v: the ban check and the match request, across to the matcher.
    - The concurrency of internal/ws, one operation at a time.  Workers.v: the
      goroutines that read frames.  EventLoop.v: the event loop that starts them,
      with the done channel, NewServer and the epoll instance.  Upgrades.v:
      handleUpgrade as net/http runs it, many at a time.  WriteLocks.v: the write
      mutex of connection.go, the write deadline of SendMessage and the pings of
      heartbeat.go.  EpollOther.v: internal/ws/epoll_other.go, the fallback of
      other platforms with its monitor goroutines.  EndChat.v: the end_chat handler
      of two partners at once.
    - Metrics.v: internal/metrics/metrics.go, and what a scrape of its page reads.
    - Service.v: the matching service over a whole run: requests, cancels, the
      two ticker loops, time and other processes in any order.
    - Startup.v: the main functions of the three services up to their start and
      after a signal, with Server.Start, NewNATSClient, session.NewStore and
      internal/database/migrate.go, as the calls they make in order.
    - LoadClient.v: loadtest/client/client.go.  Stats.v:
      loadtest/stats/stats.go.  Scraper.v: loadtest/stats/scraper.go.  Harness.v:
      what the test programs share: their messages, buffered channels, a client
      with its read loop ([peer]), the wait for a session.
    - LoadChat.v: runPair of loadtest/cmd/loadtest/chat.go, two clients and five
      goroutines, as a step function on a [world]; an [event] is one step of one
      goroutine, a frame, a tick, a deadline or the clock, so a list of events is
      an interleaving.  PairProofs.v (its counters) and PairScript.v (what its
      clients say) hold its theorems.  Ramp.v: the connection phase of the three
      load tests.  LoadTests.v: the hold phase of saturate.go, the pairing and the
      report of chat.go, the subcommands.  ChatTest.v: the chat test as a whole,
      all pairs on shared counters.  MatchTest.v: match.go.  SaturateTest.v:
      saturate.go as a whole, the options of the three tests and their progress
      goroutines.  ClientTypes.v: the message types of the client against those
      of the server.
    - E2e.v, E2eProofs.v, E2eEvidence.v: loadtest/cmd/e2etest/main.go, the seven
      scenarios against a schedule of frames and deadlines.

    The components meet as in the code: the handlers call the stores, the
    limiter, the filter and the client; what they publish on match.request is
    what [handleMatchRequest] decodes, what the matcher publishes on match.found
    is what [on_match_found] decodes, and so on.

    ** What the theorems show

    - Matching: a cycle of the matcher never matches a session twice, refines an
      abstract cycle on an abstract queue, and serves every session that has
      waited long enough; each tier returns the candidate it promises; the queue
      refines a map of entries with deadlines; the clean-up pass removes exactly
      the stale entries and expired chats.
      Over any run whose match loop passes every thirty seconds, the queue stays
      consistent and every request is answered at most once, and exactly once if
      the session waits; what find_match publishes is what the matcher queues.
    - Chats: a match becomes active exactly once, when both have accepted;
      messages are judged in one order with exactly the effects of the verdict;
      events are not echoed and do not reveal the sender; ending a chat or
      disconnecting notifies the partner once and closes the chat for both.
    - Abuse: the limiter is a fixed window; the third report bans; a banned
      fingerprint is refused; the report handler bans the partner's fingerprint
      and removes its connection; the filter catches blocked words and links, and
      every term of the default block list wherever it stands as words of the
      text, in any case; the moderator agrees with it.
    - Load tests: the client's handshake is what the server expects, it counts
      what it reads; the percentiles are the nearest-rank ones for any number of
      samples, float64 products included; the scraper reads back what the server
      prints, records the page and reports the peaks, and a scrape of the server's
      page gives the values its handlers have set, and zero for three metrics
      nobody sets.  runPair returns under every
      scheduler, its books balance although two of its tallies race, and its
      clients follow the protocol; a pair of the chat test behaves as if it ran
      alone, so the whole test accounts for every pair asked for, and so do the
      matching test and the saturation test; the connection phase loses no attempt
      and respects its bound.
      The end-to-end test exits with 0 exactly if no scenario failed, closes every
      client it opened, and passes a scenario only on the frames it asks for.
    - The start: the server serves only after every dependency has answered, with
      limits that are positive whatever the environment holds.
    - Stores and buffers refine abstract specifications; messages round-trip
      through JSON.
    - The start of a chat: the second acceptance activates the chat and moves
      both sessions, possibly on two servers, into it.
    - Connections: both registries stay consistent in every history, a
      connection is cleaned up once, the limit is respected, every frame is
      routed to the handler of its kind, a heartbeat evicts exactly the dead
      connections; and in every reachable state of the process,
      whatever fails, the registries are consistent, within the limit, and no
      handler panicked; a shutdown leaves no socket open.
    - Concurrency of the server: the event loop dispatches every ready connection
      once and in order, its workers stay within the pool, never share a connection
      and release what they claim, and the loop can return after done unless peers
      withhold payloads, which can hold up the whole pool.  Upgrades that race can
      pass the limit by one less than their number, and never corrupt the
      registries.  Writes to a connection are exclusive; a client that does not
      read can stop the heartbeat.  The fallback returns every signalled connection
      once, and loses bytes.

    ** Bounds

    Recursion is structural but for two places that take fuel: the matcher of
    regular expressions iterates a star at most once per character of the input
    (Regex.v shows that this is enough: [MatchRunes_spec]), and SHA-256 consumes
    the padded message with its length as fuel, more than its number of words and
    of blocks.  Machines that wait (runPair, the ramp, the tests) are step functions
    driven by a list of events instead of fuel; [run_pair_terminates] bounds the
    steps runPair can take by itself.  Hypotheses such as
    [ctr_count o < max_int64] exclude Redis's own overflow error.

    ** Not modelled

    - Concurrency inside a handler: apart from the upgrade, the writes and the
      end of a chat, which are also taken apart, a handler and a callback are one
      step each.  The mutexes of the stores and of the registries are left out:
      what they protect is one step.
    - Logging and the layout of the text the test programs print; flag parsing;
      the Prometheus client library, whose registry and page are parameters of
      Metrics.v.
    - time.ParseDuration, strconv.ParseFloat and time.Duration.String, which are
      parameters of Startup.v, Scraper.v and Metrics.v; the migration library and
      its SQL.
    - The read deadline of a socket, which is the time-out the network may answer
      with; the work of net/http and of the WebSocket library below frames.
    - The frontend, which is browser code in another language. *)

From stdpp Require Import base gmap strings list sorting numbers fin_maps.

#[export] Set Default Goal Selector "!".

(** ** Results and errors *)

(** A Go [error] value that is not nil, by its text. *)
Abbreviation error := string (only parsing).

(** A Go pair [(T, error)]: exactly one of the two is meaningful in the code
    modelled here. *)
Inductive res (A : Type) : Type :=
  | Ok (a : A)
  | Err (e : error).
Arguments Ok {A} a.
Arguments Err {A} e.

(** ** The state monad of the handlers

    [W] is the world a computation runs in: the services it talks to and the
    clock. *)
Definition M (W A : Type) : Type := W → A * W.

Definition ret {W A} (a : A) : M W A := λ w, (a, w).
Definition bind {W A B} (m : M W A) (f : A → M W B) : M W B :=
  λ w, let '(a, w') := m w in f a w'.

Declare Scope go_scope.
Delimit Scope go_scope with go.
Notation "'let!' x := m 'in' k" := (bind m (fun x => k))
  (at level 10, x name, m at level 100, k at level 200,
   format "'[v' 'let!'  x  :=  m  'in' '/' k ']'") : go_scope.
Notation "'let!' ' p := m 'in' k" := (bind m (fun p => k))
  (at level 10, p pattern, m at level 100, k at level 200) : go_scope.
Notation "'do!' m 'in' k" := (bind m (fun _ => k))
  (at level 10, m at level 100, k at level 200,
   format "'[v' 'do!'  m  'in' '/' k ']'") : go_scope.
Open Scope go_scope.

(** *** Loops over a slice *)

Section loops.
Context {W A B : Type}.

(** [for _, x := range xs { body }] *)
Fixpoint range_do (xs : list A) (body : A → M W unit) : M W unit :=
  match xs with
  | [] => ret tt
  | x :: xs => do! body x in range_do xs body
  end.

(** A loop whose body may [return]: [Some] stops it. *)
Fixpoint range_find (xs : list A) (body : A → M W (option B)) : M W (option B) :=
  match xs with
  | [] => ret None
  | x :: xs =>
      let! r := body x in
      match r with
      | Some b => ret (Some b)
      | None => range_find xs body
      end
  end.

(** A loop that updates a local variable. *)
Fixpoint range_fold (xs : list A) (body : B → A → M W B) (acc : B) : M W B :=
  match xs with
  | [] => ret acc
  | x :: xs => let! acc' := body acc x in range_fold xs body acc'
  end.
End loops.

(** ** Reasoning about computations

    [wp m Q w]: run from [w], [m] returns a value and a world that satisfy
    [Q].  Computations are total functions, so [wp] is total correctness. *)
Definition wp {W A} (m : M W A) (Q : A → W → Prop) (w : W) : Prop :=
  Q (m w).1 (m w).2.

Section wp_rules.
Context {W A B : Type}.
Implicit Types (w : W).

Lemma wp_ret (a : A) (Q : A → W → Prop) w : Q a w → wp (ret a) Q w.
Proof. done. Qed.

Lemma wp_bind (m : M W A) (f : A → M W B) (Q : B → W → Prop) w :
  wp m (λ a w', wp (f a) Q w') w → wp (bind m f) Q w.
Proof. unfold wp, bind. by destruct (m w). Qed.

Lemma wp_mono (m : M W A) (Q Q' : A → W → Prop) w :
  wp m Q w → (∀ a w', Q a w' → Q' a w') → wp m Q' w.
Proof. unfold wp. eauto. Qed.

Lemma wp_run (m : M W A) (Q : A → W → Prop) w a w' :
  wp m Q w → m w = (a, w') → Q a w'.
Proof. unfold wp. intros H E. by rewrite E in H. Qed.

Lemma wp_intro (m : M W A) (Q : A → W → Prop) w :
  (∀ a w', m w = (a, w') → Q a w') → wp m Q w.
Proof. unfold wp. intros H. apply H. by destruct (m w). Qed.

End wp_rules.

Section loop_rules.
Context {W A B : Type}.
Implicit Types (w : W).

(** Loop rules: an invariant on the elements already visited and the ones
    still to visit. *)
Lemma wp_range_do (I : list A → list A → W → Prop) (body : A → M W unit) xs w
    (Q : unit → W → Prop) :
  I [] xs w →
  (∀ pre x post w', I pre (x :: post) w' → xs = pre ++ x :: post →
     wp (body x) (λ _ w'', I (pre ++ [x]) post w'') w') →
  (∀ w', I xs [] w' → Q tt w') →
  wp (range_do xs body) Q w.
Proof.
  intros HI Hstep HQ.
  assert (∀ pre post w', xs = pre ++ post → I pre post w' →
            wp (range_do post body) Q w') as Hgen; [|by apply (Hgen [])].
  intros pre post. revert pre.
  induction post as [|x post IH]; intros pre w' Hxs HI'.
  - cbn. apply wp_ret, HQ. by rewrite Hxs, app_nil_r.
  - cbn. apply wp_bind. eapply wp_mono; [by eapply Hstep|].
    intros [] w'' HI''. apply (IH (pre ++ [x])); [|done].
    by rewrite Hxs, <-app_assoc.
Qed.

(** Search rule: the body finds the answer or leaves the invariant. *)
Lemma wp_range_find (I : list A → W → Prop) (body : A → M W (option B)) xs w
    (Q : option B → W → Prop) :
  I [] w →
  (∀ pre x post w', I pre w' → xs = pre ++ x :: post →
     wp (body x) (λ r w'', match r with
                           | Some b => Q (Some b) w''
                           | None => I (pre ++ [x]) w''
                           end) w') →
  (∀ w', I xs w' → Q None w') →
  wp (range_find xs body) Q w.
Proof.
  intros HI Hstep HQ.
  assert (∀ pre post w', xs = pre ++ post → I pre w' →
            wp (range_find post body) Q w') as Hgen; [|by apply (Hgen [])].
  intros pre post. revert pre.
  induction post as [|x post IH]; intros pre w' Hxs HI'.
  - cbn. apply wp_ret, HQ. by rewrite Hxs, app_nil_r.
  - cbn. apply wp_bind. eapply wp_mono; [by eapply Hstep|].
    intros [b|] w'' H; [by apply wp_ret|].
    apply (IH (pre ++ [x])); [|done]. by rewrite Hxs, <-app_assoc.
Qed.

Lemma wp_range_fold (I : list A → B → W → Prop) (body : B → A → M W B) xs acc w
    (Q : B → W → Prop) :
  I [] acc w →
  (∀ pre x post acc' w', I pre acc' w' → xs = pre ++ x :: post →
     wp (body acc' x) (λ r w'', I (pre ++ [x]) r w'') w') →
  (∀ acc' w', I xs acc' w' → Q acc' w') →
  wp (range_fold xs body acc) Q w.
Proof.
  intros HI Hstep HQ.
  assert (∀ pre post acc' w', xs = pre ++ post → I pre acc' w' →
            wp (range_fold post body acc') Q w') as Hgen; [|by apply (Hgen [])].
  intros pre post. revert pre.
  induction post as [|x post IH]; intros pre acc' w' Hxs HI'.
  - cbn. apply wp_ret, HQ. by rewrite Hxs, app_nil_r.
  - cbn. apply wp_bind. eapply wp_mono; [by eapply Hstep|].
    intros acc'' w'' H. apply (IH (pre ++ [x])); [|done].
    by rewrite Hxs, <-app_assoc.
Qed.
End loop_rules.

(** ** Automation *)

Create HintDb go discriminated.

(** Steps through a computation: binds and returns are consumed, matches on
    known results are reduced. *)
Ltac wp_pure :=
  repeat first
    [ progress cbn beta iota zeta
    | match goal with
      | |- wp (bind _ _) _ _ => apply wp_bind
      | |- wp (ret _) _ _ => apply wp_ret
      | |- wp (match ?x with _ => _ end) _ _ =>
          match goal with H : x = _ |- _ => rewrite H end
      end ].

(** Splits the goal on the match it is stuck on, keeping the equation. *)
Ltac wp_case :=
  match goal with
  | |- wp (match ?x with _ => _ end) _ _ => destruct x eqn:?
  | |- wp (if ?x then _ else _) _ _ => destruct x eqn:?
  end; wp_pure.

(** ** Generic lemmas *)

Lemma last_n_app {A} (n : nat) (l : list A) (x : A) :
  (0 < n)%nat →
  drop (length (l ++ [x]) - n) (l ++ [x]) =
  drop (length (drop (length l - n) l) - (n - 1)) (drop (length l - n) l) ++ [x].
Proof.
  intros Hn. rewrite length_app, length_drop, drop_drop. cbn.
  rewrite drop_app_le by lia. f_equal. f_equal. lia.
Qed.

Lemma map_to_list_perm_keys {A} (m : gmap string A) (l : list (string * A)) :
  l ≡ₚ map_to_list m → ∀ k v, (k, v) ∈ l ↔ m !! k = Some v.
Proof. intros Hl k v. by rewrite Hl, elem_of_map_to_list. Qed.

(** The sum of a weight over a map. *)
Definition map_total {K X} `{Countable K} (f : X → nat) (m : gmap K X) : nat := map_fold (λ _ x acc, f x + acc)%nat 0%nat m.

Lemma map_total_delete {K X} `{Countable K} (f : X → nat) (m : gmap K X) i x :
  m !! i = Some x → map_total f m = (f x + map_total f (delete i m))%nat.
Proof. intros Hi. unfold map_total. apply (map_fold_delete_L (λ _ x acc, f x + acc)%nat 0%nat i x m); [intros; lia|done]. Qed.
Lemma map_total_insert {K X} `{Countable K} (f : X → nat) (m : gmap K X) i x :
  map_total f (<[i := x]> m) = (f x + map_total f (delete i m))%nat.
Proof. rewrite (map_total_delete f _ i x) by apply lookup_insert_eq. by rewrite delete_insert_eq. Qed.
