(* ===== verification/GoStd.v ===== *)
(** * The parts of Go and of its standard library the services use

    Machine integers ([wrap64]), durations, [strings.Join] and
    [strings.Split], [sort.Strings], decimal printing and [strconv.ParseInt].
    Strings are Go strings: sequences of bytes. *)

From Stdlib Require Import Ascii.
From stdpp Require Import base gmap strings list sorting numbers.
From Stdlib Require Import DecimalString DecimalPos DecimalZ DecimalFacts.
From S2P Require Import Prelude.
Open Scope Z_scope.

#[local] Arguments Ascii.eqb : simpl never.

(** ** Machine integers and time *)

Definition min_int64 : Z := -9223372036854775808.
Definition max_int64 : Z := 9223372036854775807.

(** Two's complement wrap-around of a 64-bit signed integer. *)
Definition wrap64 (z : Z) : Z := (z - min_int64) mod 2 ^ 64 + min_int64.

Lemma wrap64_id z : min_int64 ≤ z ≤ max_int64 → wrap64 z = z.
Proof. unfold wrap64, min_int64, max_int64. intros H. rewrite Z.mod_small; lia. Qed.

(** A [time.Duration] is an int64 number of nanoseconds. *)
Definition Millisecond : Z := 1000000.
Definition Second : Z := 1000000000.
Definition Minute : Z := 60 * Second.
Definition Hour : Z := 60 * Minute.

(** [int(d.Seconds())] of a non-negative duration of whole seconds. *)
Definition Seconds (d : Z) : Z := Z.quot d Second.

(** [t.Unix()] of a time given in milliseconds. *)
Definition Unix (ms : Z) : Z := ms / 1000.

(** ** Strings *)

(** The bytes of a string, and back. *)
Fixpoint bytes_of (s : string) : list Z :=
  match s with
  | "" => []
  | String a s => Z.of_N (N_of_ascii a) :: bytes_of s
  end%string.

Fixpoint string_of (bs : list Z) : string :=
  match bs with
  | [] => ""
  | b :: bs => String (ascii_of_N (Z.to_N b)) (string_of bs)
  end%string.

Definition is_byte (b : Z) : Prop := 0 ≤ b < 256.

Lemma bytes_of_byte s : Forall is_byte (bytes_of s).
Proof.
  induction s as [|a s IH]; constructor; [|done].
  pose proof (N_ascii_bounded a). unfold is_byte. lia.
Qed.

Lemma string_of_bytes_of s : string_of (bytes_of s) = s.
Proof. induction s as [|a s IH]; cbn; [done|]. by rewrite N2Z.id, ascii_N_embedding, IH. Qed.

Lemma bytes_of_string_of bs : Forall is_byte bs → bytes_of (string_of bs) = bs.
Proof.
  induction 1 as [|b bs Hb _ IH]; cbn; [done|]. unfold is_byte in Hb.
  rewrite N_ascii_embedding by lia. rewrite IH. f_equal. lia.
Qed.

Lemma bytes_of_length s : length (bytes_of s) = String.length s.
Proof. induction s as [|a s IH]; cbn; [done|]. by rewrite IH. Qed.

Fixpoint Join (elems : list string) (sep : string) : string :=
  match elems with
  | [] => ""
  | [e] => e
  | e :: es => e +:+ sep +:+ Join es sep
  end.

(** [strings.Split] with a separator of one byte. *)
Fixpoint Split (s : string) (sep : Ascii.ascii) : list string :=
  match s with
  | "" => [""]
  | String a s' =>
      if Ascii.eqb a sep then "" :: Split s' sep
      else match Split s' sep with
           | h :: t => String a h :: t
           | [] => [String a ""]
           end
  end%string.

Fixpoint has_byte (c : Ascii.ascii) (s : string) : bool :=
  match s with
  | "" => false
  | String a s' => Ascii.eqb a c || has_byte c s'
  end%string.

Definition comma : Ascii.ascii := ","%char.

Lemma app_string_nil t : "" +:+ t = t.
Proof. done. Qed.

Lemma app_string_cons a s t : (String a s) +:+ t = String a (s +:+ t).
Proof. done. Qed.

Lemma app_string_assoc s t u : (s +:+ t) +:+ u = s +:+ t +:+ u.
Proof. induction s as [|a s IH]; [done|]. rewrite !app_string_cons. by rewrite IH. Qed.

Lemma app_string_nil_r s : s +:+ "" = s.
Proof. induction s as [|a s IH]; [done|]. rewrite app_string_cons. by rewrite IH. Qed.

Lemma Split_nonempty s c : Split s c ≠ [].
Proof. destruct s; cbn; [done|]. case_match; [done|]. by case_match. Qed.

Lemma Split_no_sep e c : has_byte c e = false → Split e c = [e].
Proof.
  induction e as [|a e IH]; cbn; [done|].
  destruct (Ascii.eqb a c); cbn; [done|]. intros H. by rewrite IH.
Qed.

Lemma Split_app e c s :
  has_byte c e = false → Split (e +:+ String c s) c = e :: Split s c.
Proof.
  induction e as [|a e IH]; rewrite ?app_string_nil, ?app_string_cons; cbn.
  - by rewrite Ascii.eqb_refl.
  - destruct (Ascii.eqb a c); cbn; [done|]. intros H. by rewrite IH.
Qed.

(** Splitting a joined list gives it back when no element has the separator
    in it and the list is not empty. *)
Lemma Split_Join es c :
  es ≠ [] → Forall (λ e, has_byte c e = false) es →
  Split (Join es (String c "")) c = es.
Proof.
  induction es as [|e es IH]; [done|]. intros _ Hes.
  inversion_clear Hes as [|?? He Hes']. destruct es as [|e' es].
  - by apply Split_no_sep.
  - cbn -[Join]. change (Join (e :: e' :: es) (String c ""))
      with (e +:+ String c (Join (e' :: es) (String c ""))).
    rewrite Split_app by done. by rewrite IH.
Qed.

Lemma Join_empty es c : Join es (String c "") = "" → es = [] ∨ es = [""].
Proof.
  destruct es as [|e [|e' es]]; cbn; [by left| intros ->; by right |].
  by destruct e.
Qed.

(** *** [sort.Strings]

    Byte order is total and antisymmetric, so the sorted permutation is
    unique and any sorting algorithm computes it. *)
Definition sort_Strings (l : list string) : list string := merge_sort String.le l.

Lemma sort_Strings_perm l : sort_Strings l ≡ₚ l.
Proof. apply merge_sort_Permutation. Qed.

Lemma sort_Strings_sorted l : StronglySorted String.le (sort_Strings l).
Proof. apply StronglySorted_merge_sort; apply _. Qed.

Lemma sort_Strings_unique l l' : l ≡ₚ l' → sort_Strings l = sort_Strings l'.
Proof.
  intros Hp. apply (StronglySorted_unique String.le);
    [apply sort_Strings_sorted..|].
  by rewrite !sort_Strings_perm.
Qed.

#[export] Instance sort_Strings_proper : Proper ((≡ₚ) ==> (=)) sort_Strings.
Proof. intros l l'. apply sort_Strings_unique. Qed.

(** ** Integers as text *)

Definition itoa (z : Z) : string := NilZero.string_of_int (Z.to_int z).

(** Optional sign and at least one digit, nothing else. *)
Definition parse_dec (s : string) : option Z :=
  match s with
  | String "+" s' => Z.of_uint <$> NilZero.uint_of_string s'
  | _ => Z.of_int <$> NilZero.int_of_string s
  end.

(** [strconv.ParseInt(s, 10, 64)]: the value and whether an error is returned;
    out of range gives the nearest bound and an error, bad syntax 0 and an
    error. *)
Definition ParseInt (s : string) : Z * bool :=
  match parse_dec s with
  | None => (0, true)
  | Some n =>
      if bool_decide (max_int64 < n) then (max_int64, true)
      else if bool_decide (n < min_int64) then (min_int64, true)
      else (n, false)
  end.

Lemma itoa_plus z s : itoa z ≠ String "+" s.
Proof.
  unfold itoa. destruct (Z.to_int z) as [u|u]; cbn; [|done].
  destruct u; cbn; done.
Qed.

Lemma parse_dec_itoa z : parse_dec (itoa z) = Some z.
Proof.
  assert (parse_dec (itoa z) = Z.of_int <$> NilZero.int_of_string (itoa z)) as ->.
  { destruct (itoa z) as [|a s] eqn:E; [done|].
    unfold parse_dec. repeat (case_match; try done). exfalso.
    by eapply itoa_plus. }
  unfold itoa. rewrite NilZero.isi.
  - cbn. by rewrite DecimalZ.of_to.
  - destruct z; cbn; try done. intros [= H]. by eapply DecimalPos.Unsigned.to_uint_nonnil.
  - destruct z; cbn; try done. intros [= H]. by eapply DecimalPos.Unsigned.to_uint_nonnil.
Qed.

Lemma ParseInt_itoa z :
  min_int64 ≤ z ≤ max_int64 → ParseInt (itoa z) = (z, false).
Proof.
  intros Hz. unfold ParseInt. rewrite parse_dec_itoa.
  rewrite !bool_decide_false by lia. done.
Qed.

(** ** Integers as float64

    [float64(z)] of an int64: the nearest integer with a significand of 53
    bits, ties to even; exact up to [2 ^ 53].  Differences of such values are
    rounded the same way. *)
Definition float64 (z : Z) : Z :=
  let e := Z.log2 (Z.abs z) - 52 in
  if bool_decide (e ≤ 0) then z
  else
    let q := z / 2 ^ e in
    let r := z mod 2 ^ e in
    let half := 2 ^ (e - 1) in
    let up := bool_decide (half < r) || bool_decide (r = half) && Z.odd q in
    (if up then q + 1 else q) * 2 ^ e.

Lemma float64_exact z : Z.abs z < 2 ^ 53 → float64 z = z.
Proof.
  intros Hz. unfold float64. rewrite bool_decide_true; [done|].
  destruct (decide (z = 0)) as [->|Hn]; [done|].
  assert (Z.log2 (Z.abs z) < 53); [|lia].
  apply Z.log2_lt_pow2; lia.
Qed.
