(* ===== verification/Json.v ===== *)
(** * JSON values and the struct conventions of encoding/json

    A payload is represented by the JSON value its text denotes.  Marshalling a
    struct lists its fields in declaration order, [omitempty] fields only when
    they are not zero; unmarshalling takes the last member whose key equals the
    field's tag up to case folding, leaves the zero value for a missing or null
    member and fails on a member of another type. *)

From Stdlib Require Import Ascii.
From stdpp Require Import base strings list numbers.
From S2P Require Import Prelude.
Open Scope Z_scope.

Inductive json : Type :=
  | JNull
  | JBool (b : bool)
  | JNum (z : Z)
  | JStr (s : string)
  | JArr (l : list json)
  | JObj (members : list (string * json)).

(** ** Marshalling *)

(** A field without [omitempty]. *)
Definition fld (name : string) (v : json) : list (string * json) := [(name, v)].

(** Fields with [omitempty]. *)
Definition omit_str (name s : string) : list (string * json) :=
  if bool_decide (s = "") then [] else [(name, JStr s)].
Definition omit_bool (name : string) (b : bool) : list (string * json) :=
  if b then [(name, JBool true)] else [].
Definition omit_int (name : string) (z : Z) : list (string * json) :=
  if bool_decide (z = 0) then [] else [(name, JNum z)].
Definition omit_strs (name : string) (l : list string) : list (string * json) :=
  match l with [] => [] | _ => [(name, JArr (JStr <$> l))] end.

(** ** Unmarshalling *)

Definition upper_byte (a : ascii) : ascii :=
  let n := N_of_ascii a in
  if bool_decide (97 ≤ n ∧ n ≤ 122)%N then ascii_of_N (n - 32) else a.

(** The name up to case folding.  Among the characters outside ASCII only the
    long s (bytes 197 191) and the Kelvin sign (226 132 170) fold to an ASCII
    letter; every tag of the program is ASCII. *)
Fixpoint fold_name (s : string) : string :=
  match s with
  | "" => ""
  | String a (String b s2 as s1) =>
      if bool_decide (a = "197" ∧ b = "191")%char then String "S" (fold_name s2)
      else match s2 with
           | String c s3 =>
               if bool_decide (a = "226" ∧ b = "132" ∧ c = "170")%char
               then String "K" (fold_name s3)
               else String (upper_byte a) (fold_name s1)
           | "" => String (upper_byte a) (fold_name s1)
           end
  | String a s1 => String (upper_byte a) (fold_name s1)
  end%string.

Definition same_field (name key : string) : bool :=
  bool_decide (fold_name name = fold_name key).

(** The member an object gives a field, the last one of that name. *)
Fixpoint member (name : string) (ms : list (string * json)) : option json :=
  match ms with
  | [] => None
  | (k, v) :: ms =>
      match member name ms with
      | Some v' => Some v'
      | None => if same_field name k then Some v else None
      end
  end.

(** Field decoders: [None] is the unmarshal error. *)
Definition get_str (name : string) (ms : list (string * json)) : option string :=
  match member name ms with
  | None | Some JNull => Some ""
  | Some (JStr s) => Some s
  | Some _ => None
  end.

Definition get_bool (name : string) (ms : list (string * json)) : option bool :=
  match member name ms with
  | None | Some JNull => Some false
  | Some (JBool b) => Some b
  | Some _ => None
  end.

Definition get_int (name : string) (ms : list (string * json)) : option Z :=
  match member name ms with
  | None | Some JNull => Some 0
  | Some (JNum z) => Some z
  | Some _ => None
  end.

Definition json_strs (l : list json) : option (list string) :=
  mapM (λ j, match j with JStr s => Some s | JNull => Some "" | _ => None end) l.

Definition get_strs (name : string) (ms : list (string * json)) : option (list string) :=
  match member name ms with
  | None | Some JNull => Some []
  | Some (JArr l) => json_strs l
  | Some _ => None
  end.

(** Unmarshalling into a struct: null leaves it zero, an object fills it, any
    other value is an error. *)
Definition unmarshal {A} (fields : list (string * json) → option A) (data : json) : option A :=
  match data with
  | JNull => fields []
  | JObj ms => fields ms
  | _ => None
  end.

Lemma json_strs_map (l : list string) : json_strs (JStr <$> l) = Some l.
Proof.
  unfold json_strs. induction l as [|s l IH]; cbn; [done|].
  cbn in IH. by rewrite IH.
Qed.
