(* ===== verification/Env.v ===== *)
(** * The services the program talks to

    Redis, NATS, the clock, UUIDs and the unspecified orders of the Go runtime
    are not part of the repository, so they are parameters: the operations of
    the class [Env], over an abstract world [W].  What the program relies on is
    the class [EnvLaws]: the documented effect of every Redis command on the
    keyspace, of a pipeline, of a Lua script, and of publishing.

    A command's documented effect is stated on the keyspace: [apply_w] for the
    commands whose reply the program ignores, [cmd_spec] for the others.  The
    laws say that a call that reports success had that effect, and that a
    reachable world ([up]) does report success when the documentation allows
    the command on the key's type.  A call may always fail when the world is
    not reachable, and then nothing is promised about its effect. *)

From stdpp Require Import base gmap strings list sorting numbers.
From S2P Require Import Prelude GoStd Json.
Open Scope Z_scope.

(** ** Redis data *)

Inductive rval : Type :=
  | VStr (s : string)
  | VHash (h : gmap string string)
  | VSet (s : gset string)
  | VZSet (z : gmap string Z).

(** A live key: its value and, when it has a TTL, the time in milliseconds at
    which it expires. *)
Record entry : Type := Entry { e_val : rval; e_exp : option Z }.

Abbreviation keyspace_t := (gmap string entry).

(** ** Commands

    [wcmd]: commands the program sends for their effect.  Durations are Go
    durations (nanoseconds). *)
Inductive wcmd : Type :=
  | HSET (key : string) (fields : list (string * string))
  | EXPIRE (key : string) (d : Z)
  | DEL (key : string)
  | SET (key value : string) (d : Z)
  | SADD (key member : string)
  | SREM (key member : string)
  | ZADD (key : string) (score : Z) (member : string)
  | ZREM (key member : string).

(** Commands with the type of their reply; [None] is the nil reply
    ([redis.Nil]). *)
Inductive cmd : Type → Type :=
  | Do (c : wcmd) : cmd unit
  | INCR (key : string) : cmd Z
  | GET (key : string) : cmd (option string)
  | TTL (key : string) : cmd Z
  | EXISTS (key : string) : cmd Z
  | HGET (key field : string) : cmd (option string)
  | HGETALL (key : string) : cmd (gmap string string)
  | SMEMBERS (key : string) : cmd (list string)
  | ZSCORE (key member : string) : cmd (option Z)
  | ZRANGE (key : string) : cmd (list string)
  | ZRANGEBYSCORE (key : string) (lo hi : Z) : cmd (list string)
  | ZCARD (key : string) : cmd Z.

(** A Lua script: calls to Redis, then a returned integer. *)
Inductive lua : Type :=
  | LReturn (z : Z)
  | LCall {A : Type} (c : cmd A) (k : A → lua).

(** ** Documented effects *)

Definition str_of (ks : keyspace_t) (k : string) : option (option string) :=
  match ks !! k with
  | None => Some None
  | Some (Entry (VStr s) _) => Some (Some s)
  | _ => None
  end.

Definition hash_of (ks : keyspace_t) (k : string) : option (gmap string string) :=
  match ks !! k with
  | None => Some ∅
  | Some (Entry (VHash h) _) => Some h
  | _ => None
  end.

Definition set_of (ks : keyspace_t) (k : string) : option (gset string) :=
  match ks !! k with
  | None => Some ∅
  | Some (Entry (VSet s) _) => Some s
  | _ => None
  end.

Definition zset_of (ks : keyspace_t) (k : string) : option (gmap string Z) :=
  match ks !! k with
  | None => Some ∅
  | Some (Entry (VZSet z) _) => Some z
  | _ => None
  end.

(** An integer stored as text in its canonical decimal form; an absent key
    counts as 0. *)
Definition counter_of (ks : keyspace_t) (k : string) : option Z :=
  match str_of ks k with
  | None => None
  | Some None => Some 0
  | Some (Some s) =>
      match parse_dec s with
      | Some n => if bool_decide (itoa n = s) then Some n else None
      | None => None
      end
  end.

Definition exp_of (ks : keyspace_t) (k : string) : option Z :=
  match ks !! k with Some e => e_exp e | None => None end.

(** Writing a value keeps the key's TTL. *)
Definition put (ks : keyspace_t) (k : string) (v : rval) : keyspace_t :=
  <[k := Entry v (exp_of ks k)]> ks.

Definition hset (fields : list (string * string)) (h : gmap string string) : gmap string string :=
  foldl (λ h f, <[f.1 := f.2]> h) h fields.

(** Sets and sorted sets that become empty are removed. *)
Definition put_set (ks : keyspace_t) (k : string) (s : gset string) : keyspace_t :=
  if bool_decide (s = ∅) then delete k ks else put ks k (VSet s).
Definition put_zset (ks : keyspace_t) (k : string) (z : gmap string Z) : keyspace_t :=
  if bool_decide (z = ∅) then delete k ks else put ks k (VZSet z).

Definition apply_w (now : Z) (c : wcmd) (ks : keyspace_t) : option keyspace_t :=
  match c with
  | HSET k fs => h ← hash_of ks k; Some (put ks k (VHash (hset fs h)))
  | EXPIRE k d =>
      Some (match ks !! k with
            | Some e =>
                if bool_decide (0 < d)
                then <[k := Entry (e_val e) (Some (now + Z.quot d Millisecond))]> ks
                else delete k ks
            | None => ks
            end)
  | DEL k => Some (delete k ks)
  | SET k v d =>
      Some (<[k := Entry (VStr v)
                     (if bool_decide (0 < d) then Some (now + Z.quot d Millisecond) else None)]> ks)
  | SADD k m => s ← set_of ks k; Some (put ks k (VSet ({[m]} ∪ s)))
  | SREM k m => s ← set_of ks k; Some (put_set ks k (s ∖ {[m]}))
  | ZADD k sc m => z ← zset_of ks k; Some (put ks k (VZSet (<[m := sc]> z)))
  | ZREM k m => z ← zset_of ks k; Some (put_zset ks k (delete m z))
  end.

Fixpoint apply_ws (now : Z) (cs : list wcmd) (ks : keyspace_t) : option keyspace_t :=
  match cs with
  | [] => Some ks
  | c :: cs => ks' ← apply_w now c ks; apply_ws now cs ks'
  end.

(** Sorted sets are read by score, ties by member in byte order. *)
Definition zle (a b : string * Z) : Prop :=
  a.2 < b.2 ∨ a.2 = b.2 ∧ String.le a.1 b.1.
#[export] Instance zle_dec : RelDecision zle.
Proof. intros a b. unfold zle. apply _. Defined.

Definition zorder (z : gmap string Z) : list (string * Z) := merge_sort zle (map_to_list z).

#[export] Instance zle_total : Total zle.
Proof.
  intros a b. unfold zle. destruct (Z.lt_total a.2 b.2) as [|[|]]; [left; lia| |right; lia].
  destruct (total String.le a.1 b.1); [left|right]; auto.
Qed.

#[export] Instance zle_trans : Transitive zle.
Proof.
  intros a b c. unfold zle. intros [|[? Hab]] [|[? Hbc]]; [left; lia..|].
  right. split; [lia|]. by etrans.
Qed.

Lemma zorder_sorted z : StronglySorted zle (zorder z).
Proof. apply StronglySorted_merge_sort; apply _. Qed.

Lemma zorder_elem z m t : (m, t) ∈ zorder z ↔ z !! m = Some t.
Proof. unfold zorder. by rewrite merge_sort_Permutation, elem_of_map_to_list. Qed.

Lemma zorder_NoDup z : NoDup (zorder z).*1.
Proof. unfold zorder. rewrite merge_sort_Permutation. apply NoDup_fst_map_to_list. Qed.

(** The TTL reply in seconds: -2 without the key, -1 without a TTL. *)
Definition ttl_of (now : Z) (ks : keyspace_t) (k : string) : Z :=
  match ks !! k with
  | None => -2
  | Some (Entry _ None) => -1
  | Some (Entry _ (Some t)) => (t - now + 500) / 1000
  end.

(** [cmd_spec now ks c a ks']: at time [now] on keyspace [ks] the command may
    reply [a] and leave [ks']. *)
Definition cmd_spec {A} (now : Z) (ks : keyspace_t) (c : cmd A) : A → keyspace_t → Prop :=
  match c in cmd A return A → keyspace_t → Prop with
  | Do c => λ _ ks', apply_w now c ks = Some ks'
  | INCR k => λ a ks', ∃ n, counter_of ks k = Some n ∧ n < max_int64 ∧
                a = n + 1 ∧ ks' = put ks k (VStr (itoa (n + 1)))
  | GET k => λ a ks', str_of ks k = Some a ∧ ks' = ks
  | TTL k => λ a ks', a = ttl_of now ks k ∧ ks' = ks
  | EXISTS k => λ a ks', a = (if bool_decide (is_Some (ks !! k)) then 1 else 0) ∧ ks' = ks
  | HGET k f => λ a ks', (∃ h, hash_of ks k = Some h ∧ a = h !! f) ∧ ks' = ks
  | HGETALL k => λ a ks', hash_of ks k = Some a ∧ ks' = ks
  | SMEMBERS k => λ a ks', (∃ s, set_of ks k = Some s ∧ a ≡ₚ elements s) ∧ ks' = ks
  | ZSCORE k m => λ a ks', (∃ z, zset_of ks k = Some z ∧ a = z !! m) ∧ ks' = ks
  | ZRANGE k => λ a ks', (∃ z, zset_of ks k = Some z ∧ a = (zorder z).*1) ∧ ks' = ks
  | ZRANGEBYSCORE k lo hi => λ a ks',
      (∃ z, zset_of ks k = Some z ∧
            a = (filter (λ p, lo ≤ p.2 ∧ p.2 ≤ hi) (zorder z)).*1) ∧ ks' = ks
  | ZCARD k => λ a ks', (∃ z, zset_of ks k = Some z ∧ a = Z.of_nat (size z)) ∧ ks' = ks
  end.

(** A script runs its calls in order with no other command in between. *)
Fixpoint lua_spec (now : Z) (s : lua) (ks : keyspace_t) (r : Z) (ks' : keyspace_t) : Prop :=
  match s with
  | LReturn z => r = z ∧ ks' = ks
  | LCall c k => ∃ a ks1, cmd_spec now ks c a ks1 ∧ lua_spec now (k a) ks1 r ks'
  end.

(** Every call of the script is allowed, whatever the replies before it. *)
Fixpoint lua_safe (now : Z) (s : lua) (ks : keyspace_t) : Prop :=
  match s with
  | LReturn _ => True
  | LCall c k => (∃ a ks1, cmd_spec now ks c a ks1) ∧
                 ∀ a ks1, cmd_spec now ks c a ks1 → lua_safe now (k a) ks1
  end.

(** Keys whose deadline has passed are gone. *)
Definition live_at (now : Z) (e : entry) : Prop :=
  match e_exp e with Some t => now < t | None => True end.
#[export] Instance live_at_dec now e : Decision (live_at now e).
Proof. unfold live_at. destruct (e_exp e); apply _. Defined.

Definition expire_keys (now : Z) (ks : keyspace_t) : keyspace_t :=
  filter (λ p, live_at now p.2) ks.

(** ** The interface *)

Class Env (W : Type) := {
  (** Redis: one command, a pipeline (the error of the first command that
      failed), a script. *)
  rd : ∀ {A}, cmd A → M W (res A);
  pipeline : list wcmd → M W (option error);
  eval_script : lua → M W (res Z);
  (** [time.Now()], in milliseconds. *)
  now_ms : M W Z;
  (** [nats.Conn.Publish]. *)
  nats_publish : string → json → M W (option error);
  (** [uuid.New().String()]. *)
  uuid_new : M W string;
  (** The order in which [range] visits a map, and [sort.Slice] under a [less]
      function, whose order on equal elements is not specified. *)
  map_range : ∀ {A : Type}, gmap string A → M W (list (string * A));
  sort_slice : ∀ {A : Type}, (A → A → bool) → list A → M W (list A);
  (** What a world is observed by: the live keys, the clock of the Redis
      server, the local clock, the messages published so far, whether the
      services are reachable. *)
  keyspace : W → keyspace_t;
  rclock : W → Z;
  wall : W → Z;
  published : W → list (string * json);
  up : W → Prop;
  (** The passage of time, in milliseconds. *)
  elapse : Z → W → W;
}.

(** What a call to Redis leaves alone: the clocks and the messages. *)
Definition frame `{Env W} (w w' : W) : Prop :=
  rclock w' = rclock w ∧ wall w' = wall w ∧ published w' = published w.

Class EnvLaws (W : Type) `{!Env W} : Prop := {
  rd_ok : ∀ A (c : cmd A) w a w', rd c w = (Ok a, w') →
    cmd_spec (rclock w) (keyspace w) c a (keyspace w');
  rd_up : ∀ A (c : cmd A) w, up w →
    (∃ a ks', cmd_spec (rclock w) (keyspace w) c a ks') →
    ∃ a w', rd c w = (Ok a, w') ∧ up w';
  rd_frame : ∀ A (c : cmd A) w, frame w (rd c w).2;
  pipeline_ok : ∀ cs w w', pipeline cs w = (None, w') →
    apply_ws (rclock w) cs (keyspace w) = Some (keyspace w');
  pipeline_up : ∀ cs w, up w → is_Some (apply_ws (rclock w) cs (keyspace w)) →
    ∃ w', pipeline cs w = (None, w') ∧ up w';
  pipeline_frame : ∀ cs w, frame w (pipeline cs w).2;
  eval_ok : ∀ s w r w', eval_script s w = (Ok r, w') →
    lua_spec (rclock w) s (keyspace w) r (keyspace w');
  eval_up : ∀ s w, up w → lua_safe (rclock w) s (keyspace w) →
    ∃ r w', eval_script s w = (Ok r, w') ∧ up w';
  eval_frame : ∀ s w, frame w (eval_script s w).2;
  now_wall : ∀ w, now_ms w = (wall w, w);
  publish_ok : ∀ subj data w w', nats_publish subj data w = (None, w') →
    published w' = published w ++ [(subj, data)];
  publish_err : ∀ subj data w e w', nats_publish subj data w = (Some e, w') →
    published w' = published w;
  publish_up : ∀ subj data w, up w →
    ∃ w', nats_publish subj data w = (None, w') ∧ up w';
  publish_keyspace : ∀ subj data w, keyspace (nats_publish subj data w).2 = keyspace w;
  publish_clock : ∀ subj data w, rclock (nats_publish subj data w).2 = rclock w ∧
    wall (nats_publish subj data w).2 = wall w;
  uuid_same : ∀ w, frame w (uuid_new w).2 ∧ keyspace (uuid_new w).2 = keyspace w ∧
    (up w → up (uuid_new w).2);
  map_range_perm : ∀ A (m : gmap string A) w, (map_range m w).1 ≡ₚ map_to_list m;
  map_range_same : ∀ A (m : gmap string A) w, frame w (map_range m w).2 ∧
    keyspace (map_range m w).2 = keyspace w ∧ (up w → up (map_range m w).2);
  sort_slice_perm : ∀ A less (l : list A) w, (sort_slice less l w).1 ≡ₚ l;
  sort_slice_sorted : ∀ A less (l : list A) w,
    StrictOrder (λ x y, less x y = true) →
    (∀ x y z, less x y = false → less y z = false → less x z = false) →
    StronglySorted (λ x y, less y x = false) (sort_slice less l w).1;
  sort_slice_same : ∀ A less (l : list A) w, frame w (sort_slice less l w).2 ∧
    keyspace (sort_slice less l w).2 = keyspace w ∧ (up w → up (sort_slice less l w).2);
  elapse_spec : ∀ d w, 0 ≤ d →
    keyspace (elapse d w) = expire_keys (rclock w + d) (keyspace w) ∧
    rclock (elapse d w) = rclock w + d ∧ wall (elapse d w) = wall w + d ∧
    published (elapse d w) = published w ∧ (up w → up (elapse d w));
}.

(** ** Worlds that differ in nothing observable *)

Definition same `{Env W} (w w' : W) : Prop :=
  keyspace w' = keyspace w ∧ frame w w' ∧ (up w → up w').

#[export] Instance frame_preorder `{Env W} : PreOrder (frame (W := W)).
Proof.
  split.
  - intros w. by repeat split.
  - intros w1 w2 w3 (?&?&?) (?&?&?). repeat split; congruence.
Qed.

#[export] Instance same_preorder `{Env W} : PreOrder (same (W := W)).
Proof.
  split.
  - intros w. by repeat split.
  - intros w1 w2 w3 (?&?&?) (?&?&?). split; [congruence|].
    split; [by etrans|auto].
Qed.

(** ** Proof rules for the operations of a lawful environment *)

Section rules.
Context `{EnvLaws W}.
Implicit Types (w : W).

Lemma wp_rd_any {A} (c : cmd A) (Q : res A → W → Prop) w :
  (∀ a w', frame w w' → cmd_spec (rclock w) (keyspace w) c a (keyspace w') → Q (Ok a) w') →
  (∀ e w', frame w w' → Q (Err e) w') →
  wp (rd c) Q w.
Proof.
  intros HO HE. apply wp_intro. intros [a|e] w' E.
  - apply HO; [|by apply rd_ok]. pose proof (rd_frame A c w) as Hf. by rewrite E in Hf.
  - apply HE. pose proof (rd_frame A c w) as Hf. by rewrite E in Hf.
Qed.

Lemma wp_rd {A} (c : cmd A) (Q : res A → W → Prop) w :
  up w → (∃ a ks', cmd_spec (rclock w) (keyspace w) c a ks') →
  (∀ a w', up w' → frame w w' →
     cmd_spec (rclock w) (keyspace w) c a (keyspace w') → Q (Ok a) w') →
  wp (rd c) Q w.
Proof.
  intros Hup He HO. destruct (rd_up A c w Hup He) as (a & w' & E & Hup').
  unfold wp. rewrite E. apply HO; [done| |by apply rd_ok].
  pose proof (rd_frame A c w) as Hf. by rewrite E in Hf.
Qed.

(** The commands that only read. *)
Lemma wp_read {A} (c : cmd A) (P : A → Prop) (Q : res A → W → Prop) w :
  up w →
  (∃ a, P a) →
  (∀ a ks', cmd_spec (rclock w) (keyspace w) c a ks' ↔ P a ∧ ks' = keyspace w) →
  (∀ a w', P a → same w w' → Q (Ok a) w') →
  wp (rd c) Q w.
Proof.
  intros Hup [a0 H0] HP HQ. apply wp_rd; [done| |].
  - exists a0, (keyspace w). by apply HP.
  - intros a w' Hup' Hf Hs. apply HP in Hs as [Ha Hk]. by apply HQ.
Qed.

Lemma wp_hgetall k h (Q : res _ → W → Prop) w :
  up w → hash_of (keyspace w) k = Some h →
  (∀ w', same w w' → Q (Ok h) w') → wp (rd (HGETALL k)) Q w.
Proof.
  intros Hup Hh HQ. apply (wp_read _ (λ a, a = h)); [done|by exists h| |].
  - intros a ks'. cbn. rewrite Hh. naive_solver.
  - intros a w' ->. apply HQ.
Qed.

Lemma wp_hget k f h (Q : res _ → W → Prop) w :
  up w → hash_of (keyspace w) k = Some h →
  (∀ w', same w w' → Q (Ok (h !! f)) w') → wp (rd (HGET k f)) Q w.
Proof.
  intros Hup Hh HQ. apply (wp_read _ (λ a, a = h !! f)); [done|by eexists| |].
  - intros a ks'. cbn. rewrite Hh. naive_solver.
  - intros a w' ->. apply HQ.
Qed.

Lemma wp_get k v (Q : res _ → W → Prop) w :
  up w → str_of (keyspace w) k = Some v →
  (∀ w', same w w' → Q (Ok v) w') → wp (rd (GET k)) Q w.
Proof.
  intros Hup Hh HQ. apply (wp_read _ (λ a, a = v)); [done|by eexists| |].
  - intros a ks'. cbn. rewrite Hh. naive_solver.
  - intros a w' ->. apply HQ.
Qed.

Lemma wp_ttl k (Q : res _ → W → Prop) w :
  up w →
  (∀ w', same w w' → Q (Ok (ttl_of (rclock w) (keyspace w) k)) w') → wp (rd (TTL k)) Q w.
Proof.
  intros Hup HQ.
  apply (wp_read _ (λ a, a = ttl_of (rclock w) (keyspace w) k)); [done|by eexists|done|].
  intros a w' ->. apply HQ.
Qed.

Lemma wp_exists k (Q : res _ → W → Prop) w :
  up w →
  (∀ w', same w w' →
     Q (Ok (if bool_decide (is_Some (keyspace w !! k)) then 1 else 0)) w') →
  wp (rd (EXISTS k)) Q w.
Proof.
  intros Hup HQ.
  apply (wp_read _ (λ a, a = if bool_decide (is_Some (keyspace w !! k)) then 1 else 0));
    [done|by eexists|done|].
  intros a w' ->. apply HQ.
Qed.

Lemma wp_smembers k s (Q : res _ → W → Prop) w :
  up w → set_of (keyspace w) k = Some s →
  (∀ l w', l ≡ₚ elements s → same w w' → Q (Ok l) w') → wp (rd (SMEMBERS k)) Q w.
Proof.
  intros Hup Hs HQ. apply (wp_read _ (λ a, a ≡ₚ elements s)); [done|by eexists| |].
  - intros a ks'. cbn. rewrite Hs. naive_solver.
  - intros a w' Ha. by apply HQ.
Qed.

Lemma wp_zscore k m z (Q : res _ → W → Prop) w :
  up w → zset_of (keyspace w) k = Some z →
  (∀ w', same w w' → Q (Ok (z !! m)) w') → wp (rd (ZSCORE k m)) Q w.
Proof.
  intros Hup Hz HQ. apply (wp_read _ (λ a, a = z !! m)); [done|by eexists| |].
  - intros a ks'. cbn. rewrite Hz. naive_solver.
  - intros a w' ->. apply HQ.
Qed.

Lemma wp_zrange k z (Q : res _ → W → Prop) w :
  up w → zset_of (keyspace w) k = Some z →
  (∀ w', same w w' → Q (Ok (zorder z).*1) w') → wp (rd (ZRANGE k)) Q w.
Proof.
  intros Hup Hz HQ. apply (wp_read _ (λ a, a = (zorder z).*1)); [done|by eexists| |].
  - intros a ks'. cbn. rewrite Hz. naive_solver.
  - intros a w' ->. apply HQ.
Qed.

Lemma wp_zrangebyscore k lo hi z (Q : res _ → W → Prop) w :
  up w → zset_of (keyspace w) k = Some z →
  (∀ w', same w w' →
     Q (Ok (filter (λ p, lo ≤ p.2 ∧ p.2 ≤ hi) (zorder z)).*1) w') →
  wp (rd (ZRANGEBYSCORE k lo hi)) Q w.
Proof.
  intros Hup Hz HQ.
  apply (wp_read _ (λ a, a = (filter (λ p, lo ≤ p.2 ∧ p.2 ≤ hi) (zorder z)).*1));
    [done|by eexists| |].
  - intros a ks'. cbn. rewrite Hz. naive_solver.
  - intros a w' ->. apply HQ.
Qed.

Lemma wp_zcard k z (Q : res _ → W → Prop) w :
  up w → zset_of (keyspace w) k = Some z →
  (∀ w', same w w' → Q (Ok (Z.of_nat (size z))) w') → wp (rd (ZCARD k)) Q w.
Proof.
  intros Hup Hz HQ. apply (wp_read _ (λ a, a = Z.of_nat (size z))); [done|by eexists| |].
  - intros a ks'. cbn. rewrite Hz. naive_solver.
  - intros a w' ->. apply HQ.
Qed.

(** The commands that write. *)
Lemma wp_do c ks' (Q : res unit → W → Prop) w :
  up w → apply_w (rclock w) c (keyspace w) = Some ks' →
  (∀ w', up w' → frame w w' → keyspace w' = ks' → Q (Ok tt) w') →
  wp (rd (Do c)) Q w.
Proof.
  intros Hup Hc HQ. apply wp_rd; [done|by exists tt, ks'|].
  intros [] w' Hup' Hf Hs. cbn in Hs. apply HQ; [done..|]. congruence.
Qed.

Lemma wp_incr k n (Q : res Z → W → Prop) w :
  up w → counter_of (keyspace w) k = Some n → n < max_int64 →
  (∀ w', up w' → frame w w' →
     keyspace w' = put (keyspace w) k (VStr (itoa (n + 1))) → Q (Ok (n + 1)) w') →
  wp (rd (INCR k)) Q w.
Proof.
  intros Hup Hn Hlt HQ. apply wp_rd; [done|by eexists _, _, n|].
  intros a w' Hup' Hf (n' & Hn' & _ & -> & Hk). simplify_eq. by apply HQ.
Qed.

Lemma wp_pipeline cs ks' (Q : option error → W → Prop) w :
  up w → apply_ws (rclock w) cs (keyspace w) = Some ks' →
  (∀ w', up w' → frame w w' → keyspace w' = ks' → Q None w') →
  wp (pipeline cs) Q w.
Proof.
  intros Hup Hc HQ. destruct (pipeline_up cs w Hup) as (w' & E & Hup'); [by eexists|].
  unfold wp. rewrite E. pose proof (pipeline_frame cs w) as Hf. rewrite E in Hf.
  apply pipeline_ok in E. rewrite Hc in E. injection E as ->. by apply HQ.
Qed.

Lemma wp_eval s (Q : res Z → W → Prop) w :
  up w → lua_safe (rclock w) s (keyspace w) →
  (∀ r w', up w' → frame w w' →
     lua_spec (rclock w) s (keyspace w) r (keyspace w') → Q (Ok r) w') →
  wp (eval_script s) Q w.
Proof.
  intros Hup Hs HQ. destruct (eval_up s w Hup Hs) as (r & w' & E & Hup').
  unfold wp. rewrite E. pose proof (eval_frame s w) as Hf. rewrite E in Hf.
  apply HQ; [done..|]. by apply eval_ok.
Qed.

Lemma wp_now (Q : Z → W → Prop) w : Q (wall w) w → wp now_ms Q w.
Proof. unfold wp. by rewrite now_wall. Qed.

Lemma wp_publish subj data (Q : option error → W → Prop) w :
  up w →
  (∀ w', up w' → keyspace w' = keyspace w → rclock w' = rclock w → wall w' = wall w →
     published w' = published w ++ [(subj, data)] → Q None w') →
  wp (nats_publish subj data) Q w.
Proof.
  intros Hup HQ. destruct (publish_up subj data w Hup) as (w' & E & Hup').
  pose proof (publish_keyspace subj data w) as Hk.
  pose proof (publish_clock subj data w) as [Hr Hw].
  unfold wp. rewrite E in *. apply HQ; try done. by apply publish_ok.
Qed.

Lemma wp_uuid (Q : string → W → Prop) w :
  (∀ u w', same w w' → Q u w') → wp uuid_new Q w.
Proof.
  intros HQ. pose proof (uuid_same w) as (?&?&?). unfold wp. by apply HQ.
Qed.

Lemma wp_map_range {A} (m : gmap string A) (Q : _ → W → Prop) w :
  (∀ l w', l ≡ₚ map_to_list m → same w w' → Q l w') → wp (map_range m) Q w.
Proof.
  intros HQ. pose proof (map_range_same A m w) as (?&?&?). unfold wp.
  apply HQ; [apply map_range_perm|done].
Qed.

Lemma wp_sort_slice {A} less (l : list A) (Q : _ → W → Prop) w :
  StrictOrder (λ x y, less x y = true) →
  (∀ x y z, less x y = false → less y z = false → less x z = false) →
  (∀ l' w', l' ≡ₚ l → StronglySorted (λ x y, less y x = false) l' →
     same w w' → Q l' w') → wp (sort_slice less l) Q w.
Proof.
  intros Hso Htr HQ. pose proof (sort_slice_same A less l w) as (?&?&?). unfold wp.
  apply HQ; [apply sort_slice_perm|by apply sort_slice_sorted|done].
Qed.
End rules.
