(* ===== verification/Keys.v ===== *)
(** * The Redis keys of the program

    [schema] gives the type of every key the packages use, read off their key
    constants; [wf_ks] says that the keyspace respects it.  Under [wf_ks] every
    command the program sends is allowed on its key ([apply_ws_typed]), and the
    typed views [hget], [sget], [zget] change as the command says. *)

From stdpp Require Import base gmap strings list sorting numbers.
From S2P Require Import Prelude GoStd Json Env.
Open Scope Z_scope.

Inductive kind : Type := KStr | KHash | KSet | KZSet.

#[export] Instance kind_eq_dec : EqDecision kind.
Proof. solve_decision. Defined.

Definition kind_of (v : rval) : kind :=
  match v with VStr _ => KStr | VHash _ => KHash | VSet _ => KSet | VZSet _ => KZSet end.

(** The key layout: internal/session, internal/chat, internal/matching,
    internal/ban and internal/ratelimit. *)
Definition schema (k : string) : option kind :=
  if String.prefix "session:" k then Some KHash
  else if String.prefix "chat:" k then Some KHash
  else if String.prefix "match:session:" k then Some KHash
  else if String.prefix "match:exact:" k then Some KSet
  else if String.prefix "match:interest:" k then Some KSet
  else if bool_decide (k = "match:queue") then Some KZSet
  else if bool_decide (k = "match:pending_chats") then Some KZSet
  else if String.prefix "ban:" k then Some KStr
  else if String.prefix "reports:" k then Some KStr
  else if String.prefix "rl:" k then Some KStr
  else None.

Definition wf_ks (ks : keyspace_t) : Prop :=
  map_Forall (λ k e, schema k = Some (kind_of (e_val e))) ks.

#[export] Instance wf_ks_dec ks : Decision (wf_ks ks).
Proof. unfold wf_ks. apply _. Defined.

(** ** Typed views: what a key holds, empty when it is absent *)

Definition hget (ks : keyspace_t) (k : string) : gmap string string := default ∅ (hash_of ks k).
Definition sget (ks : keyspace_t) (k : string) : gset string := default ∅ (set_of ks k).
Definition zget (ks : keyspace_t) (k : string) : gmap string Z := default ∅ (zset_of ks k).

Lemma wf_lookup ks k e : wf_ks ks → ks !! k = Some e → schema k = Some (kind_of (e_val e)).
Proof. intros Hwf. apply (map_Forall_lookup_1 _ _ _ _ Hwf). Qed.

Lemma wf_hash ks k : wf_ks ks → schema k = Some KHash → hash_of ks k = Some (hget ks k).
Proof.
  intros Hwf Hk. unfold hget, hash_of. destruct (ks !! k) as [[v ?]|] eqn:E; [|done].
  apply (wf_lookup _ _ _ Hwf) in E. cbn in E. by destruct v; simplify_eq.
Qed.

Lemma wf_set ks k : wf_ks ks → schema k = Some KSet → set_of ks k = Some (sget ks k).
Proof.
  intros Hwf Hk. unfold sget, set_of. destruct (ks !! k) as [[v ?]|] eqn:E; [|done].
  apply (wf_lookup _ _ _ Hwf) in E. cbn in E. by destruct v; simplify_eq.
Qed.

Lemma wf_zset ks k : wf_ks ks → schema k = Some KZSet → zset_of ks k = Some (zget ks k).
Proof.
  intros Hwf Hk. unfold zget, zset_of. destruct (ks !! k) as [[v ?]|] eqn:E; [|done].
  apply (wf_lookup _ _ _ Hwf) in E. cbn in E. by destruct v; simplify_eq.
Qed.

(** ** Commands that respect the schema *)

Definition wkey (c : wcmd) : string :=
  match c with
  | HSET k _ | EXPIRE k _ | DEL k | SET k _ _ | SADD k _ | SREM k _ | ZADD k _ _ | ZREM k _ => k
  end.

Definition typed (c : wcmd) : Prop :=
  match c with
  | HSET k _ => schema k = Some KHash
  | SET k _ _ => schema k = Some KStr
  | SADD k _ | SREM k _ => schema k = Some KSet
  | ZADD k _ _ | ZREM k _ => schema k = Some KZSet
  | EXPIRE _ d => 0 < d
  | DEL _ => True
  end.

Lemma wf_insert ks k v e :
  wf_ks ks → schema k = Some (kind_of v) → wf_ks (<[k := Entry v e]> ks).
Proof. intros. by apply map_Forall_insert_2. Qed.

Lemma wf_delete ks k : wf_ks ks → wf_ks (delete k ks).
Proof. intros. by apply map_Forall_delete. Qed.

#[export] Hint Resolve wf_insert wf_delete : go.

Lemma apply_w_typed now c ks :
  wf_ks ks → typed c → ∃ ks', apply_w now c ks = Some ks' ∧ wf_ks ks'.
Proof.
  intros Hwf Hc. destruct c; cbn in *.
  - rewrite (wf_hash _ _ Hwf Hc). cbn. eauto with go.
  - eexists; split; [done|]. destruct (ks !! key) as [e|] eqn:E; [|done].
    rewrite bool_decide_true by done. apply wf_insert; [done|].
    by apply (wf_lookup _ _ _ Hwf).
  - eauto with go.
  - eauto with go.
  - rewrite (wf_set _ _ Hwf Hc). cbn. eauto with go.
  - rewrite (wf_set _ _ Hwf Hc). cbn. unfold put_set.
    eexists; split; [done|]. case_bool_decide; eauto with go.
  - rewrite (wf_zset _ _ Hwf Hc). cbn. eexists; split; [done|]. by apply wf_insert.
  - rewrite (wf_zset _ _ Hwf Hc). cbn. unfold put_zset.
    eexists; split; [done|]. case_bool_decide; [by apply wf_delete|by apply wf_insert].
Qed.

Lemma apply_ws_typed now cs ks :
  wf_ks ks → Forall typed cs → ∃ ks', apply_ws now cs ks = Some ks' ∧ wf_ks ks'.
Proof.
  intros Hwf Hcs. revert ks Hwf. induction Hcs as [|c cs Hc _ IH]; intros ks Hwf; [by eauto|].
  destruct (apply_w_typed now c ks Hwf Hc) as (ks1 & E & Hwf1). cbn. rewrite E. cbn. auto.
Qed.

Lemma apply_w_other now c ks ks' k :
  apply_w now c ks = Some ks' → k ≠ wkey c → ks' !! k = ks !! k.
Proof.
  intros E Hk. destruct c; cbn in *; simplify_option_eq; unfold put_set, put_zset, put;
    repeat case_match; by simplify_map_eq.
Qed.

Lemma apply_ws_other now cs ks ks' k :
  apply_ws now cs ks = Some ks' → k ∉ wkey <$> cs → ks' !! k = ks !! k.
Proof.
  revert ks. induction cs as [|c cs IH]; intros ks; cbn; [congruence|].
  intros E Hk. apply bind_Some in E as (ks1 & E1 & E2).
  apply not_elem_of_cons in Hk as [Hk1 Hk2].
  rewrite (IH _ E2 Hk2). by apply (apply_w_other _ _ _ _ _ E1).
Qed.

(** ** How a command changes each view *)

Definition w_hget (c : wcmd) (k : string) (h : gmap string string) : gmap string string :=
  if bool_decide (wkey c = k) then
    match c with HSET _ fs => hset fs h | DEL _ | SET _ _ _ => ∅ | _ => h end
  else h.

Definition w_sget (c : wcmd) (k : string) (s : gset string) : gset string :=
  if bool_decide (wkey c = k) then
    match c with
    | SADD _ m => {[m]} ∪ s | SREM _ m => s ∖ {[m]} | DEL _ | SET _ _ _ => ∅ | _ => s
    end
  else s.

Definition w_zget (c : wcmd) (k : string) (z : gmap string Z) : gmap string Z :=
  if bool_decide (wkey c = k) then
    match c with
    | ZADD _ sc m => <[m := sc]> z | ZREM _ m => delete m z | DEL _ | SET _ _ _ => ∅ | _ => z
    end
  else z.

Ltac view_solve :=
  repeat case_bool_decide; subst;
  unfold put_set, put_zset, put in *;
  repeat (case_match; simplify_eq/=);
  simplify_map_eq; try done.

Ltac view_final :=
  unfold hash_of, set_of, zset_of in *;
  repeat (case_match; simplify_eq/=); try done;
  match goal with H : bool_decide _ = true |- _ =>
    apply bool_decide_eq_true in H; by rewrite ?H end.

Lemma apply_w_hget now c ks ks' k :
  apply_w now c ks = Some ks' → typed c → hget ks' k = w_hget c k (hget ks k).
Proof.
  intros E Ht. unfold w_hget, hget, hash_of. case_bool_decide as Hk; subst.
  2:{ by rewrite (apply_w_other _ _ _ _ _ E). }
  destruct c; cbn in *; simplify_option_eq; view_solve.
  all: view_final.
Qed.

Lemma apply_w_sget now c ks ks' k :
  apply_w now c ks = Some ks' → typed c → sget ks' k = w_sget c k (sget ks k).
Proof.
  intros E Ht. unfold w_sget, sget, set_of. case_bool_decide as Hk; subst.
  2:{ by rewrite (apply_w_other _ _ _ _ _ E). }
  destruct c; cbn in *; simplify_option_eq; view_solve.
  all: view_final.
Qed.

Lemma apply_w_zget now c ks ks' k :
  apply_w now c ks = Some ks' → typed c → zget ks' k = w_zget c k (zget ks k).
Proof.
  intros E Ht. unfold w_zget, zget, zset_of. case_bool_decide as Hk; subst.
  2:{ by rewrite (apply_w_other _ _ _ _ _ E). }
  destruct c; cbn in *; simplify_option_eq; view_solve.
  all: view_final.
Qed.

(** ** Pipelines *)

Lemma apply_ws_hget now cs ks ks' k :
  apply_ws now cs ks = Some ks' → Forall typed cs →
  hget ks' k = foldl (λ h c, w_hget c k h) (hget ks k) cs.
Proof.
  intros E Ht. revert ks E. induction Ht as [|c cs Hc _ IH]; intros ks E; cbn in *; [congruence|].
  apply bind_Some in E as (ks1 & E1 & E2). by rewrite (IH _ E2), (apply_w_hget _ _ _ _ _ E1).
Qed.

Lemma apply_ws_sget now cs ks ks' k :
  apply_ws now cs ks = Some ks' → Forall typed cs →
  sget ks' k = foldl (λ h c, w_sget c k h) (sget ks k) cs.
Proof.
  intros E Ht. revert ks E. induction Ht as [|c cs Hc _ IH]; intros ks E; cbn in *; [congruence|].
  apply bind_Some in E as (ks1 & E1 & E2). by rewrite (IH _ E2), (apply_w_sget _ _ _ _ _ E1).
Qed.

Lemma apply_ws_zget now cs ks ks' k :
  apply_ws now cs ks = Some ks' → Forall typed cs →
  zget ks' k = foldl (λ h c, w_zget c k h) (zget ks k) cs.
Proof.
  intros E Ht. revert ks E. induction Ht as [|c cs Hc _ IH]; intros ks E; cbn in *; [congruence|].
  apply bind_Some in E as (ks1 & E1 & E2). by rewrite (IH _ E2), (apply_w_zget _ _ _ _ _ E1).
Qed.

(** The keys of the program have pairwise different prefixes. *)
Lemma prefix_app (p s : string) : String.prefix p (p +:+ s) = true.
Proof.
  induction p as [|a p IH]; [by destruct s|].
  rewrite app_string_cons. cbn. by destruct (Ascii.ascii_dec a a).
Qed.

Lemma append_inj (p s t : string) : p +:+ s = p +:+ t → s = t.
Proof. apply (inj (String.append p)). Qed.

(** Shows that the commands of a pipeline respect the schema, with the schema
    facts of the hint database. *)
Ltac solve_typed :=
  try match goal with |- Forall _ ?cs => is_var cs; unfold cs end;
  repeat first [apply Forall_nil_2 | apply Forall_cons_2];
  cbn [typed]; first [done | reflexivity | by auto with go].

(** Evaluates what a concrete pipeline does to a view: every key comparison is
    decided. *)
Ltac view_keys :=
  unfold w_hget, w_sget, w_zget; cbn [wkey];
  repeat (case_bool_decide; try done; try congruence).

(** Writing fields of a hash, and the same followed by a TTL. *)
Lemma apply_hset now ks k fs h :
  hash_of ks k = Some h → apply_w now (HSET k fs) ks = Some (put ks k (VHash (hset fs h))).
Proof. intros Hh. cbn. by rewrite Hh. Qed.

Lemma apply_hset_expire now ks k fs h d :
  hash_of ks k = Some h → 0 < d →
  apply_ws now [HSET k fs; EXPIRE k d] ks =
  Some (<[k := Entry (VHash (hset fs h)) (Some (now + Z.quot d Millisecond))]> ks).
Proof.
  intros Hh Hd. cbn. rewrite Hh. cbn. unfold put. rewrite lookup_insert_eq.
  rewrite bool_decide_true by done. cbn. by rewrite insert_insert_eq.
Qed.

(** Reads of a field after fields were written. *)
Ltac hash_simpl :=
  unfold hset; cbn [foldl fst snd];
  repeat first [ rewrite lookup_insert_eq | rewrite lookup_insert_ne by done ].

Lemma hset_nonempty f fs h : hset (f :: fs) h ≠ ∅.
Proof.
  cut (∀ fs h, h ≠ ∅ → hset fs h ≠ ∅).
  { intros Hc. cbn. apply Hc. apply insert_non_empty. }
  clear. induction fs as [|f fs IH]; intros h Hh; [done|]. cbn. apply IH, insert_non_empty.
Qed.

(** ** TTLs under commands that only add

    [eget]: whether the key is there, and its deadline. *)
Definition eget (ks : keyspace_t) (k : string) : option (option Z) := e_exp <$> ks !! k.

Definition grows (c : wcmd) : Prop :=
  match c with SREM _ _ | ZREM _ _ => False | _ => True end.

Definition w_eget (now : Z) (c : wcmd) (k : string) (p : option (option Z)) : option (option Z) :=
  if bool_decide (wkey c = k) then
    match c with
    | EXPIRE _ d => (λ _, Some (now + Z.quot d Millisecond)) <$> p
    | DEL _ => None
    | SET _ _ d => Some (if bool_decide (0 < d) then Some (now + Z.quot d Millisecond) else None)
    | _ => Some (mjoin p)
    end
  else p.

Lemma exp_of_eget ks k : exp_of ks k = mjoin (eget ks k).
Proof. unfold exp_of, eget. by destruct (ks !! k). Qed.

Lemma apply_w_eget now c ks ks' k :
  apply_w now c ks = Some ks' → typed c → grows c → eget ks' k = w_eget now c k (eget ks k).
Proof.
  intros E Ht Hg. unfold w_eget, eget. case_bool_decide as Hk; subst.
  2:{ by rewrite (apply_w_other _ _ _ _ _ E). }
  destruct c; cbn in *; simplify_option_eq; try done;
    unfold put; rewrite ?lookup_insert_eq, ?lookup_delete_eq; cbn;
    rewrite ?exp_of_eget; try done.
  destruct (ks !! key) as [e|] eqn:Ek; cbn; [|by rewrite Ek]. by rewrite lookup_insert_eq.
Qed.

Lemma apply_ws_eget now cs ks ks' k :
  apply_ws now cs ks = Some ks' → Forall typed cs → Forall grows cs →
  eget ks' k = foldl (λ p c, w_eget now c k p) (eget ks k) cs.
Proof.
  intros E Ht. revert ks E. induction Ht as [|c cs Hc _ IH]; intros ks E Hg; cbn in *; [congruence|].
  inversion_clear Hg. apply bind_Some in E as (ks1 & E1 & E2).
  rewrite (IH _ E2) by done. by rewrite (apply_w_eget _ _ _ _ _ E1).
Qed.

(** Removing members and deleting keys never changes a deadline. *)
Definition shrinks (c : wcmd) : Prop :=
  match c with SREM _ _ | ZREM _ _ | DEL _ => True | _ => False end.

Lemma apply_w_shrink now c ks ks' k :
  apply_w now c ks = Some ks' → shrinks c →
  (ks !! k = None → ks' !! k = None) ∧ (ks' !! k = None ∨ exp_of ks' k = exp_of ks k).
Proof.
  intros E Hs. destruct (decide (k = wkey c)) as [->|Hk].
  2:{ unfold exp_of. rewrite (apply_w_other _ _ _ _ _ E Hk). auto. }
  destruct c; cbn in *; simplify_option_eq; try done;
    unfold put_set, put_zset, put, exp_of, set_of, zset_of in *.
  - rewrite lookup_delete_eq. auto.
  - split.
    + intros Hn. rewrite Hn in *. simplify_eq. rewrite bool_decide_true by set_solver.
      apply lookup_delete_eq.
    + case_bool_decide; [left|right]; by rewrite ?lookup_delete_eq, ?lookup_insert_eq.
  - split.
    + intros Hn. rewrite Hn in *. simplify_eq. rewrite delete_empty, bool_decide_true by done.
      apply lookup_delete_eq.
    + case_bool_decide; [left|right]; by rewrite ?lookup_delete_eq, ?lookup_insert_eq.
Qed.

Lemma apply_ws_shrink now cs ks ks' k :
  apply_ws now cs ks = Some ks' → Forall shrinks cs →
  (ks !! k = None → ks' !! k = None) ∧ (ks' !! k = None ∨ exp_of ks' k = exp_of ks k).
Proof.
  intros E Hs. revert ks E. induction Hs as [|c cs Hc _ IH]; intros ks E; cbn in *.
  { simplify_eq. auto. }
  apply bind_Some in E as (ks1 & E1 & E2).
  destruct (IH _ E2) as [Hn He]. destruct (apply_w_shrink _ _ _ _ k E1 Hc) as [Hn1 He1].
  split; [auto|]. destruct He as [|He]; [by left|]. destruct He1 as [|He1]; [left; auto|].
  right. congruence.
Qed.
