(* ===== verification/MemEnv.v ===== *)
(** * An environment that satisfies the laws

    A world held in memory: one keyspace, one clock, a log of published
    messages, a counter for UUIDs and a flag that says whether the services
    are reachable.  It shows that [EnvLaws] can hold, and it is where the
    concrete runs of the development are evaluated. *)

From stdpp Require Import base gmap strings list sorting numbers.
From S2P Require Import Prelude GoStd Json Env.
Open Scope Z_scope.

Record mem : Type := Mem {
  m_ks : keyspace_t;
  m_clock : Z;
  m_pub : list (string * json);
  m_ids : Z;
  m_up : bool;
}.

Definition with_ks (w : mem) (ks : keyspace_t) : mem :=
  Mem ks (m_clock w) (m_pub w) (m_ids w) (m_up w).

Definition mem_fresh (now : Z) : mem := Mem ∅ now [] 0 true.

(** Runs a command on the keyspace; [None] is an error reply. *)
Definition run_cmd {A} (now : Z) (ks : keyspace_t) (c : cmd A) : option (A * keyspace_t) :=
  match c in cmd A return option (A * keyspace_t) with
  | Do c => ks' ← apply_w now c ks; Some (tt, ks')
  | INCR k =>
      n ← counter_of ks k;
      if bool_decide (n < max_int64)
      then Some (n + 1, put ks k (VStr (itoa (n + 1)))) else None
  | GET k => v ← str_of ks k; Some (v, ks)
  | TTL k => Some (ttl_of now ks k, ks)
  | EXISTS k => Some (if bool_decide (is_Some (ks !! k)) then 1 else 0, ks)
  | HGET k f => h ← hash_of ks k; Some (h !! f, ks)
  | HGETALL k => h ← hash_of ks k; Some (h, ks)
  | SMEMBERS k => s ← set_of ks k; Some (elements s, ks)
  | ZSCORE k m => z ← zset_of ks k; Some (z !! m, ks)
  | ZRANGE k => z ← zset_of ks k; Some ((zorder z).*1, ks)
  | ZRANGEBYSCORE k lo hi =>
      z ← zset_of ks k;
      Some ((filter (λ p, lo ≤ p.2 ∧ p.2 ≤ hi) (zorder z)).*1, ks)
  | ZCARD k => z ← zset_of ks k; Some (Z.of_nat (size z), ks)
  end.

Fixpoint run_lua (now : Z) (s : lua) (ks : keyspace_t) : option (Z * keyspace_t) :=
  match s with
  | LReturn z => Some (z, ks)
  | LCall c k =>
      match run_cmd now ks c with
      | Some (a, ks1) => run_lua now (k a) ks1
      | None => None
      end
  end.

Definition conn_err : error := "connection refused".
Definition reply_err : error := "WRONGTYPE".

Definition sort_by {A} (less : A → A → bool) (l : list A) : list A :=
  @merge_sort A (λ x y, less y x = false) (λ x y, decide (less y x = false)) l.

#[export] Instance mem_env : Env mem := {|
  rd A c := λ w,
    if m_up w then
      match run_cmd (m_clock w) (m_ks w) c with
      | Some (a, ks') => (Ok a, with_ks w ks')
      | None => (Err reply_err, w)
      end
    else (Err conn_err, w);
  pipeline cs := λ w,
    if m_up w then
      match apply_ws (m_clock w) cs (m_ks w) with
      | Some ks' => (None, with_ks w ks')
      | None => (Some reply_err, w)
      end
    else (Some conn_err, w);
  eval_script s := λ w,
    if m_up w then
      match run_lua (m_clock w) s (m_ks w) with
      | Some (r, ks') => (Ok r, with_ks w ks')
      | None => (Err reply_err, w)
      end
    else (Err conn_err, w);
  now_ms := λ w, (m_clock w, w);
  nats_publish subj data := λ w,
    if m_up w
    then (None, Mem (m_ks w) (m_clock w) (m_pub w ++ [(subj, data)]) (m_ids w) (m_up w))
    else (Some conn_err, w);
  uuid_new := λ w,
    ("uuid-" +:+ itoa (m_ids w), Mem (m_ks w) (m_clock w) (m_pub w) (m_ids w + 1) (m_up w));
  map_range A m := λ w, (map_to_list m, w);
  sort_slice A less l := λ w, (sort_by less l, w);
  keyspace := m_ks;
  rclock := m_clock;
  wall := m_clock;
  published := m_pub;
  up := λ w, m_up w = true;
  elapse d := λ w,
    Mem (expire_keys (m_clock w + d) (m_ks w)) (m_clock w + d) (m_pub w) (m_ids w) (m_up w);
|}.

Lemma run_cmd_spec {A} now ks (c : cmd A) a ks' :
  run_cmd now ks c = Some (a, ks') → cmd_spec now ks c a ks'.
Proof.
  destruct c; cbn; intros E; simplify_option_eq; try done; try by eauto.
Qed.

Lemma cmd_spec_run {A} now ks (c : cmd A) a ks' :
  cmd_spec now ks c a ks' → is_Some (run_cmd now ks c).
Proof.
  destruct c; cbn; intros E;
    repeat match goal with H : _ ∧ _ |- _ => destruct H | H : ∃ _, _ |- _ => destruct H end;
    simplify_option_eq; by eauto.
Qed.

Lemma run_lua_spec now s ks r ks' : run_lua now s ks = Some (r, ks') → lua_spec now s ks r ks'.
Proof.
  revert ks. induction s as [z|A c k IH]; intros ks; cbn; [by intros [= -> ->]|].
  destruct (run_cmd now ks c) as [[a ks1]|] eqn:E; [|done].
  intros Hr. exists a, ks1. split; [by apply run_cmd_spec|by apply IH].
Qed.

Lemma lua_safe_run now s ks : lua_safe now s ks → is_Some (run_lua now s ks).
Proof.
  revert ks. induction s as [z|A c k IH]; intros ks; cbn; [by eauto|].
  intros [(a & ks1 & Hc) Hk]. apply cmd_spec_run in Hc as [[a' ks1'] E].
  rewrite E. apply IH, Hk. by apply run_cmd_spec.
Qed.

#[export] Instance mem_laws : EnvLaws mem.
Proof.
  split; cbn; unfold frame; cbn; intros.
  - destruct (m_up w); [|done]. destruct (run_cmd _ _ c) as [[a' ks']|] eqn:E; simplify_eq/=.
    by apply run_cmd_spec.
  - rewrite H. destruct H0 as (a & ks' & Hs). apply cmd_spec_run in Hs as [[a' ks1] E].
    rewrite E. by eauto.
  - by repeat case_match.
  - by repeat (case_match; simplify_eq/=).
  - rewrite H. destruct H0 as [ks' ->]. by eauto.
  - by repeat case_match.
  - destruct (m_up w); [|done]. destruct (run_lua _ s _) as [[a' ks']|] eqn:E; simplify_eq/=.
    by apply run_lua_spec.
  - rewrite H. apply lua_safe_run in H0 as [[r ks'] E]. rewrite E. by eauto.
  - by repeat case_match.
  - done.
  - by repeat (case_match; simplify_eq/=).
  - by repeat (case_match; simplify_eq/=).
  - rewrite H. by eauto.
  - by case_match.
  - by case_match.
  - done.
  - done.
  - done.
  - apply merge_sort_Permutation.
  - apply StronglySorted_merge_sort.
    + intros x y z Hxy Hyz. by eapply H0.
    + intros x y. destruct (less y x) eqn:E; [|by left]. right.
      destruct (less x y) eqn:E'; [|done]. exfalso.
      destruct H as [Hirr Htrans]. exact (Hirr x (Htrans x y x E' E)).
  - done.
  - done.
Qed.
