(* ===== verification/Utf8.v ===== *)
(** * unicode/utf8: decoding and encoding of runes

    A Go string is ranged over by runes; a byte that does not start a valid
    sequence counts as the rune U+FFFD of width one.  [chunks] is the sequence
    of runes with the bytes they stand for. *)

From Stdlib Require Import Ascii ZArith Lia.
From stdpp Require Import base strings numbers list_basics list_relations list.
From S2P Require Import Prelude GoStd.
Open Scope Z_scope.

Record chunk : Type := Chunk { c_rune : Z; c_bytes : list Z; c_valid : bool }.

Definition RuneError : Z := 65533.

Definition cont (b : Z) : bool := bool_decide (128 ≤ b ∧ b ≤ 191).

(** The accepted two, three and four byte sequences. *)
Definition seq2 (b0 b1 : Z) : bool := bool_decide (194 ≤ b0 ∧ b0 ≤ 223) && cont b1.
Definition seq3 (b0 b1 b2 : Z) : bool :=
  (bool_decide (b0 = 224 ∧ 160 ≤ b1 ∧ b1 ≤ 191) ||
   bool_decide (225 ≤ b0 ∧ b0 ≤ 239 ∧ b0 ≠ 237 ∧ 128 ≤ b1 ∧ b1 ≤ 191) ||
   bool_decide (b0 = 237 ∧ 128 ≤ b1 ∧ b1 ≤ 159)) && cont b2.
Definition seq4 (b0 b1 b2 b3 : Z) : bool :=
  (bool_decide (b0 = 240 ∧ 144 ≤ b1 ∧ b1 ≤ 191) ||
   bool_decide (241 ≤ b0 ∧ b0 ≤ 243 ∧ 128 ≤ b1 ∧ b1 ≤ 191) ||
   bool_decide (b0 = 244 ∧ 128 ≤ b1 ∧ b1 ≤ 143)) && cont b2 && cont b3.

Definition bad (b : Z) : chunk := Chunk RuneError [b] false.

Fixpoint chunks (bs : list Z) : list chunk :=
  match bs with
  | [] => []
  | b0 :: t0 =>
      if bool_decide (b0 < 128) then Chunk b0 [b0] true :: chunks t0
      else
        match t0 with
        | b1 :: t1 =>
            if seq2 b0 b1 then Chunk ((b0 - 192) * 64 + (b1 - 128)) [b0; b1] true :: chunks t1
            else
              match t1 with
              | b2 :: t2 =>
                  if seq3 b0 b1 b2 then
                    Chunk ((b0 - 224) * 4096 + (b1 - 128) * 64 + (b2 - 128)) [b0; b1; b2] true
                      :: chunks t2
                  else
                    match t2 with
                    | b3 :: t3 =>
                        if seq4 b0 b1 b2 b3 then
                          Chunk ((b0 - 240) * 262144 + (b1 - 128) * 4096 + (b2 - 128) * 64 + (b3 - 128))
                            [b0; b1; b2; b3] true :: chunks t3
                        else bad b0 :: chunks t0
                    | [] => bad b0 :: chunks t0
                    end
              | [] => bad b0 :: chunks t0
              end
        | [] => bad b0 :: chunks t0
        end
  end.

(** [for _, r := range s], [utf8.RuneCountInString], [utf8.ValidString]. *)
Definition runes (s : string) : list Z := c_rune <$> chunks (bytes_of s).
Definition RuneCountInString (s : string) : Z := Z.of_nat (length (runes s)).
Definition ValidString (s : string) : bool := forallb c_valid (chunks (bytes_of s)).

(** [utf8.AppendRune] of a Unicode scalar value. *)
Definition encode_rune (r : Z) : list Z :=
  if bool_decide (r < 128) then [r]
  else if bool_decide (r < 2048) then [192 + r / 64; 128 + r mod 64]
  else if bool_decide (r < 65536) then [224 + r / 4096; 128 + (r / 64) mod 64; 128 + r mod 64]
  else [240 + r / 262144; 128 + (r / 4096) mod 64; 128 + (r / 64) mod 64; 128 + r mod 64].

Definition encode (rs : list Z) : string := string_of (concat (encode_rune <$> rs)).

(** The code points that have an encoding: no surrogates. *)
Definition scalar (r : Z) : Prop := 0 ≤ r < 55296 ∨ 57344 ≤ r < 1114112.

(** ** Decoding inverts encoding *)

#[local] Ltac Zify.zify_post_hook ::= Z.to_euclidean_division_equations.

Ltac decide_all :=
  repeat match goal with
  | |- context [bool_decide ?P] =>
      first [ rewrite (bool_decide_true P) by lia | rewrite (bool_decide_false P) by lia ]
  end; cbn [andb orb].

Lemma chunks_encode r t :
  scalar r → chunks (encode_rune r ++ t) = Chunk r (encode_rune r) true :: chunks t.
Proof.
  unfold scalar, encode_rune. intros Hr.
  destruct (decide (r < 128)); [rewrite (bool_decide_true (r < 128)) by done|
    rewrite (bool_decide_false (r < 128)) by done].
  { cbn. by rewrite bool_decide_true. }
  destruct (decide (r < 2048)); [rewrite (bool_decide_true (r < 2048)) by done|
    rewrite (bool_decide_false (r < 2048)) by done].
  { cbn [app chunks]. rewrite bool_decide_false by lia. unfold seq2, cont. decide_all.
    repeat f_equal; lia. }
  destruct (decide (r < 65536)); [rewrite (bool_decide_true (r < 65536)) by done|
    rewrite (bool_decide_false (r < 65536)) by done].
  { cbn [app chunks]. rewrite bool_decide_false by lia. unfold seq2.
    rewrite (bool_decide_false (194 ≤ _ ∧ _)) by lia. cbn [andb]. unfold seq3, cont.
    rewrite (bool_decide_true (128 ≤ 128 + r mod 64 ∧ _)) by lia. rewrite andb_true_r.
    destruct (decide (r < 4096)); [decide_all; repeat f_equal; lia|].
    destruct (decide (53248 ≤ r < 55296)); decide_all; repeat f_equal; lia. }
  cbn [app chunks]. rewrite bool_decide_false by lia. unfold seq2.
  rewrite (bool_decide_false (194 ≤ _ ∧ _)) by lia. cbn [andb]. unfold seq3.
  rewrite !bool_decide_false by lia. cbn [orb andb]. unfold seq4, cont.
  rewrite (bool_decide_true (128 ≤ 128 + r mod 64 ∧ _)),
    (bool_decide_true (128 ≤ 128 + (r / 64) mod 64 ∧ _)) by lia. rewrite !andb_true_r.
  destruct (decide (r < 262144)); [decide_all; repeat f_equal; lia|].
  destruct (decide (1048576 ≤ r)); decide_all; repeat f_equal; lia.
Qed.

Lemma encode_rune_bytes r : scalar r → Forall is_byte (encode_rune r).
Proof.
  unfold scalar, encode_rune, is_byte. intros Hr.
  repeat case_bool_decide; repeat constructor; lia.
Qed.

(** A chunk that is valid is the encoding of a scalar value. *)
Definition chunk_ok (c : chunk) : Prop :=
  c_valid c = true → scalar (c_rune c) ∧ c_bytes c = encode_rune (c_rune c).

Lemma ok1 b : 0 ≤ b → b < 128 → chunk_ok (Chunk b [b] true).
Proof.
  intros H0 H1 _. cbn. unfold scalar, encode_rune. rewrite bool_decide_true by done.
  split; [lia|done].
Qed.

Lemma ok2 b0 b1 : seq2 b0 b1 = true → chunk_ok (Chunk ((b0 - 192) * 64 + (b1 - 128)) [b0; b1] true).
Proof.
  unfold seq2, cont. intros [Ha%bool_decide_eq_true Hb%bool_decide_eq_true]%andb_true_iff _. cbn.
  unfold scalar, encode_rune. decide_all. split; [lia|]. repeat f_equal; lia.
Qed.

Lemma ok3 b0 b1 b2 :
  seq3 b0 b1 b2 = true →
  chunk_ok (Chunk ((b0 - 224) * 4096 + (b1 - 128) * 64 + (b2 - 128)) [b0; b1; b2] true).
Proof.
  unfold seq3, cont. intros [Ha Hb%bool_decide_eq_true]%andb_true_iff _. cbn.
  rewrite !orb_true_iff, !bool_decide_eq_true in Ha.
  assert (2048 ≤ (b0 - 224) * 4096 + (b1 - 128) * 64 + (b2 - 128) < 65536) by lia.
  unfold scalar, encode_rune. decide_all. split; [lia|]. repeat f_equal; lia.
Qed.

Lemma ok4 b0 b1 b2 b3 :
  seq4 b0 b1 b2 b3 = true →
  chunk_ok (Chunk ((b0 - 240) * 262144 + (b1 - 128) * 4096 + (b2 - 128) * 64 + (b3 - 128))
              [b0; b1; b2; b3] true).
Proof.
  unfold seq4, cont.
  intros [[Ha Hb%bool_decide_eq_true]%andb_true_iff Hc%bool_decide_eq_true]%andb_true_iff _. cbn.
  rewrite !orb_true_iff, !bool_decide_eq_true in Ha.
  assert (65536 ≤ (b0 - 240) * 262144 + (b1 - 128) * 4096 + (b2 - 128) * 64 + (b3 - 128) < 1114112) by lia.
  unfold scalar, encode_rune. decide_all. split; [lia|]. repeat f_equal; lia.
Qed.

(** The chunks cover the bytes, and each is as it should be. *)
Lemma chunks_spec n bs :
  (length bs ≤ n)%nat → Forall is_byte bs →
  concat (c_bytes <$> chunks bs) = bs ∧ Forall chunk_ok (chunks bs).
Proof.
  revert bs. induction n as [|n IH]; intros bs Hn Hb; destruct bs as [|b0 t0]; try (cbn in *; lia).
  { done. } { done. }
  inversion_clear Hb as [|?? Hb0 Ht0]. cbn in Hn.
  assert (∀ c t, (length t ≤ n)%nat → Forall is_byte t → c_bytes c ++ t = b0 :: t0 → chunk_ok c →
            concat (c_bytes <$> (c :: chunks t)) = b0 :: t0 ∧ Forall chunk_ok (c :: chunks t)) as Hgo.
  { intros c t Hl Ht Heq Hc. destruct (IH t Hl Ht) as [H1 H2]. cbn. rewrite H1.
    split; [done|by constructor]. }
  assert (concat (c_bytes <$> (bad b0 :: chunks t0)) = b0 :: t0 ∧
          Forall chunk_ok (bad b0 :: chunks t0)) as Hbad.
  { apply Hgo; [lia|done|done|]. by intros ?. }
  unfold is_byte in Hb0. cbn [chunks]. case_bool_decide.
  { apply Hgo; [lia|done|done|]. apply ok1; lia. }
  destruct t0 as [|b1 t1]; [done|]. inversion_clear Ht0. destruct (seq2 b0 b1) eqn:E2.
  { apply Hgo; [cbn in *; lia|done|done|]. by apply ok2. }
  destruct t1 as [|b2 t2]; [done|]. inversion_clear H1. destruct (seq3 b0 b1 b2) eqn:E3.
  { apply Hgo; [cbn in *; lia|done|done|]. by apply ok3. }
  destruct t2 as [|b3 t3]; [done|]. inversion_clear H3. destruct (seq4 b0 b1 b2 b3) eqn:E4; [|done].
  apply Hgo; [cbn in *; lia|done|done|]. by apply ok4.
Qed.

(** A chunk that is not valid stands for U+FFFD. *)
Lemma chunks_runes bs : Forall (λ c, c_valid c = true ∨ c_rune c = RuneError) (chunks bs).
Proof.
  remember (length bs) as n eqn:Hn. revert bs Hn.
  induction (lt_wf n) as [n _ IH]. intros bs ->. destruct bs as [|b0 t0]; [constructor|].
  assert (∀ t c, (length t ≤ length t0)%nat → c_valid c = true ∨ c_rune c = RuneError →
            Forall (λ c, c_valid c = true ∨ c_rune c = RuneError) (c :: chunks t)) as Hgo.
  { intros t c Hl Hc. constructor; [done|]. eapply IH; [|done]. cbn. lia. }
  cbn [chunks].
  repeat case_match; try subst; apply Hgo; cbn; auto with lia.
Qed.

Lemma chunks_encode_all rs :
  Forall scalar rs →
  chunks (concat (encode_rune <$> rs)) = (λ r, Chunk r (encode_rune r) true) <$> rs.
Proof. induction 1 as [|r rs Hr _ IH]; cbn; [done|]. by rewrite chunks_encode, IH. Qed.

Lemma encode_bytes rs :
  Forall scalar rs → bytes_of (encode rs) = concat (encode_rune <$> rs).
Proof.
  intros Hrs. unfold encode. apply bytes_of_string_of. apply Forall_concat, Forall_fmap.
  eapply Forall_impl; [done|]. intros r. apply encode_rune_bytes.
Qed.

Lemma runes_encode rs : Forall scalar rs → runes (encode rs) = rs.
Proof.
  intros Hrs. unfold runes. rewrite encode_bytes, chunks_encode_all by done.
  rewrite <-list_fmap_compose. apply list_fmap_id.
Qed.

(** A string is valid exactly when it encodes some scalar values, which are
    then its runes. *)
Lemma ValidString_encode s : ValidString s = true ↔ ∃ rs, Forall scalar rs ∧ s = encode rs.
Proof.
  unfold ValidString. split.
  - intros Hv. destruct (chunks_spec _ _ (le_n _) (bytes_of_byte s)) as [Hc Hok].
    exists (runes s). rewrite forallb_forall in Hv. unfold runes.
    assert (Forall (λ c, scalar (c_rune c) ∧ c_bytes c = encode_rune (c_rune c))
              (chunks (bytes_of s))) as Hall.
    { apply Forall_forall. intros c Hin. rewrite Forall_forall in Hok.
      apply (Hok c Hin), Hv. by apply list_elem_of_In. }
    split.
    + apply Forall_fmap. eapply Forall_impl; [done|]. by intros c [? _].
    + unfold encode. rewrite <-list_fmap_compose.
      rewrite (list_fmap_ext _ c_bytes (chunks (bytes_of s))); [by rewrite Hc, string_of_bytes_of|].
      intros i c Hi. rewrite Forall_lookup in Hall. by destruct (Hall i c Hi) as [_ ->].
  - intros (rs & Hrs & ->). rewrite encode_bytes, chunks_encode_all by done.
    apply forallb_forall. intros c (r & <- & _)%in_map_iff. done.
Qed.
