(* ===== verification/Counters.v ===== *)
(** * Counters with a fixed window

    The limiter and the ban store count events with INCR and, on the first
    one, EXPIRE: the key holds the number of events since its first one and
    disappears when the window that began there ends. *)

From stdpp Require Import base gmap strings list sorting numbers.
From S2P Require Import Prelude GoStd Json Env Keys.
Open Scope Z_scope.

(** [Get(key).Int()]: a nil reply, a value, or a value that is no integer. *)
Definition get_int64 `{Env W} (key : string) : M W (res (option Z)) :=
  let! r := rd (GET key) in
  ret match r with
      | Err e => Err e
      | Ok None => Ok None
      | Ok (Some s) =>
          match ParseInt s with
          | (n, false) => Ok (Some n)
          | (_, true) => Err ("strconv.Atoi: parsing " +:+ s)
          end
      end.

(** The abstract counter: the count and the end of its window. *)
Definition ctr := option (Z * Z).

Definition ctr_count (o : ctr) : Z := match o with Some (n, _) => n | None => 0 end.

Definition ctr_bump (now window : Z) (o : ctr) : ctr :=
  match o with
  | None => Some (1, now + Z.quot window Millisecond)
  | Some (n, d) => Some (n + 1, d)
  end.

Definition ctr_wait (now : Z) (o : ctr) : ctr :=
  match o with
  | Some (n, d) => if bool_decide (now < d) then Some (n, d) else None
  | None => None
  end.

Definition ctr_is (ks : keyspace_t) (k : string) (o : ctr) : Prop :=
  match o with
  | None => ks !! k = None
  | Some (n, d) => ks !! k = Some (Entry (VStr (itoa n)) (Some d)) ∧ 0 < n ≤ max_int64
  end.

Lemma ctr_is_counter ks k o : ctr_is ks k o → counter_of ks k = Some (ctr_count o).
Proof.
  unfold ctr_is, counter_of, str_of. destruct o as [[n d]|].
  - intros [-> _]. rewrite parse_dec_itoa, bool_decide_true by done. done.
  - by intros ->.
Qed.

Lemma ctr_is_str ks k o :
  ctr_is ks k o → str_of ks k = Some (match o with Some (n, _) => Some (itoa n) | None => None end).
Proof. unfold ctr_is, str_of. by destruct o as [[n d]|]; [intros [-> _]|intros ->]. Qed.

Lemma ctr_is_other ks ks' k o : ks' !! k = ks !! k → ctr_is ks k o → ctr_is ks' k o.
Proof. unfold ctr_is. by intros ->. Qed.

Lemma ctr_is_expire now ks k o : ctr_is ks k o → ctr_is (expire_keys now ks) k (ctr_wait now o).
Proof.
  unfold ctr_is, ctr_wait, expire_keys. destruct o as [[n d]|].
  - intros [Hk Hn]. case_bool_decide as Hd.
    + split; [by apply map_lookup_filter_Some|done].
    + apply map_lookup_filter_None. right. intros e He Hl. simplify_eq. by apply Hd.
  - intros Hk. apply map_lookup_filter_None. by left.
Qed.

Lemma ctr_count_bump now win o : ctr_count (ctr_bump now win o) = ctr_count o + 1.
Proof. by destruct o as [[]|]. Qed.

Lemma ctr_count_wait now o : 0 ≤ ctr_count o → 0 ≤ ctr_count (ctr_wait now o) ≤ ctr_count o.
Proof. destruct o as [[]|]; cbn; [case_bool_decide; cbn|]; lia. Qed.

Section rules.
Context `{EnvLaws W}.
Implicit Types (w : W).

(** The shape of the code that counts an event. *)
Definition bump {A} (key : string) (window : Z) (incr_failed : error → M W A)
    (expire_failed : error → M W A) (next : Z → M W A) : M W A :=
  let! r := rd (INCR key) in
  match r with
  | Err e => incr_failed e
  | Ok count =>
      let! r := (if bool_decide (count = 1) then rd (Do (EXPIRE key window)) else ret (Ok tt)) in
      match r with
      | Err e => expire_failed e
      | Ok _ => next count
      end
  end.

Lemma wp_bump {A} key window f1 f2 (next : Z → M W A) o (Q : A → W → Prop) w :
  up w → ctr_is (keyspace w) key o → ctr_count o < max_int64 → 0 < window →
  (∀ w', up w' → frame w w' →
     ctr_is (keyspace w') key (ctr_bump (rclock w) window o) →
     (∀ k, k ≠ key → keyspace w' !! k = keyspace w !! k) →
     wp (next (ctr_count o + 1)) Q w') →
  wp (bump key window f1 f2 next) Q w.
Proof.
  intros Hup Ho Hlt Hwin HQ. unfold bump. wp_pure.
  eapply wp_incr; [done|by apply ctr_is_counter|done|]. intros w1 Hup1 Hf1 Hk1. wp_pure.
  destruct o as [[n d]|]; cbn [ctr_count] in *.
  - destruct Ho as [Hk Hn]. rewrite bool_decide_false by lia. wp_pure. apply HQ; [done..| |].
    + cbn. rewrite Hk1. unfold put, exp_of. rewrite lookup_insert_eq, Hk. cbn. split; [done|lia].
    + intros k Hne. rewrite Hk1. unfold put. by rewrite lookup_insert_ne.
  - cbn in Ho. rewrite bool_decide_true by lia. eapply wp_do; [done|by cbn|].
    intros w2 Hup2 Hf2 Hk2. wp_pure. rewrite Hk1 in Hk2. unfold put in Hk2.
    rewrite lookup_insert_eq, bool_decide_true, insert_insert_eq in Hk2 by done.
    apply HQ; [done|by etrans| |].
    + cbn. rewrite Hk2, lookup_insert_eq. cbn. destruct Hf1 as [<- _]. done.
    + intros k Hne. rewrite Hk2. by rewrite lookup_insert_ne.
Qed.

Lemma wp_get_int64 key o (Q : res (option Z) → W → Prop) w :
  up w → ctr_is (keyspace w) key o →
  (∀ w', same w w' → Q (Ok (fst <$> o)) w') → wp (get_int64 key) Q w.
Proof.
  intros Hup Ho HQ. unfold get_int64. wp_pure.
  eapply wp_get; [done|by apply ctr_is_str|]. intros w' Hs. wp_pure. specialize (HQ w' Hs).
  destruct o as [[n d]|]; [|done]. destruct Ho as [_ Hn].
  rewrite ParseInt_itoa by (unfold min_int64; lia). done.
Qed.
End rules.
