(* ===== verification/Sha256.v ===== *)
(** * crypto/sha256: the digest of FIPS 180-4

    Executable, on bytes as integers; the queue uses the first eight bytes of
    the digest in lower-case hexadecimal. *)

From Stdlib Require Import Ascii.
From stdpp Require Import base strings list numbers.
From S2P Require Import Prelude GoStd.
Open Scope Z_scope.

Definition w32 (z : Z) : Z := z mod 2 ^ 32.

Definition rotr (x n : Z) : Z :=
  Z.lor (Z.shiftr x n) (w32 (Z.shiftl x (32 - n))).

Definition Ch (x y z : Z) : Z := Z.lxor (Z.land x y) (Z.land (2 ^ 32 - 1 - x) z).
Definition Maj (x y z : Z) : Z := Z.lxor (Z.lxor (Z.land x y) (Z.land x z)) (Z.land y z).
Definition S0 (x : Z) : Z := Z.lxor (Z.lxor (rotr x 2) (rotr x 13)) (rotr x 22).
Definition S1 (x : Z) : Z := Z.lxor (Z.lxor (rotr x 6) (rotr x 11)) (rotr x 25).
Definition s0 (x : Z) : Z := Z.lxor (Z.lxor (rotr x 7) (rotr x 18)) (Z.shiftr x 3).
Definition s1 (x : Z) : Z := Z.lxor (Z.lxor (rotr x 17) (rotr x 19)) (Z.shiftr x 10).

(** The constants are the first 32 bits of the fractional parts of the cube
    roots of the first 64 primes, and of the square roots of the first 8. *)

(** The largest root below [lo + 2 ^ bits] whose power does not exceed [n]. *)
Fixpoint root_bits (bits : nat) (pow : Z → Z) (n lo : Z) : Z :=
  match bits with
  | O => lo
  | S bits =>
      let mid := lo + 2 ^ Z.of_nat bits in
      root_bits bits pow n (if bool_decide (pow mid ≤ n) then mid else lo)
  end.

Definition is_prime (n : nat) : bool :=
  forallb (λ d, negb (Nat.eqb (n mod d) 0)) (seq 2 (n - 2)).

Definition primes : list Z := Eval vm_compute in Z.of_nat <$> List.filter is_prime (seq 2 310).

Definition K : list Z := Eval vm_compute in
  (λ p, w32 (root_bits 40 (λ x, x * x * x) (p * 2 ^ 96) 0)) <$> primes.

Definition H0 : list Z := Eval vm_compute in
  (λ p, w32 (root_bits 40 (λ x, x * x) (p * 2 ^ 64) 0)) <$> take 8 primes.

(** ** Padding *)

(** [n] bytes of [z], most significant first. *)
Fixpoint be_bytes (n : nat) (z : Z) : list Z :=
  match n with
  | O => []
  | S n => Z.shiftr z (8 * Z.of_nat n) mod 256 :: be_bytes n z
  end.

Definition pad (msg : list Z) : list Z :=
  let len := Z.of_nat (length msg) in
  msg ++ [0x80] ++ replicate (Z.to_nat ((55 - len) mod 64)) 0 ++ be_bytes 8 (8 * len).

Fixpoint words (fuel : nat) (bs : list Z) : list Z :=
  match fuel, bs with
  | S fuel, a :: b :: c :: d :: bs =>
      (Z.shiftl a 24 + Z.shiftl b 16 + Z.shiftl c 8 + d) :: words fuel bs
  | _, _ => []
  end.

(** ** Compression *)

(** The message schedule, last word first. *)
Fixpoint schedule (n : nat) (ws : list Z) : list Z :=
  match n with
  | O => ws
  | S n =>
      let w i := nth i ws 0 in
      schedule n (w32 (s1 (w 1%nat) + w 6%nat + s0 (w 14%nat) + w 15%nat) :: ws)
  end.

Definition round (st : list Z) (kw : Z * Z) : list Z :=
  match st with
  | [a; b; c; d; e; f; g; h] =>
      let t1 := h + S1 e + Ch e f g + kw.1 + kw.2 in
      let t2 := S0 a + Maj a b c in
      [w32 (t1 + t2); a; b; c; w32 (d + t1); e; f; g]
  | _ => st
  end.

Definition compress (st : list Z) (block : list Z) : list Z :=
  let ws := rev (schedule 48 (rev block)) in
  zip_with (λ x y, w32 (x + y)) st (foldl round st (zip K ws)).

Fixpoint blocks (fuel : nat) (st : list Z) (ws : list Z) : list Z :=
  match fuel, ws with
  | S fuel, _ :: _ => blocks fuel (compress st (take 16 ws)) (drop 16 ws)
  | _, _ => st
  end.

(** The fuel is the length of the padded message, more than its number of
    words and of blocks. *)
Definition Sum256 (s : string) : list Z :=
  let p := pad (bytes_of s) in
  let h := blocks (length p) H0 (words (length p) p) in
  concat (be_bytes 4 <$> h).

(** ** Lower-case hexadecimal ([%x]) *)

Definition hex_digit (z : Z) : ascii :=
  ascii_of_N (Z.to_N (if bool_decide (z < 10) then z + 48 else z + 87)).

Fixpoint hex (bs : list Z) : string :=
  match bs with
  | [] => ""
  | b :: bs => String (hex_digit (b / 16)) (String (hex_digit (b mod 16)) (hex bs))
  end%string.

(** The digests of the standard's examples. *)
Example sha_empty :
  hex (Sum256 "") = "e3b0c44298fc1c149afbf4c8996fb92427ae41e4649b934ca495991b7852b855".
Proof. vm_compute. reflexivity. Qed.

Example sha_abc :
  hex (Sum256 "abc") = "ba7816bf8f01cfea414140de5dae2223b00361a396177a9cb410ff61f20015ad".
Proof. vm_compute. reflexivity. Qed.

Example sha_two_blocks :
  hex (Sum256 "abcdbcdecdefdefgefghfghighijhijkijkljklmklmnlmnomnopnopq") =
  "248d6a61d20638b8e5c026930c3e6039a33ce45964ff2167f6ecedd419db06c1".
Proof. vm_compute. reflexivity. Qed.
