(* ===== verification/ChatBuffer.v ===== *)
(** * internal/chat/buffer.go: the ring buffer of recent messages

    [MessageBuffer] maps a chat to a circular array of [MaxBufferMessages]
    slots.  [Add] and [Get] return [None] where the Go code would panic on an
    index out of range; [buffer_refines_last_messages] shows that they never
    do and that the buffer implements its abstract specification: the last
    five messages added to the chat since it was last removed. *)

From stdpp Require Import base gmap strings list numbers.
From S2P Require Import Prelude GoStd.
Open Scope Z_scope.

Definition MaxBufferMessages : Z := 5.

Record BufferedMessage : Type := {
  From : string;
  Text : string;
  Ts : Z;
}.

(** The zero value of the struct. *)
Definition zero_message : BufferedMessage := {| From := ""; Text := ""; Ts := 0 |}.

Record ringBuffer : Type := {
  items : list BufferedMessage;
  pos : Z;
  count : Z;
}.

Abbreviation MessageBuffer := (gmap string ringBuffer).

Definition NewMessageBuffer : MessageBuffer := ∅.

(** Reading and writing a slice element; [None] is the panic. *)
Definition slice_get {A} (l : list A) (i : Z) : option A :=
  if bool_decide (0 ≤ i) then l !! Z.to_nat i else None.
Definition slice_set {A} (l : list A) (i : Z) (x : A) : option (list A) :=
  if bool_decide (0 ≤ i < Z.of_nat (length l)) then Some (<[Z.to_nat i := x]> l) else None.

Definition new_ring : ringBuffer :=
  {| items := replicate (Z.to_nat MaxBufferMessages) zero_message; pos := 0; count := 0 |}.

(** The part of [Add] that runs on the chat's ring. *)
Definition ring_add (rb : ringBuffer) (msg : BufferedMessage) : option ringBuffer :=
  items' ← slice_set (items rb) (pos rb) msg;
  Some {| items := items';
          pos := Z.rem (pos rb + 1) MaxBufferMessages;
          count := if bool_decide (count rb < MaxBufferMessages) then count rb + 1 else count rb |}.

Definition Add (mb : MessageBuffer) (chatID : string) (msg : BufferedMessage) : option MessageBuffer :=
  let rb := match mb !! chatID with Some rb => rb | None => new_ring end in
  rb' ← ring_add rb msg;
  Some (<[chatID := rb']> mb).

(** The loop of [Get]: one element per [i] below [count]. *)
Definition ring_get (rb : ringBuffer) : option (list BufferedMessage) :=
  let start := Z.rem (pos rb - count rb + MaxBufferMessages) MaxBufferMessages in
  mapM (λ i, slice_get (items rb) (Z.rem (start + Z.of_nat i) MaxBufferMessages))
       (seq 0 (Z.to_nat (count rb))).

Definition Get (mb : MessageBuffer) (chatID : string) : option (list BufferedMessage) :=
  match mb !! chatID with
  | None => Some []
  | Some rb => ring_get rb
  end.

Definition Remove (mb : MessageBuffer) (chatID : string) : MessageBuffer := delete chatID mb.

(** ** The invariant and the abstract specification *)

Definition ring_wf (rb : ringBuffer) : Prop :=
  length (items rb) = 5%nat ∧ 0 ≤ pos rb < 5 ∧ 0 ≤ count rb ≤ 5.

Definition last5 {A} (l : list A) : list A := drop (length l - 5) l.

Inductive buf_op : Type :=
  | OpAdd (chatID : string) (msg : BufferedMessage)
  | OpRemove (chatID : string).

(** A run of operations on the buffer. *)
Fixpoint buf_run (ops : list buf_op) (mb : MessageBuffer) : option MessageBuffer :=
  match ops with
  | [] => Some mb
  | OpAdd c m :: ops => mb' ← Add mb c m; buf_run ops mb'
  | OpRemove c :: ops => buf_run ops (Remove mb c)
  end.

(** The specification: the messages of a chat since its last removal, given
    what it held before. *)
Fixpoint history (ops : list buf_op) (chat : string) (before : list BufferedMessage)
    : list BufferedMessage :=
  match ops with
  | [] => before
  | OpAdd c m :: ops =>
      history ops chat (if bool_decide (c = chat) then before ++ [m] else before)
  | OpRemove c :: ops =>
      history ops chat (if bool_decide (c = chat) then [] else before)
  end.

(** ** Proofs *)

Lemma last5_snoc {A} (l : list A) x : last5 (last5 l ++ [x]) = last5 (l ++ [x]).
Proof.
  unfold last5. rewrite !length_app, length_drop. cbn.
  destruct (decide (length l < 5)%nat).
  - by rewrite !(proj2 (Nat.sub_0_le (length l) 5)) by lia; rewrite !drop_0, Nat.sub_0_r.
  - rewrite !drop_app_le, drop_drop by (rewrite ?length_drop; lia). do 2 f_equal. lia.
Qed.

Lemma new_ring_wf : ring_wf new_ring.
Proof. by repeat split. Qed.

(** A well-formed ring stores a message without a panic, stays well formed,
    and holds the last five of what it held and the new message. *)
Lemma ring_add_spec rb msg l :
  ring_wf rb → ring_get rb = Some l →
  ∃ rb', ring_add rb msg = Some rb' ∧ ring_wf rb' ∧ ring_get rb' = Some (last5 (l ++ [msg])).
Proof.
  intros (Hlen & Hpos & Hcount) Hl. destruct rb as [its p c]; cbn in *.
  destruct its as [|m0 [|m1 [|m2 [|m3 [|m4 [|]]]]]]; try discriminate Hlen.
  assert (p = 0 ∨ p = 1 ∨ p = 2 ∨ p = 3 ∨ p = 4) as Hp by lia.
  assert (c = 0 ∨ c = 1 ∨ c = 2 ∨ c = 3 ∨ c = 4 ∨ c = 5) as Hc by lia.
  clear Hpos Hcount.
  repeat destruct Hp as [Hp|Hp]; repeat destruct Hc as [Hc|Hc]; subst;
    vm_compute in Hl; injection Hl as <-; eexists;
    (split; [vm_compute; reflexivity|split; [|vm_compute; reflexivity]]);
    unfold ring_wf; cbn; lia.
Qed.

(** The relation between the buffer and what it should hold. *)
Definition buf_rep (mb : MessageBuffer) (h : string → list BufferedMessage) : Prop :=
  ∀ c, (∀ rb, mb !! c = Some rb → ring_wf rb) ∧ Get mb c = Some (last5 (h c)).

Lemma Add_rep mb h c m :
  buf_rep mb h →
  ∃ mb', Add mb c m = Some mb' ∧
    buf_rep mb' (λ c', if bool_decide (c = c') then h c' ++ [m] else h c').
Proof.
  intros Hrep. destruct (Hrep c) as [Hwf Hget].
  set (rb := match mb !! c with Some rb => rb | None => new_ring end).
  assert (ring_wf rb ∧ ring_get rb = Some (last5 (h c))) as [Hwf' Hget'].
  { unfold rb, Get in *. destruct (mb !! c) as [rb'|]; [by eauto|].
    split; [apply new_ring_wf|]. by injection Hget as <-. }
  destruct (ring_add_spec rb m _ Hwf' Hget') as (rb' & E & Hwf'' & Hget'').
  exists (<[c := rb']> mb). split; [unfold Add; fold rb; by rewrite E|].
  intros c'. case_bool_decide as Hc; subst; unfold Get.
  - rewrite lookup_insert_eq. split; [by intros ? [= <-]|].
    by rewrite Hget'', last5_snoc.
  - rewrite lookup_insert_ne by done. apply Hrep.
Qed.

Lemma Remove_rep mb h c :
  buf_rep mb h → buf_rep (Remove mb c) (λ c', if bool_decide (c = c') then [] else h c').
Proof.
  intros Hrep c'. unfold Remove, Get. case_bool_decide as Hc; subst.
  - by rewrite lookup_delete_eq.
  - rewrite lookup_delete_ne by done. apply Hrep.
Qed.

Lemma buf_run_rep ops mb h :
  buf_rep mb h → ∃ mb', buf_run ops mb = Some mb' ∧ buf_rep mb' (λ c, history ops c (h c)).
Proof.
  revert mb h. induction ops as [|[c m|c] ops IH]; intros mb h Hrep; [by eauto|..]; cbn.
  - destruct (Add_rep mb h c m Hrep) as (mb1 & E & Hrep1). rewrite E. apply (IH _ _ Hrep1).
  - apply (IH _ _ (Remove_rep mb h c Hrep)).
Qed.

(** C21: from an empty buffer, any sequence of [Add] and [Remove] runs without
    an index panic, and then [Get] returns, oldest first, exactly the last
    five messages added to the chat since its last [Remove]. *)
Theorem buffer_refines_last_messages (ops : list buf_op) :
  ∃ mb, buf_run ops NewMessageBuffer = Some mb ∧
    ∀ c, Get mb c = Some (last5 (history ops c [])).
Proof.
  destruct (buf_run_rep ops NewMessageBuffer (λ _, [])) as (mb & E & Hrep).
  - intros c. by split.
  - exists mb. split; [done|]. intros c. apply Hrep.
Qed.

Example buffer_wraps :
  let m i := {| From := "a"; Text := "t"; Ts := i |} in
  (buf_run (OpAdd "c" ∘ m <$> [1; 2; 3; 4; 5; 6; 7]) NewMessageBuffer ≫= λ mb, Get mb "c")
  = Some (m <$> [3; 4; 5; 6; 7]).
Proof. reflexivity. Qed.
