(* ===== verification/ChatStore.v ===== *)
(** * internal/chat/store.go: chat sessions in Redis

    A chat is the hash [chat:<id>]; chats that wait for acceptance are also
    members of the sorted set [match:pending_chats], scored by their deadline.
    The acceptance of a match is the Lua script [acceptMatchLua], which Redis
    runs atomically. *)

From stdpp Require Import base gmap strings list sorting numbers.
From S2P Require Import Prelude GoStd Json Env Keys MemEnv.
Open Scope Z_scope.

Definition ChatPrefix : string := "chat:".
Definition PendingKey : string := "match:pending_chats".
Definition ChatTTLPending : Z := 60 * Second.
Definition ChatTTLActive : Z := 2 * Hour.
Definition StatusPendingAccept : string := "pending_accept".
Definition StatusActive : string := "active".
Definition StatusEnded : string := "ended".

Record ChatSession : Type := {
  ChatID : string;
  UserA : string;
  UserB : string;
  Status : string;
  CreatedAt : Z;
  AcceptDeadline : Z;
  AcceptedA : bool;
  AcceptedB : bool;
}.

Definition GetPartner (cs : ChatSession) (sessionID : string) : string :=
  if bool_decide (sessionID = UserA cs) then UserB cs
  else if bool_decide (sessionID = UserB cs) then UserA cs
  else "".

Definition IsParticipant (cs : ChatSession) (sessionID : string) : bool :=
  bool_decide (sessionID = UserA cs) || bool_decide (sessionID = UserB cs).

(** The fields [CreatePending] writes. *)
Definition pending_fields (userA userB : string) (now : Z) : list (string * string) :=
  [("user_a", userA); ("user_b", userB); ("status", StatusPendingAccept);
   ("created_at", itoa now); ("accept_deadline", itoa (now + 15));
   ("accepted_a", "false"); ("accepted_b", "false")].

(** The session [Get] builds from the fields of a hash; a missing field reads
    as the empty string. *)
Definition session_of_hash (chatID : string) (result : gmap string string) : ChatSession :=
  let f k := default "" (result !! k) in
  {| ChatID := chatID;
     UserA := f "user_a";
     UserB := f "user_b";
     Status := f "status";
     CreatedAt := (ParseInt (f "created_at")).1;
     AcceptDeadline := (ParseInt (f "accept_deadline")).1;
     AcceptedA := bool_decide (f "accepted_a" = "true");
     AcceptedB := bool_decide (f "accepted_b" = "true") |}.

(** The script, with KEYS[1] and ARGV[1] as arguments. *)
Definition acceptMatchLua (key session_id : string) : lua :=
  LCall (HGET key "status") (λ status,
  match status with
  | None => LReturn (-1)
  | Some status =>
  if bool_decide (status ≠ "pending_accept") then LReturn (-2)
  else
  LCall (HGET key "user_a") (λ user_a,
  LCall (HGET key "user_b") (λ user_b,
  let rest :=
    LCall (HGET key "accepted_a") (λ accepted_a,
    LCall (HGET key "accepted_b") (λ accepted_b,
    if bool_decide (accepted_a = Some "true" ∧ accepted_b = Some "true") then
      LCall (Do (HSET key [("status", "active")])) (λ _,
      LCall (Do (EXPIRE key (7200 * Second))) (λ _,
      LReturn 1))
    else LReturn 0)) in
  if bool_decide (Some session_id = user_a) then
    LCall (Do (HSET key [("accepted_a", "true")])) (λ _, rest)
  else if bool_decide (Some session_id = user_b) then
    LCall (Do (HSET key [("accepted_b", "true")])) (λ _, rest)
  else LReturn (-3)))
  end).

Section store.
Context `{Env W}.

Definition CreatePending (chatID userA userB : string) : M W (option error) :=
  let key := ChatPrefix +:+ chatID in
  let! t := now_ms in
  let now := Unix t in
  let deadline := now + 15 in
  pipeline [HSET key (pending_fields userA userB now);
            EXPIRE key ChatTTLPending;
            ZADD PendingKey deadline chatID].

Definition Get (chatID : string) : M W (res (option ChatSession)) :=
  let key := ChatPrefix +:+ chatID in
  let! r := rd (HGETALL key) in
  ret match r with
      | Err e => Err e
      | Ok result =>
          if bool_decide (result = ∅) then Ok None
          else Ok (Some (session_of_hash chatID result))
      end.

Definition AcceptMatch (chatID sessionID : string) : M W (Z * option error) :=
  let key := ChatPrefix +:+ chatID in
  let! r := eval_script (acceptMatchLua key sessionID) in
  ret match r with
      | Err e => (-1, Some ("chat: accept match: " +:+ e))
      | Ok result => (result, None)
      end.

Definition Delete (chatID : string) : M W (option error) :=
  pipeline [DEL (ChatPrefix +:+ chatID); ZREM PendingKey chatID].
End store.

(** ** Key facts *)

Lemma schema_chat id : schema (ChatPrefix +:+ id) = Some KHash.
Proof. by destruct id. Qed.
Lemma schema_pending : schema PendingKey = Some KZSet.
Proof. reflexivity. Qed.
Lemma chat_ne_pending id : ChatPrefix +:+ id ≠ PendingKey.
Proof. done. Qed.
#[export] Hint Resolve schema_chat schema_pending chat_ne_pending : go.

(** ** The session a pending hash denotes, and reading it back *)

Definition pending_session (chatID userA userB : string) (now : Z) : ChatSession :=
  {| ChatID := chatID; UserA := userA; UserB := userB; Status := StatusPendingAccept;
     CreatedAt := now; AcceptDeadline := now + 15; AcceptedA := false; AcceptedB := false |}.

Lemma session_of_pending chatID a b now h :
  min_int64 ≤ now → now + 15 ≤ max_int64 →
  session_of_hash chatID (hset (pending_fields a b now) h) = pending_session chatID a b now.
Proof.
  intros Hlo Hhi. unfold session_of_hash, pending_session, pending_fields.
  hash_simpl. cbn. rewrite !ParseInt_itoa by lia. done.
Qed.

Section proofs.
Context `{EnvLaws W}.
Implicit Types (w : W).

Lemma wp_Get chatID (Q : res (option ChatSession) → W → Prop) w :
  up w → wf_ks (keyspace w) →
  (∀ w', same w w' →
     let h := hget (keyspace w) (ChatPrefix +:+ chatID) in
     Q (Ok (if bool_decide (h = ∅) then None else Some (session_of_hash chatID h))) w') →
  wp (Get chatID) Q w.
Proof.
  intros Hup Hwf HQ. unfold Get. wp_pure.
  eapply wp_hgetall; [done|by apply wf_hash; auto with go|]. intros w' Hs. wp_pure.
  specialize (HQ w' Hs). cbn in HQ. by case_bool_decide.
Qed.

(** The commands of [CreatePending] on a well-typed keyspace. *)
Lemma wp_CreatePending chatID a b (Q : option error → W → Prop) w :
  up w → wf_ks (keyspace w) →
  (∀ w', up w' → frame w w' → wf_ks (keyspace w') →
     (∀ k, k ≠ ChatPrefix +:+ chatID → k ≠ PendingKey → keyspace w' !! k = keyspace w !! k) →
     hget (keyspace w') (ChatPrefix +:+ chatID) =
       hset (pending_fields a b (Unix (wall w))) (hget (keyspace w) (ChatPrefix +:+ chatID)) →
     zget (keyspace w') PendingKey =
       <[chatID := Unix (wall w) + 15]> (zget (keyspace w) PendingKey) →
     Q None w') →
  wp (CreatePending chatID a b) Q w.
Proof.
  intros Hup Hwf HQ. unfold CreatePending. wp_pure. apply wp_now. cbv zeta.
  set (cs := [HSET _ _; EXPIRE _ _; ZADD _ _ _]).
  assert (Forall typed cs) as Ht by solve_typed.
  destruct (apply_ws_typed (rclock w) cs _ Hwf Ht) as (ks' & E & Hwf').
  eapply wp_pipeline; [done..|]. intros w' Hup' Hf Hk. subst ks'.
  apply HQ; try done.
  - intros k Hk1 Hk2. eapply apply_ws_other; [done|]. set_solver.
  - rewrite (apply_ws_hget _ _ _ _ _ E Ht). cbn. by view_keys.
  - rewrite (apply_ws_zget _ _ _ _ _ E Ht). cbn. by view_keys.
Qed.

Lemma wp_Delete chatID (Q : option error → W → Prop) w :
  up w → wf_ks (keyspace w) →
  (∀ w', up w' → frame w w' → wf_ks (keyspace w') →
     (∀ k, k ≠ ChatPrefix +:+ chatID → k ≠ PendingKey → keyspace w' !! k = keyspace w !! k) →
     hget (keyspace w') (ChatPrefix +:+ chatID) = ∅ →
     zget (keyspace w') PendingKey = delete chatID (zget (keyspace w) PendingKey) →
     Q None w') →
  wp (Delete chatID) Q w.
Proof.
  intros Hup Hwf HQ. unfold Delete.
  set (cs := [DEL _; ZREM _ _]).
  assert (Forall typed cs) as Ht by solve_typed.
  destruct (apply_ws_typed (rclock w) cs _ Hwf Ht) as (ks' & E & Hwf').
  eapply wp_pipeline; [done..|]. intros w' Hup' Hf Hk. subst ks'.
  apply HQ; try done.
  - intros k Hk1 Hk2. eapply apply_ws_other; [done|]. set_solver.
  - rewrite (apply_ws_hget _ _ _ _ _ E Ht). cbn. by view_keys.
  - rewrite (apply_ws_zget _ _ _ _ _ E Ht). cbn. by view_keys.
Qed.
End proofs.

(** ** What one acceptance does to the chat's hash *)

(** The code the script returns and the hash it leaves. *)
Definition accept_hash (h : gmap string string) (sid : string) : Z * gmap string string :=
  let finish h' :=
    if bool_decide (h' !! "accepted_a" = Some "true" ∧ h' !! "accepted_b" = Some "true")
    then (1, <["status" := "active"]> h') else (0, h') in
  match h !! "status" with
  | None => (-1, h)
  | Some status =>
      if bool_decide (status ≠ "pending_accept") then (-2, h)
      else if bool_decide (Some sid = h !! "user_a") then finish (<["accepted_a" := "true"]> h)
      else if bool_decide (Some sid = h !! "user_b") then finish (<["accepted_b" := "true"]> h)
      else (-3, h)
  end.

(** The keyspace after it: unchanged by an error code; the new hash, with the
    TTL of an active chat when both have accepted. *)
Definition accept_ks (now : Z) (ks : keyspace_t) (key sid : string) (h : gmap string string)
    : keyspace_t :=
  let '(r, h') := accept_hash h sid in
  if bool_decide (r < 0) then ks
  else <[key := Entry (VHash h')
           (if bool_decide (r = 1) then Some (now + 7200000) else exp_of ks key)]> ks.

Lemma hash_of_put ks k h : hash_of (put ks k (VHash h)) k = Some h.
Proof. unfold hash_of, put. by rewrite lookup_insert_eq. Qed.

Lemma exp_of_put ks k v : exp_of (put ks k v) k = exp_of ks k.
Proof. unfold exp_of, put. by rewrite lookup_insert_eq. Qed.

Lemma lua_hget now key f k ks h :
  hash_of ks key = Some h →
  lua_safe now (LCall (HGET key f) k) ks ↔ lua_safe now (k (h !! f)) ks.
Proof.
  intros Hh. cbn. rewrite Hh. split.
  - intros [_ Hk]. apply Hk. by eauto.
  - intros Hk. split; [by eauto 6|]. by intros a ks1 [(h' & [= <-] & ->) ->].
Qed.

Lemma lua_hget_spec now key f k ks h r ks' :
  hash_of ks key = Some h →
  lua_spec now (LCall (HGET key f) k) ks r ks' ↔ lua_spec now (k (h !! f)) ks r ks'.
Proof.
  intros Hh. cbn. rewrite Hh. split.
  - by intros (a & ks1 & [(h' & [= <-] & ->) ->] & Hk).
  - intros Hk. by eauto 10.
Qed.

Lemma lua_hset now key fs k ks h :
  hash_of ks key = Some h →
  lua_safe now (LCall (Do (HSET key fs)) k) ks ↔
  lua_safe now (k tt) (put ks key (VHash (hset fs h))).
Proof.
  intros Hh. cbn. rewrite Hh. cbn. split.
  - intros [_ Hk]. by apply Hk.
  - intros Hk. split; [by exists tt; eauto|]. by intros [] ks1 [= <-].
Qed.

Lemma lua_hset_spec now key fs k ks h r ks' :
  hash_of ks key = Some h →
  lua_spec now (LCall (Do (HSET key fs)) k) ks r ks' ↔
  lua_spec now (k tt) (put ks key (VHash (hset fs h))) r ks'.
Proof.
  intros Hh. cbn. rewrite Hh. cbn. split.
  - by intros ([] & ks1 & [= <-] & Hk).
  - intros Hk. by exists tt; eauto.
Qed.

(** The end of the script, from the point where the caller is recorded. *)
Lemma accept_rest now key ks h :
  let rest :=
    LCall (HGET key "accepted_a") (λ accepted_a,
    LCall (HGET key "accepted_b") (λ accepted_b,
    if bool_decide (accepted_a = Some "true" ∧ accepted_b = Some "true") then
      LCall (Do (HSET key [("status", "active")])) (λ _,
      LCall (Do (EXPIRE key (7200 * Second))) (λ _,
      LReturn 1))
    else LReturn 0)) in
  let both := bool_decide (h !! "accepted_a" = Some "true" ∧ h !! "accepted_b" = Some "true") in
  hash_of ks key = Some h →
  is_Some (ks !! key) →
  lua_safe now rest ks ∧
  ∀ r ks', lua_spec now rest ks r ks' →
    r = (if both then 1 else 0) ∧
    ks' = (if both
           then <[key := Entry (VHash (<["status" := "active"]> h)) (Some (now + 7200000))]> ks
           else ks).
Proof.
  intros rest both Hh Hin. unfold rest.
  rewrite !(lua_hget _ _ _ _ _ _ Hh).
  setoid_rewrite (lua_hget_spec _ _ _ _ _ _ _ _ Hh).
  setoid_rewrite (lua_hget_spec _ _ _ _ _ _ _ _ Hh).
  fold both. destruct both; cbn.
  - rewrite Hh. cbn. unfold put. split.
    + split; [by exists tt; eauto|]. intros [] ks1 [= <-].
      split; [by exists tt; eauto|done].
    + intros r ks' ([] & ks1 & [= <-] & [] & ks2 & E & -> & ->). split; [done|].
      rewrite lookup_insert_eq in E. cbn in E. injection E as <-.
      by rewrite insert_insert_eq.
  - split; [done|]. by intros r ks' [-> ->].
Qed.

Lemma accept_lua now ks key sid h :
  hash_of ks key = Some h →
  lua_safe now (acceptMatchLua key sid) ks ∧
  ∀ r ks', lua_spec now (acceptMatchLua key sid) ks r ks' →
    r = (accept_hash h sid).1 ∧ ks' = accept_ks now ks key sid h.
Proof.
  intros Hh. unfold acceptMatchLua, accept_ks, accept_hash.
  rewrite (lua_hget _ _ _ _ _ _ Hh).
  setoid_rewrite (lua_hget_spec _ _ _ _ _ _ _ _ Hh).
  destruct (h !! "status") as [st|] eqn:Est; [|by cbn; split; [done|intros ?? [-> ->]]].
  destruct (bool_decide (st ≠ "pending_accept")) eqn:Ep;
    [by cbn; split; [done|intros ?? [-> ->]]|].
  rewrite !(lua_hget _ _ _ _ _ _ Hh).
  setoid_rewrite (lua_hget_spec _ _ _ _ _ _ _ _ Hh).
  setoid_rewrite (lua_hget_spec _ _ _ _ _ _ _ _ Hh). cbv zeta.
  destruct (decide (Some sid = h !! "user_a")) as [Ha|Ha];
    [rewrite !(bool_decide_eq_true_2 _ Ha)
    |rewrite !(bool_decide_eq_false_2 _ Ha);
     destruct (decide (Some sid = h !! "user_b")) as [Hb|Hb];
     [rewrite !(bool_decide_eq_true_2 _ Hb)|rewrite !(bool_decide_eq_false_2 _ Hb)]].
  - rewrite (lua_hset _ _ _ _ _ _ Hh). setoid_rewrite (lua_hset_spec _ _ _ _ _ _ _ _ Hh).
    cbn [hset foldl fst snd].
    destruct (accept_rest now key (put ks key (VHash (<["accepted_a":="true"]> h)))
                (<["accepted_a":="true"]> h)) as [Hsafe Hspec];
      [apply hash_of_put|unfold put; rewrite lookup_insert_eq; by eauto|].
    split; [done|]. intros r ks' Hr. apply Hspec in Hr as [-> ->].
    unfold put. rewrite insert_insert_eq. by case_bool_decide.
  - rewrite (lua_hset _ _ _ _ _ _ Hh). setoid_rewrite (lua_hset_spec _ _ _ _ _ _ _ _ Hh).
    cbn [hset foldl fst snd].
    destruct (accept_rest now key (put ks key (VHash (<["accepted_b":="true"]> h)))
                (<["accepted_b":="true"]> h)) as [Hsafe Hspec];
      [apply hash_of_put|unfold put; rewrite lookup_insert_eq; by eauto|].
    split; [done|]. intros r ks' Hr. apply Hspec in Hr as [-> ->].
    unfold put. rewrite insert_insert_eq. by case_bool_decide.
  - cbn. split; [done|]. by intros ?? [-> ->].
Qed.

(** ** Sequences of acceptances *)

(** The calls that a number of sessions make, in the order Redis runs them. *)
Fixpoint accept_all `{Env W} (chatID : string) (sids : list string)
    : M W (list (Z * option error)) :=
  match sids with
  | [] => ret []
  | sid :: sids =>
      let! r := AcceptMatch chatID sid in
      let! rs := accept_all chatID sids in
      ret (r :: rs)
  end.

(** The hash of a chat between [a] and [b] in which the two flags say who has
    accepted so far. *)
Definition acceptance (h : gmap string string) (a b : string) (sa sb : bool) : Prop :=
  h !! "user_a" = Some a ∧ h !! "user_b" = Some b ∧
  h !! "accepted_a" = Some (if sa then "true" else "false") ∧
  h !! "accepted_b" = Some (if sb then "true" else "false") ∧
  h !! "status" = Some (if sa && sb then StatusActive else StatusPendingAccept).

Lemma acceptance_pending a b now h : acceptance (hset (pending_fields a b now) h) a b false false.
Proof. unfold acceptance, pending_fields. by hash_simpl. Qed.

(** One acceptance: the caller's flag is set, and the code is 1 exactly when
    this call completes the pair. *)
Lemma acceptance_step h a b sa sb sid :
  a ≠ b → acceptance h a b sa sb →
  let sa' := sa || bool_decide (sid = a) in
  let sb' := sb || bool_decide (sid = b) in
  acceptance (accept_hash h sid).2 a b sa' sb' ∧
  ((accept_hash h sid).1 = 1 ↔ sa' && sb' = true ∧ sa && sb = false).
Proof.
  intros Hab (Ha & Hb & Haa & Hab' & Hst) sa' sb'. unfold accept_hash, sa', sb'.
  rewrite Hst. destruct (sa && sb) eqn:Hs.
  { apply andb_true_iff in Hs as [-> ->]. rewrite bool_decide_true by done. cbn.
    split; [by repeat split|naive_solver]. }
  rewrite bool_decide_false by (intros Hn; by apply Hn). rewrite Ha, Hb.
  destruct (decide (sid = a)) as [->|Hna]; [|destruct (decide (sid = b)) as [->|Hnb]].
  - rewrite !(bool_decide_true (a = a)), !(bool_decide_true (Some a = Some a)),
      !(bool_decide_false (a = b)) by done.
    rewrite lookup_insert_eq, lookup_insert_ne, Hab' by done.
    rewrite orb_true_r, orb_false_r. destruct sb; cbn.
    + rewrite bool_decide_true by done. cbn. split; [|destruct sa; naive_solver].
      repeat split; hash_simpl; done.
    + rewrite bool_decide_false by naive_solver. cbn.
      split; [|naive_solver]. by repeat split; hash_simpl.
  - rewrite !(bool_decide_true (b = b)), !(bool_decide_true (Some b = Some b)),
      !(bool_decide_false (b = a)), !(bool_decide_false (Some b = Some a)) by congruence.
    rewrite lookup_insert_ne, lookup_insert_eq, Haa by done.
    rewrite orb_true_r, orb_false_r. destruct sa; cbn.
    + rewrite bool_decide_true by done. cbn in *. split; [|destruct sb; naive_solver].
      repeat split; hash_simpl; done.
    + rewrite bool_decide_false by naive_solver. cbn.
      split; [|naive_solver]. by repeat split; hash_simpl.
  - rewrite !(bool_decide_false (sid = a)), !(bool_decide_false (sid = b)),
      !(bool_decide_false (Some sid = Some a)), !(bool_decide_false (Some sid = Some b))
      by congruence.
    rewrite !orb_false_r. cbn. rewrite Hs. split; [|naive_solver]. repeat split; try done.
    by rewrite Hst, Hs.
Qed.

Lemma accept_hash_kept h sid : (accept_hash h sid).1 < 0 → (accept_hash h sid).2 = h.
Proof. unfold accept_hash. by repeat case_match. Qed.

Section accept_proofs.
Context `{EnvLaws W}.
Implicit Types (w : W).

Lemma wp_AcceptMatch chatID sid h (Q : Z * option error → W → Prop) w :
  let key := ChatPrefix +:+ chatID in
  up w → hash_of (keyspace w) key = Some h →
  (∀ w', up w' → frame w w' →
     keyspace w' = accept_ks (rclock w) (keyspace w) key sid h →
     Q ((accept_hash h sid).1, None) w') →
  wp (AcceptMatch chatID sid) Q w.
Proof.
  intros key Hup Hh HQ. unfold AcceptMatch. wp_pure.
  destruct (accept_lua (rclock w) _ _ sid _ Hh) as [Hsafe Hspec].
  apply wp_eval; [done..|]. intros r w' Hup' Hf Hs. wp_pure.
  apply Hspec in Hs as [-> Hks]. by apply HQ.
Qed.

Lemma accept_ks_hash now ks key sid h :
  hash_of ks key = Some h →
  hash_of (accept_ks now ks key sid h) key = Some (accept_hash h sid).2.
Proof.
  intros Hh. unfold accept_ks. pose proof (accept_hash_kept h sid) as Hk.
  destruct (accept_hash h sid) as [r h']. cbn in *. case_bool_decide as Hr.
  - by rewrite Hk.
  - unfold hash_of. by rewrite lookup_insert_eq.
Qed.

Lemma accept_ks_wf now ks chatID sid h :
  wf_ks ks → wf_ks (accept_ks now ks (ChatPrefix +:+ chatID) sid h).
Proof.
  intros Hwf. unfold accept_ks. destruct (accept_hash h sid). case_bool_decide; [done|].
  apply wf_insert; [done|]. apply schema_chat.
Qed.

(** Running acceptances from a chat with flags [sa] and [sb]. *)
Lemma wp_accept_all chatID a b sids sa sb h w :
  let key := ChatPrefix +:+ chatID in
  let sa' := sa || bool_decide (a ∈ sids) in
  let sb' := sb || bool_decide (b ∈ sids) in
  a ≠ b → up w → wf_ks (keyspace w) →
  hash_of (keyspace w) key = Some h → acceptance h a b sa sb →
  wp (accept_all chatID sids) (λ rs w',
    up w' ∧ wf_ks (keyspace w') ∧
    (∃ h', hash_of (keyspace w') key = Some h' ∧ acceptance h' a b sa' sb') ∧
    length (filter (λ r, r = (1, None)) rs) =
      (if sa' && sb' && negb (sa && sb) then 1 else 0)%nat) w.
Proof.
  intros key sa' sb' Hab. unfold sa', sb'. clear sa' sb'. revert sa sb h w.
  induction sids as [|sid sids IH]; intros sa sb h w Hup Hwf Hh Hacc; cbn [accept_all].
  - wp_pure. rewrite !(bool_decide_false (_ ∈ [])), !orb_false_r by (by intros ?%elem_of_nil).
    split; [done|]. split; [done|]. split; [by eauto|]. by destruct sa, sb.
  - wp_pure. eapply wp_AcceptMatch; [done..|]. intros w1 Hup1 _ Hks. wp_pure.
    destruct (acceptance_step h a b sa sb sid Hab Hacc) as [Hacc1 Hr].
    eapply wp_mono.
    { eapply (IH _ _ (accept_hash h sid).2); [done| | |done].
      - rewrite Hks. by apply accept_ks_wf.
      - rewrite Hks. by apply accept_ks_hash. }
    intros rs w2 (Hup2 & Hwf2 & (h2 & Hh2 & Hacc2) & Hlen). wp_pure.
    assert (∀ s x, s || bool_decide (sid = x) || bool_decide (x ∈ sids) =
                   s || bool_decide (x ∈ sid :: sids)) as Hor.
    { intros s x. rewrite <-orb_assoc. f_equal. symmetry.
      rewrite (bool_decide_ext _ (sid = x ∨ x ∈ sids)) by (rewrite elem_of_cons; naive_solver).
      by rewrite bool_decide_or. }
    rewrite !Hor in *. split; [done|]. split; [done|]. split; [by eauto|].
    rewrite <-!Hor in Hlen |- *. clear -Hlen Hr. rewrite filter_cons.
    match goal with |- context [decide (?x = (1, None))] =>
      destruct (decide (x = (1, None))) as [Hd|Hd] end.
    + injection Hd as Hd. apply Hr in Hd as [Hd1 Hd2]. cbn [length]. rewrite Hlen, Hd1, Hd2.
      cbn. apply andb_true_iff in Hd1 as [-> ->]. done.
    + rewrite Hlen. destruct (sa && sb) eqn:E1.
      * by apply andb_true_iff in E1 as [-> ->].
      * cbn [negb]. rewrite andb_true_r.
        destruct ((sa || bool_decide (sid = a)) && (sb || bool_decide (sid = b))) eqn:E2.
        { exfalso. apply Hd. f_equal. by apply Hr. }
        by rewrite andb_true_r.
Qed.

(** C3: after the matcher creates a pending chat between two different users,
    whatever sessions call [AcceptMatch] and in whatever order, exactly one
    call returns 1 (the chat is now active) when both users are among the
    callers and none otherwise; the chat ends with status active exactly when
    both users called; and its users are still the matched pair. *)
Theorem match_activates_exactly_once (w : W) chatID a b sids :
  up w → wf_ks (keyspace w) → a ≠ b →
  wp (let! e := CreatePending chatID a b in
      let! rs := accept_all chatID sids in
      let! cs := Get chatID in
      ret (e, rs, cs))
     (λ out w', ∃ s,
        out.1.1 = None ∧ out.2 = Ok (Some s) ∧
        length (filter (λ r, r = (1, None)) out.1.2) =
          (if decide (a ∈ sids ∧ b ∈ sids) then 1 else 0)%nat ∧
        (Status s = StatusActive ↔ a ∈ sids ∧ b ∈ sids) ∧
        UserA s = a ∧ UserB s = b) w.
Proof.
  intros Hup Hwf Hab. wp_pure. apply wp_CreatePending; [done..|].
  intros w1 Hup1 _ Hwf1 _ Hh1 _. wp_pure. eapply wp_mono.
  { eapply (wp_accept_all chatID a b sids false false); [done..| |apply acceptance_pending].
    by rewrite <-Hh1; apply wf_hash; auto with go. }
  intros rs w2 (Hup2 & Hwf2 & (h2 & Hh2 & Hacc) & Hlen). wp_pure.
  apply wp_Get; [done..|]. intros w3 _. wp_pure. unfold hget. rewrite Hh2. cbn.
  destruct Hacc as (Ha & Hb & _ & _ & Hst). rewrite bool_decide_false.
  2:{ intros ->. done. }
  eexists. split; [done|]. split; [done|]. cbn in *.
  rewrite Ha, Hb, Hst, Hlen. cbn. rewrite andb_true_r.
  rewrite <-bool_decide_and. destruct (decide (a ∈ sids ∧ b ∈ sids)) as [Hd|Hd].
  - by rewrite bool_decide_true.
  - rewrite bool_decide_false by done. by repeat split.
Qed.
End accept_proofs.

(** A run: the partner, an outsider and both users call. *)
Definition demo_world : mem := mem_fresh 1700000000000.

Lemma match_activates_exactly_once_witness :
  up demo_world ∧
  wp (let! e := CreatePending "c1" "alice" "bob" in
      let! rs := accept_all "c1" ["bob"; "eve"; "alice"; "bob"] in
      let! cs := Get "c1" in
      ret (e, rs, cs))
     (λ out w', ∃ s,
        out.1.1 = None ∧ out.2 = Ok (Some s) ∧
        length (filter (λ r, r = (1, None)) out.1.2) =
          (if decide ("alice" ∈ ["bob"; "eve"; "alice"; "bob"] ∧
                      "bob" ∈ ["bob"; "eve"; "alice"; "bob"]) then 1 else 0)%nat ∧
        (Status s = StatusActive ↔
           "alice" ∈ ["bob"; "eve"; "alice"; "bob"] ∧ "bob" ∈ ["bob"; "eve"; "alice"; "bob"]) ∧
        UserA s = "alice" ∧ UserB s = "bob") demo_world.
Proof.
  split; [reflexivity|].
  apply (match_activates_exactly_once demo_world "c1" "alice" "bob" ["bob"; "eve"; "alice"; "bob"]);
    [reflexivity | apply map_Forall_empty | done].
Defined.

Example accept_codes :
  (accept_all "c1" ["bob"; "eve"; "alice"; "bob"] (CreatePending "c1" "alice" "bob" demo_world).2).1
  = [(0, None); (-3, None); (1, None); (-2, None)].
Proof. vm_compute. reflexivity. Qed.

Section store_theorems.
Context `{EnvLaws W}.
Implicit Types (w : W).

(** A pending chat reads back as it was created: both users, status
    pending_accept, the creation second, a deadline fifteen seconds later and
    no acceptance; whatever the hash of that id held before. *)
Theorem create_pending_roundtrip (w : W) chatID a b :
  up w → wf_ks (keyspace w) →
  min_int64 ≤ Unix (wall w) → Unix (wall w) + 15 ≤ max_int64 →
  wp (let! e := CreatePending chatID a b in
      let! cs := Get chatID in
      ret (e, cs))
     (λ out _, out = (None, Ok (Some (pending_session chatID a b (Unix (wall w)))))) w.
Proof.
  intros Hup Hwf Hlo Hhi. wp_pure. apply wp_CreatePending; [done..|].
  intros w1 Hup1 _ Hwf1 _ Hh1 _. wp_pure. apply wp_Get; [done..|].
  intros w2 _. wp_pure. rewrite Hh1, bool_decide_false by apply hset_nonempty.
  by rewrite session_of_pending.
Qed.

(** C34: the codes of [AcceptMatch] on a reachable store: -1 exactly without a
    status, -2 exactly when the chat is not pending, -3 exactly when a pending
    chat has the caller as neither user, and a negative code leaves the
    keyspace as it was; otherwise 0 or 1, and no field but the caller's flag
    and, with 1, the status has changed. *)
Theorem accept_match_codes (w : W) chatID sid h :
  up w → hash_of (keyspace w) (ChatPrefix +:+ chatID) = Some h →
  wp (AcceptMatch chatID sid) (λ r w',
    r.2 = None ∧
    (r.1 = -1 ↔ h !! "status" = None) ∧
    (r.1 = -2 ↔ ∃ st, h !! "status" = Some st ∧ st ≠ StatusPendingAccept) ∧
    (r.1 = -3 ↔ h !! "status" = Some StatusPendingAccept ∧
                h !! "user_a" ≠ Some sid ∧ h !! "user_b" ≠ Some sid) ∧
    (r.1 < 0 → keyspace w' = keyspace w) ∧
    (0 ≤ r.1 → r.1 ≤ 1 ∧ ∃ h', hash_of (keyspace w') (ChatPrefix +:+ chatID) = Some h' ∧
       ∀ f, h' !! f ≠ h !! f →
         f = "accepted_a" ∧ h !! "user_a" = Some sid ∨
         f = "accepted_b" ∧ h !! "user_b" = Some sid ∨
         f = "status" ∧ r.1 = 1)) w.
Proof.
  intros Hup Hh. eapply wp_AcceptMatch; [done..|]. intros w' _ _ Hks. cbn. rewrite Hks.
  rewrite (accept_ks_hash _ _ _ _ _ Hh).
  split; [done|]. unfold accept_ks, accept_hash.
  destruct (h !! "status") as [st|] eqn:Est; [|cbn; naive_solver lia].
  destruct (decide (st = "pending_accept")) as [->|Hst].
  2:{ rewrite bool_decide_true by done. cbn. naive_solver lia. }
  rewrite (bool_decide_false (_ ≠ _)) by (intros Hn; by apply Hn).
  destruct (decide (Some sid = h !! "user_a")) as [Ha|Ha];
    [|destruct (decide (Some sid = h !! "user_b")) as [Hb|Hb]].
  - rewrite (bool_decide_true (_ = h !! "user_a")) by done.
    destruct (bool_decide (_ ∧ _)); cbn; repeat split; try lia; try naive_solver;
      eexists; (split; [done|]); intros f Hf;
      repeat (rewrite lookup_insert in Hf; case_decide); naive_solver.
  - rewrite (bool_decide_false (_ = h !! "user_a")), (bool_decide_true (_ = h !! "user_b")) by done.
    destruct (bool_decide (_ ∧ _)); cbn; repeat split; try lia; try naive_solver;
      eexists; (split; [done|]); intros f Hf;
      repeat (rewrite lookup_insert in Hf; case_decide); naive_solver.
  - rewrite (bool_decide_false (_ = h !! "user_a")), (bool_decide_false (_ = h !! "user_b")) by done.
    cbn. naive_solver lia.
Qed.
End store_theorems.

Lemma create_pending_roundtrip_witness :
  up demo_world ∧
  wp (let! e := CreatePending "c1" "alice" "bob" in
      let! cs := Get "c1" in
      ret (e, cs))
     (λ out _, out = (None, Ok (Some (pending_session "c1" "alice" "bob" (Unix (wall demo_world))))))
     demo_world.
Proof.
  split; [reflexivity|].
  apply (create_pending_roundtrip demo_world "c1" "alice" "bob");
    [reflexivity | apply map_Forall_empty | vm_compute; discriminate | vm_compute; discriminate].
Defined.

Lemma accept_match_codes_witness :
  let w := (CreatePending "c1" "alice" "bob" demo_world).2 in
  ∃ h, hash_of (keyspace w) (ChatPrefix +:+ "c1") = Some h ∧
  wp (AcceptMatch "c1" "eve") (λ r w',
    r.2 = None ∧
    (r.1 = -1 ↔ h !! "status" = None) ∧
    (r.1 = -2 ↔ ∃ st, h !! "status" = Some st ∧ st ≠ StatusPendingAccept) ∧
    (r.1 = -3 ↔ h !! "status" = Some StatusPendingAccept ∧
                h !! "user_a" ≠ Some "eve" ∧ h !! "user_b" ≠ Some "eve") ∧
    (r.1 < 0 → keyspace w' = keyspace w) ∧
    (0 ≤ r.1 → r.1 ≤ 1 ∧ ∃ h', hash_of (keyspace w') (ChatPrefix +:+ "c1") = Some h' ∧
       ∀ f, h' !! f ≠ h !! f →
         f = "accepted_a" ∧ h !! "user_a" = Some "eve" ∨
         f = "accepted_b" ∧ h !! "user_b" = Some "eve" ∨
         f = "status" ∧ r.1 = 1)) w.
Proof.
  intros w. exists (hget (keyspace w) (ChatPrefix +:+ "c1")). split; [reflexivity|].
  apply (accept_match_codes w "c1" "eve"); reflexivity.
Defined.
