(* ===== verification/SessionStore.v ===== *)
(** * internal/session/store.go: session state in Redis

    A session is the hash [session:<id>] with a TTL of one hour.  The store is
    shown to implement an abstract session ([abs_step]): a record with a
    deadline that the TTL-refreshing operations move, which disappears when the
    deadline passes or it is deleted, and which no other operation than
    [Create] brings back. *)

From stdpp Require Import base gmap strings list sorting numbers.
From S2P Require Import Prelude GoStd Json Env Keys MemEnv.
Open Scope Z_scope.

Definition SessionPrefix : string := "session:".
Definition SessionTTL : Z := 1 * Hour.
Definition StatusIdle : string := "idle".
Definition StatusMatching : string := "matching".
Definition StatusChatting : string := "chatting".

Record Session : Type := {
  ID : string;
  Status : string;
  ChatID : string;
  Server : string;
  Interests : string;
  Fingerprint : string;
  CreatedAt : Z;
  LastActive : Z;
}.

(** [Scan] of a hash into the struct: missing fields keep their zero value, a
    number that does not parse is an error. *)
Definition scan_int (h : gmap string string) (f : string) : option Z :=
  match h !! f with
  | None => Some 0
  | Some s => match ParseInt s with (n, false) => Some n | (_, true) => None end
  end.

Definition scan_session (h : gmap string string) : res Session :=
  let f k := default "" (h !! k) in
  match scan_int h "created_at", scan_int h "last_active" with
  | Some c, Some l =>
      Ok {| ID := f "id"; Status := f "status"; ChatID := f "chat_id"; Server := f "server";
            Interests := f "interests"; Fingerprint := f "fingerprint";
            CreatedAt := c; LastActive := l |}
  | _, _ => Err "cannot scan redis.result into struct field"
  end.

Definition err_of {A} (r : res A) : option error :=
  match r with Ok _ => None | Err e => Some e end.

Section store.
Context `{Env W}.
(** The name of this WebSocket server instance. *)
Context (serverName : string).

Definition Create (sessionID : string) : M W (option error) :=
  let key := SessionPrefix +:+ sessionID in
  let! t := now_ms in
  let now := Unix t in
  let session :=
    [("id", sessionID); ("status", StatusIdle); ("chat_id", ""); ("server", serverName);
     ("interests", ""); ("fingerprint", ""); ("created_at", itoa now); ("last_active", itoa now)] in
  pipeline [HSET key session; EXPIRE key SessionTTL].

Definition Get (sessionID : string) : M W (res (option Session)) :=
  let key := SessionPrefix +:+ sessionID in
  let! r := rd (HGETALL key) in
  ret match r with
      | Err e => Err e
      | Ok h =>
          match scan_session h with
          | Err e => Err e
          | Ok session => if bool_decide (ID session = "") then Ok None else Ok (Some session)
          end
      end.

Definition UpdateStatus (sessionID status : string) : M W (option error) :=
  let key := SessionPrefix +:+ sessionID in
  let! t := now_ms in
  pipeline [HSET key [("status", status); ("last_active", itoa (Unix t))]; EXPIRE key SessionTTL].

Definition SetInterests (sessionID interests : string) : M W (option error) :=
  let key := SessionPrefix +:+ sessionID in
  let! t := now_ms in
  let! r := rd (Do (HSET key [("interests", interests); ("last_active", itoa (Unix t))])) in
  ret (err_of r).

Definition SetChatID (sessionID chatID : string) : M W (option error) :=
  let key := SessionPrefix +:+ sessionID in
  let! t := now_ms in
  let! r := rd (Do (HSET key [("chat_id", chatID); ("status", StatusChatting);
                              ("last_active", itoa (Unix t))])) in
  ret (err_of r).

Definition ClearChatID (sessionID : string) : M W (option error) :=
  let key := SessionPrefix +:+ sessionID in
  let! t := now_ms in
  let! r := rd (Do (HSET key [("chat_id", ""); ("status", StatusIdle);
                              ("last_active", itoa (Unix t))])) in
  ret (err_of r).

Definition SetFingerprint (sessionID fingerprint : string) : M W (option error) :=
  let key := SessionPrefix +:+ sessionID in
  let! r := rd (Do (HSET key [("fingerprint", fingerprint)])) in
  ret (err_of r).

Definition RefreshTTL (sessionID : string) : M W (option error) :=
  let key := SessionPrefix +:+ sessionID in
  let! r := rd (Do (EXPIRE key SessionTTL)) in
  ret (err_of r).

Definition Delete (sessionID : string) : M W (option error) :=
  let key := SessionPrefix +:+ sessionID in
  let! r := rd (Do (DEL key)) in
  ret (err_of r).
End store.

Lemma schema_session id : schema (SessionPrefix +:+ id) = Some KHash.
Proof. by destruct id. Qed.
#[export] Hint Resolve schema_session : go.

(** ** The abstract session *)

Inductive sess_op : Type :=
  | OpCreate
  | OpStatus (status : string)
  | OpInterests (interests : string)
  | OpSetChat (chatID : string)
  | OpClearChat
  | OpFingerprint (fp : string)
  | OpRefresh
  | OpDelete
  | OpWait (ms : Z).

Definition fresh_session (server id : string) (now : Z) : Session :=
  {| ID := id; Status := StatusIdle; ChatID := ""; Server := server; Interests := "";
     Fingerprint := ""; CreatedAt := now; LastActive := now |}.

Definition touch (s : Session) (status chat interests fp : string) (now : Z) : Session :=
  {| ID := ID s; Status := status; ChatID := chat; Server := Server s; Interests := interests;
     Fingerprint := fp; CreatedAt := CreatedAt s; LastActive := now |}.

(** A live session and the time at which it expires; [clk] is the clock of
    the deadline, [now] the local time in seconds. *)
Definition abs_step (server id : string) (clk now : Z) (op : sess_op) (o : option (Session * Z))
    : option (Session * Z) :=
  match op, o with
  | OpCreate, _ => Some (fresh_session server id now, clk + 3600000)
  | _, None | OpDelete, _ => None
  | OpStatus st, Some (s, _) =>
      Some (touch s st (ChatID s) (Interests s) (Fingerprint s) now, clk + 3600000)
  | OpInterests i, Some (s, d) => Some (touch s (Status s) (ChatID s) i (Fingerprint s) now, d)
  | OpSetChat c, Some (s, d) => Some (touch s StatusChatting c (Interests s) (Fingerprint s) now, d)
  | OpClearChat, Some (s, d) => Some (touch s StatusIdle "" (Interests s) (Fingerprint s) now, d)
  | OpFingerprint fp, Some (s, d) =>
      Some (touch s (Status s) (ChatID s) (Interests s) fp (LastActive s), d)
  | OpRefresh, Some (s, _) => Some (s, clk + 3600000)
  | OpWait ms, Some (s, d) => if bool_decide (clk + ms < d) then Some (s, d) else None
  end.

Definition op_wait (op : sess_op) : Z := match op with OpWait ms => ms | _ => 0 end.

Fixpoint abs_run (server id : string) (clk t : Z) (ops : list sess_op) (o : option (Session * Z))
    : option (Session * Z) :=
  match ops with
  | [] => o
  | op :: ops =>
      abs_run server id (clk + op_wait op) (t + op_wait op) ops
        (abs_step server id clk (Unix t) op o)
  end.

(** The same operations on the store; [None] when one of them reports an
    error. *)
Definition sess_do `{Env W} (server id : string) (op : sess_op) : M W (option error) :=
  match op with
  | OpCreate => Create server id
  | OpStatus st => UpdateStatus id st
  | OpInterests i => SetInterests id i
  | OpSetChat c => SetChatID id c
  | OpClearChat => ClearChatID id
  | OpFingerprint fp => SetFingerprint id fp
  | OpRefresh => RefreshTTL id
  | OpDelete => Delete id
  | OpWait ms => λ w, (None, elapse ms w)
  end.

Fixpoint sess_run `{Env W} (server id : string) (ops : list sess_op) : M W (option error) :=
  match ops with
  | [] => ret None
  | op :: ops =>
      let! e := sess_do server id op in
      match e with Some e => ret (Some e) | None => sess_run server id ops end
  end.

(** ** The store implements the abstract session *)

Definition int64 (z : Z) : Prop := min_int64 ≤ z ≤ max_int64.

(** The hash of a session. *)
Definition hash_is (h : gmap string string) (s : Session) : Prop :=
  h !! "id" = Some (ID s) ∧ h !! "status" = Some (Status s) ∧
  h !! "chat_id" = Some (ChatID s) ∧ h !! "server" = Some (Server s) ∧
  h !! "interests" = Some (Interests s) ∧ h !! "fingerprint" = Some (Fingerprint s) ∧
  h !! "created_at" = Some (itoa (CreatedAt s)) ∧ h !! "last_active" = Some (itoa (LastActive s)) ∧
  int64 (CreatedAt s) ∧ int64 (LastActive s).

(** What may be left under the key of a session that is gone: fields written
    by the operations that do not look whether it exists, never an id. *)
Definition hash_gone (h : gmap string string) : Prop :=
  h !! "id" = None ∧ h !! "created_at" = None ∧
  (h !! "last_active" = None ∨ ∃ n, int64 n ∧ h !! "last_active" = Some (itoa n)).

(** The hash of a session id, live or gone. *)
Definition id_hash (id : string) (o : option Session) (h : gmap string string) : Prop :=
  match o with Some s => hash_is h s ∧ ID s = id | None => hash_gone h end.

Definition represents (ks : keyspace_t) (id : string) (o : option (Session * Z)) : Prop :=
  wf_ks ks ∧ id_hash id (fst <$> o) (hget ks (SessionPrefix +:+ id)) ∧
  match o with Some (_, d) => exp_of ks (SessionPrefix +:+ id) = Some d | None => True end.

Lemma scan_is h s : hash_is h s → scan_session h = Ok s.
Proof.
  intros (Hi & Hst & Hc & Hsv & Hin & Hfp & Hca & Hla & H1 & H2).
  unfold scan_session, scan_int. rewrite Hca, Hla, !ParseInt_itoa by done.
  rewrite Hi, Hst, Hc, Hsv, Hin, Hfp. by destruct s.
Qed.

Lemma scan_gone h : hash_gone h → ∃ s, scan_session h = Ok s ∧ ID s = "".
Proof.
  intros (Hi & Hc & Hl). unfold scan_session, scan_int. rewrite Hc, Hi.
  destruct Hl as [->|(n & Hn & ->)]; [|rewrite ParseInt_itoa by done]; by eexists.
Qed.

Lemma hget_insert ks k h e : hget (<[k := Entry (VHash h) e]> ks) k = h.
Proof. unfold hget, hash_of. by rewrite lookup_insert_eq. Qed.

(** A TTL set on the key. *)
Lemma represents_expire now ks id o ks' :
  represents ks id o →
  apply_w now (EXPIRE (SessionPrefix +:+ id) SessionTTL) ks = Some ks' →
  represents ks' id (match o with Some (s, _) => Some (s, now + 3600000) | None => None end).
Proof.
  intros (Hwf & Hh & He) E.
  assert (typed (EXPIRE (SessionPrefix +:+ id) SessionTTL)) as Ht by done.
  destruct (apply_w_typed now _ _ Hwf Ht) as (ks1 & E1 & Hwf1). rewrite E in E1.
  injection E1 as <-. split; [done|]. rewrite (apply_w_hget _ _ _ _ _ E Ht). unfold w_hget.
  rewrite bool_decide_true by done. split; [by destruct o as [[]|]|].
  destruct o as [[s d]|]; [|done]. cbn in E. injection E as <-. unfold exp_of in *.
  destruct (ks !! (SessionPrefix +:+ id)) as [e|]; [|done]. by rewrite lookup_insert_eq.
Qed.

Lemma represents_elapse now ks id o :
  represents ks id o →
  represents (expire_keys now ks) id
    (match o with Some (s, d) => if bool_decide (now < d) then Some (s, d) else None | None => None end).
Proof.
  intros (Hwf & Hh & He). split.
  { intros k e [Hk _]%map_lookup_filter_Some. by apply (wf_lookup _ _ _ Hwf). }
  assert (hash_gone ∅) as Hg by (repeat split; by left).
  unfold expire_keys, hget, hash_of, exp_of in *. destruct o as [[s d]|].
  - destruct (ks !! _) as [[v ?]|] eqn:Hk; [cbn in He; subst|done]. case_bool_decide as Hd.
    + by rewrite (proj2 (map_lookup_filter_Some _ _ _ _) (conj Hk Hd)).
    + rewrite (proj2 (map_lookup_filter_None _ _ _)); [done|].
      right. intros e He' Hl. simplify_eq. by apply Hd.
  - destruct (filter _ ks !! _) as [e|] eqn:E; [|done].
    apply map_lookup_filter_Some in E as [E _]. by rewrite E in Hh.
Qed.

(** Field-by-field checks of a written hash. *)
Ltac solve_hash :=
  unfold id_hash, hash_is, hash_gone, int64 in *; cbn in *;
  repeat match goal with H : _ ∧ _ |- _ => destruct H end;
  repeat split; cbn; hash_simpl; try done; try lia; eauto.

Section refinement.
Context `{EnvLaws W}.
Implicit Types (w : W).

(** Fields written with the TTL kept: what is left to check is the hash. *)
Lemma wp_hset_do (id : string) fs o (f : Session → Session) (Q : option error → W → Prop) w :
  up w → represents (keyspace w) id o →
  (∀ h, id_hash id (fst <$> o) h → id_hash id (f ∘ fst <$> o) (hset fs h)) →
  (∀ w', up w' → frame w w' → represents (keyspace w') id (prod_map f (λ d, d) <$> o) → Q None w') →
  wp (let! r := rd (Do (HSET (SessionPrefix +:+ id) fs)) in ret (err_of r)) Q w.
Proof.
  intros Hup (Hwf & Hh & He) Hfs HQ. wp_pure.
  eapply wp_do; [done|apply apply_hset, wf_hash; auto with go|].
  intros w' Hup' Hf Hk. wp_pure. apply HQ; [done..|]. rewrite Hk. unfold put. split.
  { apply wf_insert; [done|]. apply schema_session. }
  rewrite hget_insert. split; [destruct o as [[]|]; by apply Hfs|].
  destruct o as [[s d]|]; [|done]. cbn. unfold exp_of. by rewrite lookup_insert_eq.
Qed.

(** Fields written and the TTL renewed. *)
Lemma wp_hset_pipe (id : string) fs o (o' : option Session) (Q : option error → W → Prop) w :
  up w → represents (keyspace w) id o →
  (∀ h, id_hash id (fst <$> o) h → id_hash id o' (hset fs h)) →
  (∀ w', up w' → frame w w' →
     represents (keyspace w') id ((λ s, (s, rclock w + 3600000)) <$> o') → Q None w') →
  wp (pipeline [HSET (SessionPrefix +:+ id) fs; EXPIRE (SessionPrefix +:+ id) SessionTTL]) Q w.
Proof.
  intros Hup (Hwf & Hh & He) Hfs HQ.
  eapply wp_pipeline; [done|apply apply_hset_expire; [apply wf_hash; auto with go|done]|].
  intros w' Hup' Hf Hk. apply HQ; [done..|]. rewrite Hk. split.
  { apply wf_insert; [done|]. apply schema_session. }
  rewrite hget_insert. split; [destruct o'; by apply Hfs|].
  destruct o'; [|done]. cbn. unfold exp_of. by rewrite lookup_insert_eq.
Qed.

Lemma wp_sess_do server id op o (Q : option error → W → Prop) w :
  up w → represents (keyspace w) id o → int64 (Unix (wall w)) → 0 ≤ op_wait op →
  (∀ w', up w' → rclock w' = rclock w + op_wait op → wall w' = wall w + op_wait op →
     represents (keyspace w') id (abs_step server id (rclock w) (Unix (wall w)) op o) →
     Q None w') →
  wp (sess_do server id op) Q w.
Proof.
  intros Hup Hr Ht Hw HQ. set (now := Unix (wall w)) in *.
  assert (∀ o' w', up w' → frame w w' → op_wait op = 0 →
            represents (keyspace w') id o' →
            o' = abs_step server id (rclock w) now op o → Q None w') as HQ'.
  { intros o' w' Hu (?&?&?) Hz Hr' ->. rewrite Hz, !Z.add_0_r in HQ. by apply HQ. }
  destruct op; cbn [sess_do op_wait] in *; unfold Create, UpdateStatus, SetInterests, SetChatID,
    ClearChatID, SetFingerprint, RefreshTTL, Delete; cbv zeta;
    try (apply wp_bind, wp_now; cbv beta).
  - eapply (wp_hset_pipe _ _ _ (Some (fresh_session server id now))); [done..| |].
    + intros h _. by solve_hash.
    + intros w' ???. by eapply HQ'.
  - eapply (wp_hset_pipe _ _ _
      ((λ p, touch p.1 status (ChatID p.1) (Interests p.1) (Fingerprint p.1) now) <$> o)); [done..| |].
    + intros h Hh. destruct o as [[]|]; by solve_hash.
    + intros w' ???. eapply HQ'; [done..|]. by destruct o as [[]|].
  - eapply (wp_hset_do _ _ _ (λ s, touch s (Status s) (ChatID s) interests (Fingerprint s) now)); [done..| |].
    + intros h Hh. destruct o as [[]|]; by solve_hash.
    + intros w' ???. eapply HQ'; [done..|]. by destruct o as [[]|].
  - eapply (wp_hset_do _ _ _ (λ s, touch s StatusChatting chatID (Interests s) (Fingerprint s) now)); [done..| |].
    + intros h Hh. destruct o as [[]|]; by solve_hash.
    + intros w' ???. eapply HQ'; [done..|]. by destruct o as [[]|].
  - eapply (wp_hset_do _ _ _ (λ s, touch s StatusIdle "" (Interests s) (Fingerprint s) now)); [done..| |].
    + intros h Hh. destruct o as [[]|]; by solve_hash.
    + intros w' ???. eapply HQ'; [done..|]. by destruct o as [[]|].
  - eapply (wp_hset_do _ _ _ (λ s, touch s (Status s) (ChatID s) (Interests s) fp (LastActive s))); [done..| |].
    + intros h Hh. destruct o as [[]|]; by solve_hash.
    + intros w' ???. eapply HQ'; [done..|]. by destruct o as [[]|].
  - wp_pure. eapply wp_do; [done|done|]. intros w' Hup' Hf Hk. wp_pure.
    eapply HQ'; [done..|eapply represents_expire; [done|by rewrite Hk]|]. by destruct o as [[]|].
  - wp_pure. eapply wp_do; [done|done|]. intros w' Hup' Hf Hk. wp_pure.
    eapply (HQ' None); [done..| |by destruct o as [[]|]]. rewrite Hk. destruct Hr as (Hwf & _).
    split; [by apply wf_delete|]. unfold hget, hash_of. rewrite lookup_delete_eq. split; [|done].
    repeat split; by left.
  - unfold wp. cbn. destruct (elapse_spec ms w Hw) as (Hk & Hc & Hwl & _ & Hu).
    apply HQ; [auto|done..|]. rewrite Hk. eapply (represents_elapse (rclock w + ms)) in Hr.
    destruct o as [[s d]|]; cbn in *; [|done]. by case_bool_decide.
Qed.
End refinement.

Section session_theorems.
Context `{EnvLaws W}.
Implicit Types (w : W).

Definition total_wait (ops : list sess_op) : Z := foldr (λ op n, op_wait op + n) 0 ops.

Lemma wp_sess_run server id ops o (Q : option error → W → Prop) w :
  up w → represents (keyspace w) id o → Forall (λ op, 0 ≤ op_wait op) ops →
  min_int64 ≤ Unix (wall w) → Unix (wall w + total_wait ops) ≤ max_int64 →
  (∀ w', up w' →
     represents (keyspace w') id (abs_run server id (rclock w) (wall w) ops o) → Q None w') →
  wp (sess_run server id ops) Q w.
Proof.
  revert o w. induction ops as [|op ops IH]; intros o w Hup Hr Hops Hlo Hhi HQ; cbn [sess_run].
  { apply wp_ret. by apply HQ. }
  inversion_clear Hops as [|?? Hop Hops']. cbn [total_wait foldr] in Hhi.
  fold (total_wait ops) in Hhi.
  assert (0 ≤ total_wait ops) as Hnn.
  { clear -Hops'. induction Hops'; unfold total_wait in *; cbn in *; lia. }
  wp_pure. eapply wp_sess_do; [done..| |done|].
  { split; [done|]. etrans; [|exact Hhi]. unfold Unix. apply Z.div_le_mono; lia. }
  intros w1 Hup1 Hc1 Hw1 Hr1. wp_pure. eapply IH; [done..| | |].
  - rewrite Hw1. etrans; [exact Hlo|]. unfold Unix. apply Z.div_le_mono; lia.
  - by rewrite Hw1, <-Z.add_assoc.
  - intros w2 Hup2 Hr2. rewrite Hc1, Hw1 in Hr2. by apply HQ.
Qed.

(** C20: the session store implements the abstract session: after any sequence
    of store operations and waits on a session id that is not in use, no
    operation reports an error and [Get] returns the session of the abstract
    run: the last [Create] with the updates since then, and nil when it was
    deleted or when an hour passed after the last operation that renews the
    TTL. *)
Theorem session_store_refines (w : W) server id ops :
  up w → wf_ks (keyspace w) → id ≠ "" → keyspace w !! (SessionPrefix +:+ id) = None →
  Forall (λ op, 0 ≤ op_wait op) ops →
  min_int64 ≤ Unix (wall w) → Unix (wall w + total_wait ops) ≤ max_int64 →
  wp (let! e := sess_run server id ops in
      let! s := Get id in
      ret (e, s))
     (λ out _, out = (None, Ok (fst <$> abs_run server id (rclock w) (wall w) ops None))) w.
Proof.
  intros Hup Hwf Hid Hk Hops Hlo Hhi. wp_pure. eapply (wp_sess_run _ _ _ None); [done| |done..|].
  { split; [done|]. split; [|done]. unfold hget, hash_of. rewrite Hk. repeat split. by left. }
  intros w1 Hup1 (Hwf1 & Hh & He). wp_pure. unfold Get. wp_pure.
  eapply wp_hgetall; [done|apply wf_hash; auto with go|]. intros w2 _. wp_pure.
  destruct (abs_run _ _ _ _ _ _) as [[s d]|]; cbn in Hh |- *.
  - destruct Hh as [Hh Hi]. rewrite (scan_is _ _ Hh), bool_decide_false by congruence. done.
  - destruct (scan_gone _ Hh) as (s & -> & ->). done.
Qed.

(** [SetChatID] (and likewise [ClearChatID]) on a session that is gone
    reports success and brings its key back without an id and without a TTL,
    so that the key stays until it is deleted or its id is created again. *)
Theorem write_after_delete_leaks (w : W) server id chatID ms :
  up w → wf_ks (keyspace w) → keyspace w !! (SessionPrefix +:+ id) = None → 0 ≤ ms →
  wp (sess_run server id [OpSetChat chatID; OpWait ms])
     (λ e w', e = None ∧ ∃ h, keyspace w' !! (SessionPrefix +:+ id) = Some (Entry (VHash h) None) ∧
                h !! "id" = None ∧ h !! "chat_id" = Some chatID) w.
Proof.
  intros Hup Hwf Hk Hms. cbn [sess_run sess_do]. unfold SetChatID. wp_pure. apply wp_now. wp_pure.
  eapply wp_do; [done|apply apply_hset, wf_hash; auto with go|]. intros w1 Hup1 Hf Hk1. wp_pure.
  cbn [err_of]. wp_pure. unfold wp. cbn. split; [done|].
  destruct (elapse_spec ms w1 Hms) as (-> & _).
  eexists. split.
  { apply map_lookup_filter_Some. rewrite Hk1. unfold put, exp_of.
    rewrite lookup_insert_eq, Hk. by split. }
  hash_simpl. unfold hget, hash_of. by rewrite Hk.
Qed.
End session_theorems.

Definition session_world : mem := mem_fresh 1700000000000.

Lemma session_store_refines_witness :
  let ops := [OpCreate; OpStatus StatusMatching; OpWait 3000000; OpSetChat "c1"; OpWait 599999] in
  abs_run "ws-1" "alice" 1700000000000 1700000000000 ops None ≠ None ∧
  wp (let! e := sess_run "ws-1" "alice" ops in
      let! s := Get "alice" in
      ret (e, s))
     (λ out _, out = (None, Ok (fst <$> abs_run "ws-1" "alice" (rclock session_world)
                                  (wall session_world) ops None))) session_world.
Proof.
  intros ops. split; [by vm_compute|].
  apply (session_store_refines session_world "ws-1" "alice" ops);
    [reflexivity | apply map_Forall_empty | done | reflexivity
    | repeat constructor; vm_compute; discriminate
    | vm_compute; discriminate | vm_compute; discriminate].
Defined.

Lemma write_after_delete_leaks_witness :
  wp (sess_run "ws-1" "alice" [OpSetChat "c1"; OpWait 864000000])
     (λ e w', e = None ∧ ∃ h, keyspace w' !! (SessionPrefix +:+ "alice") = Some (Entry (VHash h) None) ∧
                h !! "id" = None ∧ h !! "chat_id" = Some "c1") session_world.
Proof.
  apply (write_after_delete_leaks session_world "ws-1" "alice" "c1" 864000000);
    [reflexivity | apply map_Forall_empty | reflexivity | lia].
Defined.
