(* ===== verification/RateLimit.v ===== *)
(** * internal/ratelimit/limiter.go: the Redis-backed rate limiter

    [Allow] and [Remaining] refine a fixed window counter ([window_run]): the
    window opens at the first request and the counter restarts when it ends. *)

From stdpp Require Import base gmap strings list sorting numbers.
From S2P Require Import Prelude GoStd Json Env Keys MemEnv Counters.
Open Scope Z_scope.

Record Rule : Type := { Key : string; Limit : Z; Window : Z }.

Definition RuleMessage : Rule := {| Key := "rl:msg:"; Limit := 5; Window := 10 * Second |}.
Definition RuleMatch : Rule := {| Key := "rl:match:"; Limit := 10; Window := 1 * Minute |}.
Definition RuleConnect : Rule := {| Key := "rl:conn:"; Limit := 5; Window := 1 * Minute |}.

Section limiter.
Context `{Env W}.

Definition Allow (identifier : string) (rule : Rule) : M W (bool * option error) :=
  let key := Key rule +:+ identifier in
  let! r := rd (INCR key) in
  match r with
  | Err err => ret (true, Some err)
  | Ok count =>
      let! r := (if bool_decide (count = 1) then rd (Do (EXPIRE key (Window rule)))
                 else ret (Ok tt)) in
      match r with
      | Err err =>
          do! rd (Do (DEL key)) in
          ret (true, Some err)
      | Ok _ =>
          if bool_decide (count > Limit rule) then ret (false, None)
          else ret (true, None)
      end
  end.

Definition Remaining (identifier : string) (rule : Rule) : M W (Z * option error) :=
  let key := Key rule +:+ identifier in
  let! r := get_int64 key in
  match r with
  | Ok None => ret (Limit rule, None)
  | Err err => ret (Limit rule, Some err)
  | Ok (Some count) =>
      let remaining := wrap64 (Limit rule - count) in
      let remaining := if bool_decide (remaining < 0) then 0 else remaining in
      ret (remaining, None)
  end.
End limiter.

(** ** The fixed window *)

(** Requests, each after a wait: the answers and the counter they leave. *)
Fixpoint window_run (rule : Rule) (clk : Z) (waits : list Z) (o : ctr) : list bool * ctr :=
  match waits with
  | [] => ([], o)
  | d :: waits =>
      let o1 := ctr_bump (clk + d) (Window rule) (ctr_wait (clk + d) o) in
      let '(bs, o') := window_run rule (clk + d) waits o1 in
      (bool_decide (ctr_count o1 ≤ Limit rule) :: bs, o')
  end.

Fixpoint allow_run `{Env W} (identifier : string) (rule : Rule) (waits : list Z)
    : M W (list (bool * option error)) :=
  match waits with
  | [] => ret []
  | d :: waits => λ w,
      (let! b := Allow identifier rule in
       let! bs := allow_run identifier rule waits in
       ret (b :: bs)) (elapse d w)
  end.

(** Inside one window the answers are the first [Limit] requests. *)
Lemma window_run_inside rule clk waits n e :
  Forall (λ d, 0 ≤ d) waits → foldr Z.add clk waits < e →
  window_run rule clk waits (Some (n, e)) =
  ((λ i, bool_decide (n + Z.of_nat i ≤ Limit rule)) <$> seq 1 (length waits),
   Some (n + Z.of_nat (length waits), e)).
Proof.
  intros Hw. revert clk n. induction Hw as [|d waits Hd Hw IH]; intros clk n He; cbn.
  { by rewrite Z.add_0_r. }
  assert (clk + d ≤ foldr Z.add (clk + d) waits) as Hge.
  { clear -Hw. generalize (clk + d). intros z. induction Hw; cbn; lia. }
  assert (∀ a, foldr Z.add (clk + a) waits = a + foldr Z.add clk waits) as Hfold.
  { clear. intros a. induction waits as [|x xs IH]; cbn; lia. }
  cbn in He. rewrite bool_decide_true by (rewrite Hfold in Hge; lia). cbn.
  rewrite IH by (rewrite Hfold; lia). f_equal.
  - rewrite <-(fmap_S_seq 1), <-list_fmap_compose. f_equal. apply list_fmap_ext.
    intros _ i _. cbn. apply bool_decide_ext. lia.
  - do 2 f_equal. lia.
Qed.

Section theorems.
Context `{EnvLaws W}.
Implicit Types (w : W).

Lemma wp_Allow identifier rule o (Q : bool * option error → W → Prop) w :
  up w → ctr_is (keyspace w) (Key rule +:+ identifier) o → ctr_count o < max_int64 →
  0 < Window rule →
  (∀ w', up w' → frame w w' →
     ctr_is (keyspace w') (Key rule +:+ identifier) (ctr_bump (rclock w) (Window rule) o) →
     (∀ k, k ≠ Key rule +:+ identifier → keyspace w' !! k = keyspace w !! k) →
     Q (bool_decide (ctr_count o + 1 ≤ Limit rule), None) w') →
  wp (Allow identifier rule) Q w.
Proof.
  intros Hup Ho Hlt Hwin HQ.
  refine (wp_bump _ _ _ _ (λ count, if bool_decide (count > Limit rule) then _ else _)
            o Q w Hup Ho Hlt Hwin _).
  intros w' Hup' Hf Ho' Hk. specialize (HQ w' Hup' Hf Ho' Hk).
  destruct (decide (ctr_count o + 1 ≤ Limit rule)).
  - rewrite bool_decide_false by lia. rewrite bool_decide_true in HQ by lia. by apply wp_ret.
  - rewrite bool_decide_true by lia. rewrite bool_decide_false in HQ by lia. by apply wp_ret.
Qed.

Lemma wp_allow_run identifier rule waits o (Q : list (bool * option error) → W → Prop) w :
  up w → ctr_is (keyspace w) (Key rule +:+ identifier) o → 0 < Window rule →
  Forall (λ d, 0 ≤ d) waits → 0 ≤ ctr_count o → ctr_count o + Z.of_nat (length waits) < max_int64 →
  (∀ w', up w' → rclock w' = foldl Z.add (rclock w) waits →
     ctr_is (keyspace w') (Key rule +:+ identifier) (window_run rule (rclock w) waits o).2 →
     Q ((λ b, (b, None)) <$> (window_run rule (rclock w) waits o).1) w') →
  wp (allow_run identifier rule waits) Q w.
Proof.
  intros Hup Ho Hwin Hw. revert o w Q Hup Ho.
  induction Hw as [|d waits Hd Hw IH]; intros o w Q Hup Ho Hnn Hlt HQ; cbn [allow_run].
  { apply wp_ret. by apply HQ. }
  destruct (elapse_spec d w Hd) as (Hk & Hc & _ & _ & Hu). cbn [length] in Hlt.
  pose proof (ctr_count_wait (rclock w + d) o Hnn) as Hcw.
  change (wp ?m Q w) with (wp (let! b := Allow identifier rule in
     let! bs := allow_run identifier rule waits in ret (b :: bs)) Q (elapse d w)).
  wp_pure. eapply (wp_Allow _ _ (ctr_wait (rclock w + d) o)); [auto| |lia|done|].
  { rewrite Hk. by apply ctr_is_expire. }
  intros w1 Hup1 (Hc1 & _) Ho1 _. rewrite Hc in *. wp_pure.
  eapply IH; [done|exact Ho1|rewrite ctr_count_bump; lia|rewrite ctr_count_bump; lia|].
  intros w2 Hup2 Hc2 Ho2. wp_pure. rewrite Hc1 in *. specialize (HQ w2 Hup2).
  cbn [window_run foldl] in HQ. rewrite ctr_count_bump in HQ.
  destruct (window_run rule (rclock w + d) waits _) as [bs o']. apply HQ; [done|]. exact Ho2.
Qed.

(** C24: the limiter is a fixed window counter: for requests of one identifier
    at any times, starting with no counter, every answer of [Allow] is the
    answer of the window (allowed while at most [Limit] requests have been made
    since the window's first one, with a new window after it ends), without
    error. *)
Theorem allow_refines_window (w : W) identifier rule waits :
  up w → keyspace w !! (Key rule +:+ identifier) = None → 0 < Window rule →
  Forall (λ d, 0 ≤ d) waits → Z.of_nat (length waits) < max_int64 →
  wp (allow_run identifier rule waits)
     (λ bs _, bs = (λ b, (b, None)) <$> (window_run rule (rclock w) waits None).1) w.
Proof. intros. eapply (wp_allow_run _ _ _ None); [done..|cbn; lia|cbn; lia|done]. Qed.

(** However many requests arrive within one window, exactly the first
    [Limit] of them are allowed. *)
Theorem allow_exactly_limit (w : W) identifier rule waits :
  up w → keyspace w !! (Key rule +:+ identifier) = None → 0 < Window rule →
  Forall (λ d, 0 ≤ d) waits → Z.of_nat (length waits) + 1 < max_int64 →
  foldr Z.add 0 waits < Z.quot (Window rule) Millisecond →
  wp (allow_run identifier rule (0 :: waits))
     (λ bs _, fst <$> bs =
        (λ i, bool_decide (Z.of_nat i ≤ Limit rule)) <$> seq 1 (S (length waits))) w.
Proof.
  intros Hup Hk Hwin Hw Hlen Hsum. set (waits0 := waits) in *.
  eapply (wp_allow_run _ _ (0 :: waits0) None); [done|done|done|by constructor|cbn; lia|cbn [ctr_count length]; lia|].
  intros w' _ _ _. cbn [window_run ctr_wait ctr_bump].
  rewrite Z.add_0_r, window_run_inside; [|done|].
  - cbn. rewrite <-list_fmap_compose. f_equal. rewrite <-(fmap_S_seq 1), <-!list_fmap_compose.
    apply list_fmap_ext. intros _ i _. cbn. apply bool_decide_ext. lia.
  - assert (∀ a, foldr Z.add a waits0 = a + foldr Z.add 0 waits0) as ->.
    { clear. intros a. induction waits0 as [|x xs IH]; cbn; lia. }
    lia.
Qed.

(** On any world, reachable or not, [Allow] that reports an error allows
    the request, and it denies only when the counter really had reached the
    limit. *)
Theorem allow_fails_open (w : W) identifier rule :
  wp (Allow identifier rule)
     (λ r _, (r.2 ≠ None → r.1 = true) ∧
             (r.1 = false → ∃ n, counter_of (keyspace w) (Key rule +:+ identifier) = Some n ∧
                                 Limit rule ≤ n)) w.
Proof.
  unfold Allow. wp_pure. apply wp_rd_any.
  2:{ intros e w' _. wp_pure. done. }
  intros count w' _ (n & Hn & _ & -> & _). wp_pure.
  assert (∀ w2, wp (if bool_decide (n + 1 > Limit rule) then ret (false, None) else ret (true, None))
    (λ r (_ : W), (r.2 ≠ @None error → r.1 = true) ∧
       (r.1 = false → ∃ n, counter_of (keyspace w) (Key rule +:+ identifier) = Some n ∧
          Limit rule ≤ n)) w2) as Hend.
  { intros w2. case_bool_decide; apply wp_ret; (split; [done|]); [|done].
    intros _. exists n. split; [done|lia]. }
  destruct (bool_decide (n + 1 = 1)); [|wp_pure; by apply Hend].
  apply wp_rd_any; [intros _ w2 _ _; wp_pure; by apply Hend|].
  intros e w2 _. wp_pure. apply wp_intro. intros r w3 _. apply wp_ret. by split.
Qed.

(** [Remaining] predicts [Allow]: it is [Limit] minus the count, never
    negative, and positive exactly when the next request is allowed. *)
Theorem remaining_predicts_allow (w : W) identifier rule o :
  up w → ctr_is (keyspace w) (Key rule +:+ identifier) o → ctr_count o < max_int64 →
  0 < Window rule → 0 ≤ Limit rule ≤ max_int64 →
  wp (let! r := Remaining identifier rule in
      let! a := Allow identifier rule in
      ret (r, a))
     (λ out _, out.1 = (Z.max 0 (Limit rule - ctr_count o), None) ∧
               (0 < out.1.1 ↔ out.2 = (true, None))) w.
Proof.
  intros Hup Ho Hlt Hwin Hlim. wp_pure. unfold Remaining. wp_pure.
  assert (0 ≤ ctr_count o) as Hnn by (destruct o as [[]|]; cbn in *; lia).
  eapply wp_get_int64; [done..|]. intros w1 (Hk1 & Hf1 & Hu1).
  assert (ctr_is (keyspace w1) (Key rule +:+ identifier) o) as Ho1 by by rewrite Hk1.
  assert (∀ r, r = Z.max 0 (Limit rule - ctr_count o) →
    wp (Allow identifier rule) (λ a, wp (ret ((r, @None error), a))
     (λ out (_ : W), out.1 = (Z.max 0 (Limit rule - ctr_count o), None) ∧
               (0 < out.1.1 ↔ out.2 = (true, None)))) w1) as Hend.
  { intros r ->. eapply wp_Allow; [by auto|done..|]. intros w2 _ _ _ _. wp_pure.
    cbn. split; [done|]. case_bool_decide; split; intros; try lia; try done. }
  destruct o as [[n d]|]; cbn [fmap option_fmap option_map fst ctr_count] in *; wp_pure.
  - apply Hend. rewrite wrap64_id by (unfold min_int64, max_int64 in *; lia). case_bool_decide; lia.
  - apply Hend. lia.
Qed.
End theorems.

Definition limiter_world : mem := mem_fresh 1700000000000.

Lemma allow_refines_window_witness :
  let waits := [0; 9000; 0; 0; 0; 0; 1000; 0; 0] in
  (window_run RuleMessage (rclock limiter_world) waits None).1 =
    [true; true; true; true; true; false; true; true; true] ∧
  wp (allow_run "alice" RuleMessage waits)
     (λ bs _, bs = (λ b, (b, None)) <$>
        (window_run RuleMessage (rclock limiter_world) waits None).1) limiter_world.
Proof.
  intros waits. split; [vm_compute; reflexivity|].
  apply (allow_refines_window limiter_world "alice" RuleMessage [0; 9000; 0; 0; 0; 0; 1000; 0; 0]);
    [reflexivity | reflexivity | reflexivity | repeat constructor; vm_compute; discriminate
    | reflexivity].
Defined.

Lemma allow_exactly_limit_witness :
  wp (allow_run "alice" RuleMessage (0 :: [1000; 1000; 0; 0; 0; 7999]))
     (λ bs _, fst <$> bs =
        (λ i, bool_decide (Z.of_nat i ≤ Limit RuleMessage)) <$>
          seq 1 (S (length [1000; 1000; 0; 0; 0; 7999])))
     limiter_world.
Proof.
  apply (allow_exactly_limit limiter_world "alice" RuleMessage [1000; 1000; 0; 0; 0; 7999]);
    [reflexivity | reflexivity | reflexivity | repeat constructor; vm_compute; discriminate
    | reflexivity | reflexivity].
Defined.

Lemma allow_fails_open_witness :
  wp (Allow "alice" RuleMessage)
     (λ r _, (r.2 ≠ None → r.1 = true) ∧
             (r.1 = false → ∃ n, counter_of (keyspace limiter_world) (Key RuleMessage +:+ "alice") = Some n ∧
                                 Limit RuleMessage ≤ n)) limiter_world.
Proof. apply (allow_fails_open limiter_world "alice" RuleMessage). Defined.

Lemma remaining_predicts_allow_witness :
  let w := (allow_run "alice" RuleMessage [0; 0; 0; 0; 0] limiter_world).2 in
  wp (let! r := Remaining "alice" RuleMessage in
      let! a := Allow "alice" RuleMessage in
      ret (r, a))
     (λ out _, out.1 = (Z.max 0 (Limit RuleMessage - ctr_count (Some (5, 1700000010000))), None) ∧
               (0 < out.1.1 ↔ out.2 = (true, None))) w.
Proof.
  intros w. apply (remaining_predicts_allow w "alice" RuleMessage (Some (5, 1700000010000)));
    [reflexivity | split; [reflexivity | split; [reflexivity | vm_compute; discriminate]]
    | reflexivity | reflexivity | split; vm_compute; discriminate].
Defined.

(** The window is fixed, not sliding: ten messages pass within about one
    second when they straddle the end of a window. *)
Example burst_across_windows :
  (allow_run "alice" RuleMessage [0; 9000; 0; 0; 0; 1000; 0; 0; 0; 0] limiter_world).1 =
  replicate 10 (true, None).
Proof. vm_compute. reflexivity. Qed.
