(* ===== verification/BanStore.v ===== *)
(** * internal/ban/store.go: bans and the escalation of reports

    A ban is the key [ban:<fingerprint>] with the reason as value and the ban's
    duration as TTL; reports are counted in [reports:<fingerprint>] over a
    window of 24 hours. *)

From stdpp Require Import base gmap strings list sorting numbers.
From S2P Require Import Prelude GoStd Json Env Keys MemEnv Counters.
Open Scope Z_scope.

Definition BanPrefix : string := "ban:".
Definition ReportsPrefix : string := "reports:".
Definition Ban15Min : Z := 15 * Minute.
Definition Ban1Hour : Z := 1 * Hour.
Definition Ban24Hour : Z := 24 * Hour.
Definition ReportsTTL : Z := 24 * Hour.
Definition AutoBanThreshold : Z := 3.

Definition escalationDuration (offenseCount : Z) : Z :=
  if bool_decide (offenseCount ≤ 1) then Ban15Min
  else if bool_decide (offenseCount = 2) then Ban1Hour
  else Ban24Hour.

Section store.
Context `{Env W}.

(** (isBanned, remainingSeconds, reason, error) *)
Definition IsBanned (fingerprint : string) : M W (bool * Z * string * option error) :=
  let key := BanPrefix +:+ fingerprint in
  let! r := rd (GET key) in
  match r with
  | Ok None => ret (false, 0, "", None)
  | Err err => ret (false, 0, "", Some err)
  | Ok (Some reason) =>
      let! r := rd (TTL key) in
      match r with
      | Err _ => ret (true, 0, reason, None)
      | Ok ttl =>
          let remaining := if bool_decide (ttl > 0) then ttl else 0 in
          ret (true, remaining, reason, None)
      end
  end.

Definition Ban (fingerprint : string) (duration : Z) (reason : string) : M W (option error) :=
  let key := BanPrefix +:+ fingerprint in
  let! r := rd (Do (SET key reason duration)) in
  ret (match r with Ok _ => None | Err e => Some e end).

Definition Unban (fingerprint : string) : M W (option error) :=
  let key := BanPrefix +:+ fingerprint in
  let! r := rd (Do (DEL key)) in
  ret (match r with Ok _ => None | Err e => Some e end).

Definition GetOffenseCount (fingerprint : string) : M W (Z * option error) :=
  let key := ReportsPrefix +:+ fingerprint in
  let! r := get_int64 key in
  ret match r with
      | Ok None => (0, None)
      | Err err => (0, Some err)
      | Ok (Some val) => (val, None)
      end.

Definition Escalate (fingerprint reason : string) : M W (Z * option error) :=
  let key := ReportsPrefix +:+ fingerprint in
  let! r := rd (INCR key) in
  match r with
  | Err err => ret (0, Some ("ban: escalate incr: " +:+ err))
  | Ok count =>
      let! r := (if bool_decide (count = 1) then rd (Do (EXPIRE key ReportsTTL))
                 else ret (Ok tt)) in
      match r with
      | Err err => ret (0, Some ("ban: escalate expire: " +:+ err))
      | Ok _ =>
          let duration := escalationDuration count in
          let! e := Ban fingerprint duration reason in
          match e with
          | Some err => ret (0, Some ("ban: escalate ban: " +:+ err))
          | None => ret (duration, None)
          end
      end
  end.

(** (banned, duration, error); the caller's reason is not used. *)
Definition ReportAndCheck (fingerprint reason : string) : M W (bool * Z * option error) :=
  let key := ReportsPrefix +:+ fingerprint in
  let! r := rd (INCR key) in
  match r with
  | Err err => ret (false, 0, Some ("ban: report incr: " +:+ err))
  | Ok count =>
      let! r := (if bool_decide (count = 1) then rd (Do (EXPIRE key ReportsTTL))
                 else ret (Ok tt)) in
      match r with
      | Err err => ret (false, 0, Some ("ban: report expire: " +:+ err))
      | Ok _ =>
          if bool_decide (count >= AutoBanThreshold) then
            let duration := escalationDuration count in
            let! e := Ban fingerprint duration "multiple_reports" in
            match e with
            | Some err => ret (false, 0, Some ("ban: report ban: " +:+ err))
            | None => ret (true, duration, None)
            end
          else ret (false, 0, None)
      end
  end.
End store.

Lemma schema_ban fp : schema (BanPrefix +:+ fp) = Some KStr.
Proof. by destruct fp. Qed.
Lemma schema_reports fp : schema (ReportsPrefix +:+ fp) = Some KStr.
Proof. by destruct fp. Qed.
Lemma ban_ne_reports fp fp' : BanPrefix +:+ fp ≠ ReportsPrefix +:+ fp'.
Proof. done. Qed.
#[export] Hint Resolve schema_ban schema_reports ban_ne_reports : go.

(** The seconds left at the start of a ban of whole seconds. *)
Lemma seconds_left clk d :
  d = Ban15Min ∨ d = Ban1Hour ∨ d = Ban24Hour →
  Z.max 0 ((clk + Z.quot d Millisecond - clk + 500) / 1000) = Z.quot d Second.
Proof.
  intros Hd. assert (clk + Z.quot d Millisecond - clk = Z.quot d Millisecond) as -> by lia.
  by destruct Hd as [->|[->| ->]].
Qed.

(** ** The abstract ban: a reason and the time it ends *)

Definition ban_state := option (string * Z).

Definition ban_is (ks : keyspace_t) (fp : string) (o : ban_state) : Prop :=
  ks !! (BanPrefix +:+ fp) = (λ p, Entry (VStr p.1) (Some p.2)) <$> o.

(** What [IsBanned] answers: the TTL is rounded to the nearest second. *)
Definition ban_answer (now : Z) (o : ban_state) : bool * Z * string * option error :=
  match o with
  | Some (reason, d) => (true, Z.max 0 ((d - now + 500) / 1000), reason, None)
  | None => (false, 0, "", None)
  end.

Definition ban_wait (now : Z) (o : ban_state) : ban_state :=
  match o with
  | Some (reason, d) => if bool_decide (now < d) then Some (reason, d) else None
  | None => None
  end.

Lemma ban_is_expire now ks fp o : ban_is ks fp o → ban_is (expire_keys now ks) fp (ban_wait now o).
Proof.
  unfold ban_is, ban_wait, expire_keys. destruct o as [[r d]|]; intros Hk.
  - case_bool_decide as Hd.
    + by apply map_lookup_filter_Some.
    + apply map_lookup_filter_None. right. intros e He Hl. cbn in *. simplify_eq. by apply Hd.
  - apply map_lookup_filter_None. by left.
Qed.

Section rules.
Context `{EnvLaws W}.
Implicit Types (w : W).

Lemma wp_IsBanned fp o (Q : _ → W → Prop) w :
  up w → ban_is (keyspace w) fp o →
  (∀ w', same w w' → Q (ban_answer (rclock w) o) w') → wp (IsBanned fp) Q w.
Proof.
  intros Hup Ho HQ. unfold IsBanned. wp_pure. unfold ban_is in Ho.
  eapply (wp_get _ (fst <$> o)); [done| |].
  { unfold str_of. rewrite Ho. by destruct o as [[]|]. }
  intros w1 Hs1. destruct o as [[reason d]|]; cbn in *; wp_pure; [|by apply HQ].
  pose proof Hs1 as (Hk1 & (Hc1 & _) & Hu1). apply wp_ttl; [auto|]. intros w2 Hs2. wp_pure.
  unfold ttl_of. rewrite Hk1, Ho, Hc1. cbn.
  specialize (HQ w2 ltac:(by etrans)). destruct (decide ((d - rclock w + 500) / 1000 > 0)).
  - rewrite bool_decide_true by done. rewrite Z.max_r in HQ by lia. done.
  - rewrite bool_decide_false by done. rewrite Z.max_l in HQ by lia. done.
Qed.

Lemma wp_Ban fp duration reason (Q : _ → W → Prop) w :
  up w → 0 < duration →
  (∀ w', up w' → frame w w' →
     ban_is (keyspace w') fp (Some (reason, rclock w + Z.quot duration Millisecond)) →
     (∀ k, k ≠ BanPrefix +:+ fp → keyspace w' !! k = keyspace w !! k) → Q None w') →
  wp (Ban fp duration reason) Q w.
Proof.
  intros Hup Hd HQ. unfold Ban. wp_pure. eapply wp_do; [done|done|].
  intros w' Hup' Hf Hk. wp_pure. rewrite bool_decide_true in Hk by done.
  apply HQ; [done..| |].
  - unfold ban_is. by rewrite Hk, lookup_insert_eq.
  - intros k Hne. by rewrite Hk, lookup_insert_ne.
Qed.

(** One report: the counter and, from the third report on, the ban. *)
Lemma wp_ReportAndCheck fp reason o b (Q : _ → W → Prop) w :
  let n := ctr_count o + 1 in
  up w → ctr_is (keyspace w) (ReportsPrefix +:+ fp) o → n ≤ max_int64 →
  ban_is (keyspace w) fp b →
  (∀ w', up w' → frame w w' →
     ctr_is (keyspace w') (ReportsPrefix +:+ fp) (ctr_bump (rclock w) ReportsTTL o) →
     ban_is (keyspace w') fp
       (if bool_decide (n >= AutoBanThreshold)
        then Some ("multiple_reports", rclock w + 86400000) else b) →
     (∀ k, k ≠ ReportsPrefix +:+ fp → k ≠ BanPrefix +:+ fp → keyspace w' !! k = keyspace w !! k) →
     Q (if bool_decide (n >= AutoBanThreshold) then (true, Ban24Hour, None) else (false, 0, None)) w') →
  wp (ReportAndCheck fp reason) Q w.
Proof.
  intros n Hup Ho Hlt Hb HQ.
  refine (wp_bump (ReportsPrefix +:+ fp) ReportsTTL _ _ (λ count, if bool_decide (count >= AutoBanThreshold) then _ else _)
            o Q w Hup Ho ltac:(lia) eq_refl _).
  intros w1 Hup1 Hf1 Ho1 Hk1. fold n.
  assert (ban_is (keyspace w1) fp b) as Hb1.
  { unfold ban_is. by rewrite Hk1 by auto with go. }
  case_bool_decide as Hn; [|apply wp_ret, HQ; auto].
  assert (escalationDuration n = Ban24Hour) as ->.
  { unfold escalationDuration, AutoBanThreshold in *. by rewrite !bool_decide_false by lia. }
  cbv zeta. wp_pure. apply wp_Ban; [done..|]. intros w2 Hup2 Hf2 Hb2 Hk2. wp_pure.
  apply HQ; [done|by etrans| | |].
  - eapply ctr_is_other; [|exact Ho1]. apply Hk2. intros E. symmetry in E. by eapply ban_ne_reports.
  - destruct Hf1 as [Hc1 _]. by rewrite Hc1 in Hb2.
  - intros k Hr Hbk. by rewrite Hk2, Hk1.
Qed.
End rules.

(** ** Runs of reports *)

(** Reports of one fingerprint, each after a wait: the answers, and the counter
    and the ban they leave. *)
Fixpoint reports_abs (clk : Z) (waits : list Z) (o : ctr) (b : ban_state)
    : list (bool * Z) * ban_state * Z :=
  match waits with
  | [] => ([], b, clk)
  | d :: waits =>
      let clk := clk + d in
      let o := ctr_bump clk ReportsTTL (ctr_wait clk o) in
      let hit := bool_decide (ctr_count o >= AutoBanThreshold) in
      let b := if hit then Some ("multiple_reports", clk + 86400000) else ban_wait clk b in
      let '(rs, b, clk) := reports_abs clk waits o b in
      ((hit, if hit then Ban24Hour else 0) :: rs, b, clk)
  end.

Fixpoint reports_run `{Env W} (fp reason : string) (waits : list Z)
    : M W (list (bool * Z * option error)) :=
  match waits with
  | [] => ret []
  | d :: waits => λ w,
      (let! r := ReportAndCheck fp reason in
       let! rs := reports_run fp reason waits in
       ret (r :: rs)) (elapse d w)
  end.

Section theorems.
Context `{EnvLaws W}.
Implicit Types (w : W).

Lemma wp_reports_run fp reason waits o b (Q : _ → W → Prop) w :
  up w → ctr_is (keyspace w) (ReportsPrefix +:+ fp) o → ban_is (keyspace w) fp b →
  Forall (λ d, 0 ≤ d) waits → 0 ≤ ctr_count o → ctr_count o + Z.of_nat (length waits) < max_int64 →
  (∀ w', up w' → ban_is (keyspace w') fp (reports_abs (rclock w) waits o b).1.2 →
     rclock w' = (reports_abs (rclock w) waits o b).2 →
     Q ((λ p, (p, None)) <$> (reports_abs (rclock w) waits o b).1.1) w') →
  wp (reports_run fp reason waits) Q w.
Proof.
  intros Hup Ho Hb Hw. revert o b w Q Hup Ho Hb.
  induction Hw as [|d waits Hd Hw IH]; intros o b w Q Hup Ho Hb Hnn Hlt HQ; cbn [reports_run].
  { apply wp_ret. by apply HQ. }
  destruct (elapse_spec d w Hd) as (Hk & Hc & _ & _ & Hu). cbn [length] in Hlt.
  pose proof (ctr_count_wait (rclock w + d) o Hnn) as Hcw.
  change (wp ?m Q w) with (wp (let! r := ReportAndCheck fp reason in
     let! rs := reports_run fp reason waits in ret (r :: rs)) Q (elapse d w)).
  wp_pure. eapply (wp_ReportAndCheck _ _ (ctr_wait (rclock w + d) o) (ban_wait (rclock w + d) b));
    [auto| |lia| |].
  { rewrite Hk. by apply ctr_is_expire. }
  { rewrite Hk. by apply ban_is_expire. }
  intros w1 Hup1 (Hc1 & _) Ho1 Hb1 _. rewrite Hc in *. wp_pure.
  eapply IH; [done|exact Ho1|exact Hb1|rewrite ctr_count_bump; lia|rewrite ctr_count_bump; lia|].
  intros w2 Hup2 Hb2 Hc2. wp_pure. rewrite Hc1 in *. specialize (HQ w2 Hup2).
  cbn [reports_abs] in HQ. rewrite ctr_count_bump in HQ.
  destruct (reports_abs (rclock w + d) waits _ _) as [[rs b'] clk]. cbn in *.
  specialize (HQ Hb2 Hc2). by case_bool_decide.
Qed.


(** A ban lasts exactly as long as it was set for: after [Ban] and a wait,
    [IsBanned] reports the reason and the remaining seconds while the duration
    has not passed and not banned afterwards; [Unban] ends it at once. *)
Theorem ban_until_expiry (w : W) fp duration reason ms :
  up w → 0 < duration → 0 ≤ ms →
  wp (let! e := Ban fp duration reason in
      let! b := (λ w, IsBanned fp (elapse ms w)) in
      let! e' := Unban fp in
      let! b' := IsBanned fp in
      ret (e, b, e', b'))
     (λ out _,
        let left := Z.quot duration Millisecond - ms in
        out = (None,
               (if bool_decide (0 < left)
                then (true, (left + 500) / 1000, reason, None) else (false, 0, "", None)),
               None, (false, 0, "", None))) w.
Proof.
  intros Hup Hd Hms. wp_pure. apply wp_Ban; [done..|]. intros w1 Hup1 (Hc1 & _) Hb1 _. wp_pure.
  destruct (elapse_spec ms w1 Hms) as (Hk & Hc & _ & _ & Hu).
  change (wp (λ w, IsBanned fp (elapse ms w)) ?Q w1) with (wp (IsBanned fp) Q (elapse ms w1)).
  apply (ban_is_expire (rclock w1 + ms)) in Hb1. rewrite <-Hk in Hb1.
  eapply wp_IsBanned; [auto|exact Hb1|]. intros w2 (_ & _ & Hu2). wp_pure. unfold Unban. wp_pure.
  eapply wp_do; [auto|done|]. intros w3 Hup3 _ Hk3. wp_pure.
  eapply (wp_IsBanned _ None); [done| |].
  { unfold ban_is. by rewrite Hk3, lookup_delete_eq. }
  intros w4 _. wp_pure. rewrite Hc, Hc1. cbn.
  match goal with |- context [bool_decide (0 < ?l)] => set (left := l) end.
  destruct (decide (0 < left)) as [Hl|Hl]; unfold left in Hl.
  - rewrite !bool_decide_true by (unfold left; lia). cbn. rewrite Z.max_r; unfold left.
    + assert (∀ a b, a = b → (true, (a + 500) / 1000, reason, @None error) =
                      (true, (b + 500) / 1000, reason, None)) as Hcong by by intros ?? ->.
      f_equal. f_equal. f_equal. apply Hcong. lia.
    + apply Z.div_pos; lia.
  - rewrite !bool_decide_false by (unfold left; lia). done.
Qed.

(** On any world, whatever the answer of Redis, a report bans for 24 hours
    or not at all: the shorter durations of the escalation cannot be applied by
    [ReportAndCheck]. *)
Theorem report_duration_is_24h (w : W) fp reason :
  wp (ReportAndCheck fp reason)
     (λ r _, r.1 = (true, Ban24Hour) ∧ r.2 = None ∨ r.1 = (false, 0)) w.
Proof.
  unfold ReportAndCheck. wp_pure. apply wp_intro. intros [count|e] w1 _; wp_pure; [|by right].
  apply wp_intro. intros [[]|e] w2 _; wp_pure; [|by right].
  case_bool_decide as Hc; [|wp_pure; by right]. wp_pure.
  apply wp_intro. intros [e|] w3 _; wp_pure; [by right|]. left. split; [|done].
  unfold escalationDuration, AutoBanThreshold in *. by rewrite !bool_decide_false by lia.
Qed.

(** [Escalate] bans for 15 minutes, 1 hour or 24 hours when the window
    counts no, one or more earlier offenses; the offense is counted and the ban
    is in force with its full duration when it returns. *)
Theorem escalate_durations (w : W) fp reason o :
  up w → ctr_is (keyspace w) (ReportsPrefix +:+ fp) o → 0 ≤ ctr_count o < max_int64 →
  wp (let! r := Escalate fp reason in
      let! n := GetOffenseCount fp in
      let! b := IsBanned fp in
      ret (r, n, b))
     (λ out _,
        let d := escalationDuration (ctr_count o + 1) in
        d = match ctr_count o with 0 => 15 * Minute | 1 => 1 * Hour | _ => 24 * Hour end ∧
        out = ((d, None), (ctr_count o + 1, None), (true, Z.quot d Second, reason, None))) w.
Proof.
  intros Hup Ho Hn. wp_pure.
  assert (∀ d (Q : _ → W → Prop) w1, 0 < d → up w1 →
            (∀ w2, up w2 → frame w1 w2 → ban_is (keyspace w2) fp
                     (Some (reason, rclock w1 + Z.quot d Millisecond)) →
                   keyspace w2 !! (ReportsPrefix +:+ fp) = keyspace w1 !! (ReportsPrefix +:+ fp) →
                   Q (d, None) w2) →
            wp (let! e := Ban fp d reason in
                match e with
                | Some err => ret (0, Some ("ban: escalate ban: " +:+ err))
                | None => ret (d, None)
                end) Q w1) as Hban.
  { intros d Q w1 Hd Hup1 HQ. wp_pure. apply wp_Ban; [done..|]. intros w2 Hup2 Hf2 Hb2 Hk2.
    wp_pure. apply HQ; [done..|]. apply Hk2. intros E. symmetry in E. by eapply ban_ne_reports. }
  assert (0 < escalationDuration (ctr_count o + 1)) as Hpos.
  { unfold escalationDuration. by repeat case_bool_decide. }
  refine (wp_bump (ReportsPrefix +:+ fp) ReportsTTL _ _ (λ count, let duration := escalationDuration count in _)
            o _ w Hup Ho ltac:(lia) eq_refl _).
  intros w1 Hup1 _ Ho1 _. cbv zeta. apply Hban; [done..|]. intros w2 Hup2 (Hc2 & _) Hb2 Hk2. wp_pure.
  unfold GetOffenseCount. wp_pure. eapply wp_get_int64; [done|by eapply ctr_is_other|].
  intros w3 Hs3. wp_pure. destruct Hs3 as (Hk3 & (Hc3 & _) & Hu3).
  eapply wp_IsBanned; [auto|by rewrite Hk3|]. intros w4 _. wp_pure. split.
  { clear -Hn. unfold escalationDuration. destruct (ctr_count o) as [|p|p]; [done| |lia].
    destruct p; [by rewrite !bool_decide_false by lia..|done]. }
  assert (fst <$> ctr_bump (rclock w) ReportsTTL o = Some (ctr_count o + 1)) as ->
    by by destruct o as [[]|].
  cbn. rewrite Hc3, Hc2. do 2 f_equal. f_equal. f_equal. rewrite seconds_left. 2:{
    unfold escalationDuration. repeat case_bool_decide; vm_compute; auto. }
  done.
Qed.
End theorems.

Definition ban_world : mem := mem_fresh 1700000000000.


Lemma ban_until_expiry_witness :
  wp (let! e := Ban "fp" Ban15Min "spam" in
      let! b := (λ w, IsBanned "fp" (elapse 899000 w)) in
      let! e' := Unban "fp" in
      let! b' := IsBanned "fp" in
      ret (e, b, e', b'))
     (λ out _,
        let left := Z.quot Ban15Min Millisecond - 899000 in
        out = (None,
               (if bool_decide (0 < left)
                then (true, (left + 500) / 1000, "spam", None) else (false, 0, "", None)),
               None, (false, 0, "", None))) ban_world.
Proof.
  apply (ban_until_expiry ban_world "fp" Ban15Min "spam" 899000);
    [reflexivity | reflexivity | lia].
Defined.

Lemma escalate_durations_witness :
  wp (let! r := Escalate "fp" "spam" in
      let! n := GetOffenseCount "fp" in
      let! b := IsBanned "fp" in
      ret (r, n, b))
     (λ out _,
        let d := escalationDuration (ctr_count None + 1) in
        d = match ctr_count None with 0 => 15 * Minute | 1 => 1 * Hour | _ => 24 * Hour end ∧
        out = ((d, None), (ctr_count None + 1, None), (true, Z.quot d Second, "spam", None)))
     ban_world.
Proof.
  apply (escalate_durations ban_world "fp" "spam" None);
    [reflexivity | reflexivity | split; [vm_compute; discriminate | reflexivity]].
Defined.

Lemma report_duration_is_24h_witness :
  wp (ReportAndCheck "fp" "spam")
     (λ r _, r.1 = (true, Ban24Hour) ∧ r.2 = None ∨ r.1 = (false, 0)) ban_world.
Proof. apply (report_duration_is_24h ban_world "fp" "spam"). Defined.
