(* ===== verification/Validator.v ===== *)
(** * internal/chat/validator.go: what a chat message may contain *)

From stdpp Require Import base strings numbers list_basics list_relations list.
From S2P Require Import Prelude GoStd Utf8.
Open Scope Z_scope.

Definition MaxMessageBytes : Z := 4096.
Definition MaxTextChars : Z := 2000.

Definition len (s : string) : Z := Z.of_nat (String.length s).

Definition ValidateMessage (text : string) : option error :=
  if bool_decide (len text = 0) then Some "message text is empty"
  else if bool_decide (len text > MaxMessageBytes) then Some "message exceeds 4096 byte limit"
  else if bool_decide (RuneCountInString text > MaxTextChars) then
    Some "message exceeds 2000 character limit"
  else if negb (ValidString text) then Some "message contains invalid UTF-8"
  else None.

Lemma encode_empty rs : Forall scalar rs → String.length (encode rs) = 0%nat ↔ rs = [].
Proof.
  intros Hrs. rewrite <-bytes_of_length, encode_bytes by done. split.
  - destruct rs as [|r rs]; [done|]. cbn. rewrite length_app. unfold encode_rune.
    repeat case_bool_decide; cbn; lia.
  - by intros ->.
Qed.

(** A message is accepted exactly when it is the UTF-8 encoding of between
    1 and 2000 Unicode characters and has at most 4096 bytes. *)
Theorem validate_message_spec text :
  ValidateMessage text = None ↔
  ∃ rs, Forall scalar rs ∧ text = encode rs ∧ (0 < length rs)%nat ∧ Z.of_nat (length rs) ≤ 2000 ∧
        len text ≤ 4096.
Proof.
  unfold ValidateMessage, MaxMessageBytes, MaxTextChars, RuneCountInString. split.
  - repeat (case_bool_decide; [done|]). destruct (ValidString text) eqn:Hv; [|done]. intros _.
    apply ValidString_encode in Hv as (rs & Hrs & ->). rewrite runes_encode in * by done.
    exists rs. split_and!; try done; try lia. destruct rs; [|cbn; lia]. done.
  - intros (rs & Hrs & -> & Hpos & Hle & Hlen). rewrite runes_encode by done.
    rewrite bool_decide_false; [|].
    2:{ unfold len. intros Hz. assert (rs = []) as ->; [|cbn in Hpos; lia].
        apply (encode_empty _ Hrs). lia. }
    rewrite !bool_decide_false by lia.
    by rewrite (proj2 (ValidString_encode (encode rs))) by eauto.
Qed.

(** Overlong encodings and surrogates are refused, multi-byte text is counted
    by characters. *)
Example validate_overlong : ValidateMessage (string_of [192; 175]) = Some "message contains invalid UTF-8".
Proof. vm_compute. reflexivity. Qed.
Example validate_euro : ValidateMessage (encode (replicate 1365 8364)) = None.
Proof. vm_compute. reflexivity. Qed.
Example validate_too_long :
  ValidateMessage (encode (replicate 1366 8364)) = Some "message exceeds 4096 byte limit".
Proof. vm_compute. reflexivity. Qed.
