(* ===== verification/Report.v ===== *)
(** * internal/report/store.go: abuse reports in PostgreSQL

    The database is a parameter: one insertion and one count, each of which may
    fail. *)

From stdpp Require Import base strings numbers list_basics list_relations list.
From S2P Require Import Prelude GoStd Json.
Open Scope Z_scope.

Definition validReasons (reason : string) : bool :=
  bool_decide (reason ∈ ["harassment"; "spam"; "explicit"; "other"]).

Record MessageEntry : Type := { From : string; Text : string; Ts : Z }.

Definition marshal_MessageEntry (m : MessageEntry) : json :=
  JObj (fld "from" (JStr (From m)) ++ fld "text" (JStr (Text m)) ++ fld "ts" (JNum (Ts m))).

Record Report : Type := {
  ReporterFingerprint : string;
  ReportedFingerprint : string;
  ChatID : string;
  Reason : string;
  Messages : list MessageEntry;
}.

(** A row of abuse_reports as the INSERT gives it: the columns
    reporter_fingerprint, reported_fingerprint, chat_id, reason and messages
    (NULL without messages). *)
Record row : Type := {
  r_reporter : string; r_reported : string; r_chat : string; r_reason : string;
  r_messages : option json;
}.

(** The database, as far as the store uses it. *)
Class ReportDB (W : Type) := {
  db_insert : row → M W (option error);
  (** rows of a fingerprint created within a duration before now *)
  db_count : string → Z → M W (res Z);
}.

Definition row_of (report : Report) : row :=
  {| r_reporter := ReporterFingerprint report;
     r_reported := ReportedFingerprint report;
     r_chat := ChatID report;
     r_reason := Reason report;
     r_messages := if bool_decide (0 < length (Messages report))%nat
                   then Some (JArr (marshal_MessageEntry <$> Messages report)) else None |}.

Section store.
Context `{ReportDB W}.

Definition Create (report : Report) : M W (option error) :=
  if negb (validReasons (Reason report)) then
    ret (Some ("report: invalid reason " +:+ Reason report))
  else
    let! e := db_insert (row_of report) in
    ret match e with Some err => Some ("report: insert: " +:+ err) | None => None end.

Definition CountRecent (reportedFingerprint : string) (window : Z) : M W (Z * option error) :=
  let! r := db_count reportedFingerprint window in
  ret match r with
      | Err err => (0, Some ("report: count recent: " +:+ err))
      | Ok count => (count, None)
      end.
End store.

(** A table held in memory, with the time of every row. *)
Record table : Type := Table { t_now : Z; t_rows : list (Z * row) }.

#[export] Instance table_db : ReportDB table := {|
  db_insert r := λ t, (None, Table (t_now t) (t_rows t ++ [(t_now t, r)]));
  db_count fp d := λ t,
    (Ok (Z.of_nat (length (filter (λ p : Z * row, r_reported p.2 = fp ∧ t_now t - d ≤ p.1) (t_rows t)))), t);
|}.

(** On a table that accepts every insertion, a report is stored exactly when
    its reason is one of the four allowed ones, with its chat, both
    fingerprints and its messages in order, and the count of recent reports
    against the fingerprint then grows by one; otherwise the table is untouched
    and the error names the reason. *)
Theorem report_create_counts (t : table) report window :
  0 ≤ window →
  let '(e, t') := Create report t in
  if validReasons (Reason report) then
    e = None ∧ t_rows t' = t_rows t ++ [(t_now t, row_of report)] ∧
    (CountRecent (ReportedFingerprint report) window t').1 =
      ((CountRecent (ReportedFingerprint report) window t).1.1 + 1, None)
  else e = Some ("report: invalid reason " +:+ Reason report) ∧ t' = t.
Proof.
  intros Hw. unfold Create. destruct (validReasons (Reason report)); cbn; [|done].
  split; [done|]. split; [done|]. unfold CountRecent, bind, ret. cbn. f_equal.
  rewrite filter_app, length_app, filter_cons_True by (cbn; split; [done|lia]). cbn. lia.
Qed.

Lemma report_create_counts_witness :
  let t := Table 100 [] in
  let report := {| ReporterFingerprint := "a"; ReportedFingerprint := "b"; ChatID := "c1";
                   Reason := "spam"; Messages := [{| From := "user_a"; Text := "hi"; Ts := 7 |}] |} in
  let '(e, t') := Create report t in
  if validReasons (Reason report) then
    e = None ∧ t_rows t' = t_rows t ++ [(t_now t, row_of report)] ∧
    (CountRecent (ReportedFingerprint report) 60 t').1 =
      ((CountRecent (ReportedFingerprint report) 60 t).1.1 + 1, None)
  else e = Some ("report: invalid reason " +:+ Reason report) ∧ t' = t.
Proof.
  intros t report. apply (report_create_counts t report 60). lia.
Defined.
