(* ===== verification/Regex.v ===== *)
(** * regexp: the part of Go's regular expressions the spam filter uses

    Character classes, concatenation, alternation, repetition and the text
    anchors, matched against the runes of a string.  [ends] computes all the
    suffixes a match from a position can leave; it is shown equivalent to the
    inductive semantics [matches]. *)

From stdpp Require Import base sets strings numbers list_basics list_relations list.
From S2P Require Import Prelude GoStd Utf8.
Open Scope Z_scope.

Inductive re : Type :=
  | REps
  | RSet (p : Z → bool)
  | RSeq (a b : re)
  | RAlt (a b : re)
  | RStar (a : re)
  | RBegin
  | REnd.

(** [matches n r s s']: in a text of [n] runes, from the position where [s] is
    left, [r] can match up to the position where [s'] is left. *)
Inductive matches (n : nat) : re → list Z → list Z → Prop :=
  | m_eps s : matches n REps s s
  | m_set p c s : p c = true → matches n (RSet p) (c :: s) s
  | m_seq a b s s1 s2 : matches n a s s1 → matches n b s1 s2 → matches n (RSeq a b) s s2
  | m_alt_l a b s s' : matches n a s s' → matches n (RAlt a b) s s'
  | m_alt_r a b s s' : matches n b s s' → matches n (RAlt a b) s s'
  | m_star_nil a s : matches n (RStar a) s s
  | m_star_more a s s1 s2 : matches n a s s1 → matches n (RStar a) s1 s2 → matches n (RStar a) s s2
  | m_begin s : length s = n → matches n RBegin s s
  | m_end : matches n REnd [] [].

(** Iterations that make progress; the fuel bounds their number. *)
Fixpoint star (step : list Z → list (list Z)) (fuel : nat) (s : list Z) : list (list Z) :=
  s :: match fuel with
       | O => []
       | S fuel => concat (star step fuel <$> filter (λ s', length s' < length s)%nat (step s))
       end.

Fixpoint ends (n : nat) (r : re) (s : list Z) : list (list Z) :=
  match r with
  | REps => [s]
  | RSet p => match s with c :: s' => if p c then [s'] else [] | [] => [] end
  | RSeq a b => concat (ends n b <$> ends n a s)
  | RAlt a b => ends n a s ++ ends n b s
  | RStar a => star (ends n a) (length s) s
  | RBegin => if bool_decide (length s = n) then [s] else []
  | REnd => match s with [] => [[]] | _ => [] end
  end.

(** Every suffix, the whole list first. *)
Fixpoint suffixes (s : list Z) : list (list Z) :=
  s :: match s with [] => [] | _ :: s' => suffixes s' end.

(** [re.MatchString(text)]: a match somewhere. *)
Definition MatchRunes (r : re) (s : list Z) : bool :=
  existsb (λ s0, match ends (length s) r s0 with [] => false | _ => true end) (suffixes s).
Definition MatchString (r : re) (text : string) : bool := MatchRunes r (runes text).

(** ** The matcher computes the semantics *)

Lemma elem_of_concat_fmap {A B} (f : A → list B) l y :
  y ∈ concat (f <$> l) ↔ ∃ x, x ∈ l ∧ y ∈ f x.
Proof.
  rewrite list_elem_of_In, in_concat. split.
  - intros (l' & Hl & Hy). apply list_elem_of_In, list_elem_of_fmap in Hl as (x & -> & Hx).
    exists x. split; [done|]. by apply list_elem_of_In.
  - intros (x & Hx & Hy). exists (f x). split; apply list_elem_of_In; [|done].
    apply list_elem_of_fmap. by eauto.
Qed.

Lemma matches_suffix n r s s' : matches n r s s' → s' `suffix_of` s.
Proof.
  induction 1 as [| p c s | | | | | | |]; try done; try (by etrans).
  by exists [c].
Qed.

Lemma star_sound n a (step : list Z → list (list Z)) fuel s s' :
  (∀ s s', s' ∈ step s → matches n a s s') → s' ∈ star step fuel s → matches n (RStar a) s s'.
Proof.
  intros Hstep. revert s. induction fuel as [|fuel IH]; intros s; cbn.
  - intros ->%list_elem_of_singleton. constructor.
  - intros [->|Hin]%elem_of_cons; [constructor|].
    apply elem_of_concat_fmap in Hin as (s1 & [_ H1]%list_elem_of_filter & H2).
    eapply m_star_more; [by apply Hstep|by apply IH].
Qed.

Lemma star_complete n a (step : list Z → list (list Z)) fuel s s' :
  (∀ s s', matches n a s s' → s' ∈ step s) → (length s ≤ fuel)%nat →
  matches n (RStar a) s s' → s' ∈ star step fuel s.
Proof.
  intros Hstep Hf Hm. remember (RStar a) as r eqn:Hr. revert fuel Hf.
  induction Hm as [| | | | |a' s|a' s s1 s2 H1 _ H2 IH| |]; intros fuel Hf; try done; simplify_eq.
  - destruct fuel; by left.
  - destruct (matches_suffix _ _ _ _ H1) as [[|c l] ->].
    { by apply IH. }
    cbn in Hf. rewrite length_app in Hf. destruct fuel as [|fuel]; [lia|]. right.
    apply elem_of_concat_fmap. exists s1. split.
    + apply list_elem_of_filter. split; [cbn; rewrite length_app; lia|]. by apply Hstep.
    + apply IH; [done|lia].
Qed.

Lemma ends_matches n r s s' : s' ∈ ends n r s ↔ matches n r s s'.
Proof.
  revert s s'. induction r as [|p|a IHa b IHb|a IHa b IHb|a IHa| |]; intros s s'; cbn.
  - rewrite list_elem_of_singleton. split; [intros ->; constructor|by inversion 1].
  - split.
    + destruct s as [|c s]; [by intros ?%elem_of_nil|]. destruct (p c) eqn:Hp; [|by intros ?%elem_of_nil].
      intros ->%list_elem_of_singleton. by constructor.
    + inversion 1 as [|p' c s0 Hp| | | | | | |]; subst. rewrite Hp. set_solver.
  - rewrite elem_of_concat_fmap. split.
    + intros (s1 & H1%IHa & H2%IHb). by econstructor.
    + inversion 1; subst. eexists. split; [by apply IHa|by apply IHb].
  - rewrite elem_of_app, IHa, IHb. split; [intros [|]; by constructor|].
    inversion 1; subst; auto.
  - split.
    + apply star_sound. intros ??. apply IHa.
    + apply star_complete; [|done]. intros ??. apply IHa.
  - case_bool_decide.
    + rewrite list_elem_of_singleton. split; [intros ->; by constructor|by inversion 1].
    + split; [by intros ?%elem_of_nil|intros Hm; inversion Hm; by subst].
  - split.
    + destruct s; [|by intros ?%elem_of_nil]. intros ->%list_elem_of_singleton. constructor.
    + inversion 1; subst. set_solver.
Qed.

Lemma elem_of_suffixes s s0 : s0 ∈ suffixes s ↔ s0 `suffix_of` s.
Proof.
  induction s as [|c s IH]; cbn.
  - rewrite list_elem_of_singleton. split; [by intros ->|by apply suffix_nil_inv].
  - rewrite elem_of_cons, IH. split.
    + intros [->|[l ->]]; [done|]. by exists (c :: l).
    + intros [[|c' l] Hl]; [by left|]. cbn in Hl. injection Hl as -> Hl. right. by exists l.
Qed.

(** A text matches when the pattern matches from one of its positions. *)
Lemma MatchRunes_spec r s :
  MatchRunes r s = true ↔ ∃ s0 s', s0 `suffix_of` s ∧ matches (length s) r s0 s'.
Proof.
  unfold MatchRunes. rewrite existsb_exists. split.
  - intros (s0 & H0%list_elem_of_In%elem_of_suffixes & Hm).
    destruct (ends (length s) r s0) as [|s' l] eqn:He; [done|].
    exists s0, s'. split; [done|]. apply ends_matches. rewrite He. by left.
  - intros (s0 & s' & H0 & Hm). exists s0. split; [by apply list_elem_of_In, elem_of_suffixes|].
    apply ends_matches in Hm. destruct (ends _ r s0); [by apply elem_of_nil in Hm|done].
Qed.
