(* ===== verification/Filter.v ===== *)
(** * internal/moderation: the content filter

    filter.go and spam.go.  The filter is a parameter of its block list; the
    category and case tables of Unicode are the class [Unicode], with their
    values on ASCII as laws. *)

From Stdlib Require Import Ascii.
From stdpp Require Import base gmap sets strings numbers list_basics list_relations list.
From S2P Require Import Prelude GoStd Utf8 Regex.
Open Scope Z_scope.

(** ** unicode *)

Definition ascii_letter (r : Z) : bool := bool_decide (65 ≤ r ≤ 90 ∨ 97 ≤ r ≤ 122).
Definition ascii_digit (r : Z) : bool := bool_decide (48 ≤ r ≤ 57).
Definition ascii_lower (r : Z) : Z := if bool_decide (65 ≤ r ≤ 90) then r + 32 else r.

Class Unicode := {
  IsLetter : Z → bool;
  IsDigit : Z → bool;
  ToLowerRune : Z → Z;
}.

Class UnicodeLaws `{Unicode} : Prop := {
  letter_ascii : ∀ r, 0 ≤ r < 128 → IsLetter r = ascii_letter r;
  digit_ascii : ∀ r, 0 ≤ r < 128 → IsDigit r = ascii_digit r;
  lower_ascii : ∀ r, 0 ≤ r < 128 → ToLowerRune r = ascii_lower r;
  lower_scalar : ∀ r, scalar r → scalar (ToLowerRune r);
}.

(** The white space of Unicode. *)
Definition IsSpace (r : Z) : bool :=
  bool_decide (r ∈ [9; 10; 11; 12; 13; 32; 133; 160; 5760; 8232; 8233; 8239; 8287; 12288]) ||
  bool_decide (8192 ≤ r ≤ 8202).

(** ** strings *)

(** [strings.FieldsFunc]: the maximal runs of runes that are no separators,
    with their bytes; [cur] is the run so far. *)
Fixpoint fields_from (sep : Z → bool) (cs : list chunk) (cur : list Z) : list (list Z) :=
  match cs with
  | [] => if bool_decide (cur = []) then [] else [cur]
  | c :: cs =>
      if sep (c_rune c)
      then (if bool_decide (cur = []) then [] else [cur]) ++ fields_from sep cs []
      else fields_from sep cs (cur ++ c_bytes c)
  end.
Definition FieldsFunc (s : string) (sep : Z → bool) : list string :=
  string_of <$> fields_from sep (chunks (bytes_of s)) [].

Fixpoint drop_while (f : chunk → bool) (cs : list chunk) : list chunk :=
  match cs with
  | [] => []
  | c :: cs' => if f c then drop_while f cs' else cs
  end.
Definition TrimSpace (s : string) : string :=
  let f c := IsSpace (c_rune c) in
  let cs := drop_while f (chunks (bytes_of s)) in
  string_of (concat (c_bytes <$> rev (drop_while f (rev cs)))).

(** [strings.Contains] *)
Fixpoint Contains (s sub : string) : bool :=
  String.prefix sub s ||
  match s with "" => false | String _ s' => Contains s' sub end%string.

(** ** The filter *)

Record FilterResult : Type := { Blocked : bool; Reason : string; Term : string }.
Definition not_blocked : FilterResult := {| Blocked := false; Reason := ""; Term := "" |}.

Record Filter : Type := { words : gset string; phrases : list string }.

(** One step of [normalizeLeet]. *)
Definition leet_rune (r : Z) : Z :=
  if bool_decide (r = 48) then 111       (* 0 -> o *)
  else if bool_decide (r = 49) then 105  (* 1 -> i *)
  else if bool_decide (r = 51) then 101  (* 3 -> e *)
  else if bool_decide (r = 64) then 97   (* @ -> a *)
  else if bool_decide (r = 36) then 115  (* $ -> s *)
  else if bool_decide (r = 33) then 105  (* ! -> i *)
  else r.

Definition leetChars (r : Z) : bool := bool_decide (r ∈ [64; 36; 33]).

(** *** Spam patterns *)

(** [\s], [\d], and a letter without regard to case: besides its two ASCII
    forms, [s] folds to U+017F and [k] to U+212A. *)
Definition re_space (r : Z) : bool := bool_decide (r ∈ [9; 10; 12; 13; 32]).
Definition re_nonspace : re := RSet (λ r, negb (re_space r)).
Definition re_digit : re := RSet ascii_digit.
Definition fold_eq (c r : Z) : bool :=
  bool_decide (ascii_lower r = c ∨ c = 115 ∧ r = 383 ∨ c = 107 ∧ r = 8490).
Definition re_char (c : Z) : re := RSet (λ r, bool_decide (r = c)).
Fixpoint re_lit (cs : list Z) : re :=
  match cs with [] => REps | c :: cs => RSeq (RSet (fold_eq c)) (re_lit cs) end.
Definition re_opt (r : re) : re := RAlt r REps.
Definition re_plus (r : re) : re := RSeq r (RStar r).
(** [r{m,m+k}] *)
Fixpoint re_upto (k : nat) (r : re) : re :=
  match k with O => REps | S k => re_opt (RSeq r (re_upto k r)) end.
Fixpoint re_rep (m k : nat) (r : re) : re :=
  match m with O => re_upto k r | S m => RSeq r (re_rep m k r) end.
Definition re_alts (rs : list re) : re := foldr RAlt (RSet (λ _, false)) rs.

Definition tlds : list string :=
  ["com"; "net"; "org"; "io"; "co"; "xyz"; "info"; "biz"; "ru"; "cn"; "tk"; "ml"; "ga"; "cf"].

Definition urlPattern : re :=
  RAlt (RSeq (re_lit (bytes_of "http")) (RSeq (re_opt (re_lit (bytes_of "s")))
          (RSeq (re_lit (bytes_of "://")) (re_plus re_nonspace))))
  (RAlt (RSeq (re_lit (bytes_of "www.")) (re_plus re_nonspace))
        (RSeq (re_plus re_nonspace) (RSeq (re_lit (bytes_of "."))
          (RSeq (re_alts ((λ t, re_lit (bytes_of t)) <$> tlds))
            (RSeq (re_lit (bytes_of "/")) (RStar re_nonspace)))))).

(** [[-.\s]?] *)
Definition phone_sep : re := re_opt (RSet (λ r, bool_decide (r = 45 ∨ r = 46) || re_space r)).

Definition phonePattern : re :=
  RSeq (RAlt RBegin (RSet re_space))
  (RSeq (re_opt (RSeq (re_opt (re_char 43)) (RSeq (re_rep 1 2 re_digit) phone_sep)))
  (RSeq (re_opt (re_char 40)) (RSeq (re_rep 2 2 re_digit) (RSeq (re_opt (re_char 41))
  (RSeq phone_sep (RSeq (re_rep 3 1 re_digit) (RSeq phone_sep
  (RSeq (re_rep 3 1 re_digit) (RAlt (RSet re_space) REnd))))))))).

(** The scan of [hasCharFlood]: the count, the previous rune. *)
Fixpoint char_scan (rs : list Z) (count prev : Z) : bool :=
  match rs with
  | [] => false
  | r :: rs =>
      if bool_decide (r = prev) then
        let count := count + 1 in
        if bool_decide (count >= 5) then true else char_scan rs count prev
      else char_scan rs 1 r
  end.
Definition hasCharFlood (text : string) : bool := char_scan (runes text) 1 (-1).

Section filter.
Context `{Unicode}.

Definition ToLower (s : string) : string := encode (ToLowerRune <$> runes s).

Fixpoint word_scan (ws : list string) (count : Z) (prev : string) : bool :=
  match ws with
  | [] => false
  | w :: ws =>
      let lower := ToLower w in
      if bool_decide (lower = prev) then
        let count := count + 1 in
        if bool_decide (count >= 3) then true else word_scan ws count prev
      else word_scan ws 1 lower
  end.
Definition hasWordFlood (text : string) : bool :=
  let words := FieldsFunc text IsSpace in
  if bool_decide (Z.of_nat (length words) < 3) then false
  else word_scan words 1 "".

Definition spamChecks : list (string * (string → bool)) :=
  [("url", MatchString urlPattern); ("phone", MatchString phonePattern);
   ("char_flood", hasCharFlood); ("word_flood", hasWordFlood)].

Definition checkSpamPatterns (text : string) : FilterResult :=
  match List.find (λ sc, sc.2 text) spamChecks with
  | Some sc => {| Blocked := true; Reason := "spam_pattern"; Term := sc.1 |}
  | None => not_blocked
  end.

Definition NewFilterWithTerms (terms : list string) : Filter :=
  foldl (λ f term,
    let normalized := ToLower (TrimSpace term) in
    if bool_decide (normalized = "") then f
    else if has_byte " " normalized then
      {| words := words f; phrases := phrases f ++ [normalized] |}
    else {| words := {[normalized]} ∪ words f; phrases := phrases f |})
    {| words := ∅; phrases := [] |} terms.

Definition tokenizePlain (text : string) : list string :=
  FieldsFunc text (λ r, negb (IsLetter r) && negb (IsDigit r)).

Definition tokenizeLeet (text : string) : list string :=
  FieldsFunc text (λ r, negb (IsLetter r) && negb (IsDigit r) && negb (leetChars r)).

Definition normalizeLeet (text : string) : string := encode (leet_rune <$> runes text).

Definition checkTokens (f : Filter) (tokens : list string) : FilterResult :=
  match List.find (λ w, bool_decide (w ∈ words f)) tokens with
  | Some w => {| Blocked := true; Reason := "blocked_keyword"; Term := w |}
  | None =>
      let joined := Join tokens " " in
      match List.find (Contains joined) (phrases f) with
      | Some phrase => {| Blocked := true; Reason := "blocked_keyword"; Term := phrase |}
      | None => not_blocked
      end
  end.

Definition Check (f : Filter) (text : string) : FilterResult :=
  let lower := ToLower text in
  let plainTokens := tokenizePlain lower in
  let result := checkTokens f plainTokens in
  if Blocked result then result
  else
    let normalized := normalizeLeet <$> tokenizeLeet lower in
    let result := checkTokens f normalized in
    if Blocked result then result
    else
      let result := checkSpamPatterns text in
      if Blocked result then result else not_blocked.

Definition CheckInterests (f : Filter) (interests : list string) : list string :=
  filter (λ interest, Blocked (Check f interest) = false) interests.
End filter.

(** ** Tables that know ASCII only *)

#[export] Instance ascii_unicode : Unicode := {|
  IsLetter := ascii_letter; IsDigit := ascii_digit; ToLowerRune := ascii_lower |}.

#[export] Instance ascii_unicode_laws : UnicodeLaws.
Proof.
  split; try done. intros r. unfold scalar. cbn. unfold ascii_lower. case_bool_decide; lia.
Qed.

Definition sample_filter : Filter := NewFilterWithTerms [" Badword "; "very bad phrase"; ""].

Example check_samples :
  (λ t, (Blocked (Check sample_filter t), Term (Check sample_filter t))) <$>
    ["You BADWORD!"; "b@dw0rd"; "a Very, bad; phrase"; "badwords"; "see www.x"; "v2.0 is 3.14";
     "call 555.123.4567 now"; "at 100"; "heyyyyy"; "go Go gO"; "go go away"]
  = [(true, "badword"); (true, "badword"); (true, "very bad phrase"); (false, ""); (true, "url");
     (false, ""); (true, "phone"); (false, ""); (true, "char_flood"); (true, "word_flood"); (false, "")].
Proof. vm_compute. reflexivity. Qed.
