(* ===== verification/FilterProofs.v ===== *)
(** * Theorems about the content filter of Filter.v *)

From Stdlib Require Import Ascii.
From stdpp Require Import base gmap sets strings numbers list_basics list_relations list.
From S2P Require Import Prelude GoStd Utf8 Regex Filter.
Open Scope Z_scope.

(** ** Flooding *)

(** Both scans are one scan for [k] equal elements in a row. *)
Fixpoint scan {A} `{EqDecision A} (k : Z) (xs : list A) (count : Z) (prev : A) : bool :=
  match xs with
  | [] => false
  | x :: xs =>
      if bool_decide (x = prev) then
        let count := count + 1 in
        if bool_decide (count >= k) then true else scan k xs count prev
      else scan k xs 1 x
  end.

Definition run_of {A} (n : nat) (xs : list A) : Prop :=
  ∃ pre x post, xs = pre ++ replicate n x ++ post.

Lemma char_scan_scan rs count prev : char_scan rs count prev = scan 5 rs count prev.
Proof.
  revert count prev. induction rs as [|r rs IH]; intros count prev; cbn; [done|].
  rewrite !IH. done.
Qed.

Lemma word_scan_scan `{Unicode} ws count prev :
  word_scan ws count prev = scan 3 (ToLower <$> ws) count prev.
Proof.
  revert count prev. induction ws as [|w ws IH]; intros count prev; cbn; [done|].
  by rewrite !IH.
Qed.

Lemma scan_spec {A} `{EqDecision A} (k : nat) (xs : list A) count prev :
  (1 ≤ count < k)%nat →
  scan (Z.of_nat k) xs (Z.of_nat count) prev = true ↔
  (∃ post, xs = replicate (k - count) prev ++ post) ∨ run_of k xs.
Proof.
  revert count prev. induction xs as [|x xs IH]; intros count prev Hc; cbn.
  { split; [done|]. intros [[post Hp]|(pre & y & post & Hp)].
    - destruct (k - count)%nat eqn:E; [lia|done].
    - destruct pre; [|done]. destruct k; [lia|done]. }
  destruct (decide (x = prev)) as [->|Hne].
  - rewrite bool_decide_true by done. case_bool_decide as Hk.
    + split; [intros _|done]. left. exists xs. by assert (k - count = 1)%nat as -> by lia.
    + replace (Z.of_nat count + 1) with (Z.of_nat (S count)) by lia. rewrite IH by lia. split.
      * intros [[post ->]|(pre & y & post & ->)]; [left|right].
        -- exists post. by assert (k - count = S (k - S count))%nat as -> by lia.
        -- by exists (prev :: pre), y, post.
      * intros [[post Hp]|(pre & y & post & Hp)].
        -- left. assert (k - count = S (k - S count))%nat as Hs by lia. rewrite Hs in Hp. cbn in Hp.
           injection Hp as Hp. by eauto.
        -- destruct pre as [|z pre]; cbn in Hp.
           ++ left. destruct k as [|k']; [lia|]. cbn in Hp. injection Hp as -> Hp.
              exists (replicate count y ++ post). rewrite Hp, app_assoc, <-replicate_add.
              f_equal. f_equal. lia.
           ++ injection Hp as -> Hp. right. by exists pre, y, post.
  - rewrite bool_decide_false by done. rewrite (IH 1%nat) by lia. split.
    + intros [[post ->]|(pre & y & post & ->)]; right.
      * exists [], x, post. cbn. destruct k as [|k']; [lia|]. cbn. by rewrite Nat.sub_0_r.
      * by exists (x :: pre), y, post.
    + intros [[post Hp]|(pre & y & post & Hp)].
      * destruct (k - count)%nat eqn:E; [lia|]. cbn in Hp. by injection Hp as -> _.
      * destruct pre as [|z pre]; cbn in Hp.
        -- left. destruct k as [|k']; [lia|]. cbn in *. injection Hp as -> Hp.
           exists post. by rewrite Nat.sub_0_r.
        -- injection Hp as -> Hp. right. by exists pre, y, post.
Qed.

Lemma runes_scalar s : Forall scalar (runes s).
Proof.
  unfold runes. destruct (chunks_spec _ _ (le_n _) (bytes_of_byte s)) as [_ Hok].
  apply Forall_fmap. pose proof (chunks_runes (bytes_of s)) as Hr.
  rewrite Forall_forall in Hok. rewrite Forall_forall in Hr |- *. intros c Hin. cbn.
  destruct (Hr c Hin) as [Hv| ->]; [by apply (Hok c Hin)|]. unfold scalar, RuneError. lia.
Qed.

(** Character flooding is what the filter says it is: five equal
    characters in a row somewhere in the text. *)
Theorem char_flood_spec text :
  hasCharFlood text = true ↔ ∃ pre r post, runes text = pre ++ replicate 5 r ++ post.
Proof.
  unfold hasCharFlood. rewrite char_scan_scan. rewrite (scan_spec 5 _ 1) by lia. split.
  - intros [[post Hp]|Hr]; [|done]. exfalso. pose proof (runes_scalar text) as Hs.
    rewrite Hp in Hs. cbn in Hs. inversion_clear Hs as [|?? H1 _]. unfold scalar in H1. lia.
  - intros Hr. by right.
Qed.

(** ** Words *)

Lemma fields_from_nonempty sep cs cur :
  Forall (λ c, c_bytes c ≠ []) cs → Forall (λ f, f ≠ []) (fields_from sep cs cur).
Proof.
  intros Hcs. revert cur. induction Hcs as [|c cs Hc _ IH]; intros cur; cbn.
  - case_bool_decide; by repeat constructor.
  - case_match; [|apply IH]. apply Forall_app. split; [|apply IH].
    case_bool_decide; by repeat constructor.
Qed.

Lemma chunks_nonempty bs : Forall (λ c, c_bytes c ≠ []) (chunks bs).
Proof.
  remember (length bs) as n eqn:Hn. revert bs Hn.
  induction (lt_wf n) as [n _ IH]. intros bs ->. destruct bs as [|b0 t0]; [constructor|].
  assert (∀ t c, (length t ≤ length t0)%nat → c_bytes c ≠ [] →
            Forall (λ c, c_bytes c ≠ []) (c :: chunks t)) as Hgo.
  { intros t c Hl Hc. constructor; [done|]. eapply IH; [|done]. cbn. lia. }
  cbn [chunks].
  repeat case_match; try subst; apply Hgo; cbn; auto with lia.
Qed.

Lemma string_of_empty bs : string_of bs = "" → bs = [].
Proof. by destruct bs. Qed.

Lemma encode_rune_nonempty r : encode_rune r ≠ [].
Proof. unfold encode_rune. by repeat case_bool_decide. Qed.

Lemma ToLower_nonempty `{Unicode} w : w ≠ "" → ToLower w ≠ "".
Proof.
  intros Hw Hl. apply string_of_empty in Hl. apply Hw.
  destruct (runes w) as [|r rs] eqn:Hr.
  - unfold runes in Hr. apply fmap_nil_inv in Hr.
    destruct (chunks_spec _ _ (le_n _) (bytes_of_byte w)) as [Hc _]. rewrite Hr in Hc. cbn in Hc.
    by rewrite <-(string_of_bytes_of w), <-Hc.
  - cbn in Hl. apply app_eq_nil in Hl as [Hl _]. by apply encode_rune_nonempty in Hl.
Qed.

(** Word flooding is what the filter says it is: the same word three times
    in a row, without regard to case, words being separated by white space. *)
Theorem word_flood_spec `{Unicode} text :
  hasWordFlood text = true ↔
  ∃ pre w post, ToLower <$> FieldsFunc text IsSpace = pre ++ replicate 3 w ++ post.
Proof.
  unfold hasWordFlood. set (ws := FieldsFunc text IsSpace).
  assert (Forall (λ w, w ≠ "") ws) as Hne.
  { unfold ws, FieldsFunc. apply Forall_fmap.
    eapply Forall_impl; [apply (fields_from_nonempty IsSpace _ [] (chunks_nonempty _))|].
    intros bs Hbs Hs. by apply Hbs, string_of_empty. }
  case_bool_decide as Hlen.
  - split; [done|]. intros (pre & w & post & Hp). exfalso.
    apply (f_equal length) in Hp. rewrite length_fmap, !length_app, length_replicate in Hp. lia.
  - rewrite word_scan_scan, (scan_spec 3 _ 1) by lia. split; [|by right].
    intros [[post Hp]|Hr]; [|done]. exfalso. destruct ws as [|w ws']; [done|]. cbn in Hp.
    injection Hp as Hw _. inversion_clear Hne. by eapply ToLower_nonempty.
Qed.

(** *** Tokens *)

Section words.
Context `{UnicodeLaws}.

(** The chunks of text made of scalar values. *)
Definition scalar_chunks (rs : list Z) : list chunk := (λ r, Chunk r (encode_rune r) true) <$> rs.

Lemma chunks_ToLower text :
  chunks (bytes_of (ToLower text)) = scalar_chunks (ToLowerRune <$> runes text).
Proof.
  assert (Forall scalar (ToLowerRune <$> runes text)) as Hs.
  { apply Forall_fmap. eapply Forall_impl; [apply runes_scalar|]. intros r. apply lower_scalar. }
  unfold ToLower. rewrite encode_bytes by done. by apply chunks_encode_all.
Qed.

(** A run without separators between two separators (or the ends) is a
    field. *)
Lemma fields_from_run (sep : Z → bool) mid post cur :
  Forall (λ r, sep r = false) mid → cur ++ concat (encode_rune <$> mid) ≠ [] →
  (∀ r post', post = r :: post' → sep r = true) →
  cur ++ concat (encode_rune <$> mid) ∈ fields_from sep (scalar_chunks (mid ++ post)) cur.
Proof.
  intros Hm. revert cur. induction Hm as [|r mid Hr _ IH]; intros cur Hne Hpost; cbn in *.
  - rewrite app_nil_r in *. destruct post as [|p post]; cbn.
    + rewrite bool_decide_false by done. by left.
    + rewrite (Hpost p post) by done. rewrite bool_decide_false by done. by left.
  - rewrite Hr. rewrite app_assoc. apply IH; [by rewrite <-app_assoc|done].
Qed.

Lemma fields_from_app (sep : Z → bool) pre rest cur f :
  (∀ r pre', pre = pre' ++ [r] → sep r = true) → (pre = [] → cur = []) →
  f ∈ fields_from sep (scalar_chunks rest) [] →
  f ∈ fields_from sep (scalar_chunks (pre ++ rest)) cur.
Proof.
  revert cur. induction pre as [|r pre IH]; intros cur Hpre Hcur Hf; cbn.
  { by rewrite Hcur. }
  assert (∀ r0 pre', pre = pre' ++ [r0] → sep r0 = true) as Hpre'.
  { intros r0 pre' ->. by eapply (Hpre r0 (r :: pre')). }
  destruct (sep r) eqn:Hr; [apply elem_of_app; right|]; apply IH; try done.
  intros ->. by rewrite (Hpre r []) in Hr.
Qed.

Lemma FieldsFunc_run sep text pre mid post :
  ToLowerRune <$> runes text = pre ++ mid ++ post → mid ≠ [] →
  Forall (λ r, sep r = false) mid →
  (∀ r pre', pre = pre' ++ [r] → sep r = true) →
  (∀ r post', post = r :: post' → sep r = true) →
  encode mid ∈ FieldsFunc (ToLower text) sep.
Proof.
  intros Ht Hne Hm Hpre Hpost. unfold FieldsFunc. apply list_elem_of_fmap.
  exists (concat (encode_rune <$> mid)). split; [done|]. rewrite chunks_ToLower, Ht.
  apply fields_from_app; [done|done|].
  apply (fields_from_run sep mid post []); [done| |done].
  destruct mid as [|r mid]; [done|]. cbn. intros [Hn _]%app_eq_nil. by apply encode_rune_nonempty in Hn.
Qed.

(** A word of the block list: lower-case letters and digits. *)
Definition plain_word (mid : list Z) : Prop :=
  mid ≠ [] ∧
  Forall (λ r, scalar r ∧ IsLetter r || IsDigit r = true ∧ IsSpace r = false ∧ ToLowerRune r = r) mid.

Lemma drop_while_none (f : chunk → bool) cs : Forall (λ c, f c = false) cs → drop_while f cs = cs.
Proof. intros Hf. destruct Hf as [|c cs Hc _]; cbn; [done|]. by rewrite Hc. Qed.

Lemma TrimSpace_plain mid :
  Forall (λ r, scalar r ∧ IsSpace r = false) mid → TrimSpace (encode mid) = encode mid.
Proof.
  intros Hm. assert (Forall scalar mid) as Hs by (eapply Forall_impl; [done|]; naive_solver).
  unfold TrimSpace. rewrite encode_bytes, chunks_encode_all by done.
  assert (Forall (λ c, IsSpace (c_rune c) = false) ((λ r, Chunk r (encode_rune r) true) <$> mid)) as Hf.
  { apply Forall_fmap. eapply Forall_impl; [exact Hm|]. by intros r [_ ?]. }
  rewrite (drop_while_none _ _ Hf). rewrite (drop_while_none _ (rev _)).
  - rewrite rev_involutive, <-list_fmap_compose. done.
  - by apply Forall_rev.
Qed.

Lemma ToLower_plain mid :
  Forall (λ r, scalar r ∧ ToLowerRune r = r) mid → ToLower (encode mid) = encode mid.
Proof.
  intros Hm. unfold ToLower. rewrite runes_encode by (eapply Forall_impl; [done|]; naive_solver).
  f_equal. induction Hm as [|r mid [_ Hr] _ IH]; cbn; [done|]. by rewrite Hr, IH.
Qed.

Lemma has_byte_space s : has_byte " " s = true → 32 ∈ bytes_of s.
Proof.
  induction s as [|a s IH]; cbn; [done|]. rewrite orb_true_iff. intros [->%Ascii.eqb_eq|Hs].
  - left.
  - right. auto.
Qed.

Lemma encode_rune_space r : scalar r → 32 ∈ encode_rune r → r = 32.
Proof.
  unfold scalar, encode_rune. intros Hr.
  assert (0 ≤ r / 64 ∧ 0 ≤ r / 4096 ∧ 0 ≤ r / 262144) by (split_and!; apply Z.div_pos; lia).
  pose proof (Z.mod_pos_bound r 64). pose proof (Z.mod_pos_bound (r / 64) 64).
  pose proof (Z.mod_pos_bound (r / 4096) 64).
  repeat case_bool_decide; rewrite ?elem_of_cons, elem_of_nil; lia.
Qed.

Lemma plain_word_no_space mid : plain_word mid → has_byte " " (encode mid) = false.
Proof.
  intros [_ Hm]. apply not_true_is_false. intros Hb%has_byte_space.
  rewrite encode_bytes in Hb by (eapply Forall_impl; [done|]; naive_solver).
  apply elem_of_concat_fmap in Hb as (r & Hr & Hb). rewrite Forall_forall in Hm.
  destruct (Hm r Hr) as (Hs & _ & Hsp & _). apply encode_rune_space in Hb; [|done]. by subst r.
Qed.

(** A word of the list is in the filter. *)
Lemma NewFilter_words mid terms :
  plain_word mid → encode mid ∈ terms → encode mid ∈ words (NewFilterWithTerms terms).
Proof.
  intros Hp Hin. pose proof (plain_word_no_space mid Hp) as Hns. destruct Hp as [Hne Hm].
  assert (ToLower (TrimSpace (encode mid)) = encode mid) as Hnorm.
  { rewrite TrimSpace_plain by (eapply Forall_impl; [done|]; naive_solver).
    apply ToLower_plain. eapply Forall_impl; [done|]; naive_solver. }
  assert (encode mid ≠ "") as Hnz.
  { intros He%string_of_empty. destruct mid as [|r mid]; [done|].
    apply app_eq_nil in He as [He _]. by apply encode_rune_nonempty in He. }
  unfold NewFilterWithTerms. generalize {| words := (∅ : gset string); phrases := [] |}.
  assert (∀ terms f, encode mid ∈ words f → encode mid ∈ words (foldl (λ f term,
    let normalized := ToLower (TrimSpace term) in
    if bool_decide (normalized = "") then f
    else if has_byte " " normalized then
      {| words := words f; phrases := phrases f ++ [normalized] |}
    else {| words := {[normalized]} ∪ words f; phrases := phrases f |}) f terms)) as Hmono.
  { clear. intros terms. induction terms as [|term terms IH]; intros f Hf; cbn; [done|].
    apply IH. repeat case_match; cbn; try done. apply elem_of_union. by right. }
  induction terms as [|term terms IH]; intros f; [by apply elem_of_nil in Hin|].
  apply elem_of_cons in Hin as [<-|Hin]; cbn; [|by apply IH].
  apply Hmono. rewrite Hnorm, bool_decide_false, Hns by done. cbn.
  apply elem_of_union. left. by apply elem_of_singleton.
Qed.

Lemma find_some_exists {A} (f : A → bool) l x : x ∈ l → f x = true → ∃ y, List.find f l = Some y.
Proof.
  intros Hin Hf. destruct (List.find f l) as [y|] eqn:Hy; [by eauto|].
  rewrite list_elem_of_In in Hin. by rewrite (find_none _ _ Hy _ Hin) in Hf.
Qed.

(** A listed word is caught wherever it stands: when the text has, between
    characters that are neither letters nor digits (or the ends of the text), a
    word that is some term of the list up to case, the filter made from that
    list blocks the text as a blocked keyword. *)
Theorem blocked_word_caught terms text pre rw post mid :
  plain_word mid → encode mid ∈ terms →
  runes text = pre ++ rw ++ post → ToLowerRune <$> rw = mid →
  (∀ r pre', pre = pre' ++ [r] →
     IsLetter (ToLowerRune r) || IsDigit (ToLowerRune r) = false) →
  (∀ r post', post = r :: post' →
     IsLetter (ToLowerRune r) || IsDigit (ToLowerRune r) = false) →
  Blocked (Check (NewFilterWithTerms terms) text) = true ∧
  Reason (Check (NewFilterWithTerms terms) text) = "blocked_keyword".
Proof.
  intros Hw Hin Ht Hl Hpre Hpost.
  assert (encode mid ∈ tokenizePlain (ToLower text)) as Htok.
  { unfold tokenizePlain.
    eapply (FieldsFunc_run _ text (ToLowerRune <$> pre) mid (ToLowerRune <$> post)).
    - by rewrite Ht, !fmap_app, Hl.
    - apply Hw.
    - destruct Hw as [_ Hm]. eapply Forall_impl; [done|]. intros r (_ & Hr & _).
      by destruct (IsLetter r), (IsDigit r).
    - intros r pre' Hp. apply fmap_app_inv in Hp as (l1 & l2 & -> & Hr & ->).
      destruct l2 as [|r0 [|]]; [done| |done]. injection Hr as ->.
      specialize (Hpre r0 l1 eq_refl). by apply orb_false_iff in Hpre as [-> ->].
    - intros r post' Hp. destruct post as [|r0 post]; [done|]. injection Hp as <- _.
      specialize (Hpost r0 post eq_refl). by apply orb_false_iff in Hpost as [-> ->]. }
  pose proof (NewFilter_words mid terms Hw Hin) as Hword.
  unfold Check. set (f := NewFilterWithTerms terms) in *.
  assert (Blocked (checkTokens f (tokenizePlain (ToLower text))) = true ∧
          Reason (checkTokens f (tokenizePlain (ToLower text))) = "blocked_keyword") as [Hb Hr].
  { unfold checkTokens.
    destruct (find_some_exists (λ w, bool_decide (w ∈ words f)) _ _ Htok) as [y ->]; [|done].
    by apply bool_decide_eq_true. }
  by rewrite Hb.
Qed.
End words.

Lemma blocked_word_caught_witness :
  Blocked (Check (NewFilterWithTerms ["spamword"]) "Hi, SpamWord!") = true ∧
  Reason (Check (NewFilterWithTerms ["spamword"]) "Hi, SpamWord!") = "blocked_keyword".
Proof.
  apply (blocked_word_caught ["spamword"] "Hi, SpamWord!" (bytes_of "Hi, ") (bytes_of "SpamWord")
           (bytes_of "!") (bytes_of "spamword")).
  - split; [discriminate|].
    repeat (apply Forall_cons_2;
      [split; [left; split; vm_compute; congruence | repeat split; reflexivity]|]).
    apply Forall_nil_2.
  - left.
  - reflexivity.
  - reflexivity.
  - intros r pre' Hp. change (bytes_of "Hi, ") with ([72; 105; 44] ++ [32]) in Hp.
    apply app_inj_tail in Hp as [_ <-]. reflexivity.
  - intros r post' [= <- _]. reflexivity.
Defined.

(** ** Patterns *)

(** A literal, without regard to case. *)
Lemma matches_lit n cs rs s :
  Forall2 (λ c r, fold_eq c r = true) cs rs → matches n (re_lit cs) (rs ++ s) s.
Proof.
  induction 1 as [|c r cs rs Hc _ IH]; cbn; [constructor|].
  eapply m_seq; [by apply m_set|done].
Qed.

Lemma matches_nonspace n c s : re_space c = false → matches n (re_plus re_nonspace) (c :: s) s.
Proof.
  intros Hc. eapply m_seq; [apply m_set; by rewrite Hc|apply m_star_nil].
Qed.

(** The beginnings of a link. *)
Definition link_starts : list string := ["http://"; "https://"; "www."].

Lemma url_matches n start rs c s :
  start ∈ link_starts → Forall2 (λ c r, fold_eq c r = true) (bytes_of start) rs →
  re_space c = false → matches n urlPattern (rs ++ c :: s) s.
Proof.
  intros Hs Hf Hc. unfold link_starts in Hs.
  assert (∀ a b rs1 rs2 t, Forall2 (λ c r, fold_eq c r = true) a rs1 → matches n b (rs2 ++ t) t →
            matches n (RSeq (re_lit a) b) ((rs1 ++ rs2) ++ t) t) as Hseq.
  { intros a b rs1 rs2 t Ha Hb. rewrite <-app_assoc. eapply m_seq; [by apply matches_lit|done]. }
  rewrite !elem_of_cons, elem_of_nil in Hs. destruct Hs as [->|[->|[->|[]]]].
  - apply m_alt_l. change (bytes_of "http://") with (bytes_of "http" ++ bytes_of "://") in Hf.
    apply Forall2_app_inv_l in Hf as (r1 & r2 & H1 & H2 & ->). rewrite <-app_assoc.
    eapply m_seq; [by apply matches_lit|]. eapply m_seq; [apply m_alt_r, m_eps|].
    eapply m_seq; [by apply matches_lit|]. by apply matches_nonspace.
  - apply m_alt_l.
    change (bytes_of "https://") with (bytes_of "http" ++ bytes_of "s" ++ bytes_of "://") in Hf.
    apply Forall2_app_inv_l in Hf as (r1 & r2 & H1 & H2 & ->).
    apply Forall2_app_inv_l in H2 as (r3 & r4 & H3 & H4 & ->). rewrite <-!app_assoc.
    eapply m_seq; [by apply matches_lit|]. eapply m_seq; [by apply m_alt_l, matches_lit|].
    eapply m_seq; [by apply matches_lit|]. by apply matches_nonspace.
  - apply m_alt_r, m_alt_l. eapply m_seq; [by apply matches_lit|]. by apply matches_nonspace.
Qed.

(** Links are blocked: any text with http://, https:// or www. in it, in
    any case, followed by a character that is not white space, is blocked by
    every filter. *)
Theorem links_blocked `{Unicode} f text start pre rs c post :
  start ∈ link_starts → runes text = pre ++ rs ++ c :: post →
  Forall2 (λ c r, fold_eq c r = true) (bytes_of start) rs → re_space c = false →
  Blocked (Check f text) = true.
Proof.
  intros Hs Ht Hf Hc.
  assert (MatchString urlPattern text = true) as Hm.
  { unfold MatchString. apply MatchRunes_spec. exists (rs ++ c :: post), post. split.
    - exists pre. done.
    - by eapply url_matches. }
  unfold Check. destruct (Blocked (checkTokens f (tokenizePlain _))) eqn:E1; [done|].
  destruct (Blocked (checkTokens f (normalizeLeet <$> _))) eqn:E2; [done|].
  unfold checkSpamPatterns, spamChecks. cbn. by rewrite Hm.
Qed.

Lemma links_blocked_witness :
  Blocked (Check sample_filter "see HTTPS://a") = true.
Proof.
  apply (links_blocked sample_filter "see HTTPS://a" "https://" (bytes_of "see ") (bytes_of "HTTPS://") 97 []).
  - right. left.
  - reflexivity.
  - repeat constructor.
  - reflexivity.
Defined.

(** *** Digits a pattern needs *)

Definition digits (s : list Z) : nat := length (filter (λ r, ascii_digit r = true) s).

(** The least number of digits in what a pattern built from digit classes
    matches. *)
Inductive needs : re → nat → Prop :=
  | n_zero r : needs r 0
  | n_digit : needs re_digit 1
  | n_seq a b m n : needs a m → needs b n → needs (RSeq a b) (m + n)
  | n_alt a b m : needs a m → needs b m → needs (RAlt a b) m.

Lemma digits_app s t : digits (s ++ t) = (digits s + digits t)%nat.
Proof. unfold digits. by rewrite filter_app, length_app. Qed.

Lemma digits_suffix s' s : s' `suffix_of` s → (digits s' ≤ digits s)%nat.
Proof. intros [l ->]. rewrite digits_app. lia. Qed.

Lemma needs_matches n r m s s' : needs r m → matches n r s s' → (m + digits s' ≤ digits s)%nat.
Proof.
  intros Hn. revert s s'. induction Hn as [r| |a b m1 m2 _ IH1 _ IH2|a b m _ IH1 _ IH2];
    intros s s' Hm.
  - cbn. apply digits_suffix. by eapply matches_suffix.
  - inversion Hm as [|p c s0 Hp| | | | | | |]; subst. unfold digits.
    rewrite filter_cons_True by done. cbn. lia.
  - inversion Hm as [| |a' b' s0 s1 s2 H1 H2| | | | | |]; subst.
    specialize (IH1 _ _ H1). specialize (IH2 _ _ H2). lia.
  - inversion Hm; subst; auto.
Qed.

Lemma needs_rep m k : needs (re_rep m k re_digit) m.
Proof.
  induction m as [|m IH]; cbn; [apply n_zero|]. apply (n_seq _ _ 1 m); [apply n_digit|done].
Qed.

Lemma needs_phone : needs phonePattern 8.
Proof.
  unfold phonePattern.
  apply (n_seq _ _ 0 8); [apply n_zero|]. apply (n_seq _ _ 0 8); [apply n_zero|].
  apply (n_seq _ _ 0 8); [apply n_zero|]. apply (n_seq _ _ 2 6); [apply needs_rep|].
  apply (n_seq _ _ 0 6); [apply n_zero|]. apply (n_seq _ _ 0 6); [apply n_zero|].
  apply (n_seq _ _ 3 3); [apply needs_rep|]. apply (n_seq _ _ 0 3); [apply n_zero|].
  apply (n_seq _ _ 3 0); [apply needs_rep|apply n_zero].
Qed.

(** Short numbers are no phone numbers: a text with fewer than eight digits
    is never taken for one. *)
Theorem short_numbers_no_phone text :
  (digits (runes text) < 8)%nat → MatchString phonePattern text = false.
Proof.
  intros Hd. apply not_true_is_false. unfold MatchString.
  intros (s0 & s' & Hs & Hm)%MatchRunes_spec.
  apply (needs_matches _ _ _ _ _ needs_phone) in Hm. apply digits_suffix in Hs. lia.
Qed.

Lemma short_numbers_no_phone_witness :
  MatchString phonePattern "I ran 10 km in 47 min, 100%" = false.
Proof.
  apply (short_numbers_no_phone "I ran 10 km in 47 min, 100%"). vm_compute. lia.
Defined.
