(* ===== verification/Blocklist.v ===== *)
(** * The default block list

    internal/moderation/blocklist.go and NewFilter: the terms the server's filter is
    made from, and that each of them is caught. *)

From Stdlib Require Import Ascii.
From stdpp Require Import base gmap sets strings numbers list_basics list_relations list.
From S2P Require Import Prelude GoStd Utf8 Regex Filter FilterProofs.
Open Scope Z_scope.

(** The terms, verbatim and in the order of the source. *)
Definition defaultBlocklist : list string :=
  ["nigger"; "nigga"; "niggers"; "niggas"; "faggot"; "faggots"; "fag"; "fags"; "dyke"; "dykes"; "tranny"; "trannies";
   "retard"; "retards"; "retarded"; "spic"; "spics"; "wetback"; "wetbacks"; "kike"; "kikes"; "chink"; "chinks";
   "gook"; "gooks"; "beaner"; "beaners"; "coon"; "coons"; "raghead"; "ragheads"; "towelhead"; "towelheads"; "cracker";
   "zipperhead"; "kill yourself"; "kys"; "go die"; "drink bleach"; "hang yourself"; "neck yourself"; "end yourself";
   "slit your wrists"; "nobody loves you"; "you should die"; "hope you die"; "get raped"; "i will find you";
   "i know where you live"; "cum slut"; "cock whore"; "child porn"; "kiddie porn"; "cp links"; "jailbait"; "lolicon";
   "shotacon"; "underage sex"; "pedo"; "pedophile"; "pedophilia"; "molest"; "molestation"; "incest"; "bestiality";
   "zoophilia"; "snuff"; "rape porn"; "revenge porn"; "send me your address"; "what is your address";
   "whats your address"; "where do you live"; "send your ssn"; "social security number"; "credit card number";
   "send nudes"; "send me nudes"; "show me your body"; "how old are you really"; "are you underage"; "buy followers";
   "free bitcoin"; "free crypto"; "double your money"; "nigerian prince"; "wire transfer"; "click this link";
   "earn money fast"; "make money online"; "hot singles"; "onlyfans link"; "i will kill you"; "i will murder you";
   "gonna shoot up"; "school shooting"; "bomb threat"; "swatting"; "swat you"; "dox you"; "doxxing you";
   "leaked your info"; "gonna stab you"; "curb stomp"; "heil hitler"; "sieg heil"; "white power"; "white supremacy";
   "race war"; "ethnic cleansing"; "gas the"; "genocide"; "join isis"; "allahu akbar bomb"].

Definition NewFilter `{Unicode} : Filter := NewFilterWithTerms defaultBlocklist.

(** ** Words and phrases *)

(** The words of a phrase, as runes, with one space between them. *)
Fixpoint spaced (ws : list (list Z)) : list Z :=
  match ws with
  | [] => []
  | [w] => w
  | w :: ws => w ++ 32 :: spaced ws
  end.

Definition word_sep `{Unicode} (r : Z) : bool := negb (IsLetter r) && negb (IsDigit r).

Section fields.
Context `{!Unicode}.

(** Up to a separator, or from the start, the fields are those of the two parts. *)
Lemma fields_split pre rest cur :
  (∀ r pre', pre = pre' ++ [r] → word_sep r = true) → (pre = [] → cur = []) →
  ∃ fs, fields_from word_sep (scalar_chunks (pre ++ rest)) cur = fs ++ fields_from word_sep (scalar_chunks rest) [].
Proof.
  revert cur. induction pre as [|r pre IH]; intros cur Hpre Hcur.
  { exists []. by rewrite Hcur. }
  change (scalar_chunks ((r :: pre) ++ rest)) with (Chunk r (encode_rune r) true :: scalar_chunks (pre ++ rest)).
  cbn [fields_from c_rune c_bytes].
  assert (Hpre' : ∀ r0 pre', pre = pre' ++ [r0] → word_sep r0 = true).
  { intros r0 pre' ->. by eapply (Hpre r0 (r :: pre')). }
  destruct (word_sep r) eqn:Hr.
  - destruct (IH [] Hpre' ltac:(done)) as (fs & ->). eexists. by rewrite app_assoc.
  - apply IH; [done|]. intros ->. by rewrite (Hpre r []) in Hr.
Qed.

(** A word before a separator, or the end, is the first field. *)
Lemma fields_word w post cur :
  Forall (λ r, word_sep r = false) w → cur ++ concat (encode_rune <$> w) ≠ [] →
  (∀ r post', post = r :: post' → word_sep r = true) →
  fields_from word_sep (scalar_chunks (w ++ post)) cur
    = (cur ++ concat (encode_rune <$> w)) :: fields_from word_sep (scalar_chunks post) [].
Proof.
  intros Hw. revert cur. induction Hw as [|r w Hr _ IH]; intros cur Hne Hpost.
  - cbn [fmap list_fmap concat Datatypes.app] in *. rewrite app_nil_r in *. destruct post as [|p post]; cbn.
    + by rewrite bool_decide_false.
    + rewrite (Hpost p post) by done. by rewrite bool_decide_false.
  - change (scalar_chunks ((r :: w) ++ post)) with (Chunk r (encode_rune r) true :: scalar_chunks (w ++ post)).
    cbn [fields_from c_rune c_bytes]. rewrite fmap_cons in *. cbn [concat] in *. rewrite app_assoc in *. rewrite Hr. by apply IH.
Qed.

Lemma fields_phrase ws post :
  word_sep 32 = true →
  Forall (λ w, w ≠ [] ∧ Forall (λ r, word_sep r = false) w) ws → ws ≠ [] →
  (∀ r post', post = r :: post' → word_sep r = true) →
  fields_from word_sep (scalar_chunks (spaced ws ++ post)) []
    = ((λ w, concat (encode_rune <$> w)) <$> ws) ++ fields_from word_sep (scalar_chunks post) [].
Proof.
  intros Hsp Hws Hne Hpost. induction Hws as [|w ws [Hw1 Hw2] Hws IH]; [done|].
  assert (Hnil : concat (encode_rune <$> w) ≠ []).
  { destruct w as [|r w]; [done|]. cbn. intros [Hn _]%app_eq_nil. by apply encode_rune_nonempty in Hn. }
  destruct ws as [|w' ws].
  - cbn. by apply fields_word.
  - change (spaced (w :: w' :: ws)) with (w ++ 32 :: spaced (w' :: ws)). rewrite <-app_assoc.
    rewrite fields_word; [|done|done|by intros r post' [= <- _]]. rewrite fmap_cons. cbn [app Datatypes.app]. f_equal.
    change (scalar_chunks (32 :: spaced (w' :: ws) ++ post))
      with (Chunk 32 (encode_rune 32) true :: scalar_chunks (spaced (w' :: ws) ++ post)).
    cbn [fields_from c_rune]. rewrite Hsp. rewrite bool_decide_true by done. by apply IH.
Qed.
End fields.

(** ** Joined tokens *)

Lemma prefix_append s t : String.prefix s (s +:+ t) = true.
Proof.
  induction s as [|a s IH]; [by destruct t|]. rewrite app_string_cons. cbn. destruct (Ascii.ascii_dec a a); [exact IH|done].
Qed.

Lemma Contains_app x s y : Contains (x +:+ s +:+ y) s = true.
Proof.
  induction x as [|a x IH].
  - rewrite app_string_nil. pose proof (prefix_append s y) as Hp. destruct (s +:+ y); cbn [Contains]; by rewrite Hp.
  - rewrite app_string_cons. cbn [Contains]. rewrite IH. apply orb_true_r.
Qed.

(** The joined list has the joined part in it. *)
Lemma Join_part fs ws gs sep : ws ≠ [] → ∃ x y, Join (fs ++ ws ++ gs) sep = x +:+ Join ws sep +:+ y.
Proof.
  intros Hne. induction fs as [|f fs IH].
  - exists "". induction ws as [|w ws IH]; [done|]. destruct ws as [|w' ws].
    + destruct gs as [|g gs]; [exists ""; cbn; by rewrite app_string_nil_r|by exists (sep +:+ Join (g :: gs) sep)].
    + destruct IH as (y & E); [done|]. exists y.
      change (Join ([] ++ (w :: w' :: ws) ++ gs) sep) with (w +:+ sep +:+ Join ([] ++ (w' :: ws) ++ gs) sep).
      rewrite E. change (Join (w :: w' :: ws) sep) with (w +:+ sep +:+ Join (w' :: ws) sep).
      by rewrite !app_string_nil, !app_string_assoc.
  - destruct IH as (x & y & E). exists (f +:+ sep +:+ x), y.
    assert (Join ((f :: fs) ++ ws ++ gs) sep = f +:+ sep +:+ Join (fs ++ ws ++ gs) sep) as ->.
    { destruct fs, ws; done. }
    by rewrite E, !app_string_assoc.
Qed.

Lemma bytes_of_app s t : bytes_of (s +:+ t) = bytes_of s ++ bytes_of t.
Proof. induction s as [|a s IH]; [done|]. rewrite app_string_cons. cbn. by rewrite IH. Qed.

Lemma bytes_of_Join ws : bytes_of (Join ws " ") = spaced (bytes_of <$> ws).
Proof.
  induction ws as [|w ws IH]; [done|]. destruct ws as [|w' ws]; [done|].
  change (Join (w :: w' :: ws) " ") with (w +:+ " " +:+ Join (w' :: ws) " "). by rewrite !bytes_of_app, IH.
Qed.

(** ** Terms of the default list *)

Definition is_lower (r : Z) : bool := bool_decide (97 ≤ r ≤ 122).

(** Lower-case words with one space between them. *)
Definition well_formed (t : string) : bool :=
  bool_decide (Join (Split t " ") " " = t)
  && forallb (λ w, bool_decide (w ≠ "") && forallb is_lower (bytes_of w)) (Split t " ").

Lemma defaultBlocklist_well_formed : forallb well_formed defaultBlocklist = true.
Proof. vm_compute. done. Qed.

Section caught.
Context `{!Unicode, !UnicodeLaws}.

Lemma lower_facts r :
  is_lower r = true → word_sep r = false ∧ IsSpace r = false ∧ ToLowerRune r = r ∧ scalar r ∧ 0 ≤ r < 128.
Proof.
  intros Hlow%bool_decide_eq_true. assert (Hr : 0 ≤ r < 128) by lia. unfold word_sep.
  rewrite letter_ascii, lower_ascii by done. unfold ascii_letter, ascii_lower. rewrite bool_decide_true by lia.
  rewrite bool_decide_false by lia. split_and!; try done; try lia; [|left; lia].
  unfold IsSpace. rewrite !bool_decide_false; [done|lia|]. rewrite !elem_of_cons, elem_of_nil. lia.
Qed.

Lemma space_facts : word_sep 32 = true ∧ ToLowerRune 32 = 32 ∧ scalar 32.
Proof.
  unfold word_sep. rewrite letter_ascii, digit_ascii, lower_ascii by lia. split_and!; try done. left. lia.
Qed.

Lemma ascii_encode bs : Forall (λ r, 0 ≤ r < 128) bs → concat (encode_rune <$> bs) = bs.
Proof.
  induction 1 as [|r bs Hr _ IH]; [done|]. rewrite fmap_cons. cbn [concat]. rewrite IH.
  unfold encode_rune. rewrite bool_decide_true by lia. done.
Qed.

(** What a term of the list looks like. *)
Record term_shape (t : string) (ws : list string) : Prop := {
  ts_join : Join ws " " = t;
  ts_some : ws ≠ [];
  ts_words : Forall (λ w, w ≠ "" ∧ Forall (λ r, is_lower r = true) (bytes_of w)) ws;
}.

Lemma well_formed_shape t : well_formed t = true → term_shape t (Split t " ").
Proof.
  unfold well_formed. intros [Hj Hw]%andb_true_iff. split; [by apply bool_decide_eq_true in Hj|apply Split_nonempty|].
  apply Forall_forall. intros w Hin. apply forallb_forall with (x := w) in Hw; [|by apply list_elem_of_In].
  apply andb_true_iff in Hw as [H1%bool_decide_eq_true H2]. split; [done|]. apply Forall_forall. intros r Hr.
  apply forallb_forall with (x := r) in H2; [done|by apply list_elem_of_In].
Qed.

(** Its runes are lower-case letters, with spaces strictly inside. *)
Lemma shape_runes t ws :
  term_shape t ws → bytes_of t = spaced (bytes_of <$> ws)
  ∧ Forall (λ r, is_lower r = true ∨ r = 32) (bytes_of t)
  ∧ (∀ r l, bytes_of t = r :: l → is_lower r = true) ∧ (∀ r l, bytes_of t = l ++ [r] → is_lower r = true) ∧ bytes_of t ≠ [].
Proof.
  intros [<- Hne Hws]. rewrite bytes_of_Join. split; [done|].
  induction Hws as [|w ws [Hw1 Hw2] Hws IH]; [done|].
  assert (Hwn : bytes_of w ≠ []) by (by destruct w).
  destruct ws as [|w' ws].
  - cbn [fmap list_fmap spaced]. split_and!; [eapply Forall_impl; [exact Hw2|]; auto|..|done].
    + intros r l E. rewrite E in Hw2. by apply Forall_cons_1 in Hw2 as [? _].
    + intros r l E. rewrite E in Hw2. apply Forall_app in Hw2 as [_ Hw2]. by apply Forall_cons_1 in Hw2 as [? _].
  - destruct IH as (H1 & _ & H3 & H4); [done|].
    change (spaced (bytes_of <$> w :: w' :: ws)) with (bytes_of w ++ 32 :: spaced (bytes_of <$> w' :: ws)).
    set (rest := spaced (bytes_of <$> w' :: ws)) in *. split_and!.
    + apply Forall_app. split; [eapply Forall_impl; [exact Hw2|]; auto|]. apply Forall_cons_2; [by right|done].
    + intros r l E. destruct (bytes_of w) as [|b bs]; [done|]. injection E as <- _. by apply Forall_cons_1 in Hw2 as [? _].
    + intros r l E. destruct (exists_last H4) as (rest' & x & Er). apply (H3 r rest'). rewrite Er in E |- *.
      change (bytes_of w ++ (32 :: rest') ++ [x] = l ++ [r]) in E. rewrite app_assoc in E.
      by apply app_inj_tail in E as [_ ->].
    + destruct (bytes_of w); done.
Qed.

(** A term that is normal is kept as it is, as a phrase if it has a space. *)
Lemma NewFilter_keeps t terms :
  t ∈ terms → ToLower (TrimSpace t) = t → t ≠ "" →
  if has_byte " " t then t ∈ phrases (NewFilterWithTerms terms) else t ∈ words (NewFilterWithTerms terms).
Proof.
  intros Hin Hn Hne. unfold NewFilterWithTerms. set (step := λ f term, _).
  assert (Hmono : ∀ terms f, (t ∈ words f → t ∈ words (foldl step f terms)) ∧ (t ∈ phrases f → t ∈ phrases (foldl step f terms))).
  { clear. induction terms as [|term terms IH]; intros f; [done|]. cbn [foldl]. split; intros Hf; apply IH; unfold step;
      repeat case_match; cbn; try done; [by apply elem_of_union_r|]. apply elem_of_app. by left. }
  generalize {| words := (∅ : gset string); phrases := [] |}.
  induction terms as [|term terms IH]; intros f; [by apply elem_of_nil in Hin|]. cbn [foldl].
  apply elem_of_cons in Hin as [<-|Hin]; [|by apply IH].
  destruct (has_byte " " t) eqn:Hb; apply Hmono; unfold step; rewrite Hn, bool_decide_false by done; rewrite Hb; cbn.
  - apply elem_of_app. right. by left.
  - apply elem_of_union_l. by apply elem_of_singleton.
Qed.

Lemma TrimSpace_ends mid :
  Forall scalar mid → (∀ r l, mid = r :: l → IsSpace r = false) → (∀ r l, mid = l ++ [r] → IsSpace r = false) →
  TrimSpace (encode mid) = encode mid.
Proof.
  intros Hs Hh Hl. unfold TrimSpace. rewrite encode_bytes, chunks_encode_all by done.
  set (cs := (λ r, Chunk r (encode_rune r) true) <$> mid).
  assert (H1 : drop_while (λ c, IsSpace (c_rune c)) cs = cs).
  { unfold cs. destruct mid as [|r l]; [done|]. rewrite fmap_cons. cbn [drop_while c_rune]. by rewrite (Hh r l). }
  assert (H2 : drop_while (λ c, IsSpace (c_rune c)) (rev cs) = rev cs).
  { unfold cs. destruct (decide (mid = [])) as [->|Hne]; [done|]. destruct (exists_last Hne) as (l & r & E).
    rewrite E, fmap_app, rev_app_distr. cbn [fmap list_fmap rev Datatypes.app drop_while c_rune]. by rewrite (Hl r l). }
  rewrite H1, H2, rev_involutive. unfold cs. by rewrite <-list_fmap_compose.
Qed.

Lemma shape_normal t ws : term_shape t ws → ToLower (TrimSpace t) = t ∧ t ≠ "".
Proof.
  intros Hsh. destruct (shape_runes t ws Hsh) as (_ & Hall & Hh & Hl & Hne).
  assert (Hf : Forall (λ r, scalar r ∧ ToLowerRune r = r ∧ 0 ≤ r < 128) (bytes_of t)).
  { eapply Forall_impl; [exact Hall|]. intros r [Hr| ->]; [by apply lower_facts in Hr as (_ & _ & ? & ? & ?)|].
    destruct space_facts as (_ & ? & ?). done. }
  assert (He : encode (bytes_of t) = t).
  { unfold encode. rewrite ascii_encode, string_of_bytes_of; [done|]. eapply Forall_impl; [exact Hf|]. by intros r (_ & _ & ?). }
  split; [|by intros ->]. rewrite <-He, TrimSpace_ends.
  - apply ToLower_plain. eapply Forall_impl; [exact Hf|]. by intros r (? & ? & _).
  - eapply Forall_impl; [exact Hf|]. by intros r (? & _).
  - intros r l E. by apply Hh, lower_facts in E as (_ & ? & _).
  - intros r l E. by apply Hl, lower_facts in E as (_ & ? & _).
Qed.

(** The words of a term between separators are tokens of the text, in a row. *)
Lemma shape_tokens t ws text pre rw post :
  term_shape t ws → runes text = pre ++ rw ++ post → ToLowerRune <$> rw = bytes_of t →
  (∀ r pre', pre = pre' ++ [r] → word_sep (ToLowerRune r) = true) →
  (∀ r post', post = r :: post' → word_sep (ToLowerRune r) = true) →
  ∃ fs gs, tokenizePlain (ToLower text) = fs ++ ws ++ gs.
Proof.
  intros Hsh Ht Hl Hpre Hpost. destruct (shape_runes t ws Hsh) as (Hsp & _). destruct Hsh as [_ Hne Hws].
  unfold tokenizePlain, FieldsFunc. rewrite chunks_ToLower, Ht, !fmap_app, Hl, Hsp.
  change (λ r, negb (IsLetter r) && negb (IsDigit r)) with word_sep.
  destruct (fields_split (ToLowerRune <$> pre) (spaced (bytes_of <$> ws) ++ (ToLowerRune <$> post)) []) as (fs & ->); [|done|].
  { intros r pre' Hp. apply fmap_app_inv in Hp as (l1 & l2 & -> & Hr & ->).
    destruct l2 as [|r0 [|]]; [done| |done]. injection Hr as ->. by apply (Hpre r0 l1). }
  rewrite fields_phrase; [|by apply space_facts| |by destruct ws|].
  - rewrite !fmap_app. eexists _, _. f_equal. f_equal. rewrite <-!list_fmap_compose.
    etransitivity; [|apply list_fmap_id]. apply list_fmap_ext. intros i w Hy. cbn.
    rewrite ascii_encode, string_of_bytes_of; [done|]. eapply Forall_lookup_1 in Hws as [_ Hws]; [|exact Hy].
    eapply Forall_impl; [exact Hws|]. intros r Hr. by apply lower_facts in Hr as (_ & _ & _ & _ & ?).
  - apply Forall_fmap. eapply Forall_impl; [exact Hws|]. intros w [H1 H2]. cbn. split; [by destruct w|].
    eapply Forall_impl; [exact H2|]. intros r Hr. by apply lower_facts in Hr as (? & _).
  - intros r post' Hp. destruct post as [|r0 post]; [done|]. injection Hp as <- _. by apply (Hpost r0 post).
Qed.

(** Every term of the default block list is caught: when a text has, between
    characters that are neither letters nor digits (or the ends of the text), one of
    the 114 terms in any mix of upper and lower case, the server's filter blocks it
    as a blocked keyword, whatever surrounds it. *)
Theorem default_terms_caught t text pre rw post :
  t ∈ defaultBlocklist → runes text = pre ++ rw ++ post → ToLowerRune <$> rw = bytes_of t →
  (∀ r pre', pre = pre' ++ [r] → IsLetter (ToLowerRune r) || IsDigit (ToLowerRune r) = false) →
  (∀ r post', post = r :: post' → IsLetter (ToLowerRune r) || IsDigit (ToLowerRune r) = false) →
  Blocked (Check NewFilter text) = true ∧ Reason (Check NewFilter text) = "blocked_keyword".
Proof.
  intros Hin Ht Hl Hpre Hpost. pose proof defaultBlocklist_well_formed as Hwf.
  apply forallb_forall with (x := t) in Hwf; [|by apply list_elem_of_In]. apply well_formed_shape in Hwf as Hsh.
  destruct (shape_tokens t _ text pre rw post Hsh Ht Hl) as (fs & gs & Htok).
  { intros r pre' E. specialize (Hpre r pre' E). unfold word_sep. by apply orb_false_iff in Hpre as [-> ->]. }
  { intros r post' E. specialize (Hpost r post' E). unfold word_sep. by apply orb_false_iff in Hpost as [-> ->]. }
  destruct (shape_normal t _ Hsh) as [Hn Hne]. 
  assert (Hk : if has_byte " " t then t ∈ phrases NewFilter else t ∈ words NewFilter)
    by exact (NewFilter_keeps t defaultBlocklist Hin Hn Hne).
  revert Hk. generalize NewFilter. intros f Hk. unfold Check. rewrite Htok.
  assert (Blocked (checkTokens f (fs ++ Split t " " ++ gs)) = true
    ∧ Reason (checkTokens f (fs ++ Split t " " ++ gs)) = "blocked_keyword") as [Hb Hr]; [|by rewrite Hb].
  unfold checkTokens. destruct (List.find (λ w, bool_decide (w ∈ words f)) _) eqn:Ef; [done|].
  destruct (has_byte " " t) eqn:Hsp.
  - destruct (Join_part fs (Split t " ") gs " " (ts_some _ _ Hsh)) as (x & y & ->). rewrite (ts_join _ _ Hsh).
    destruct (find_some_exists (Contains (x +:+ t +:+ y)) _ _ Hk (Contains_app x t y)) as [p ->]. done.
  - rewrite Split_no_sep in Ef by done. exfalso.
    destruct (find_some_exists (λ w, bool_decide (w ∈ words f)) (fs ++ [t] ++ gs) t) as [p Hp]; [|by apply bool_decide_eq_true|congruence].
    rewrite !elem_of_app. right. left. by left.
Qed.
End caught.

Lemma default_terms_caught_witness :
  Blocked (Check NewFilter "Get FREE Bitcoin!") = true ∧ Reason (Check NewFilter "Get FREE Bitcoin!") = "blocked_keyword".
Proof.
  apply (default_terms_caught "free bitcoin" "Get FREE Bitcoin!" (bytes_of "Get ") (bytes_of "FREE Bitcoin") (bytes_of "!")).
  - apply list_elem_of_In. vm_compute. tauto.
  - reflexivity.
  - reflexivity.
  - intros r pre' Hp. change (bytes_of "Get ") with ([71; 101; 116] ++ [32]) in Hp. apply app_inj_tail in Hp as [_ <-]. reflexivity.
  - intros r post' [= <- _]. reflexivity.
Defined.

(** The list has no term twice, and the filter made from it has all of them. *)
Example default_filter_size :
  length defaultBlocklist = 114%nat ∧ size (words NewFilter) = 50%nat ∧ length (phrases NewFilter) = 64%nat.
Proof. vm_compute. done. Qed.
