(* ===== verification/Scraper.v ===== *)
(** * The metrics scraper of the load tests

    loadtest/stats/scraper.go: it fetches the server's Prometheus text, keeps a
    snapshot per scrape, and reports initial, final and peak values.  Numbers are
    IEEE binary64 ([SpecFloat]); [strconv.ParseFloat] is a parameter, [None] when it
    gives an error. *)

From Stdlib Require Import Ascii ZArith Lia.
From Stdlib Require Import SpecFloat.
From stdpp Require Import base gmap strings numbers list_basics list_relations list.
From S2P Require Import Prelude GoStd Counters Utf8 Filter.
Open Scope Z_scope.

(** ** float64: IEEE binary64, rounded to nearest even *)

Abbreviation float64 := spec_float.
Definition f_zero : float64 := S754_zero false.
Definition f_neg_inf : float64 := S754_infinity true.
Definition f_add : float64 → float64 → float64 := SFadd 53 1024.
Definition f_sub : float64 → float64 → float64 := SFsub 53 1024.
Definition f_div : float64 → float64 → float64 := SFdiv 53 1024.
Definition f_gt (x y : float64) : bool := SFltb y x.

Record metricSnapshot : Type := Snapshot {
  timestamp : Z;
  snap_connections : float64;
  messagesTotal : float64;
  activeChats : float64;
  queueSize : float64;
  latencySum : float64;
  latencyCount : float64;
  matchSum : float64;
  matchCount : float64;
}.

(** [strings.IndexByte]; [None] is -1. *)
Fixpoint IndexByte (s : string) (c : Ascii.ascii) : option nat :=
  match s with
  | "" => None
  | String a s => if Ascii.eqb a c then Some O else S <$> IndexByte s c
  end%string.

Definition slice_to (s : string) (n : nat) : string := String.substring 0 n s.
Definition slice_from (s : string) (n : nat) : string := String.substring n (String.length s - n) s.

(** [strings.Fields] *)
Definition Fields (s : string) : list string := FieldsFunc s IsSpace.

Definition lbrace : Ascii.ascii := "{"%char.
Definition rbrace : Ascii.ascii := "}"%char.

Section scraper.
Context (ParseFloat : string → option float64).

(** The name and the value, or [None] for a line that cannot be parsed. *)
Definition parseMetricLine (line : string) : option (string * float64) :=
  let rest (name raw : string) :=
    let fields := Fields raw in
    if bool_decide (length fields < 2)%nat then None
    else
      let name := if bool_decide (name = "") then default "" (fields !! 0%nat) else name in
      v ← last fields ≫= ParseFloat;
      Some (name, v) in
  match IndexByte line lbrace with
  | None => rest "" line
  | Some idx =>
      let name := slice_to line idx in
      closing ← IndexByte (slice_from line idx) rbrace;
      rest name (name +:+ slice_from line (idx + closing + 1))
  end.

Definition zero_snapshot (now : Z) : metricSnapshot :=
  Snapshot now f_zero f_zero f_zero f_zero f_zero f_zero f_zero f_zero.

(** The switch of fetch on the metric's name. *)
Definition add_metric (snap : metricSnapshot) (name : string) (value : float64) : metricSnapshot :=
  let 'Snapshot t c m a q ls lc ms mc := snap in
  if bool_decide (name = "whisper_connections_total") then Snapshot t value m a q ls lc ms mc
  else if bool_decide (name = "whisper_messages_total") then Snapshot t c (f_add m value) a q ls lc ms mc
  else if bool_decide (name = "whisper_active_chats") then Snapshot t c m value q ls lc ms mc
  else if bool_decide (name = "whisper_match_queue_size") then Snapshot t c m a value ls lc ms mc
  else if bool_decide (name = "whisper_message_latency_seconds_sum") then Snapshot t c m a q value lc ms mc
  else if bool_decide (name = "whisper_message_latency_seconds_count") then Snapshot t c m a q ls value ms mc
  else if bool_decide (name = "whisper_match_duration_seconds_sum") then Snapshot t c m a q ls lc value mc
  else if bool_decide (name = "whisper_match_duration_seconds_count") then Snapshot t c m a q ls lc ms value
  else snap.

Definition is_comment (line : string) : bool :=
  match line with "" => true | String a _ => Ascii.eqb a "#"%char end%string.

Definition add_line (snap : metricSnapshot) (line : string) : metricSnapshot :=
  if is_comment line then snap
  else
    match parseMetricLine line with
    | None => snap
    | Some (name, value) => add_metric snap name value
    end.

(** The answer to the request: the lines the scanner gives and its error at the end. *)
Definition fetch (now : Z) (resp : res (list string * option error)) : res (metricSnapshot) :=
  match resp with
  | Err e => Err e
  | Ok (lines, err) =>
      let snap := foldl add_line (zero_snapshot now) lines in
      match err with Some e => Err e | None => Ok snap end
  end.

(** *** The background goroutine *)

(** The snapshots so far, whether [Start] has run, whether the goroutine runs and
    whether its context is cancelled. *)
Record Scraper : Type := MkScraper { snapshots : list (metricSnapshot); cancel : bool; scraping : bool; cancelledCtx : bool }.

Definition NewScraper : Scraper := MkScraper [] false false false.

Definition response : Type := Z * res (list string * option error).

Definition scrapeOnce (r : response) (s : Scraper) : Scraper :=
  match fetch r.1 r.2 with
  | Err _ => s
  | Ok snap => MkScraper (snapshots s ++ [snap]) (cancel s) (scraping s) (cancelledCtx s)
  end.

Definition Scraper_Start (r : response) (s : Scraper) : Scraper :=
  let s := scrapeOnce r (MkScraper (snapshots s) true (scraping s) (cancelledCtx s)) in
  MkScraper (snapshots s) (cancel s) true (cancelledCtx s).

(** What the goroutine's select takes, with the answer to the scrape that follows;
    [CtxCancelled]: the parent's context ends. *)
Inductive scrape_event : Type :=
  | ScrapeTick (r : response)
  | ScrapeDone (r : response)
  | CtxCancelled.

Definition scrape_step (s : Scraper) (ev : scrape_event) : Scraper :=
  match ev with
  | CtxCancelled => MkScraper (snapshots s) (cancel s) (scraping s) true
  | ScrapeTick r => if scraping s then scrapeOnce r s else s
  | ScrapeDone r =>
      if scraping s && cancelledCtx s then
        let s := scrapeOnce r s in MkScraper (snapshots s) (cancel s) false (cancelledCtx s)
      else s
  end.

(** [Stop]: cancels, and waits for the goroutine, which takes the events until its
    final scrape; [None] while it waits. *)
Definition Scraper_Stop (evs : list scrape_event) (s : Scraper) : option Scraper :=
  if cancel s then
    let s := foldl scrape_step (MkScraper (snapshots s) (cancel s) (scraping s) true) evs in
    if scraping s then None else Some s
  else Some s.

(** *** The report *)

Definition peakValue (snaps : list (metricSnapshot)) (extract : metricSnapshot → float64) : float64 :=
  foldl (λ peak s, if f_gt (extract s) peak then extract s else peak) f_neg_inf snaps.

Record gauge : Type := Gauge { g_label : string; g_initial : float64; g_final : float64; g_delta : float64; g_peak : float64 }.

(** A histogram's average and number of observations, when there are any. *)
Definition histogramAvg (sumFirst countFirst sumLast countLast : float64) : option (float64 * float64) :=
  let deltaSum := f_sub sumLast sumFirst in
  let deltaCount := f_sub countLast countFirst in
  if f_gt deltaCount f_zero then Some (f_div deltaSum deltaCount, deltaCount) else None.

Definition gauge_of (snaps : list (metricSnapshot)) (first last : metricSnapshot) (label : string)
    (extract : metricSnapshot → float64) : gauge :=
  Gauge label (extract first) (extract last) (f_sub (extract last) (extract first)) (peakValue snaps extract).

(** The number of snapshots, the time they span, the gauges and the two averages;
    [None] when there is no data. *)
Definition Scraper_Report (s : Scraper) : option (nat * Z * list gauge * list (option (float64 * float64))) :=
  let snaps := snapshots s in
  first ← snaps !! 0%nat;
  last ← last snaps;
  Some (length snaps, timestamp last - timestamp first,
        [gauge_of snaps first last "Connections" snap_connections;
         gauge_of snaps first last "Active Chats" activeChats;
         gauge_of snaps first last "Queue Size" queueSize;
         gauge_of snaps first last "Messages Total" messagesTotal],
        [histogramAvg (latencySum first) (latencyCount first) (latencySum last) (latencyCount last);
         histogramAvg (matchSum first) (matchCount first) (matchSum last) (matchCount last)]).
End scraper.

(** ** Reading a line *)

(** Printable ASCII without the braces. *)
Definition token_char (a : ascii) : bool :=
  let n := Z.of_N (N_of_ascii a) in
  bool_decide (33 ≤ n ≤ 126) && negb (Ascii.eqb a lbrace) && negb (Ascii.eqb a rbrace).
Fixpoint string_all (f : ascii → bool) (s : string) : bool :=
  match s with "" => true | String a s => f a && string_all f s end%string.
Definition token (s : string) : bool := negb (bool_decide (s = "")) && string_all token_char s.

Lemma IndexByte_hit s c t : string_all (λ a, negb (Ascii.eqb a c)) s = true →
  IndexByte (s +:+ String c t) c = Some (String.length s).
Proof.
  induction s as [|a s IH]; rewrite ?app_string_nil, ?app_string_cons; cbn [IndexByte string_all String.length]; [by rewrite Ascii.eqb_refl|].
  intros [Ha Hs]%andb_true_iff. apply negb_true_iff in Ha. by rewrite Ha, IH.
Qed.

Lemma IndexByte_miss s c : string_all (λ a, negb (Ascii.eqb a c)) s = true → IndexByte s c = None.
Proof.
  induction s as [|a s IH]; cbn [IndexByte string_all]; [done|].
  intros [Ha Hs]%andb_true_iff. apply negb_true_iff in Ha. by rewrite Ha, IH.
Qed.

Lemma string_all_impl (f g : ascii → bool) s :
  (∀ a, f a = true → g a = true) → string_all f s = true → string_all g s = true.
Proof. intros Hfg. induction s; cbn; [done|]. rewrite !andb_true_iff. naive_solver. Qed.

Lemma string_all_app f s t : string_all f (s +:+ t) = string_all f s && string_all f t.
Proof. induction s as [|a s IH]; rewrite ?app_string_nil, ?app_string_cons; cbn; [done|]. by rewrite IH, andb_assoc. Qed.

Lemma token_no_brace s : string_all token_char s = true →
  string_all (λ a, negb (Ascii.eqb a lbrace)) s = true.
Proof. apply string_all_impl. intros a. unfold token_char. rewrite !andb_true_iff. tauto. Qed.

Lemma substring_all s : String.substring 0 (String.length s) s = s.
Proof. induction s as [|a s IH]; cbn; [done|by rewrite IH]. Qed.

Lemma slice_to_app s t : slice_to (s +:+ t) (String.length s) = s.
Proof. unfold slice_to. induction s as [|a s IH]; rewrite ?app_string_nil, ?app_string_cons; cbn; [by destruct t|by rewrite IH]. Qed.

Lemma slice_from_app s t n : slice_from (s +:+ t) (String.length s + n) = slice_from t n.
Proof. unfold slice_from. induction s as [|a s IH]; rewrite ?app_string_nil, ?app_string_cons; cbn; [done|by rewrite IH]. Qed.

Lemma slice_from_0 s : slice_from s 0 = s.
Proof. unfold slice_from. rewrite Nat.sub_0_r. apply substring_all. Qed.

Lemma slice_from_here s t : slice_from (s +:+ t) (String.length s) = t.
Proof. by rewrite <-(Nat.add_0_r (String.length s)), slice_from_app, slice_from_0. Qed.

Lemma char_bounds a : token_char a = true →
  0 ≤ Z.of_N (N_of_ascii a) < 128 ∧ IsSpace (Z.of_N (N_of_ascii a)) = false.
Proof.
  unfold token_char. rewrite !andb_true_iff. intros [[Ha%bool_decide_eq_true_1 _] _].
  split; [lia|]. unfold IsSpace. rewrite !bool_decide_false; [done|lia|].
  rewrite !elem_of_cons, elem_of_nil. lia.
Qed.

(** A token is one more run of bytes of the field. *)
Lemma fields_token s t cur : string_all token_char s = true →
  fields_from IsSpace (chunks (bytes_of (s +:+ t))) cur =
  fields_from IsSpace (chunks (bytes_of t)) (cur ++ bytes_of s).
Proof.
  revert cur. induction s as [|a s IH]; intros cur; rewrite ?app_string_nil, ?app_string_cons; cbn [bytes_of string_all].
  { intros _. by rewrite app_nil_r. }
  intros [Ha Hs]%andb_true_iff. destruct (char_bounds a Ha) as [Hb Hsp].
  cbn [chunks]. rewrite bool_decide_true by lia. cbn [fields_from c_rune c_bytes].
  rewrite Hsp, IH by done. by rewrite <-app_assoc.
Qed.

Lemma fields_two name v : token name = true → token v = true →
  Fields (name +:+ " " +:+ v) = [name; v].
Proof.
  unfold token. rewrite !andb_true_iff. intros [Hn Hna] [Hv Hva].
  apply negb_true_iff, bool_decide_eq_false_1 in Hn, Hv.
  assert (∀ s, s ≠ "" → bytes_of s ≠ []) as Hne by (by intros [|??]).
  unfold Fields, FieldsFunc. rewrite fields_token by done. rewrite app_string_cons, app_string_nil. cbn [bytes_of app].
  change (Z.of_N (N_of_ascii " ")) with 32. cbn [chunks]. rewrite bool_decide_true by lia.
  cbn [fields_from c_rune]. change (IsSpace 32) with true. cbn match.
  rewrite (bool_decide_false (bytes_of name = [])) by auto.
  pose proof (fields_token v "" [] Hva) as Hf. rewrite app_string_nil_r in Hf. rewrite Hf. cbn [bytes_of chunks fields_from app].
  rewrite (bool_decide_false (bytes_of v = [])) by auto. cbn.
  by rewrite !string_of_bytes_of.
Qed.

(** A sample as the server prints it: its name, its labels and its value. *)
Record sample : Type := Sample { s_name : string; s_labels : option string; s_value : string }.

Definition sample_line (s : sample) : string :=
  match s_labels s with
  | None => s_name s +:+ " " +:+ s_value s
  | Some ls => s_name s +:+ String lbrace (ls +:+ String rbrace (" " +:+ s_value s))
  end.

Definition sample_ok (s : sample) : bool :=
  token (s_name s) && token (s_value s) &&
  match s_labels s with None => true | Some ls => string_all (λ a, negb (Ascii.eqb a rbrace)) ls end.

Lemma token_inv s : token s = true → s ≠ "" ∧ string_all token_char s = true.
Proof.
  unfold token. rewrite andb_true_iff, negb_true_iff. by intros [Hs%bool_decide_eq_false_1 ?].
Qed.

(** A line of the metrics page, with or without labels, is read back as its
    metric's name without the labels and its value, for every value the float parser
    accepts; a value it refuses makes the line count for nothing.  The name and the
    value are printable text without braces and the labels hold no closing brace. *)
Theorem metric_line_roundtrip ParseFloat s : sample_ok s = true →
  parseMetricLine ParseFloat (sample_line s) = (λ v, (s_name s, v)) <$> ParseFloat (s_value s).
Proof.
  unfold sample_ok. rewrite !andb_true_iff. intros [[Hn Hv] Hl].
  destruct (token_inv _ Hn) as [Hne Hna]. destruct (token_inv _ Hv) as [_ Hva].
  pose proof (fields_two _ _ Hn Hv) as Hf. unfold parseMetricLine, sample_line.
  destruct (s_labels s) as [ls|].
  - rewrite IndexByte_hit by by apply token_no_brace. cbv beta iota zeta.
    rewrite slice_from_here.
    cbn [IndexByte]. change (Ascii.eqb lbrace rbrace) with false. cbn match.
    rewrite IndexByte_hit by done. cbn [fmap option_fmap option_map mbind option_bind]. rewrite slice_to_app.
    rewrite <-Nat.add_assoc, slice_from_app.
    rewrite Nat.add_1_r.
    assert (∀ a t n, slice_from (String a t) (S n) = slice_from t n) as Hcut by done.
    rewrite Hcut, <-Nat.add_1_r, slice_from_app, Hcut, slice_from_0, Hf.
    cbn [length last]. rewrite bool_decide_false by lia. rewrite (bool_decide_false _ Hne). cbn.
    by destruct (ParseFloat _).
  - rewrite IndexByte_miss.
    2: { rewrite !string_all_app, (token_no_brace (s_name s)), (token_no_brace (s_value s)) by done. done. }
    rewrite Hf. cbn [length last]. rewrite bool_decide_false by lia. cbn. by destruct (ParseFloat _).
Qed.

(** ** A scrape *)

Section fetch.
Context (ParseFloat : string → option float64).

(** What the line says, comments saying nothing. *)
Definition line_sample (line : string) : option (string * float64) :=
  if is_comment line then None else parseMetricLine ParseFloat line.

(** The values the lines give to a metric, in their order. *)
Definition values_of (name : string) (lines : list string) : list float64 :=
  omap (λ l, p ← line_sample l; if bool_decide (p.1 = name) then Some p.2 else None) lines.

(** The snapshot the page describes: the last value of each gauge, and the sum of
    the labelled counters. *)
Definition snapshot_of (now : Z) (lines : list string) : metricSnapshot :=
  let gauge name := default f_zero (last (values_of name lines)) in
  Snapshot now (gauge "whisper_connections_total")
    (foldl f_add f_zero (values_of "whisper_messages_total" lines))
    (gauge "whisper_active_chats") (gauge "whisper_match_queue_size")
    (gauge "whisper_message_latency_seconds_sum") (gauge "whisper_message_latency_seconds_count")
    (gauge "whisper_match_duration_seconds_sum") (gauge "whisper_match_duration_seconds_count").

Lemma values_of_snoc name lines l :
  values_of name (lines ++ [l]) =
  values_of name lines ++ match line_sample l with
                          | Some (n, v) => if bool_decide (n = name) then [v] else []
                          | None => []
                          end.
Proof.
  unfold values_of. rewrite omap_app. f_equal. cbn.
  destruct (line_sample l) as [[n v]|]; cbn; [|done]. by case_bool_decide.
Qed.

Lemma add_line_sample snap line : add_line ParseFloat snap line =
  match line_sample line with Some (n, v) => add_metric snap n v | None => snap end.
Proof. unfold add_line, line_sample. by destruct (is_comment line). Qed.

Lemma gauge_snoc (b : bool) v vs :
  default f_zero (last (vs ++ if b then [v] else [])) = if b then v else default f_zero (last vs).
Proof. destruct b; [by rewrite last_snoc|by rewrite app_nil_r]. Qed.

Lemma total_snoc (b : bool) v vs :
  foldl f_add f_zero (vs ++ if b then [v] else []) =
  if b then f_add (foldl f_add f_zero vs) v else foldl f_add f_zero vs.
Proof. destruct b; [by rewrite foldl_app|by rewrite app_nil_r]. Qed.

Lemma fetch_lines now lines : foldl (add_line ParseFloat) (zero_snapshot now) lines = snapshot_of now lines.
Proof.
  induction lines as [|l lines IH] using rev_ind; [done|].
  rewrite foldl_app, IH. cbn [foldl]. rewrite add_line_sample.
  unfold snapshot_of. rewrite !values_of_snoc.
  destruct (line_sample l) as [[n v]|]; [|by rewrite !app_nil_r].
  rewrite !gauge_snoc, total_snoc. unfold add_metric.
  repeat match goal with
  | |- context [if bool_decide (n = ?s) then _ else _] =>
      destruct (decide (n = s)) as [->|?]; [reflexivity|rewrite !(bool_decide_false (n = s)) by done]
  end.
  done.
Qed.

(** A successful scrape records the page: every gauge has the value of the last
    line of its metric, zero if there is none, and the number of messages is the sum
    of the lines of its labelled counter; comments, empty lines, other metrics and
    lines that cannot be parsed change nothing.  A request or a reading that fails
    records nothing. *)
Theorem fetch_spec now resp :
  fetch ParseFloat now resp =
  match resp with
  | Ok (lines, None) => Ok (snapshot_of now lines)
  | Ok (_, Some e) | Err e => Err e
  end.
Proof. destruct resp as [[lines [e|]]|e]; cbn; [done| |done]. by rewrite fetch_lines. Qed.
End fetch.

(** ** Peaks *)

(** Floats by the order of their class and sign, and the finite ones by exponent and
    mantissa: below is transitive. *)
Lemma f_gt_trans x y z : f_gt x y = true → f_gt y z = true → f_gt x z = true.
Proof.
  unfold f_gt, SFltb, SFcompare.
  destruct x as [sx|sx| |sx mx ex], y as [sy|sy| |sy my ey], z as [sz|sz| |sz mz ez]; try done;
    destruct sx, sy, sz; try done; cbn;
    repeat match goal with
    | |- context [Z.compare ?a ?b] => destruct (Z.compare_spec a b); subst
    end; try done; try lia.
  all: change (Pos.compare_cont Eq) with Pos.compare.
  all: repeat match goal with
    | |- context [Pos.compare ?a ?b] => destruct (Pos.compare_spec a b); subst
    end; cbn; try done; lia.
Qed.

(** The reported peak is the maximum: it is the value of one of the snapshots, or
    the negative infinity when none of them is a number above it, and no snapshot is
    above it. *)
Theorem peak_value_spec snaps extract :
  (∀ s, s ∈ snaps → f_gt (extract s) (peakValue snaps extract) = false) ∧
  (peakValue snaps extract = f_neg_inf ∨ ∃ s, s ∈ snaps ∧ peakValue snaps extract = extract s).
Proof.
  unfold peakValue. induction snaps as [|s snaps [IHle IHin]] using rev_ind.
  { split; [by intros s ?%elem_of_nil|by left]. }
  rewrite foldl_app. cbn [foldl]. set (peak := foldl _ _ _) in *.
  destruct (f_gt (extract s) peak) eqn:Hgt.
  - split; [|right; exists s; set_solver]. intros t [Ht| ->%list_elem_of_singleton]%elem_of_app.
    + apply not_true_iff_false. intros Hs. apply IHle in Ht. rewrite (f_gt_trans _ _ _ Hs Hgt) in Ht. done.
    + apply not_true_iff_false. intros Hs. unfold f_gt, SFltb, SFcompare in Hs, Hgt.
      destruct (extract s) as [[]|[]| |[] m e], peak; try done;
        rewrite Z.compare_refl, Pos.compare_cont_refl in Hs; done.
  - split; [intros t [Ht| ->%list_elem_of_singleton]%elem_of_app; auto|].
    destruct IHin as [->|(t & Ht & ->)]; [by left|right; exists t; set_solver].
Qed.

(** ** The background goroutine *)

Section lifecycle.
Context (ParseFloat : string → option float64).

Definition scraped (r : response) : option metricSnapshot :=
  match fetch ParseFloat r.1 r.2 with Ok snap => Some snap | Err _ => None end.

Lemma scrapeOnce_spec r s : scrapeOnce ParseFloat r s =
  MkScraper (snapshots s ++ option_list (scraped r)) (cancel s) (scraping s) (cancelledCtx s).
Proof.
  unfold scrapeOnce, scraped. destruct (fetch _ _ _); cbn; [done|]. rewrite app_nil_r. by destruct s.
Qed.

Lemma ticks_spec rs s : scraping s = true →
  foldl (scrape_step ParseFloat) s (ScrapeTick <$> rs) =
  MkScraper (snapshots s ++ omap scraped rs) (cancel s) true (cancelledCtx s).
Proof.
  revert s. induction rs as [|r rs IH]; intros s Hs; cbn [fmap list_fmap foldl].
  { cbn. rewrite app_nil_r. destruct s; cbn in *. by subst. }
  cbn [scrape_step]. rewrite Hs, scrapeOnce_spec, IH by done. cbn. rewrite <-app_assoc. f_equal.
  f_equal. by destruct (scraped r).
Qed.

Lemma finished_stays evs s : scraping s = false →
  let s' := foldl (scrape_step ParseFloat) s evs in scraping s' = false ∧ snapshots s' = snapshots s.
Proof.
  revert s. induction evs as [|ev evs IH]; intros s Hs; cbn [foldl]; [done|].
  destruct ev; cbn [scrape_step]; rewrite ?Hs; cbn [andb]; [auto..|].
  by apply (IH (MkScraper (snapshots s) (cancel s) false true)).
Qed.

(** The scrapes of the ticks. *)
Definition tick_of (ev : scrape_event) : option response := match ev with ScrapeTick r => Some r | _ => None end.
Definition is_final (ev : scrape_event) : bool := match ev with ScrapeDone _ => true | _ => false end.

Lemma before_final evs s : forallb (λ ev, negb (is_final ev)) evs = true → scraping s = true → cancelledCtx s = true →
  foldl (scrape_step ParseFloat) s evs =
  MkScraper (snapshots s ++ omap scraped (omap tick_of evs)) (cancel s) true true.
Proof.
  revert s. induction evs as [|ev evs IH]; intros s; cbn [foldl forallb].
  { intros _ Hs Hc. cbn. rewrite app_nil_r. destruct s; cbn in *. by subst. }
  intros [Hf Hfs]%andb_true_iff Hs Hc. destruct ev as [r|r|]; [|done|]; cbn [scrape_step].
  - rewrite Hs, scrapeOnce_spec, IH by done. cbn. rewrite <-app_assoc. f_equal. f_equal. by destruct (scraped r).
  - by rewrite IH.
Qed.

Lemma first_final evs : forallb (λ ev, negb (is_final ev)) evs = false →
  ∃ pre r post, evs = pre ++ ScrapeDone r :: post ∧ forallb (λ ev, negb (is_final ev)) pre = true.
Proof.
  induction evs as [|ev evs IH]; cbn; [done|]. intros Hf. destruct (is_final ev) eqn:He.
  - destruct ev as [|r|]; try done. by exists [], r, evs.
  - destruct (IH Hf) as (pre & r & post & -> & Hpre). exists (ev :: pre), r, post. cbn. by rewrite He.
Qed.

(** The life of the scraper.  After Start, ticks and Stop it holds one snapshot
    per scrape that succeeded, in order: the one of Start, those of the ticks before
    and while it stops, and the final one.  Stop returns exactly when the goroutine
    has taken its final scrape, and not before. *)
Theorem scraper_lifecycle r0 rs evs :
  let s := foldl (scrape_step ParseFloat) (Scraper_Start ParseFloat r0 NewScraper) (ScrapeTick <$> rs) in
  match Scraper_Stop ParseFloat evs s with
  | None => forallb (λ ev, negb (is_final ev)) evs = true
  | Some s' => ∃ pre r post, evs = pre ++ ScrapeDone r :: post ∧
      forallb (λ ev, negb (is_final ev)) pre = true ∧
      snapshots s' = omap scraped (r0 :: rs ++ omap tick_of pre ++ [r])
  end.
Proof.
  set (s0 := Scraper_Start ParseFloat r0 NewScraper).
  assert (s0 = MkScraper (option_list (scraped r0)) true true false) as Hs0
    by (unfold s0, Scraper_Start; rewrite scrapeOnce_spec; done).
  cbn zeta. rewrite Hs0, ticks_spec by done. unfold Scraper_Stop. cbn [snapshots cancel scraping cancelledCtx].
  set (s1 := MkScraper _ _ _ true).
  destruct (forallb (λ ev, negb (is_final ev)) evs) eqn:Hf; [by rewrite before_final|].
  destruct (first_final _ Hf) as (pre & r & post & -> & Hpre).
  rewrite foldl_app, (before_final pre s1) by done. cbn [foldl scrape_step scraping cancelledCtx andb].
  rewrite scrapeOnce_spec. cbn [snapshots cancel scraping cancelledCtx].
  set (s2 := MkScraper _ _ false true).
  destruct (finished_stays post s2) as [-> Hsn]; [done|]. exists pre, r, post. do 2 (split; [done|]).
  rewrite Hsn. cbn [s2 s1 snapshots].
  change (omap scraped (r0 :: ?l)) with (omap scraped ([r0] ++ l)).
  rewrite !omap_app, <-!app_assoc. cbn. by destruct (scraped r0), (scraped r).
Qed.
End lifecycle.

(** ** A page *)

(** The float parser on decimal integers. *)
Definition parse_integer (s : string) : option float64 :=
  match ParseInt s with (n, false) => Some (binary_normalize 53 1024 n 0 false) | _ => None end.

Example page_scraped :
  let page := ["# TYPE whisper_messages_total counter"; "";
               "whisper_connections_total 3"; "whisper_messages_total{type=text} 5";
               "whisper_messages_total{type=typing} 7"; "whisper_active_chats oops";
               "whisper_match_queue_size 2"; "whisper_match_queue_size 4"] in
  match fetch parse_integer 0 (Ok (page, None)) with
  | Ok snap =>
      (snap_connections snap, messagesTotal snap, activeChats snap, queueSize snap) =
      (default f_zero (parse_integer "3"), default f_zero (parse_integer "12"), f_zero,
       default f_zero (parse_integer "4"))
  | Err _ => False
  end.
Proof. vm_compute. reflexivity. Qed.

Example labelled_line_read :
  parseMetricLine parse_integer "whisper_messages_total{type=text} 12" =
  Some ("whisper_messages_total", default f_zero (parse_integer "12")).
Proof.
  exact (metric_line_roundtrip parse_integer (Sample "whisper_messages_total" (Some "type=text") "12") eq_refl).
Qed.
