(* ===== verification/Protocol.v ===== *)
(** * internal/protocol/messages.go: the WebSocket messages

    The message structs, [ParseClientMessage] and [NewServerMessage].  A frame
    is represented by the JSON value its bytes denote, [None] when they are no
    JSON text. *)

From stdpp Require Import base gmap strings sorting numbers list_basics list_relations list.
From S2P Require Import Prelude GoStd Json.
Open Scope Z_scope.

(** ** Types of messages *)

Definition TypeSetFingerprint : string := "set_fingerprint".
Definition TypeFindMatch : string := "find_match".
Definition TypeCancelMatch : string := "cancel_match".
Definition TypeAcceptMatch : string := "accept_match".
Definition TypeDeclineMatch : string := "decline_match".
Definition TypeMessage : string := "message".
Definition TypeTyping : string := "typing".
Definition TypeEndChat : string := "end_chat".
Definition TypeReport : string := "report".
Definition TypePing : string := "ping".

Definition TypeSessionCreated : string := "session_created".
Definition TypeMatchingStarted : string := "matching_started".
Definition TypeMatchFound : string := "match_found".
Definition TypeMatchAccepted : string := "match_accepted".
Definition TypeMatchDeclined : string := "match_declined".
Definition TypeMatchTimeout : string := "match_timeout".
Definition TypePartnerLeft : string := "partner_left".
Definition TypeRateLimited : string := "rate_limited".
Definition TypeBanned : string := "banned".
Definition TypeError : string := "error".
Definition TypePong : string := "pong".

(** ** Client messages *)

Record SetFingerprintMsg : Type := {
  fp_Type : string;
  fp_Fingerprint : string;
}.
Record FindMatchMsg : Type := {
  fm_Type : string;
  fm_Interests : list string;
}.
Record CancelMatchMsg : Type := {
  cm_Type : string;
}.
Record AcceptMatchMsg : Type := {
  am_Type : string;
  am_ChatID : string;
}.
Record DeclineMatchMsg : Type := {
  dm_Type : string;
  dm_ChatID : string;
}.
Record ChatMsg : Type := {
  cmsg_Type : string;
  cmsg_ChatID : string;
  cmsg_Text : string;
}.
Record TypingMsg : Type := {
  ty_Type : string;
  ty_ChatID : string;
  ty_IsTyping : bool;
}.
Record EndChatMsg : Type := {
  ec_Type : string;
  ec_ChatID : string;
}.
Record ReportMsg : Type := {
  rp_Type : string;
  rp_ChatID : string;
  rp_Reason : string;
}.
Record PingMsg : Type := {
  pg_Type : string;
}.

(** The value [ParseClientMessage] returns. *)
Inductive client_msg : Type :=
  | CSetFingerprint (m : SetFingerprintMsg)
  | CFindMatch (m : FindMatchMsg)
  | CCancelMatch (m : CancelMatchMsg)
  | CAcceptMatch (m : AcceptMatchMsg)
  | CDeclineMatch (m : DeclineMatchMsg)
  | CChat (m : ChatMsg)
  | CTyping (m : TypingMsg)
  | CEndChat (m : EndChatMsg)
  | CReport (m : ReportMsg)
  | CPing (m : PingMsg).

(** *** Decoding a struct *)

Definition decode_SetFingerprintMsg (ms : list (string * json)) : option SetFingerprintMsg :=
  type ← get_str "type" ms;
  fingerprint ← get_str "fingerprint" ms;
  Some {| fp_Type := type; fp_Fingerprint := fingerprint |}.
Definition decode_FindMatchMsg (ms : list (string * json)) : option FindMatchMsg :=
  type ← get_str "type" ms;
  interests ← get_strs "interests" ms;
  Some {| fm_Type := type; fm_Interests := interests |}.
Definition decode_CancelMatchMsg (ms : list (string * json)) : option CancelMatchMsg :=
  type ← get_str "type" ms;
  Some {| cm_Type := type |}.
Definition decode_AcceptMatchMsg (ms : list (string * json)) : option AcceptMatchMsg :=
  type ← get_str "type" ms;
  chatid ← get_str "chat_id" ms;
  Some {| am_Type := type; am_ChatID := chatid |}.
Definition decode_DeclineMatchMsg (ms : list (string * json)) : option DeclineMatchMsg :=
  type ← get_str "type" ms;
  chatid ← get_str "chat_id" ms;
  Some {| dm_Type := type; dm_ChatID := chatid |}.
Definition decode_ChatMsg (ms : list (string * json)) : option ChatMsg :=
  type ← get_str "type" ms;
  chatid ← get_str "chat_id" ms;
  text ← get_str "text" ms;
  Some {| cmsg_Type := type; cmsg_ChatID := chatid; cmsg_Text := text |}.
Definition decode_TypingMsg (ms : list (string * json)) : option TypingMsg :=
  type ← get_str "type" ms;
  chatid ← get_str "chat_id" ms;
  istyping ← get_bool "is_typing" ms;
  Some {| ty_Type := type; ty_ChatID := chatid; ty_IsTyping := istyping |}.
Definition decode_EndChatMsg (ms : list (string * json)) : option EndChatMsg :=
  type ← get_str "type" ms;
  chatid ← get_str "chat_id" ms;
  Some {| ec_Type := type; ec_ChatID := chatid |}.
Definition decode_ReportMsg (ms : list (string * json)) : option ReportMsg :=
  type ← get_str "type" ms;
  chatid ← get_str "chat_id" ms;
  reason ← get_str "reason" ms;
  Some {| rp_Type := type; rp_ChatID := chatid; rp_Reason := reason |}.
Definition decode_PingMsg (ms : list (string * json)) : option PingMsg :=
  type ← get_str "type" ms;
  Some {| pg_Type := type |}.

(** *** [Envelope] *)

Record Envelope : Type := { env_Type : string; env_Raw : json }.

Definition UnmarshalEnvelope (data : json) : res Envelope :=
  match unmarshal (get_str "type") data with
  | None => Err "protocol: failed to unmarshal envelope"
  | Some type =>
      if bool_decide (type = "") then Err "protocol: missing or empty type field"
      else Ok {| env_Type := type; env_Raw := data |}
  end.

Definition decode_as {A} (decode : list (string * json) → option A) (mk : A → client_msg)
    (env : Envelope) : string * option client_msg * option error :=
  match unmarshal decode (env_Raw env) with
  | None => (env_Type env, None, Some ("protocol: failed to decode payload " +:+ env_Type env))
  | Some m => (env_Type env, Some (mk m), None)
  end.

(** (type, message, error) *)
Definition ParseClientMessage (data : option json) : string * option client_msg * option error :=
  match data with
  | None => ("", None, Some "protocol: failed to parse message: invalid JSON")
  | Some data =>
      match UnmarshalEnvelope data with
      | Err err => ("", None, Some ("protocol: failed to parse message: " +:+ err))
      | Ok env =>
          let t := env_Type env in
          if bool_decide (t = TypeSetFingerprint) then decode_as decode_SetFingerprintMsg CSetFingerprint env
          else if bool_decide (t = TypeFindMatch) then decode_as decode_FindMatchMsg CFindMatch env
          else if bool_decide (t = TypeCancelMatch) then decode_as decode_CancelMatchMsg CCancelMatch env
          else if bool_decide (t = TypeAcceptMatch) then decode_as decode_AcceptMatchMsg CAcceptMatch env
          else if bool_decide (t = TypeDeclineMatch) then decode_as decode_DeclineMatchMsg CDeclineMatch env
          else if bool_decide (t = TypeMessage) then decode_as decode_ChatMsg CChat env
          else if bool_decide (t = TypeTyping) then decode_as decode_TypingMsg CTyping env
          else if bool_decide (t = TypeEndChat) then decode_as decode_EndChatMsg CEndChat env
          else if bool_decide (t = TypeReport) then decode_as decode_ReportMsg CReport env
          else if bool_decide (t = TypePing) then decode_as decode_PingMsg CPing env
          else (t, None, Some ("protocol: unknown client message type: " +:+ t))
      end
  end.

(** ** Server messages *)

Record SessionCreatedMsg : Type := {
  sc_Type : string;
  sc_SessionID : string;
}.
Definition marshal_SessionCreatedMsg (m : SessionCreatedMsg) : list (string * json) :=
  [("type", JStr (sc_Type m)); ("session_id", JStr (sc_SessionID m))].
Record MatchingStartedMsg : Type := {
  ms_Type : string;
  ms_Timeout : Z;
}.
Definition marshal_MatchingStartedMsg (m : MatchingStartedMsg) : list (string * json) :=
  [("type", JStr (ms_Type m)); ("timeout", JNum (ms_Timeout m))].
(** A nil slice is marshalled as null. *)
Definition marshal_slice (l : option (list string)) : json :=
  match l with None => JNull | Some l => JArr (JStr <$> l) end.
Record MatchFoundMsg : Type := {
  mf_Type : string;
  mf_ChatID : string;
  mf_SharedInterests : option (list string); (* None: the nil slice *)
  mf_AcceptDeadline : Z;
}.
Definition marshal_MatchFoundMsg (m : MatchFoundMsg) : list (string * json) :=
  [("type", JStr (mf_Type m)); ("chat_id", JStr (mf_ChatID m)); ("shared_interests", marshal_slice (mf_SharedInterests m)); ("accept_deadline", JNum (mf_AcceptDeadline m))].
Record MatchAcceptedMsg : Type := {
  ma_Type : string;
  ma_ChatID : string;
}.
Definition marshal_MatchAcceptedMsg (m : MatchAcceptedMsg) : list (string * json) :=
  [("type", JStr (ma_Type m)); ("chat_id", JStr (ma_ChatID m))].
Record MatchDeclinedMsg : Type := {
  md_Type : string;
}.
Definition marshal_MatchDeclinedMsg (m : MatchDeclinedMsg) : list (string * json) :=
  [("type", JStr (md_Type m))].
Record MatchTimeoutMsg : Type := {
  mt_Type : string;
}.
Definition marshal_MatchTimeoutMsg (m : MatchTimeoutMsg) : list (string * json) :=
  [("type", JStr (mt_Type m))].
Record ServerChatMsg : Type := {
  sch_Type : string;
  sch_From : string;
  sch_Text : string;
  sch_Ts : Z;
}.
Definition marshal_ServerChatMsg (m : ServerChatMsg) : list (string * json) :=
  [("type", JStr (sch_Type m)); ("from", JStr (sch_From m)); ("text", JStr (sch_Text m)); ("ts", JNum (sch_Ts m))].
Record ServerTypingMsg : Type := {
  sty_Type : string;
  sty_IsTyping : bool;
}.
Definition marshal_ServerTypingMsg (m : ServerTypingMsg) : list (string * json) :=
  [("type", JStr (sty_Type m)); ("is_typing", JBool (sty_IsTyping m))].
Record PartnerLeftMsg : Type := {
  pl_Type : string;
}.
Definition marshal_PartnerLeftMsg (m : PartnerLeftMsg) : list (string * json) :=
  [("type", JStr (pl_Type m))].
Record RateLimitedMsg : Type := {
  rl_Type : string;
  rl_RetryAfter : Z;
}.
Definition marshal_RateLimitedMsg (m : RateLimitedMsg) : list (string * json) :=
  [("type", JStr (rl_Type m)); ("retry_after", JNum (rl_RetryAfter m))].
Record BannedMsg : Type := {
  bn_Type : string;
  bn_Duration : Z;
  bn_Reason : string;
}.
Definition marshal_BannedMsg (m : BannedMsg) : list (string * json) :=
  [("type", JStr (bn_Type m)); ("duration", JNum (bn_Duration m)); ("reason", JStr (bn_Reason m))].
Record ErrorMsg : Type := {
  er_Type : string;
  er_Code : string;
  er_Message : string;
}.
Definition marshal_ErrorMsg (m : ErrorMsg) : list (string * json) :=
  [("type", JStr (er_Type m)); ("code", JStr (er_Code m)); ("message", JStr (er_Message m))].
Record PongMsg : Type := {
  po_Type : string;
}.
Definition marshal_PongMsg (m : PongMsg) : list (string * json) :=
  [("type", JStr (po_Type m))].

(** ** [NewServerMessage] *)

(** A Go map from the members of an object, the last of each name. *)
Definition map_of (ms : list (string * json)) : gmap string json :=
  foldl (λ m kv, <[kv.1 := kv.2]> m) ∅ ms.

Definition key_le (a b : string * json) : Prop := String.le a.1 b.1.
#[export] Instance key_le_dec : RelDecision key_le.
Proof. intros a b. unfold key_le. apply _. Defined.

(** A map is marshalled by its sorted keys. *)
Definition members_of (m : gmap string json) : list (string * json) :=
  merge_sort key_le (map_to_list m).

(** A value decoded into [interface{}] and encoded again: numbers pass through
    float64, objects through maps. *)
Fixpoint generic (j : json) : json :=
  match j with
  | JNum z => JNum (float64 z)
  | JArr l => JArr (map generic l)
  | JObj ms => JObj (members_of (map_of (map (λ kv, (kv.1, generic kv.2)) ms)))
  | _ => j
  end.

(** The payload is a struct, hence an object: its members. *)
Definition NewServerMessage (msgType : string) (payload : list (string * json)) : json :=
  let m := map_of ((λ kv, (kv.1, generic kv.2)) <$> payload) in
  let m := <["type" := JStr msgType]> m in
  JObj (members_of m).

(** ** Parsing: theorems *)

(** The type constant of each kind of message, and the [Type] field of the
    decoded struct. *)
Definition client_kind (m : client_msg) : string :=
  match m with
  | CSetFingerprint _ => TypeSetFingerprint | CFindMatch _ => TypeFindMatch
  | CCancelMatch _ => TypeCancelMatch | CAcceptMatch _ => TypeAcceptMatch
  | CDeclineMatch _ => TypeDeclineMatch | CChat _ => TypeMessage
  | CTyping _ => TypeTyping | CEndChat _ => TypeEndChat
  | CReport _ => TypeReport | CPing _ => TypePing
  end.

Definition client_type (m : client_msg) : string :=
  match m with
  | CSetFingerprint m => fp_Type m | CFindMatch m => fm_Type m
  | CCancelMatch m => cm_Type m | CAcceptMatch m => am_Type m
  | CDeclineMatch m => dm_Type m | CChat m => cmsg_Type m
  | CTyping m => ty_Type m | CEndChat m => ec_Type m
  | CReport m => rp_Type m | CPing m => pg_Type m
  end.

(** The JSON object of a client struct, by its tags. *)
Definition marshal_client (m : client_msg) : json :=
  JObj (("type", JStr (client_type m)) ::
    match m with
    | CSetFingerprint m => [("fingerprint", JStr (fp_Fingerprint m))]
    | CFindMatch m => [("interests", JArr (JStr <$> fm_Interests m))]
    | CCancelMatch _ | CPing _ => []
    | CAcceptMatch m => [("chat_id", JStr (am_ChatID m))]
    | CDeclineMatch m => [("chat_id", JStr (dm_ChatID m))]
    | CChat m => [("chat_id", JStr (cmsg_ChatID m)); ("text", JStr (cmsg_Text m))]
    | CTyping m => [("chat_id", JStr (ty_ChatID m)); ("is_typing", JBool (ty_IsTyping m))]
    | CEndChat m => [("chat_id", JStr (ec_ChatID m))]
    | CReport m => [("chat_id", JStr (rp_ChatID m)); ("reason", JStr (rp_Reason m))]
    end).

Definition client_types : list string :=
  [TypeSetFingerprint; TypeFindMatch; TypeCancelMatch; TypeAcceptMatch; TypeDeclineMatch;
   TypeMessage; TypeTyping; TypeEndChat; TypeReport; TypePing].

(** What a result of [ParseClientMessage] means for the frame [j]. *)
Definition parse_ok (data : option json) (r : string * option client_msg * option error) : Prop :=
  match r with
  | (t, Some m, None) =>
      t ∈ client_types ∧ client_kind m = t ∧ client_type m = t
      ∧ ∃ j, data = Some j ∧ unmarshal (get_str "type") j = Some t
  | (t, None, Some _) =>
      t = "" ∨ ∃ j, data = Some j ∧ unmarshal (get_str "type") j = Some t
  | _ => False
  end.

Lemma unmarshal_get_type {A} (decode : list (string * json) → option A) (typ : A → string) j m t :
  (∀ ms m, decode ms = Some m → get_str "type" ms = Some (typ m)) →
  unmarshal decode j = Some m → unmarshal (get_str "type") j = Some t → typ m = t.
Proof. intros H Hm Ht. destruct j; cbn [unmarshal] in *; try done; apply H in Hm; congruence. Qed.

Lemma decode_as_ok {A} (decode : list (string * json) → option A) mk j t :
  (∀ ms m, decode ms = Some m → get_str "type" ms = Some (client_type (mk m))) →
  (∀ m, client_kind (mk m) = t) → t ∈ client_types →
  unmarshal (get_str "type") j = Some t →
  parse_ok (Some j) (decode_as decode mk {| env_Type := t; env_Raw := j |}).
Proof.
  intros Hd Hmk Hin Ht. unfold decode_as. cbn.
  destruct (unmarshal decode j) as [m|] eqn:E; cbn; [|eauto].
  rewrite (Hmk m). split_and!; [done|done| |eauto].
  by eapply (unmarshal_get_type decode (λ m, client_type (mk m))).
Qed.

Ltac decode_type :=
  let H := fresh in
  intros ? ? H; repeat (apply bind_Some in H as (? & ? & H)); by simplify_eq/=.

(** Parsing never confuses kinds: on every frame [ParseClientMessage]
    returns either a message and no error or an error and no message; a message
    it returns is of the kind named by the frame's "type" member, carries that
    type in its own Type field, and the type is one of the ten client types (so
    a server-only or unknown type is rejected); with an error the type returned
    is empty or the frame's. *)
Lemma parse_client_sound (data : option json) : parse_ok data (ParseClientMessage data).
Proof.
  destruct data as [j|]; [|by left]. unfold ParseClientMessage, UnmarshalEnvelope.
  destruct (unmarshal (get_str "type") j) as [t|] eqn:Ht; [|by left].
  case_bool_decide; [by left|]. cbn [env_Type].
  repeat (case_bool_decide;
    [subst t; apply decode_as_ok; [decode_type|done|apply (bool_decide_unpack _); by vm_compute|done]|]).
  right. by exists j.
Qed.


Definition sample_chat : client_msg :=
  CChat {| cmsg_Type := "message"; cmsg_ChatID := "c1"; cmsg_Text := "hello" |}.


(** ** Server messages: theorems *)

(** The values [NewServerMessage] carries over unchanged: strings, booleans,
    lists of strings, and integers that are float64 values. *)
Definition plain (j : json) : bool :=
  match j with
  | JNum z => bool_decide (float64 z = z)
  | JArr l => forallb (λ j, match j with JStr _ => true | _ => false end) l
  | JObj _ => false
  | _ => true
  end.

Lemma plain_generic j : plain j → generic j = j.
Proof.
  destruct j as [| |z| |l|]; cbn; try done.
  - intros ->%bool_decide_unpack. done.
  - intros H. f_equal. induction l as [|j l IH]; [done|]. cbn in *.
    apply andb_True in H as [Hj H]. rewrite IH by done. by destruct j.
Qed.

Lemma member_det name ms k v :
  (k, v) ∈ ms → same_field name k →
  (∀ k' v', (k', v') ∈ ms → same_field name k' → v' = v) → member name ms = Some v.
Proof.
  induction ms as [|[k0 v0] ms IH]; [by intros ?%elem_of_nil|].
  intros Hin Hk Huniq. cbn. destruct (member name ms) as [v1|] eqn:E.
  - f_equal. clear IH Hin. assert (∃ k1, (k1, v1) ∈ ms ∧ same_field name k1) as (k1 & H1 & H2).
    { clear -E. induction ms as [|[k2 v2] ms IH]; [done|]. cbn in E.
      destruct (member name ms); simplify_eq.
      - destruct IH as (? & ? & ?); [done|]. eexists. split; [by right|done].
      - destruct (same_field name k2) eqn:?; simplify_eq. exists k2. split; [left|]. by apply Is_true_true. }
    eapply Huniq; [by right|done].
  - apply elem_of_cons in Hin as [?|Hin]; simplify_eq.
    + by rewrite (Is_true_true_1 _ Hk).
    + exfalso. enough (None = Some v) by done. apply IH; [done..|].
      intros. eapply Huniq; [by right|done].
Qed.

Lemma map_of_elem ms k v :
  NoDup ms.*1 → (k, v) ∈ ms ↔ map_of ms !! k = Some v.
Proof.
  unfold map_of. intros Hnd. rewrite <-(rev_involutive ms) in *. revert Hnd.
  induction (rev ms) as [|[k0 v0] l IH]; cbn; intros Hnd; [set_solver|].
  rewrite foldl_app. cbn. rewrite fmap_app in Hnd. apply NoDup_app in Hnd as (Hnd & Hd & _).
  rewrite elem_of_app, list_elem_of_singleton, IH by done. cbn.
  destruct (decide (k = k0)) as [->|].
  - rewrite lookup_insert_eq. split; [|naive_solver]. intros [H|?]; [|by simplify_eq].
    exfalso. eapply (Hd k0); [|by left]. apply IH in H; [|done].
    apply list_elem_of_fmap. by exists (k0, v).
  - rewrite lookup_insert_ne by done. naive_solver.
Qed.

Lemma members_of_elem m k v : (k, v) ∈ members_of m ↔ m !! k = Some v.
Proof. unfold members_of. rewrite merge_sort_Permutation. apply elem_of_map_to_list. Qed.

(** A struct payload: its tags are distinct up to case, one of them is "type",
    and its values survive the passage through [interface{}]. *)
Definition struct_payload (payload : list (string * json)) : bool :=
  bool_decide (NoDup (fold_name <$> payload.*1)) && bool_decide ("type" ∈ payload.*1)
  && forallb (λ kv, plain kv.2) payload.

Lemma forallb_plain payload :
  forallb (λ kv, plain kv.2) payload → (λ kv : string * json, (kv.1, generic kv.2)) <$> payload = payload.
Proof.
  induction payload as [|[k v] l IH]; cbn; [done|]. intros [Hv Hl]%andb_True.
  rewrite plain_generic by done. f_equal. by apply IH.
Qed.

Lemma fold_NoDup_inj (ms : list (string * json)) k k' v v' :
  NoDup (fold_name <$> ms.*1) → (k, v) ∈ ms → (k', v') ∈ ms → fold_name k = fold_name k' →
  k = k' ∧ v = v'.
Proof.
  induction ms as [|[k0 v0] ms IH]; [by intros _ ?%elem_of_nil|]. cbn.
  intros [Hn Hnd]%NoDup_cons [E|H]%elem_of_cons [E'|H']%elem_of_cons Hf; simplify_eq; auto.
  - exfalso. apply Hn. rewrite Hf. apply list_elem_of_fmap. exists k'. split; [done|].
    apply list_elem_of_fmap. by exists (k', v').
  - exfalso. apply Hn. rewrite <-Hf. apply list_elem_of_fmap. exists k. split; [done|].
    apply list_elem_of_fmap. by exists (k, v).
Qed.

Lemma NoDup_fold_keys (ms : list (string * json)) : NoDup (fold_name <$> ms.*1) → NoDup ms.*1.
Proof. apply NoDup_fmap_1. Qed.

(** The frame built for a struct is that struct with its type replaced:
    [NewServerMessage] yields an object with exactly the struct's members, once
    each; a client that decodes it finds the message type under "type" and
    under every other tag the struct's value, provided integers are exact in
    float64 (they pass through [map[string]interface{}]). *)
Theorem server_message_fields (msgType : string) (payload : list (string * json)) :
  struct_payload payload →
  ∃ ms, NewServerMessage msgType payload = JObj ms ∧ ms.*1 ≡ₚ payload.*1
    ∧ ∀ name, name ∈ payload.*1 →
        member name ms = if bool_decide (name = "type") then Some (JStr msgType) else member name payload.
Proof.
  unfold struct_payload. rewrite !andb_True, !bool_decide_spec. intros [[Hnd Hty] Hpl].
  unfold NewServerMessage. rewrite forallb_plain by done.
  pose proof (NoDup_fold_keys _ Hnd) as Hk.
  apply list_elem_of_fmap in Hty as ([? v0] & [= <-] & Hty).
  set (m := <["type" := JStr msgType]> (map_of payload)).
  assert (Hdom : ∀ k v, m !! k = Some v → ∃ v', (k, v') ∈ payload).
  { intros k v. unfold m. destruct (decide (k = "type")) as [->|].
    - intros _. by exists v0.
    - rewrite lookup_insert_ne by done. intros. exists v. by apply map_of_elem. }
  eexists. split; [done|]. split.
  - apply NoDup_Permutation; [|done|].
    + unfold members_of. rewrite merge_sort_Permutation. apply NoDup_fst_map_to_list.
    + intros k. rewrite !list_elem_of_fmap. split.
      * intros ([k' v] & -> & H%members_of_elem). apply Hdom in H as [v' H]. by exists (k', v').
      * intros ([k' v] & -> & H). destruct (m !! k') as [v'|] eqn:E.
        -- exists (k', v'). split; [done|]. by apply members_of_elem.
        -- apply map_of_elem in H; [|done]. unfold m in E. apply lookup_insert_None in E as [E _]. cbn in *; congruence.
  - intros name ([k v] & -> & Hin)%list_elem_of_fmap. cbn [fst].
    assert (Hsame : ∀ k' v', (k', v') ∈ payload → same_field k k' → k' = k ∧ v' = v).
    { intros k' v' H' Hs%bool_decide_unpack. by edestruct (fold_NoDup_inj payload k k' v v') as [-> ->]. }
    assert (Hself : same_field k k) by by apply bool_decide_pack.
    assert (Hm : member k payload = Some v).
    { eapply member_det; [done|done|]. intros k' v' H1 H2. by destruct (Hsame k' v'). }
    rewrite Hm. set (w := if bool_decide (k = "type") then JStr msgType else v).
    assert (Hw : m !! k = Some w).
    { unfold m, w. case_bool_decide as Ek; [rewrite Ek; apply lookup_insert_eq|].
      rewrite lookup_insert_ne by done. by apply map_of_elem. }
    rewrite (member_det k _ k w); [unfold w; by case_bool_decide|by apply members_of_elem|done|].
    intros k' v' H1%members_of_elem H2. destruct (Hdom _ _ H1) as [u Hu].
    destruct (Hsame _ _ Hu H2) as [-> _]. congruence.
Qed.

Definition sample_server_chat : list (string * json) :=
  marshal_ServerChatMsg {| sch_Type := ""; sch_From := "partner"; sch_Text := "hi"; sch_Ts := 1700000000 |}.

Lemma server_message_fields_witness :
  struct_payload sample_server_chat
  ∧ ∃ ms, NewServerMessage TypeMessage sample_server_chat = JObj ms
      ∧ ms.*1 ≡ₚ sample_server_chat.*1
      ∧ ∀ name, name ∈ sample_server_chat.*1 →
          member name ms = if bool_decide (name = "type") then Some (JStr TypeMessage)
                           else member name sample_server_chat.
Proof.
  assert (struct_payload sample_server_chat) as H by (vm_compute; exact I).
  split; [exact H|]. apply (server_message_fields TypeMessage sample_server_chat). exact H.
Defined.
