(* ===== verification/Messaging.v ===== *)
(** * internal/messaging/nats.go: subjects and publishing

    The subject names and the publishing helpers of [NATSClient]; its
    subscriptions are modelled in Subscriptions.v. *)

From stdpp Require Import base strings list.
From S2P Require Import Prelude GoStd Json Env.

Definition SubjectMatchRequest : string := "match.request".
Definition SubjectMatchCancel : string := "match.cancel".
Definition SubjectMatchFound : string := "match.found".
Definition SubjectMatchNotify : string := "match.notify".
Definition SubjectChat : string := "chat".
Definition SubjectModeration : string := "moderation.check".
Definition SubjectModerationResult : string := "moderation.result".

(** [prefix + "." + id] *)
Definition subject (prefix id : string) : string := prefix +:+ "." +:+ id.

Section publish.
Context `{Env W}.

Definition Publish (subj : string) (data : json) : M W (option error) := nats_publish subj data.

Definition PublishChatMessage (chatID : string) (data : json) : M W (option error) :=
  Publish (subject SubjectChat chatID) data.

Definition PublishMatchRequest (data : json) : M W (option error) :=
  Publish SubjectMatchRequest data.

Definition PublishMatchCancel (data : json) : M W (option error) :=
  Publish SubjectMatchCancel data.

Definition PublishMatchNotify (sessionID : string) (data : json) : M W (option error) :=
  Publish (subject SubjectMatchNotify sessionID) data.

Definition PublishModerationRequest (data : json) : M W (option error) :=
  Publish SubjectModeration data.

Definition PublishModerationResult (sessionID : string) (data : json) : M W (option error) :=
  Publish (subject SubjectModerationResult sessionID) data.
End publish.
