(* ===== verification/Subscriptions.v ===== *)
(** * internal/messaging/nats.go: the subscription registry of [NATSClient]

    [NATSClient] remembers its subscriptions in a map, most under their subject,
    a chat subscription under ["chatsub:" + sessionID].  The NATS library is the
    class [Broker]: it opens and closes subscriptions; [active] is what the
    server would deliver to.  A handler is a value of the parameter [H] (the
    closures of the callers capture identifiers only). *)

From stdpp Require Import base gmap strings numbers list_basics list_relations list.
From S2P Require Import Prelude GoStd Messaging.

(** A *nats.Subscription, by identity. *)
Abbreviation sub_id := nat.

Class Broker (H B : Type) := {
  nats_subscribe : string → H → M B (res sub_id);
  sub_Unsubscribe : sub_id → M B (option error);
  sub_Drain : sub_id → M B (option error);
  conn_Drain : M B (option error);
  (** the order in which [range] visits the map of subscriptions *)
  subs_range : gmap string sub_id → M B (list (string * sub_id));
  (** the subscriptions messages are delivered to: subject and handler *)
  active : B → gmap sub_id (string * H);
  connected : B → Prop;
}.

Class BrokerLaws (H B : Type) `{!Broker H B} : Prop := {
  subscribe_ok : ∀ subj h b id b', nats_subscribe subj h b = (Ok id, b') →
    active b !! id = None ∧ active b' = <[id := (subj, h)]> (active b);
  subscribe_err : ∀ subj h b e b', nats_subscribe subj h b = (Err e, b') → active b' = active b;
  subscribe_up : ∀ subj h b, connected b →
    ∃ id b', nats_subscribe subj h b = (Ok id, b') ∧ connected b';
  unsubscribe_ok : ∀ id b b', sub_Unsubscribe id b = (None, b') → active b' = delete id (active b);
  unsubscribe_up : ∀ id b, connected b → is_Some (active b !! id) →
    ∃ b', sub_Unsubscribe id b = (None, b') ∧ connected b';
  drain_ok : ∀ id b b', sub_Drain id b = (None, b') → active b' = delete id (active b);
  drain_up : ∀ id b, connected b → is_Some (active b !! id) →
    ∃ b', sub_Drain id b = (None, b') ∧ connected b';
  conn_drain_ok : ∀ b b', conn_Drain b = (None, b') → active b' = ∅;
  subs_range_spec : ∀ m b, (subs_range m b).1 ≡ₚ map_to_list m ∧
    active (subs_range m b).2 = active b ∧ (connected b → connected (subs_range m b).2);
}.

(** The client: its map and the connection. *)
Record NATSClient (B : Type) : Type := Client {
  subs : gmap string sub_id;
  conn : B;
}.
Arguments Client {B} _ _.
Arguments subs {B} _.
Arguments conn {B} _.

Definition on_conn {B A} (m : M B A) : M (NATSClient B) A :=
  λ c, let '(a, b) := m (conn c) in (a, Client (subs c) b).

Definition set_subs {B} (s : gmap string sub_id) : M (NATSClient B) unit :=
  λ c, (tt, Client s (conn c)).
Definition get_subs {B} : M (NATSClient B) (gmap string sub_id) := λ c, (subs c, c).

Definition chat_key (sessionID : string) : string := "chatsub:" +:+ sessionID.

Section client.
Context `{Broker H B}.

Definition subscribe_as (key subject : string) (handler : H) : M (NATSClient B) (option error) :=
  let! r := on_conn (nats_subscribe subject handler) in
  match r with
  | Err err => ret (Some ("nats subscribe " +:+ subject +:+ ": " +:+ err))
  | Ok sub =>
      let! s := get_subs in
      do! set_subs (<[key := sub]> s) in
      ret None
  end.

Definition Subscribe (subject : string) (handler : H) : M (NATSClient B) (option error) :=
  subscribe_as subject subject handler.

Definition SubscribeToChat (chatID sessionID : string) (handler : H) : M (NATSClient B) (option error) :=
  subscribe_as (chat_key sessionID) (subject SubjectChat chatID) handler.

Definition unsubscribe (key : string) : M (NATSClient B) (option error) :=
  let! s := get_subs in
  match s !! key with
  | None => ret (Some ("nats: no subscription for subject " +:+ key))
  | Some sub =>
      do! set_subs (delete key s) in
      let! e := on_conn (sub_Unsubscribe sub) in
      ret match e with
          | Some err => Some ("nats unsubscribe " +:+ key +:+ ": " +:+ err)
          | None => None
          end
  end.

Definition UnsubscribeFromChat (sessionID : string) := unsubscribe (chat_key sessionID).

Definition SubscribeMatchFound (sessionID : string) (handler : H) :=
  Subscribe (subject SubjectMatchFound sessionID) handler.
Definition UnsubscribeMatchFound (sessionID : string) :=
  unsubscribe (subject SubjectMatchFound sessionID).
Definition SubscribeMatchRequest (handler : H) := Subscribe SubjectMatchRequest handler.
Definition SubscribeMatchCancel (handler : H) := Subscribe SubjectMatchCancel handler.
Definition SubscribeMatchNotify (sessionID : string) (handler : H) :=
  Subscribe (subject SubjectMatchNotify sessionID) handler.
Definition UnsubscribeMatchNotify (sessionID : string) :=
  unsubscribe (subject SubjectMatchNotify sessionID).
Definition SubscribeModerationCheck (handler : H) := Subscribe SubjectModeration handler.
Definition SubscribeModerationResult (sessionID : string) (handler : H) :=
  Subscribe (subject SubjectModerationResult sessionID) handler.
Definition UnsubscribeModerationResult (sessionID : string) :=
  unsubscribe (subject SubjectModerationResult sessionID).

Definition Close : M (NATSClient B) unit :=
  let! s := get_subs in
  let! order := on_conn (subs_range s) in
  do! range_do order (λ '(_, sub), let! _ := on_conn (sub_Drain sub) in ret tt) in
  do! set_subs ∅ in
  let! _ := on_conn conn_Drain in
  ret tt.
End client.

(** ** Specification: a map from keys to what they listen to *)

Inductive sub_op (H : Type) : Type :=
  | OpSubscribe (subject : string) (h : H)
  | OpSubscribeToChat (chatID sessionID : string) (h : H)
  | OpUnsubscribe (key : string).
Arguments OpSubscribe {H} subject h.
Arguments OpSubscribeToChat {H} chatID sessionID h.
Arguments OpUnsubscribe {H} key.

Definition op_key {H} (op : sub_op H) : string :=
  match op with
  | OpSubscribe subject _ => subject
  | OpSubscribeToChat _ sessionID _ => chat_key sessionID
  | OpUnsubscribe key => key
  end.

Definition spec_op {H} (op : sub_op H) (m : gmap string (string * H)) : gmap string (string * H) :=
  match op with
  | OpSubscribe subject h => <[subject := (subject, h)]> m
  | OpSubscribeToChat chatID sessionID h => <[chat_key sessionID := (subject SubjectChat chatID, h)]> m
  | OpUnsubscribe key => delete key m
  end.

Definition run_op `{Broker H B} (op : sub_op H) : M (NATSClient B) (option error) :=
  match op with
  | OpSubscribe subject h => Subscribe subject h
  | OpSubscribeToChat chatID sessionID h => SubscribeToChat chatID sessionID h
  | OpUnsubscribe key => unsubscribe key
  end.

Definition run_ops `{Broker H B} (ops : list (sub_op H)) : M (NATSClient B) unit :=
  range_do ops (λ op, let! _ := run_op op in ret tt).

(** Subscribing only to a key that is free: the callers unsubscribe first. *)
Fixpoint disciplined {H} (ops : list (sub_op H)) (m : gmap string (string * H)) : bool :=
  match ops with
  | [] => true
  | op :: ops =>
      match op with
      | OpUnsubscribe _ => true
      | _ => bool_decide (m !! op_key op = None)
      end && disciplined ops (spec_op op m)
  end.

(** The client holds exactly the subscriptions of [m]: every key one active
    subscription of its own, and nothing else is active. *)
Record holds `{Broker H B} (m : gmap string (string * H)) (c : NATSClient B) : Prop := {
  h_dom : dom (subs c) = dom m;
  h_val : ∀ k id, subs c !! k = Some id → active (conn c) !! id = m !! k;
  h_inj : ∀ k1 k2 id, subs c !! k1 = Some id → subs c !! k2 = Some id → k1 = k2;
  h_all : (map_to_list (active (conn c))).*2 ≡ₚ (map_to_list m).*2;
}.

Section proofs.
Context `{BrokerLaws H B}.
Implicit Types (c : NATSClient B) (m : gmap string (string * H)).

Lemma wp_on_conn {A} (x : M B A) (Q : A → NATSClient B → Prop) c :
  wp x (λ a b, Q a (Client (subs c) b)) (conn c) → wp (on_conn x) Q c.
Proof. unfold wp, on_conn. by destruct (x (conn c)). Qed.

Lemma wp_get_subs (Q : gmap string sub_id → NATSClient B → Prop) c : Q (subs c) c → wp get_subs Q c.
Proof. done. Qed.
Lemma wp_set_subs s (Q : unit → NATSClient B → Prop) c : Q tt (Client s (conn c)) → wp (set_subs s) Q c.
Proof. done. Qed.

Lemma holds_free m c k : holds m c → m !! k = None → subs c !! k = None.
Proof.
  intros Hh Hk. apply not_elem_of_dom. rewrite (h_dom _ _ Hh). by apply not_elem_of_dom.
Qed.

Lemma wp_subscribe_as key subj h m (Q : option error → NATSClient B → Prop) c :
  holds m c → connected (conn c) → m !! key = None →
  (∀ c', holds (<[key := (subj, h)]> m) c' → connected (conn c') → Q None c') →
  wp (subscribe_as key subj h) Q c.
Proof.
  intros Hh Hup Hk HQ. unfold subscribe_as. wp_pure. apply wp_on_conn.
  destruct (subscribe_up subj h _ Hup) as (id & b' & E & Hup'). unfold wp at 1. rewrite E. cbn [fst snd].
  wp_pure. apply wp_get_subs. wp_pure. apply wp_set_subs. wp_pure.
  apply subscribe_ok in E as [Hfresh Ha]. pose proof (holds_free _ _ _ Hh Hk) as Hs.
  apply HQ; [|done]. destruct Hh as [Hd Hv Hi Hl]. split; cbn.
  - by rewrite !dom_insert_L, Hd.
  - intros k id' H1. rewrite Ha. destruct (decide (k = key)) as [->|].
    + rewrite lookup_insert_eq in H1. injection H1 as <-. by rewrite !lookup_insert_eq.
    + rewrite lookup_insert_ne in H1 by done. rewrite (lookup_insert_ne m) by done.
      rewrite lookup_insert_ne; [by apply Hv|].
      intros <-. rewrite (Hv _ _ H1) in Hfresh. apply not_elem_of_dom in Hfresh.
      apply elem_of_dom_2 in H1. by rewrite Hd in H1.
  - intros k1 k2 id' H1 H2. rewrite lookup_insert_Some in H1, H2.
    destruct H1 as [[<- <-]|[? H1]], H2 as [[<- H2]|[? H2]]; [done| | |by eauto].
    + exfalso. rewrite (Hv _ _ H2) in Hfresh. apply not_elem_of_dom in Hfresh.
      apply elem_of_dom_2 in H2. by rewrite Hd in H2.
    + exfalso. subst. rewrite (Hv _ _ H1) in Hfresh. apply not_elem_of_dom in Hfresh.
      apply elem_of_dom_2 in H1. by rewrite Hd in H1.
  - rewrite Ha, !map_to_list_insert by done. cbn. by f_equiv.
Qed.

Lemma wp_unsubscribe key m (Q : option error → NATSClient B → Prop) c :
  holds m c → connected (conn c) →
  (∀ e c', holds (delete key m) c' → connected (conn c') → Q e c') →
  wp (unsubscribe key) Q c.
Proof.
  intros Hh Hup HQ. unfold unsubscribe. wp_pure. apply wp_get_subs.
  destruct (subs c !! key) as [id|] eqn:Es.
  - wp_pure. apply wp_set_subs, wp_bind, wp_on_conn. cbn.
    assert (is_Some (active (conn c) !! id)) as Hact.
    { rewrite (h_val _ _ Hh _ _ Es). apply elem_of_dom. rewrite <-(h_dom _ _ Hh). by eapply elem_of_dom_2. }
    destruct (unsubscribe_up id _ Hup Hact) as (b' & E & Hup'). unfold wp at 1. rewrite E. cbn.
    apply unsubscribe_ok in E. apply wp_ret, HQ; [|done]. destruct Hh as [Hd Hv Hi Hl]. split; cbn.
    + by rewrite !dom_delete_L, Hd.
    + intros k id' [? H1]%lookup_delete_Some. rewrite E, lookup_delete_ne; [|naive_solver].
      rewrite lookup_delete_ne by done. by apply Hv.
    + intros k1 k2 id' [_ H1]%lookup_delete_Some [_ H2]%lookup_delete_Some. eauto.
    + destruct Hact as [v Hact]. apply (Permutation_cons_inv (a := v)). rewrite E.
      transitivity (map_to_list (active (conn c))).*2.
      * rewrite <-(map_to_list_delete (active (conn c)) id v) by done. done.
      * rewrite Hl. rewrite (Hv _ _ Es) in Hact. by rewrite <-(map_to_list_delete m key v) by done.
  - apply wp_ret, HQ; [|done]. rewrite delete_id; [done|]. apply not_elem_of_dom.
    rewrite <-(h_dom _ _ Hh). by apply not_elem_of_dom.
Qed.

Lemma wp_run_op op m (Q : option error → NATSClient B → Prop) c :
  holds m c → connected (conn c) → disciplined [op] m →
  (∀ e c', holds (spec_op op m) c' → connected (conn c') → Q e c') →
  wp (run_op op) Q c.
Proof.
  intros Hh Hup Hd HQ. destruct op; cbn in *; rewrite ?andb_true_r, ?bool_decide_spec in Hd.
  - eapply wp_subscribe_as; eauto.
  - eapply wp_subscribe_as; eauto.
  - eapply wp_unsubscribe; eauto.
Qed.

Lemma wp_run_ops ops m (Q : unit → NATSClient B → Prop) c :
  holds m c → connected (conn c) → disciplined ops m →
  (∀ c', holds (foldl (flip spec_op) m ops) c' → connected (conn c') → Q tt c') →
  wp (run_ops ops) Q c.
Proof.
  revert m c. induction ops as [|op ops IH]; intros m c Hh Hup Hd HQ; [by apply wp_ret, HQ|].
  cbn [disciplined] in Hd. apply andb_True in Hd as [Ho Hd]. unfold run_ops. cbn [range_do].
  wp_pure. eapply wp_run_op; [done..|cbn; by rewrite andb_true_r|].
  intros e c' Hh' Hup'. wp_pure. by apply (IH (spec_op op m)).
Qed.

Lemma holds_new (b : B) : active b = ∅ → holds ∅ (Client ∅ b).
Proof.
  intros Hb. split; cbn; try set_solver. by rewrite Hb, !map_to_list_empty.
Qed.

(** C29: For a client whose callers subscribe only to a free key, the broker
    delivers to exactly the subscriptions recorded by the specification (a map
    from keys to subject and handler): after any such sequence of Subscribe,
    SubscribeToChat and unsubscribe calls the active subscriptions are, with
    multiplicity, those of the map, so none is lost and none leaks; and
    after Close the registry is empty. *)
Theorem subscriptions_refine (b : B) (ops : list (sub_op H)) :
  active b = ∅ → connected b → disciplined ops ∅ →
  let m := foldl (flip spec_op) ∅ ops in
  let c := (run_ops ops (Client ∅ b)).2 in
  (∀ k v, m !! k = Some v ↔ ∃ id, subs c !! k = Some id ∧ active (conn c) !! id = Some v)
  ∧ (map_to_list (active (conn c))).*2 ≡ₚ (map_to_list m).*2 ∧ subs (Close c).2 = ∅.
Proof.
  intros Hb Hup Hd m c.
  assert (holds m c) as Hh.
  { refine (wp_run_ops ops ∅ (λ _ c, holds m c) (Client ∅ b) (holds_new b Hb) Hup Hd _). done. }
  destruct Hh as [Hdom Hv Hi Hl]. split_and!.
  - intros k v. split.
    + intros Hk. assert (is_Some (subs c !! k)) as [id Hid].
      { apply elem_of_dom. rewrite Hdom. by eapply elem_of_dom_2. }
      exists id. split; [done|]. by rewrite (Hv _ _ Hid).
    + intros (id & H1 & H2). by rewrite <-(Hv _ _ H1).
  - exact Hl.
  - unfold Close, bind, get_subs. destruct (on_conn (subs_range (subs c)) c) as [o c1].
    destruct (range_do o _ c1) as [[] c2]. unfold on_conn. cbn. by destruct (conn_Drain (conn c2)).
Qed.

(** Subscribing again without unsubscribing leaves the old subscription
    active: the map forgets it. *)
Lemma resubscribe_leaks (c : NATSClient B) subj h1 h2 :
  connected (conn c) →
  let c1 := (Subscribe subj h1 c).2 in
  let c2 := (Subscribe subj h2 c1).2 in
  ∃ id1 id2, id1 ≠ id2 ∧ active (conn c2) !! id1 = Some (subj, h1)
    ∧ active (conn c2) !! id2 = Some (subj, h2) ∧ subs c2 !! subj = Some id2.
Proof.
  intros Hup. unfold Subscribe, subscribe_as, bind, on_conn, get_subs, set_subs, ret. cbn.
  destruct (subscribe_up subj h1 _ Hup) as (id1 & b1 & E1 & Hup1). rewrite E1. cbn.
  destruct (subscribe_up subj h2 _ Hup1) as (id2 & b2 & E2 & Hup2). rewrite E2. cbn.
  apply subscribe_ok in E1 as [_ E1]. apply subscribe_ok in E2 as [Hf E2].
  assert (id1 ≠ id2). { intros <-. by rewrite E1, lookup_insert_eq in Hf. }
  exists id1, id2. rewrite E2, E1. rewrite !lookup_insert_eq, lookup_insert_ne, lookup_insert_eq by done.
  done.
Qed.
End proofs.

(** ** A broker in memory *)

Record mem_broker (H : Type) : Type := MemBroker { mb_next : nat; mb_active : gmap nat (string * H) }.
Arguments MemBroker {H} _ _.
Arguments mb_next {H} _.
Arguments mb_active {H} _.

#[export] Instance mem_broker_ops H : Broker H (mem_broker H) := {|
  nats_subscribe subj h := λ b,
    (Ok (fresh (dom (mb_active b))), MemBroker (mb_next b) (<[fresh (dom (mb_active b)) := (subj, h)]> (mb_active b)));
  sub_Unsubscribe id := λ b, (None, MemBroker (mb_next b) (delete id (mb_active b)));
  sub_Drain id := λ b, (None, MemBroker (mb_next b) (delete id (mb_active b)));
  conn_Drain := λ b, (None, MemBroker (mb_next b) ∅);
  subs_range m := ret (map_to_list m);
  active := mb_active;
  connected _ := True;
|}.

#[export] Instance mem_broker_laws H : BrokerLaws H (mem_broker H).
Proof.
  split; cbn; try (intros; simplify_eq/=; by eauto).
  intros subj h b id b' ?. simplify_eq/=. split; [|done].
  apply not_elem_of_dom. apply is_fresh.
Qed.

Definition sample_ops : list (sub_op nat) :=
  [OpSubscribe "match.found.s1" 1; OpSubscribeToChat "c1" "s1" 2; OpSubscribeToChat "c1" "s2" 3;
   OpUnsubscribe "chatsub:s1"; OpSubscribeToChat "c2" "s1" 4; OpUnsubscribe "absent"]%nat.

Lemma subscriptions_refine_witness :
  let b : mem_broker nat := MemBroker 0 ∅ in
  let m := foldl (flip spec_op) ∅ sample_ops in
  let c := (run_ops sample_ops (Client ∅ b)).2 in
  (∀ k v, m !! k = Some v ↔ ∃ id, subs c !! k = Some id ∧ active (conn c) !! id = Some v)
  ∧ (map_to_list (active (conn c))).*2 ≡ₚ (map_to_list m).*2 ∧ subs (Close c).2 = ∅.
Proof.
  apply (subscriptions_refine (MemBroker 0 ∅ : mem_broker nat) sample_ops).
  - reflexivity.
  - exact I.
  - vm_compute. exact I.
Defined.
