(* ===== verification/Connection.v ===== *)
(** * internal/ws/connection.go and epoll.go: connections and their registries

    The network is the class [Net]: sockets are opened by the upgrade of an
    HTTP request and closed by the server; every open socket has a file
    descriptor of its own.  A [Connection] is an object that both maps of the
    [ConnectionManager] share by pointer, so connections live in a heap and the
    maps hold locations. *)

From stdpp Require Import base gmap strings numbers list_basics list_relations list.
From S2P Require Import Prelude GoStd Json.
Open Scope Z_scope.

(** A net.Conn, and a pointer to a Connection, by identity. *)
Abbreviation sock := nat.
Abbreviation loc := nat.

(** What reading the next frame header yields. *)
Inductive opcode : Type := OpText | OpBinary | OpContinuation | OpClose | OpPing | OpPong.
Definition IsControl (o : opcode) : bool :=
  match o with OpClose | OpPing | OpPong => true | _ => false end.
Inductive read_result : Type :=
  | RTimeout
  | RError
  | RFrame (op : opcode) (length : Z).

Class Net (NW : Type) := {
  upgrade_http : M NW (res sock);
  write_text : sock → json → M NW (option error);
  write_ping : sock → M NW (option error);
  close_sock : sock → M NW (option error);
  next_reader : sock → M NW read_result;
  discard : sock → M NW unit;
  (** the payload of a text frame: the JSON value it denotes, if any *)
  read_full : sock → Z → M NW (res (option json));
  (** [SyscallConn], then [Control]: the outer [None] is a connection without a
      raw one, the inner [None] a closed one *)
  raw_control : sock → M NW (option (option Z));
  epoll_ctl_add : Z → M NW (option error);
  epoll_ctl_del : Z → M NW (option error);
  epoll_wait : M NW (res (list Z));
  (** the order in which [range] visits the map of connections *)
  conns_range : gmap string loc → M NW (list (string * loc));
  (** observations: the text frames delivered to the peers, the open sockets
      with their descriptors *)
  frames : NW → list (sock * json);
  opened : NW → gmap sock Z;
}.

(** Calls that neither deliver a frame nor open or close a socket. *)
Definition quiet `{Net NW} {A} (m : M NW A) : Prop :=
  ∀ n, frames (m n).2 = frames n ∧ opened (m n).2 = opened n.

Class NetLaws (NW : Type) `{!Net NW} : Prop := {
  upgrade_ok : ∀ n s n', upgrade_http n = (Ok s, n') →
    opened n !! s = None ∧ frames n' = frames n ∧
    ∃ fd, opened n' = <[s := fd]> (opened n);
  upgrade_err : ∀ n e n', upgrade_http n = (Err e, n') → frames n' = frames n ∧ opened n' = opened n;
  opened_inj : ∀ n s1 s2 fd, opened n !! s1 = Some fd → opened n !! s2 = Some fd → s1 = s2;
  write_ok : ∀ s j n n', write_text s j n = (None, n') →
    frames n' = frames n ++ [(s, j)] ∧ opened n' = opened n;
  write_err : ∀ s j n e n', write_text s j n = (Some e, n') →
    frames n' = frames n ∧ opened n' = opened n;
  close_spec : ∀ s n, frames (close_sock s n).2 = frames n ∧
    opened (close_sock s n).2 = delete s (opened n);
  raw_control_open : ∀ s n fd, opened n !! s = Some fd → (raw_control s n).1 = Some (Some fd);
  quiet_control : ∀ s, quiet (raw_control s);
  quiet_ping : ∀ s, quiet (write_ping s);
  quiet_next : ∀ s, quiet (next_reader s);
  quiet_discard : ∀ s, quiet (discard s);
  quiet_read : ∀ s z, quiet (read_full s z);
  quiet_add : ∀ fd, quiet (epoll_ctl_add fd);
  quiet_del : ∀ fd, quiet (epoll_ctl_del fd);
  quiet_wait : quiet epoll_wait;
  quiet_range : ∀ m, quiet (conns_range m);
  conns_range_perm : ∀ m n, (conns_range m n).1 ≡ₚ map_to_list m;
}.

Record Connection : Type := {
  ID : string;
  Conn : sock;
  Fd : Z;
  CreatedAt : Z;
  LastPing : Z;
  processing : bool;
}.

(** The heap of connections, the manager's maps, the map of the epoll wrapper
    and the network. *)
Record hub (NW : Type) : Type := Hub {
  heap : gmap loc Connection;
  byID : gmap string loc;
  byFd : gmap Z loc;
  ep_connections : gmap Z sock;
  net : NW;
}.
Arguments Hub {NW} _ _ _ _ _.
Arguments heap {NW} _.
Arguments byID {NW} _.
Arguments byFd {NW} _.
Arguments ep_connections {NW} _.
Arguments net {NW} _.

Definition NewConnectionManager {NW} (n : NW) : hub NW := Hub ∅ ∅ ∅ ∅ n.

Section ops.
Context `{Net NW}.

Definition on_net {A} (m : M NW A) : M (hub NW) A :=
  λ h, let '(a, n) := m (net h) in (a, Hub (heap h) (byID h) (byFd h) (ep_connections h) n).

Definition get_hub : M (hub NW) (hub NW) := λ h, (h, h).
Definition set_maps (ids : gmap string loc) (fds : gmap Z loc) : M (hub NW) unit :=
  λ h, (tt, Hub (heap h) ids fds (ep_connections h) (net h)).
Definition set_ep (m : gmap Z sock) : M (hub NW) unit :=
  λ h, (tt, Hub (heap h) (byID h) (byFd h) m (net h)).

(** [&Connection{...}] *)
Definition new_conn (c : Connection) : M (hub NW) loc :=
  λ h, let l := fresh (dom (heap h)) in
       (l, Hub (<[l := c]> (heap h)) (byID h) (byFd h) (ep_connections h) (net h)).

(** Assigning a field of the object. *)
Definition update_conn (l : loc) (f : Connection → Connection) : M (hub NW) unit :=
  λ h, (tt, Hub (alter f l (heap h)) (byID h) (byFd h) (ep_connections h) (net h)).
Definition set_LastPing (t : Z) (c : Connection) : Connection :=
  {| ID := ID c; Conn := Conn c; Fd := Fd c; CreatedAt := CreatedAt c; LastPing := t;
     processing := processing c |}.
Definition set_processing (b : bool) (c : Connection) : Connection :=
  {| ID := ID c; Conn := Conn c; Fd := Fd c; CreatedAt := CreatedAt c; LastPing := LastPing c;
     processing := b |}.

(** Following a pointer; every pointer the program holds is allocated, and the
    default stands for nothing. *)
Definition dummy_conn : Connection :=
  {| ID := ""; Conn := 0%nat; Fd := -1; CreatedAt := 0; LastPing := 0; processing := false |}.
Definition deref (h : hub NW) (l : loc) : Connection := default dummy_conn (heap h !! l).

Definition WriteMessage (l : loc) (data : json) : M (hub NW) (option error) :=
  let! h := get_hub in on_net (write_text (Conn (deref h l)) data).
Definition WritePing (l : loc) : M (hub NW) (option error) :=
  let! h := get_hub in on_net (write_ping (Conn (deref h l))).
Definition Close (l : loc) : M (hub NW) (option error) :=
  let! h := get_hub in on_net (close_sock (Conn (deref h l))).

Definition socketFD (conn : sock) : M (hub NW) Z :=
  let! r := on_net (raw_control conn) in
  ret match r with
      | None => -1
      | Some None => 0
      | Some (Some fd) => fd
      end.

(** *** ConnectionManager *)

Definition Add (l : loc) : M (hub NW) unit :=
  let! h := get_hub in
  let c := deref h l in
  set_maps (<[ID c := l]> (byID h)) (<[Fd c := l]> (byFd h)).

Definition Remove (id : string) : M (hub NW) bool :=
  let! h := get_hub in
  match byID h !! id with
  | Some l =>
      do! set_maps (delete id (byID h)) (delete (Fd (deref h l)) (byFd h)) in
      let! _ := Close l in
      ret true
  | None => ret false
  end.

Definition RemoveByFd (fd : Z) : M (hub NW) (option loc) :=
  let! h := get_hub in
  match byFd h !! fd with
  | Some l =>
      do! set_maps (delete (ID (deref h l)) (byID h)) (delete fd (byFd h)) in
      let! _ := Close l in
      ret (Some l)
  | None => ret None
  end.

Definition Get (id : string) : M (hub NW) (option loc) := let! h := get_hub in ret (byID h !! id).
Definition GetByFd (fd : Z) : M (hub NW) (option loc) := let! h := get_hub in ret (byFd h !! fd).
Definition GetByConn (c : sock) : M (hub NW) (option loc) :=
  let! fd := socketFD c in GetByFd fd.
Definition Count : M (hub NW) Z := let! h := get_hub in ret (Z.of_nat (size (byID h))).

Definition All : M (hub NW) (list loc) :=
  let! h := get_hub in
  let! order := on_net (conns_range (byID h)) in
  ret order.*2.

Definition Broadcast (msg : json) : M (hub NW) unit :=
  let! conns := All in
  range_do conns (λ l, let! _ := WriteMessage l msg in ret tt).

(** *** Epoll (the epoll instance's own descriptor is left out) *)

Definition epoll_Add (conn : sock) : M (hub NW) (option error) :=
  let! fd := socketFD conn in
  let! e := on_net (epoll_ctl_add fd) in
  match e with
  | Some err => ret (Some err)
  | None =>
      let! h := get_hub in
      do! set_ep (<[fd := conn]> (ep_connections h)) in
      ret None
  end.

Definition epoll_Remove (conn : sock) : M (hub NW) (option error) :=
  let! fd := socketFD conn in
  let! e := on_net (epoll_ctl_del fd) in
  match e with
  | Some err => ret (Some err)
  | None =>
      let! h := get_hub in
      do! set_ep (delete fd (ep_connections h)) in
      ret None
  end.

Definition epoll_Wait : M (hub NW) (res (list sock)) :=
  let! r := on_net epoll_wait in
  match r with
  | Err err => ret (Err err)
  | Ok events => let! h := get_hub in ret (Ok (omap (λ fd, ep_connections h !! fd) events))
  end.
End ops.

(** The part of [handleUpgrade] that creates and registers the connection. *)
Definition register `{Net NW} (conn : sock) (fd : Z) (sessionID : string) (created last : Z)
    : M (hub NW) loc :=
  let! l := new_conn {| ID := sessionID; Conn := conn; Fd := fd; CreatedAt := created;
                        LastPing := last; processing := false |} in
  do! Add l in
  ret l.

(** ** The invariant *)

(** Both maps point to the same objects, each under its own ID and descriptor,
    and the open sockets are those of the registered connections. *)
Record conns_ok `{Net NW} (h : hub NW) : Prop := {
  ok_id : ∀ id l, byID h !! id = Some l →
    ∃ c, heap h !! l = Some c ∧ ID c = id ∧ byFd h !! Fd c = Some l
         ∧ opened (net h) !! Conn c = Some (Fd c);
  ok_fd : ∀ fd l, byFd h !! fd = Some l →
    ∃ c, heap h !! l = Some c ∧ Fd c = fd ∧ byID h !! ID c = Some l;
  ok_open : ∀ s, is_Some (opened (net h) !! s) →
    ∃ id l c, byID h !! id = Some l ∧ heap h !! l = Some c ∧ Conn c = s;
}.

Lemma conns_new `{Net NW} (n : NW) : opened n = ∅ → conns_ok (NewConnectionManager n).
Proof. intros Hn. split; cbn; try done. intros s [fd Hs]. by rewrite Hn in Hs. Qed.

(** The hub without a registered connection. *)
Definition drop_conn `{Net NW} (h : hub NW) (c : Connection) (n' : NW) : hub NW :=
  Hub (heap h) (delete (ID c) (byID h)) (delete (Fd c) (byFd h)) (ep_connections h) n'.

Section proofs.
Context `{NetLaws NW}.
Implicit Types (h : hub NW).

Lemma wp_on_net {A} (x : M NW A) (Q : A → hub NW → Prop) h :
  wp x (λ a n, Q a (Hub (heap h) (byID h) (byFd h) (ep_connections h) n)) (net h) →
  wp (on_net x) Q h.
Proof. unfold wp, on_net. by destruct (x (net h)). Qed.

Lemma wp_get_hub (Q : hub NW → hub NW → Prop) h : Q h h → wp get_hub Q h.
Proof. done. Qed.
Lemma wp_set_maps ids fds (Q : unit → hub NW → Prop) h :
  Q tt (Hub (heap h) ids fds (ep_connections h) (net h)) → wp (set_maps ids fds) Q h.
Proof. done. Qed.

Lemma deref_heap h l c : heap h !! l = Some c → deref h l = c.
Proof. unfold deref. by intros ->. Qed.

(** The network may move on quietly. *)
Lemma conns_ok_quiet h n' :
  opened n' = opened (net h) → conns_ok h →
  conns_ok (Hub (heap h) (byID h) (byFd h) (ep_connections h) n').
Proof. intros Hn [H1 H2 H3]. split; cbn; rewrite ?Hn; auto. Qed.

Lemma wp_socketFD conn fd (Q : Z → hub NW → Prop) h :
  opened (net h) !! conn = Some fd →
  (∀ n', opened n' = opened (net h) → frames n' = frames (net h) →
     Q fd (Hub (heap h) (byID h) (byFd h) (ep_connections h) n')) →
  wp (socketFD conn) Q h.
Proof.
  intros Hs HQ. unfold socketFD. wp_pure. apply wp_on_net. apply wp_intro. intros r n' E.
  pose proof (raw_control_open _ _ _ Hs) as Hr. pose proof (quiet_control conn (net h)) as [Hf Ho].
  rewrite E in *. cbn in *. subst r. apply wp_ret. by apply HQ.
Qed.

(** A fresh socket registered under a free ID. *)
Lemma conns_ok_register h s fd id created last n :
  conns_ok h → byID h !! id = None → opened (net h) !! s = None →
  opened n = <[s := fd]> (opened (net h)) →
  conns_ok (register s fd id created last (Hub (heap h) (byID h) (byFd h) (ep_connections h) n)).2.
Proof.
  intros [H1 H2 H3] Hid Hs Ho. unfold register, new_conn, Add, get_hub, set_maps, bind, ret, deref. cbn.
  set (l := fresh (dom (heap h))). set (c := {| ID := id |}).
  assert (Hl : heap h !! l = None) by (apply not_elem_of_dom, is_fresh).
  assert (Hfd : byFd h !! fd = None).
  { destruct (byFd h !! fd) as [l'|] eqn:E; [|done]. exfalso.
    destruct (H2 _ _ E) as (c' & Hc' & Hfd' & Hid'). destruct (H1 _ _ Hid') as (c'' & Hc'' & _ & _ & Hop).
    rewrite Hc' in Hc''. injection Hc'' as <-. assert (Hne : Conn c' ≠ s) by congruence.
    apply Hne, (opened_inj n _ _ fd); rewrite Ho;
      [rewrite lookup_insert_ne by done; congruence|by rewrite lookup_insert_eq]. }
  rewrite lookup_insert_eq. cbn. split; cbn.
  - intros id' l' [[<- <-]|[Hne Hl']]%lookup_insert_Some.
    + exists c. rewrite !lookup_insert_eq. rewrite Ho, lookup_insert_eq. done.
    + destruct (H1 _ _ Hl') as (c' & Hc' & Hid' & Hf' & Hop). exists c'.
      rewrite lookup_insert_ne by congruence. rewrite lookup_insert_ne by congruence.
      rewrite Ho, lookup_insert_ne by congruence. done.
  - intros fd' l' [[<- <-]|[Hne Hl']]%lookup_insert_Some.
    + exists c. by rewrite !lookup_insert_eq.
    + destruct (H2 _ _ Hl') as (c' & Hc' & Hf' & Hid'). exists c'.
      rewrite lookup_insert_ne by congruence. rewrite lookup_insert_ne by congruence. done.
  - intros s' [fd' Hs']. rewrite Ho in Hs'. apply lookup_insert_Some in Hs' as [[<- <-]|[Hne Hs']].
    + exists id, l, c. by rewrite !lookup_insert_eq.
    + destruct (H3 s') as (id' & l' & c' & Hid' & Hc' & <-); [by eexists|]. exists id', l', c'.
      rewrite lookup_insert_ne by congruence. rewrite lookup_insert_ne by congruence. done.
Qed.

(** A registered connection dropped and its socket closed. *)
Lemma conns_ok_drop h l c n' :
  conns_ok h → byID h !! ID c = Some l → heap h !! l = Some c →
  opened n' = delete (Conn c) (opened (net h)) → conns_ok (drop_conn h c n').
Proof.
  intros [H1 H2 H3] Hid Hc Ho. unfold drop_conn.
  destruct (H1 _ _ Hid) as (c0 & Hc0 & _ & Hfd & Hop). simplify_eq.
  split; cbn.
  - intros id' l' [Hne Hl']%lookup_delete_Some. destruct (H1 _ _ Hl') as (c' & Hc' & Hid' & Hf' & Hop').
    assert (Fd c' ≠ Fd c) by congruence.
    exists c'. rewrite lookup_delete_ne by congruence. rewrite Ho, lookup_delete_ne by congruence. done.
  - intros fd' l' [Hne Hl']%lookup_delete_Some. destruct (H2 _ _ Hl') as (c' & Hc' & Hf' & Hid').
    exists c'. split; [done|]. split; [done|]. rewrite lookup_delete_ne by congruence. done.
  - intros s' [fd' Hs']. rewrite Ho in Hs'. apply lookup_delete_Some in Hs' as [Hne Hs'].
    destruct (H3 s') as (id' & l' & c' & Hid' & Hc' & Hs''); [by eexists|]. exists id', l', c'.
    destruct (H1 _ _ Hid') as (c'' & ? & ? & ? & ?). simplify_eq.
    rewrite lookup_delete_ne; [done|]. intros E. rewrite E in Hid. congruence.
Qed.

Lemma wp_Close l c (Q : option error → hub NW → Prop) h :
  heap h !! l = Some c →
  (∀ e n', frames n' = frames (net h) → opened n' = delete (Conn c) (opened (net h)) →
     Q e (Hub (heap h) (byID h) (byFd h) (ep_connections h) n')) →
  wp (Close l) Q h.
Proof.
  intros Hl HQ. unfold Close. wp_pure. apply wp_get_hub, wp_on_net. rewrite (deref_heap _ _ _ Hl).
  apply wp_intro. intros e n' E. pose proof (close_spec (Conn c) (net h)) as [Hf Ho].
  rewrite E in *. by apply HQ.
Qed.

Lemma wp_Remove id (Q : bool → hub NW → Prop) h :
  conns_ok h →
  (byID h !! id = None → Q false h) →
  (∀ l c n', byID h !! id = Some l → heap h !! l = Some c → ID c = id →
     frames n' = frames (net h) → opened n' = delete (Conn c) (opened (net h)) →
     conns_ok (drop_conn h c n') → Q true (drop_conn h c n')) →
  wp (Remove id) Q h.
Proof.
  intros Hok HN HS. unfold Remove. wp_pure. apply wp_get_hub.
  destruct (byID h !! id) as [l|] eqn:E; [|wp_pure; auto].
  destruct (ok_id _ Hok _ _ E) as (c & Hc & <- & Hfd & Hop). wp_pure.
  apply wp_set_maps, wp_bind. rewrite (deref_heap _ _ _ Hc).
  eapply wp_Close; [exact Hc|]. cbn. intros e n' Hf Ho. wp_pure.
  apply (HS l c n'); [done..|]. by eapply conns_ok_drop.
Qed.

Lemma wp_RemoveByFd fd (Q : option loc → hub NW → Prop) h :
  conns_ok h →
  (byFd h !! fd = None → Q None h) →
  (∀ l c n', byFd h !! fd = Some l → heap h !! l = Some c → Fd c = fd →
     byID h !! ID c = Some l → conns_ok (drop_conn h c n') → Q (Some l) (drop_conn h c n')) →
  wp (RemoveByFd fd) Q h.
Proof.
  intros Hok HN HS. unfold RemoveByFd. wp_pure. apply wp_get_hub.
  destruct (byFd h !! fd) as [l|] eqn:E; [|wp_pure; auto].
  destruct (ok_fd _ Hok _ _ E) as (c & Hc & <- & Hid). wp_pure.
  apply wp_set_maps, wp_bind. rewrite (deref_heap _ _ _ Hc).
  eapply wp_Close; [exact Hc|]. cbn. intros e n' Hf Ho. wp_pure.
  apply (HS l c n'); [done..|]. by eapply conns_ok_drop.
Qed.
End proofs.

(** ** Histories of the manager *)

Inductive conn_op : Type :=
  | CAccept (id : string) (t : Z)
  | CRemove (id : string)
  | CRemoveByFd (fd : Z)
  | CTouch (fd : Z) (t : Z)
  | CBroadcast (msg : json).

Definition conn_do `{Net NW} (op : conn_op) : M (hub NW) unit :=
  match op with
  | CAccept id t =>
      let! r := on_net upgrade_http in
      match r with
      | Err _ => ret tt
      | Ok conn =>
          let! fd := socketFD conn in
          do! register conn fd id t t in
          ret tt
      end
  | CRemove id => do! Remove id in ret tt
  | CRemoveByFd fd => do! RemoveByFd fd in ret tt
  | CTouch fd t =>
      let! o := GetByFd fd in
      match o with
      | Some l => update_conn l (set_LastPing t)
      | None => ret tt
      end
  | CBroadcast msg => Broadcast msg
  end.

Definition accepted (op : conn_op) : list string :=
  match op with CAccept id _ => [id] | _ => [] end.

Section history.
Context `{NetLaws NW}.
Implicit Types (h : hub NW).

Lemma wp_WriteMessage l data (Q : option error → hub NW → Prop) h :
  (∀ (e : option error) n', opened n' = opened (net h) →
     frames n' = frames (net h) ++ (if e then [] else [(Conn (deref h l), data)]) →
     Q e (Hub (heap h) (byID h) (byFd h) (ep_connections h) n')) →
  wp (WriteMessage l data) Q h.
Proof.
  intros HQ. unfold WriteMessage. wp_pure. apply wp_get_hub, wp_on_net, wp_intro.
  intros [e|] n' E.
  - apply write_err in E as [Hf Ho]. apply HQ; [done|]. by rewrite app_nil_r.
  - apply write_ok in E as [Hf Ho]. by apply HQ.
Qed.

Lemma wp_Broadcast msg h (Q : unit → hub NW → Prop) :
  (∀ n', opened n' = opened (net h) → Q tt (Hub (heap h) (byID h) (byFd h) (ep_connections h) n')) →
  wp (Broadcast msg) Q h.
Proof.
  intros HQ. unfold Broadcast, All. wp_pure. apply wp_get_hub, wp_bind, wp_on_net, wp_intro.
  intros order n' E. pose proof (quiet_range (byID h) (net h)) as [_ Ho]. rewrite E in Ho. wp_pure.
  set (h1 := Hub _ _ _ _ _).
  apply (wp_range_do (λ _ _ h', ∃ n', opened n' = opened (net h) ∧
    h' = Hub (heap h) (byID h) (byFd h) (ep_connections h) n')); [by exists n'| |].
  - intros pre l post h' (n1 & Hn1 & ->) _. wp_pure. apply wp_WriteMessage.
    intros e n2 Ho2 _. wp_pure. exists n2. cbn in *. split; [congruence|done].
  - intros h' (n1 & Hn1 & ->). by apply HQ.
Qed.

Lemma conns_ok_touch h l t : conns_ok h → conns_ok (update_conn l (set_LastPing t) h).2.
Proof.
  intros [H1 H2 H3]. unfold update_conn.
  assert (Hal : ∀ l' c, heap h !! l' = Some c →
    ∃ c', alter (set_LastPing t) l (heap h) !! l' = Some c' ∧ ID c' = ID c ∧ Fd c' = Fd c ∧ Conn c' = Conn c).
  { intros l' c Hc. destruct (decide (l' = l)) as [->|].
    - exists (set_LastPing t c). by rewrite lookup_alter_eq, Hc.
    - exists c. by rewrite lookup_alter_ne by done. }
  split; cbn.
  - intros id l' Hl. destruct (H1 _ _ Hl) as (c & Hc & <- & Hf & Ho).
    destruct (Hal _ _ Hc) as (c' & ? & E1 & E2 & E3). exists c'. by rewrite E1, E2, E3.
  - intros fd l' Hl. destruct (H2 _ _ Hl) as (c & Hc & <- & Hf).
    destruct (Hal _ _ Hc) as (c' & ? & E1 & E2 & E3). exists c'. by rewrite E1, E2.
  - intros s Hs. destruct (H3 _ Hs) as (id & l' & c & Hid & Hc & <-).
    destruct (Hal _ _ Hc) as (c' & ? & E1 & E2 & E3). exists id, l', c'. by rewrite E3.
Qed.

Lemma wp_accept id t (Q : unit → hub NW → Prop) h :
  conns_ok h → byID h !! id = None →
  (∀ h', conns_ok h' → dom (byID h') ⊆ {[id]} ∪ dom (byID h) → Q tt h') →
  wp (conn_do (CAccept id t)) Q h.
Proof.
  intros Hok Hid HQ. cbn [conn_do]. wp_pure. apply wp_on_net, wp_intro. intros [s|e] n' E.
  - apply upgrade_ok in E as (Hs & Hf & fd & Ho). wp_pure.
    eapply wp_socketFD; [cbn; rewrite Ho; apply lookup_insert_eq|]. cbn. intros n2 Ho2 Hf2. wp_pure.
    apply wp_intro. intros l h' E. wp_pure.
    pose proof (conns_ok_register h s fd id t t n2 Hok Hid Hs) as Hok'.
    rewrite E in Hok'. apply HQ; [apply Hok'; congruence|].
    unfold register, new_conn, Add, bind, get_hub, set_maps, ret, deref in E. cbn in E.
    rewrite lookup_insert_eq in E. cbn in E. injection E as <- <-. cbn. set_solver.
  - apply upgrade_err in E as [Hf Ho]. wp_pure. apply HQ; [by apply conns_ok_quiet|]. cbn. set_solver.
Qed.

Lemma wp_conn_do op (used : gset string) (Q : unit → hub NW → Prop) h :
  conns_ok h → dom (byID h) ⊆ used → (∀ id, id ∈ accepted op → id ∉ used) →
  (∀ h', conns_ok h' → dom (byID h') ⊆ list_to_set (accepted op) ∪ used → Q tt h') →
  wp (conn_do op) Q h.
Proof.
  intros Hok Hdom Hnew HQ. destruct op as [id t|id|fd|fd t|msg]; cbn [accepted] in *.
  - apply wp_accept; [done| |]; [|intros h' H1 H2; apply HQ; set_solver].
    apply not_elem_of_dom. set_solver.
  - cbn [conn_do]. wp_pure. apply wp_Remove; [done|intros _; wp_pure; apply HQ; set_solver|].
    intros. wp_pure. apply HQ; [done|]. cbn. set_solver.
  - cbn [conn_do]. wp_pure. apply wp_RemoveByFd; [done|intros _; wp_pure; apply HQ; set_solver|].
    intros. wp_pure. apply HQ; [done|]. cbn. set_solver.
  - cbn [conn_do]. unfold GetByFd. wp_pure. apply wp_get_hub. wp_pure.
    destruct (byFd h !! fd) as [l|]; [|wp_pure; apply HQ; set_solver].
    change (Q tt (update_conn l (set_LastPing t) h).2). apply HQ; [by apply conns_ok_touch|]. cbn. set_solver.
  - apply wp_Broadcast. intros n' Hn. apply HQ; [by apply conns_ok_quiet|]. cbn. set_solver.
Qed.

Lemma history_ok (n : NW) (ops : list conn_op) :
  opened n = ∅ → NoDup (ops ≫= accepted) →
  conns_ok (range_do ops conn_do (NewConnectionManager n)).2.
Proof.
  intros Hn Hnd.
  refine (wp_range_do (λ pre post h, conns_ok h ∧ dom (byID h) ⊆ list_to_set (pre ≫= accepted))
    conn_do ops (NewConnectionManager n) (λ _ h, conns_ok h) _ _ _).
  - split; [by apply conns_new|]. cbn. set_solver.
  - intros pre op post h' [Hok Hd] Hops. eapply wp_conn_do; [done|exact Hd| |].
    + intros id Hid Hin. rewrite Hops, bind_app, bind_cons in Hnd.
      apply NoDup_app in Hnd as (_ & Hdis & _). apply elem_of_list_to_set in Hin.
      apply (Hdis _ Hin). apply elem_of_app. by left.
    + intros h'' Hok' Hd'. split; [done|]. rewrite bind_app, bind_cons, app_nil_r.
      set_solver.
  - by intros ? [? _].
Qed.

(** In every history of the connection manager (connections accepted under
    session IDs never used before, removed by ID or by descriptor, touched by
    reads, written to by broadcasts) the two maps stay inverse to each other:
    both lead to the same shared object, which carries the ID and the
    descriptor it is filed under; and the open sockets are exactly those of the
    registered connections, so none is leaked or closed twice. *)
Theorem conn_manager_consistent (n : NW) (ops : list conn_op) :
  opened n = ∅ → NoDup (ops ≫= accepted) →
  let h := (range_do ops conn_do (NewConnectionManager n)).2 in
  (∀ id l, byID h !! id = Some l ↔ ∃ c, heap h !! l = Some c ∧ ID c = id ∧ byFd h !! Fd c = Some l)
  ∧ (∀ fd l, byFd h !! fd = Some l ↔ ∃ c, heap h !! l = Some c ∧ Fd c = fd ∧ byID h !! ID c = Some l)
  ∧ (∀ s fd, opened (net h) !! s = Some fd ↔
       ∃ id l c, byID h !! id = Some l ∧ heap h !! l = Some c ∧ Conn c = s ∧ Fd c = fd).
Proof.
  intros Hn Hnd h. assert (conns_ok h) as Hok.
  { by apply history_ok. }
  destruct Hok as [H1 H2 H3]. split_and!.
  - intros id l. split; [intros Hl; destruct (H1 _ _ Hl) as (c & ? & ? & ? & _); by exists c|].
    intros (c & Hc & <- & Hf). destruct (H2 _ _ Hf) as (c' & ? & ? & ?). by simplify_eq.
  - intros fd l. split; [apply H2|]. intros (c & Hc & <- & Hi).
    destruct (H1 _ _ Hi) as (c' & ? & ? & ? & _). by simplify_eq.
  - intros s fd. split.
    + intros Hs. destruct (H3 s) as (id & l & c & Hid & Hc & <-); [by eexists|]. exists id, l, c.
      destruct (H1 _ _ Hid) as (c' & ? & ? & ? & ?). by simplify_eq.
    + intros (id & l & c & Hid & Hc & <- & <-). destruct (H1 _ _ Hid) as (c' & ? & ? & ? & ?).
      by simplify_eq.
Qed.
End history.

(** ** A network in memory *)

(** The descriptor of a socket is its own number; [mn_in] holds the text frames
    still to be read. *)
Record mem_net : Type := MemNet {
  mn_open : gmap sock unit; mn_frames : list (sock * json); mn_in : list (option json);
}.

Definition mn_opened (n : mem_net) : gmap sock Z := map_imap (λ s _, Some (Z.of_nat s)) (mn_open n).

Definition mn_fresh (n : mem_net) : sock := fresh (dom (mn_open n)).

#[export] Instance mem_net_ops : Net mem_net := {|
  upgrade_http := λ n,
    (Ok (mn_fresh n), MemNet (<[mn_fresh n := tt]> (mn_open n)) (mn_frames n) (mn_in n));
  write_text s j := λ n, (None, MemNet (mn_open n) (mn_frames n ++ [(s, j)]) (mn_in n));
  write_ping _ := ret None;
  close_sock s := λ n, (None, MemNet (delete s (mn_open n)) (mn_frames n) (mn_in n));
  next_reader _ := λ n, (match mn_in n with [] => RTimeout | _ => RFrame OpText 10 end, n);
  discard _ := ret tt;
  read_full _ _ := λ n,
    match mn_in n with
    | [] => (Err "EOF", n)
    | j :: rest => (Ok j, MemNet (mn_open n) (mn_frames n) rest)
    end;
  raw_control s := λ n, (Some (mn_opened n !! s), n);
  epoll_ctl_add _ := ret None;
  epoll_ctl_del _ := ret None;
  epoll_wait := λ n, (Ok match mn_in n with [] => [] | _ => (map_to_list (mn_opened n)).*2 end, n);
  conns_range m := ret (map_to_list m);
  frames := mn_frames;
  opened := mn_opened;
|}.

Lemma mn_opened_lookup n s : mn_opened n !! s = (λ _, Z.of_nat s) <$> mn_open n !! s.
Proof. unfold mn_opened. rewrite map_lookup_imap. by destruct (mn_open n !! s). Qed.

Lemma mn_fresh_free n : mn_open n !! mn_fresh n = None.
Proof. apply not_elem_of_dom. unfold mn_fresh. apply is_fresh. Qed.

#[export] Instance mem_net_laws : NetLaws mem_net.
Proof.
  split; try done.
  - intros n s n' [= <- <-]. cbn. rewrite mn_opened_lookup.
    rewrite (mn_fresh_free n).
    split; [done|]. split; [done|]. exists (Z.of_nat (mn_fresh n)). apply map_eq. intros s.
    rewrite mn_opened_lookup. cbn. destruct (decide (s = mn_fresh n)) as [->|].
    + by rewrite !lookup_insert_eq.
    + by rewrite !lookup_insert_ne, mn_opened_lookup.
  - intros n s1 s2 fd. cbn. rewrite !mn_opened_lookup, !fmap_Some. intros (? & _ & ->) (? & _ & ?). lia.
  - intros s j n n' [= <-]. done.
  - intros s n. split; [done|]. apply map_eq. intros s'. cbn. rewrite mn_opened_lookup. cbn.
    destruct (decide (s' = s)) as [->|]; [by rewrite !lookup_delete_eq|].
    by rewrite !lookup_delete_ne, mn_opened_lookup.
  - intros s n fd Hs. cbn in *. by rewrite Hs.
  - intros s z n. cbn. by destruct (mn_in n).
Qed.

Definition sample_history : list conn_op :=
  [CAccept "s1" 5; CAccept "s2" 6; CTouch 1 9; CRemove "s1"; CBroadcast JNull; CAccept "s3" 10;
   CRemoveByFd 1; CRemove "s1"].

Lemma conn_manager_consistent_witness :
  let n := MemNet ∅ [] [] in
  let h := (range_do sample_history conn_do (NewConnectionManager n)).2 in
  (∀ id l, byID h !! id = Some l ↔ ∃ c, heap h !! l = Some c ∧ ID c = id ∧ byFd h !! Fd c = Some l)
  ∧ (∀ fd l, byFd h !! fd = Some l ↔ ∃ c, heap h !! l = Some c ∧ Fd c = fd ∧ byID h !! ID c = Some l)
  ∧ (∀ s fd, opened (net h) !! s = Some fd ↔
       ∃ id l c, byID h !! id = Some l ∧ heap h !! l = Some c ∧ Conn c = s ∧ Fd c = fd).
Proof.
  apply (conn_manager_consistent (MemNet ∅ [] []) sample_history).
  - apply map_eq. intros s. by rewrite lookup_empty.
  - apply (bool_decide_unpack _). vm_compute. exact I.
Defined.
