(* ===== verification/Queue.v ===== *)
(** * internal/matching/queue.go: the matching queue in Redis

    A queued session is in the sorted set [match:queue] (scored by the time it
    joined), in the set [match:exact:<hash>] of its interest hash, in the set
    [match:interest:<tag>] of each interest, and has the hash
    [match:session:<id>].  [queue_is] relates these structures to an abstract
    queue, a finite map from sessions to entries; the operations are shown to
    be the operations of that map. *)

From Stdlib Require Import Ascii.
From stdpp Require Import base gmap strings list sorting numbers.
From S2P Require Import Prelude GoStd Json Env Keys MemEnv Sha256.
Open Scope Z_scope.

Definition keyMatchQueue : string := "match:queue".
Definition keyExactPrefix : string := "match:exact:".
Definition keyInterestPrefix : string := "match:interest:".
Definition keySessionPrefix : string := "match:session:".
Definition matchKeyTTL : Z := 60 * Second.

Record QueueEntry : Type := {
  SessionID : string;
  Interests : list string;
  Hash : string;
  JoinedAt : Z;
}.

Definition InterestsHash (interests : list string) : string :=
  let sorted := sort_Strings interests in
  let joined := Join sorted "," in
  let h := Sum256 joined in
  hex (take 8 h).

(** [fmt.Sscanf(v, "%f", &x)] on the text the queue writes, an integer printed
    with [%.0f]; [x] keeps its zero on other text. *)
Definition scan_float (v : string) : Z :=
  match parse_dec v with Some n => float64 n | None => 0 end.

Definition entry_of_hash (sessionID : string) (result : gmap string string) : QueueEntry :=
  let f k := default "" (result !! k) in
  {| SessionID := sessionID;
     Interests := if bool_decide (f "interests" ≠ "") then Split (f "interests") comma else [];
     Hash := f "hash";
     JoinedAt := match result !! "joined_at" with Some v => scan_float v | None => 0 end |}.

(** The fields of [match:session:<id>]. *)
Definition entry_fields (interests : list string) (now : Z) : list (string * string) :=
  [("interests", Join interests ","); ("hash", InterestsHash interests); ("joined_at", itoa now)].

(** The commands that touch the set of each interest. *)
Definition tag_cmds (interests : list string) (cmds : string → list wcmd) : list wcmd :=
  concat ((λ tag, cmds (keyInterestPrefix +:+ tag)) <$> interests).

Definition enqueue_cmds (sessionID : string) (interests : list string) (now : Z) : list wcmd :=
  let hash := InterestsHash interests in
  let exactKey := keyExactPrefix +:+ hash in
  let sessionKey := keySessionPrefix +:+ sessionID in
  [ZADD keyMatchQueue now sessionID; SADD exactKey sessionID; EXPIRE exactKey matchKeyTTL] ++
  tag_cmds interests (λ k, [SADD k sessionID; EXPIRE k matchKeyTTL]) ++
  [HSET sessionKey (entry_fields interests now); EXPIRE sessionKey matchKeyTTL].

Definition dequeue_cmds (sessionID : string) (entry : QueueEntry) : list wcmd :=
  [ZREM keyMatchQueue sessionID; SREM (keyExactPrefix +:+ Hash entry) sessionID] ++
  tag_cmds (Interests entry) (λ k, [SREM k sessionID]) ++
  [DEL (keySessionPrefix +:+ sessionID)].

Definition refresh_cmds (sessionID : string) (entry : QueueEntry) : list wcmd :=
  [EXPIRE (keyExactPrefix +:+ Hash entry) matchKeyTTL] ++
  tag_cmds (Interests entry) (λ k, [EXPIRE k matchKeyTTL]) ++
  [EXPIRE (keySessionPrefix +:+ sessionID) matchKeyTTL].

Section queue.
Context `{Env W}.

Definition Enqueue (sessionID : string) (interests : list string) : M W (option error) :=
  let! t := now_ms in
  let now := float64 t in
  pipeline (enqueue_cmds sessionID interests now).

Definition GetEntry (sessionID : string) : M W (res (option QueueEntry)) :=
  let sessionKey := keySessionPrefix +:+ sessionID in
  let! r := rd (HGETALL sessionKey) in
  ret match r with
      | Err e => Err e
      | Ok result =>
          if bool_decide (size result = 0%nat) then Ok None
          else Ok (Some (entry_of_hash sessionID result))
      end.

Definition Dequeue (sessionID : string) : M W (option error) :=
  let! r := GetEntry sessionID in
  match r with
  | Err err => ret (Some err)
  | Ok None => ret None
  | Ok (Some entry) => pipeline (dequeue_cmds sessionID entry)
  end.

Definition GetAllQueued : M W (res (list string)) := rd (ZRANGE keyMatchQueue).

Definition IsQueued (sessionID : string) : M W (res bool) :=
  let! r := rd (ZSCORE keyMatchQueue sessionID) in
  ret match r with
      | Ok None => Ok false
      | Err err => Err err
      | Ok (Some _) => Ok true
      end.

Definition GetExactCandidates (hash : string) : M W (res (list string)) :=
  rd (SMEMBERS (keyExactPrefix +:+ hash)).

Definition GetInterestCandidates (tag : string) : M W (res (list string)) :=
  rd (SMEMBERS (keyInterestPrefix +:+ tag)).

Definition QueueSize : M W (res Z) := rd (ZCARD keyMatchQueue).

Definition RefreshTTLs (sessionID : string) : M W (option error) :=
  let! r := GetEntry sessionID in
  match r with
  | Err err => ret (Some err)
  | Ok None => ret None
  | Ok (Some entry) => pipeline (refresh_cmds sessionID entry)
  end.
End queue.

#[global] Arguments InterestsHash : simpl never.

(** ** Key facts *)

Lemma schema_exact h : schema (keyExactPrefix +:+ h) = Some KSet.
Proof. by destruct h. Qed.
Lemma schema_interest t : schema (keyInterestPrefix +:+ t) = Some KSet.
Proof. by destruct t. Qed.
Lemma schema_msession s : schema (keySessionPrefix +:+ s) = Some KHash.
Proof. by destruct s. Qed.
Lemma schema_queue : schema keyMatchQueue = Some KZSet.
Proof. reflexivity. Qed.
#[export] Hint Resolve schema_exact schema_interest schema_msession schema_queue : go.

Lemma exact_inj h h' : keyExactPrefix +:+ h = keyExactPrefix +:+ h' ↔ h = h'.
Proof. split; [apply append_inj|by intros ->]. Qed.
Lemma interest_inj t t' : keyInterestPrefix +:+ t = keyInterestPrefix +:+ t' ↔ t = t'.
Proof. split; [apply append_inj|by intros ->]. Qed.
Lemma msession_inj s s' : keySessionPrefix +:+ s = keySessionPrefix +:+ s' ↔ s = s'.
Proof. split; [apply append_inj|by intros ->]. Qed.

(** ** Hashes *)

(** The hash depends on the set of interests as a multiset only. *)
Lemma InterestsHash_perm l l' : l ≡ₚ l' → InterestsHash l = InterestsHash l'.
Proof. intros Hp. unfold InterestsHash. by rewrite (sort_Strings_unique _ _ Hp). Qed.

(** Interests that come back as they were written: no comma, and not the
    single empty interest. *)
Definition clean (interests : list string) : Prop :=
  interests ≠ [""] ∧ Forall (λ e, has_byte comma e = false) interests.

Definition entry_hash (interests : list string) (now : Z) : gmap string string :=
  hset (entry_fields interests now) ∅.

Lemma entry_of_entry_hash sid interests now :
  clean interests → Z.abs now < 2 ^ 53 →
  entry_of_hash sid (entry_hash interests now) =
  {| SessionID := sid; Interests := interests; Hash := InterestsHash interests; JoinedAt := now |}.
Proof.
  intros [Hne Hc] Hnow. unfold entry_of_hash, entry_hash, entry_fields. hash_simpl. cbn.
  unfold scan_float. rewrite parse_dec_itoa, float64_exact by done. f_equal.
  case_bool_decide as Hj.
  - apply Split_Join; [by intros ->|done].
  - destruct (decide (Join interests "," = "")) as [E|]; [|done].
    by destruct (Join_empty _ _ E) as [->| ->].
Qed.

(** ** The abstract queue *)

(** A queued session: its interests, the time it joined and the time at which
    its keys expire. *)
Record qent : Type := QEnt { q_interests : list string; q_joined : Z; q_deadline : Z }.

Abbreviation aqueue := (gmap string qent).

Definition with_hash (q : aqueue) (h : string) : gset string :=
  dom (filter (λ p : string * qent, InterestsHash (q_interests p.2) = h) q).
Definition with_tag (q : aqueue) (t : string) : gset string :=
  dom (filter (λ p : string * qent, t ∈ q_interests p.2) q).

Lemma elem_of_with_hash q h sid :
  sid ∈ with_hash q h ↔ ∃ e, q !! sid = Some e ∧ InterestsHash (q_interests e) = h.
Proof.
  unfold with_hash. rewrite elem_of_dom. unfold is_Some.
  setoid_rewrite map_lookup_filter_Some. done.
Qed.

Lemma elem_of_with_tag q t sid :
  sid ∈ with_tag q t ↔ ∃ e, q !! sid = Some e ∧ t ∈ q_interests e.
Proof.
  unfold with_tag. rewrite elem_of_dom. unfold is_Some.
  setoid_rewrite map_lookup_filter_Some. done.
Qed.

(** What the entries of the abstract queue must satisfy at time [clk]. *)
Definition good_entry (clk : Z) (e : qent) : Prop :=
  clean (q_interests e) ∧ Z.abs (q_joined e) < 2 ^ 53 ∧ q_deadline e ≤ clk + 60000.

Record queue_is (clk : Z) (ks : keyspace_t) (q : aqueue) : Prop := {
  qi_wf : wf_ks ks;
  qi_good : map_Forall (λ _, good_entry clk) q;
  qi_queue : zget ks keyMatchQueue = q_joined <$> q;
  qi_session : ∀ sid, hget ks (keySessionPrefix +:+ sid) =
    match q !! sid with Some e => entry_hash (q_interests e) (q_joined e) | None => ∅ end;
  qi_exact : ∀ h, sget ks (keyExactPrefix +:+ h) = with_hash q h;
  qi_interest : ∀ t, sget ks (keyInterestPrefix +:+ t) = with_tag q t;
  qi_queue_ttl : exp_of ks keyMatchQueue = None;
  qi_session_ttl : ∀ sid e, q !! sid = Some e →
    exp_of ks (keySessionPrefix +:+ sid) = Some (q_deadline e);
  qi_exact_ttl : ∀ sid e, q !! sid = Some e → ∃ d,
    exp_of ks (keyExactPrefix +:+ InterestsHash (q_interests e)) = Some d ∧ q_deadline e ≤ d;
  qi_interest_ttl : ∀ sid e t, q !! sid = Some e → t ∈ q_interests e → ∃ d,
    exp_of ks (keyInterestPrefix +:+ t) = Some d ∧ q_deadline e ≤ d;
}.

(** The empty queue. *)
Lemma queue_is_empty clk : queue_is clk ∅ ∅.
Proof. split; try done. Qed.

(** *** Folding a view over the commands of a pipeline *)

Lemma foldl_tag_cmds {B} (f : B → wcmd → B) b interests cmds :
  foldl f b (tag_cmds interests cmds) =
  foldl (λ b tag, foldl f b (cmds (keyInterestPrefix +:+ tag))) b interests.
Proof.
  unfold tag_cmds. revert b. induction interests as [|tag interests IH]; intros b; cbn; [done|].
  by rewrite foldl_app, IH.
Qed.

Lemma tag_cmds_Forall (P : wcmd → Prop) interests cmds :
  (∀ tag, Forall P (cmds (keyInterestPrefix +:+ tag))) → Forall P (tag_cmds interests cmds).
Proof.
  intros Hp. unfold tag_cmds. apply Forall_concat, Forall_fmap, Forall_true. intros tag. apply Hp.
Qed.

(** Commands on other keys leave a view alone. *)
Lemma foldl_tags_other {B} (f : B → wcmd → B) b interests cmds :
  (∀ tag, foldl f b (cmds (keyInterestPrefix +:+ tag)) = b) →
  foldl f b (tag_cmds interests cmds) = b.
Proof.
  intros Hf. rewrite foldl_tag_cmds. induction interests as [|tag interests IH]; cbn; [done|].
  by rewrite Hf.
Qed.

Lemma foldl_tags_key {B} (f : B → wcmd → B) (g : B → B) b t interests cmds :
  (∀ b, foldl f b (cmds (keyInterestPrefix +:+ t)) = g b) →
  (∀ b tag, tag ≠ t → foldl f b (cmds (keyInterestPrefix +:+ tag)) = b) →
  (∀ b, g (g b) = g b) →
  foldl f b (tag_cmds interests cmds) = if bool_decide (t ∈ interests) then g b else b.
Proof.
  intros Ht Ho Hg. rewrite foldl_tag_cmds. revert b.
  induction interests as [|tag interests IH]; intros b; cbn.
  { by rewrite bool_decide_false by (by intros ?%elem_of_nil). }
  rewrite IH. destruct (decide (tag = t)) as [->|Hne].
  - rewrite Ht, (bool_decide_true (t ∈ t :: interests)) by (by left).
    case_bool_decide; [apply Hg|done].
  - rewrite Ho by done.
    rewrite (bool_decide_ext (t ∈ tag :: interests) (t ∈ interests)); [done|].
    rewrite elem_of_cons. naive_solver.
Qed.

(** Decides the key comparisons of a concrete pipeline. *)
Ltac qkeys :=
  repeat match goal with
  | |- context [bool_decide (?p +:+ ?a = ?p +:+ ?b)] =>
      first [ rewrite (bool_decide_true (p +:+ a = p +:+ b)) by congruence
            | rewrite (bool_decide_false (p +:+ a = p +:+ b)) by
                (let HE := fresh in intros HE; apply append_inj in HE; congruence) ]
  | |- context [bool_decide (?x = ?y)] =>
      first [ rewrite (bool_decide_true (x = y)) by reflexivity
            | rewrite (bool_decide_false (x = y)) by (done || discriminate) ]
  end.
Ltac qview :=
  unfold w_hget, w_sget, w_zget, w_eget; cbn [wkey foldl app]; qkeys; cbn beta iota.

(** *** Enqueue *)

Lemma enqueue_typed sid interests now : Forall typed (enqueue_cmds sid interests now).
Proof.
  unfold enqueue_cmds. rewrite !Forall_app. split_and!; [solve_typed| |solve_typed].
  apply tag_cmds_Forall. intros tag. solve_typed.
Qed.

Lemma enqueue_grows sid interests now : Forall grows (enqueue_cmds sid interests now).
Proof.
  unfold enqueue_cmds. rewrite !Forall_app. split_and!; try by repeat constructor.
  apply tag_cmds_Forall. intros tag. by repeat constructor.
Qed.

Section enqueue.
Context (clk : Z) (ks ks' : keyspace_t) (sid : string) (interests : list string) (now : Z).
Context (E : apply_ws clk (enqueue_cmds sid interests now) ks = Some ks').

Lemma enqueue_zget : zget ks' keyMatchQueue = <[sid := now]> (zget ks keyMatchQueue).
Proof using E.
  rewrite (apply_ws_zget _ _ _ _ _ E (enqueue_typed _ _ _)). unfold enqueue_cmds.
  rewrite !foldl_app. qview. rewrite foldl_tags_other; [done|]. intros tag. by qview.
Qed.

Lemma enqueue_hget s : hget ks' (keySessionPrefix +:+ s) =
  if decide (s = sid) then hset (entry_fields interests now) (hget ks (keySessionPrefix +:+ s))
  else hget ks (keySessionPrefix +:+ s).
Proof using E.
  rewrite (apply_ws_hget _ _ _ _ _ E (enqueue_typed _ _ _)). unfold enqueue_cmds.
  rewrite !foldl_app. rewrite foldl_tags_other; [|intros tag; by qview].
  destruct (decide (s = sid)) as [->|]; by qview.
Qed.

Lemma enqueue_sget_exact h : sget ks' (keyExactPrefix +:+ h) =
  if decide (h = InterestsHash interests) then {[sid]} ∪ sget ks (keyExactPrefix +:+ h)
  else sget ks (keyExactPrefix +:+ h).
Proof using E.
  rewrite (apply_ws_sget _ _ _ _ _ E (enqueue_typed _ _ _)). unfold enqueue_cmds.
  rewrite !foldl_app. rewrite foldl_tags_other; [|intros tag; by qview].
  destruct (decide (h = InterestsHash interests)) as [->|]; by qview.
Qed.

Lemma enqueue_sget_interest t : sget ks' (keyInterestPrefix +:+ t) =
  if decide (t ∈ interests) then {[sid]} ∪ sget ks (keyInterestPrefix +:+ t)
  else sget ks (keyInterestPrefix +:+ t).
Proof using E.
  rewrite (apply_ws_sget _ _ _ _ _ E (enqueue_typed _ _ _)). unfold enqueue_cmds.
  rewrite !foldl_app. qview.
  rewrite (foldl_tags_key _ (λ s, {[sid]} ∪ s) _ t).
  - case_bool_decide; by case_decide.
  - intros b. by qview.
  - intros b tag Hne. by qview.
  - intros b. set_solver.
Qed.

Lemma enqueue_exp_queue : exp_of ks' keyMatchQueue = exp_of ks keyMatchQueue.
Proof using E.
  rewrite !exp_of_eget.
  rewrite (apply_ws_eget _ _ _ _ _ E (enqueue_typed _ _ _) (enqueue_grows _ _ _)).
  unfold enqueue_cmds. rewrite !foldl_app. qview.
  rewrite foldl_tags_other; [done|]. intros tag. by qview.
Qed.

Lemma enqueue_exp_session s : exp_of ks' (keySessionPrefix +:+ s) =
  if decide (s = sid) then Some (clk + 60000) else exp_of ks (keySessionPrefix +:+ s).
Proof using E.
  rewrite !exp_of_eget.
  rewrite (apply_ws_eget _ _ _ _ _ E (enqueue_typed _ _ _) (enqueue_grows _ _ _)).
  unfold enqueue_cmds. rewrite !foldl_app. rewrite foldl_tags_other; [|intros tag; by qview].
  destruct (decide (s = sid)) as [->|]; by qview.
Qed.

Lemma enqueue_exp_exact h : exp_of ks' (keyExactPrefix +:+ h) =
  if decide (h = InterestsHash interests) then Some (clk + 60000) else exp_of ks (keyExactPrefix +:+ h).
Proof using E.
  rewrite !exp_of_eget.
  rewrite (apply_ws_eget _ _ _ _ _ E (enqueue_typed _ _ _) (enqueue_grows _ _ _)).
  unfold enqueue_cmds. rewrite !foldl_app. rewrite foldl_tags_other; [|intros tag; by qview].
  destruct (decide (h = InterestsHash interests)) as [->|]; by qview.
Qed.

Lemma enqueue_exp_interest t : exp_of ks' (keyInterestPrefix +:+ t) =
  if decide (t ∈ interests) then Some (clk + 60000) else exp_of ks (keyInterestPrefix +:+ t).
Proof using E.
  rewrite !exp_of_eget.
  rewrite (apply_ws_eget _ _ _ _ _ E (enqueue_typed _ _ _) (enqueue_grows _ _ _)).
  unfold enqueue_cmds. rewrite !foldl_app. qview.
  rewrite (foldl_tags_key _ (λ _, Some (Some (clk + 60000))) _ t).
  - case_bool_decide; by case_decide.
  - intros b. by qview.
  - intros b tag Hne. by qview.
  - done.
Qed.
End enqueue.

(** The entry that [Enqueue] adds. *)
Definition new_entry (clk now : Z) (interests : list string) : qent :=
  QEnt interests now (clk + 60000).

(** A session may be queued again with the interests it has. *)
Definition requeue_ok (q : aqueue) (sid : string) (interests : list string) : Prop :=
  ∀ e, q !! sid = Some e → q_interests e = interests.

Lemma queue_is_enqueue clk ks ks' q sid interests now :
  queue_is clk ks q → clean interests → Z.abs now < 2 ^ 53 → requeue_ok q sid interests →
  apply_ws clk (enqueue_cmds sid interests now) ks = Some ks' → wf_ks ks' →
  queue_is clk ks' (<[sid := new_entry clk now interests]> q).
Proof.
  intros Hq Hc Hnow Hre E Hwf'. destruct Hq as [Hwf Hgood Hz Hs Hx Hi Hzt Hst Hxt Hit].
  assert (∀ s e, q !! s = Some e → q_deadline e ≤ clk + 60000) as Hdl.
  { intros s e He. by apply (map_Forall_lookup_1 _ _ _ _ Hgood He). }
  split.
  - done.
  - apply map_Forall_insert_2; [|done]. repeat split; try done; apply Hc.
  - by rewrite (enqueue_zget _ _ _ _ _ _ E), Hz, fmap_insert.
  - intros s. rewrite (enqueue_hget _ _ _ _ _ _ E), Hs. destruct (decide (s = sid)) as [->|Hne].
    + rewrite lookup_insert_eq. destruct (q !! sid) as [e|] eqn:Eq; [|done].
      rewrite (Hre _ Eq). apply map_eq. intros f. unfold entry_hash, entry_fields, hset. cbn.
      rewrite !lookup_insert. repeat case_decide; done.
    + by rewrite lookup_insert_ne by done.
  - intros h. rewrite (enqueue_sget_exact _ _ _ _ _ _ E), Hx. apply set_eq. intros s.
    rewrite elem_of_with_hash. setoid_rewrite lookup_insert_Some.
    case_decide as Hh; [subst h|].
    + rewrite elem_of_union, elem_of_singleton, elem_of_with_hash. split.
      * intros [->|(e & He & Hh)]; [by eauto|].
        destruct (decide (sid = s)) as [->|]; [|by eauto]. by eauto.
      * intros (e & [[-> <-]|[Hne He]] & Hh); [by left|right; by eauto].
    + rewrite elem_of_with_hash. split.
      * intros (e & He & Hh'). exists e. split; [right|done]. split; [|done].
        intros ->. apply Hh. rewrite <-Hh'. by rewrite (Hre _ He).
      * intros (e & [[-> <-]|[Hne He]] & Hh'); [done|by eauto].
  - intros t. rewrite (enqueue_sget_interest _ _ _ _ _ _ E), Hi. apply set_eq. intros s.
    rewrite elem_of_with_tag. setoid_rewrite lookup_insert_Some.
    case_decide as Ht.
    + rewrite elem_of_union, elem_of_singleton, elem_of_with_tag. split.
      * intros [->|(e & He & Hh)]; [by eauto|].
        destruct (decide (sid = s)) as [->|]; [|by eauto]. by eauto.
      * intros (e & [[-> <-]|[Hne He]] & Hh); [by left|right; by eauto].
    + rewrite elem_of_with_tag. split.
      * intros (e & He & Ht'). exists e. split; [right|done]. split; [|done].
        intros ->. apply Ht. by rewrite <-(Hre _ He).
      * intros (e & [[-> <-]|[Hne He]] & Ht'); [done|by eauto].
  - by rewrite (enqueue_exp_queue _ _ _ _ _ _ E).
  - intros s e. rewrite lookup_insert_Some, (enqueue_exp_session _ _ _ _ _ _ E).
    intros [[-> <-]|[Hne He]]; [by rewrite decide_True|].
    rewrite decide_False by done. by apply Hst.
  - intros s e. rewrite lookup_insert_Some, (enqueue_exp_exact _ _ _ _ _ _ E).
    intros [[-> <-]|[Hne He]]; case_decide; try done.
    + eexists. split; [done|]. cbn. lia.
    + eexists. split; [done|]. by eapply Hdl.
    + by eapply Hxt.
  - intros s e t. rewrite lookup_insert_Some, (enqueue_exp_interest _ _ _ _ _ _ E).
    intros [[-> <-]|[Hne He]] Ht; case_decide; try done.
    + eexists. split; [done|]. cbn. lia.
    + eexists. split; [done|]. by eapply Hdl.
    + by eapply Hit.
Qed.

(** *** Dequeue *)

(** The entry [GetEntry] reads back for a queued session. *)
Definition entry_of (sid : string) (e : qent) : QueueEntry :=
  {| SessionID := sid; Interests := q_interests e; Hash := InterestsHash (q_interests e);
     JoinedAt := q_joined e |}.

Lemma dequeue_typed sid e : Forall typed (dequeue_cmds sid e).
Proof.
  unfold dequeue_cmds. rewrite !Forall_app. split_and!; [solve_typed| |solve_typed].
  apply tag_cmds_Forall. intros tag. solve_typed.
Qed.

Lemma dequeue_shrinks sid e : Forall shrinks (dequeue_cmds sid e).
Proof.
  unfold dequeue_cmds. rewrite !Forall_app. split_and!; try by repeat constructor.
  apply tag_cmds_Forall. intros tag. by repeat constructor.
Qed.

Section dequeue.
Context (clk : Z) (ks ks' : keyspace_t) (sid : string) (e : QueueEntry).
Context (E : apply_ws clk (dequeue_cmds sid e) ks = Some ks').

Lemma dequeue_zget : zget ks' keyMatchQueue = delete sid (zget ks keyMatchQueue).
Proof using E.
  rewrite (apply_ws_zget _ _ _ _ _ E (dequeue_typed _ _)). unfold dequeue_cmds.
  rewrite !foldl_app. qview. rewrite foldl_tags_other; [done|]. intros tag. by qview.
Qed.

Lemma dequeue_hget s : hget ks' (keySessionPrefix +:+ s) =
  if decide (s = sid) then ∅ else hget ks (keySessionPrefix +:+ s).
Proof using E.
  rewrite (apply_ws_hget _ _ _ _ _ E (dequeue_typed _ _)). unfold dequeue_cmds.
  rewrite !foldl_app. rewrite foldl_tags_other; [|intros tag; by qview].
  destruct (decide (s = sid)) as [->|]; by qview.
Qed.

Lemma dequeue_sget_exact h : sget ks' (keyExactPrefix +:+ h) =
  if decide (h = Hash e) then sget ks (keyExactPrefix +:+ h) ∖ {[sid]}
  else sget ks (keyExactPrefix +:+ h).
Proof using E.
  rewrite (apply_ws_sget _ _ _ _ _ E (dequeue_typed _ _)). unfold dequeue_cmds.
  rewrite !foldl_app. rewrite foldl_tags_other; [|intros tag; by qview].
  destruct (decide (h = Hash e)) as [->|]; by qview.
Qed.

Lemma dequeue_sget_interest t : sget ks' (keyInterestPrefix +:+ t) =
  if decide (t ∈ Interests e) then sget ks (keyInterestPrefix +:+ t) ∖ {[sid]}
  else sget ks (keyInterestPrefix +:+ t).
Proof using E.
  rewrite (apply_ws_sget _ _ _ _ _ E (dequeue_typed _ _)). unfold dequeue_cmds.
  rewrite !foldl_app. qview.
  rewrite (foldl_tags_key _ (λ s, s ∖ {[sid]}) _ t).
  - case_bool_decide; by case_decide.
  - intros b. by qview.
  - intros b tag Hne. by qview.
  - intros b. set_solver.
Qed.

Lemma dequeue_exp k : is_Some (ks' !! k) → exp_of ks' k = exp_of ks k.
Proof using E.
  intros [x Hx]. destruct (apply_ws_shrink _ _ _ _ k E (dequeue_shrinks _ _)) as [_ [Hn|He]];
    [congruence|done].
Qed.
End dequeue.

Lemma sget_some ks k x : x ∈ sget ks k → is_Some (ks !! k).
Proof. unfold sget, set_of. destruct (ks !! k); [by eauto|cbn; set_solver]. Qed.

Lemma hget_some ks k f v : hget ks k !! f = Some v → is_Some (ks !! k).
Proof. unfold hget, hash_of. destruct (ks !! k); [by eauto|done]. Qed.

Lemma entry_hash_joined interests now : entry_hash interests now !! "joined_at" = Some (itoa now).
Proof. unfold entry_hash, entry_fields. by hash_simpl. Qed.

Lemma queue_is_dequeue clk ks ks' q sid e :
  queue_is clk ks q → q !! sid = Some e →
  apply_ws clk (dequeue_cmds sid (entry_of sid e)) ks = Some ks' → wf_ks ks' →
  queue_is clk ks' (delete sid q).
Proof.
  intros Hq Hsid E Hwf'. destruct Hq as [Hwf Hgood Hz Hs Hx Hi Hzt Hst Hxt Hit].
  assert (∀ h, sget ks' (keyExactPrefix +:+ h) = with_hash (delete sid q) h) as Hx'.
  { intros h. rewrite (dequeue_sget_exact _ _ _ _ _ E), Hx. apply set_eq. intros s.
    rewrite (elem_of_with_hash (delete sid q)). setoid_rewrite lookup_delete_Some.
    case_decide as Hh; [subst h; rewrite elem_of_difference, elem_of_singleton|];
      rewrite elem_of_with_hash; naive_solver. }
  assert (∀ t, sget ks' (keyInterestPrefix +:+ t) = with_tag (delete sid q) t) as Hi'.
  { intros t. rewrite (dequeue_sget_interest _ _ _ _ _ E), Hi. apply set_eq. intros s.
    rewrite (elem_of_with_tag (delete sid q)). setoid_rewrite lookup_delete_Some.
    case_decide as Ht; [rewrite elem_of_difference, elem_of_singleton|];
      rewrite elem_of_with_tag; cbn in Ht; naive_solver. }
  assert (∀ s, hget ks' (keySessionPrefix +:+ s) =
    match delete sid q !! s with Some e => entry_hash (q_interests e) (q_joined e) | None => ∅ end) as Hs'.
  { intros s. rewrite (dequeue_hget _ _ _ _ _ E), Hs. destruct (decide (s = sid)) as [->|].
    - by rewrite lookup_delete_eq.
    - by rewrite lookup_delete_ne. }
  split; try done.
  - by apply map_Forall_delete.
  - by rewrite (dequeue_zget _ _ _ _ _ E), Hz, fmap_delete.
  - unfold exp_of. destruct (ks' !! keyMatchQueue) eqn:Ek; [|done].
    pose proof (dequeue_exp _ _ _ _ _ E keyMatchQueue) as He. rewrite Ek in He.
    unfold exp_of in He at 1. rewrite Ek in He. rewrite He by done. done.
  - intros s e'. rewrite lookup_delete_Some. intros [Hne He'].
    rewrite (dequeue_exp _ _ _ _ _ E); [by apply Hst|].
    eapply hget_some. rewrite Hs', lookup_delete_ne, He' by done. apply entry_hash_joined.
  - intros s e' He'. rewrite (dequeue_exp _ _ _ _ _ E).
    + apply lookup_delete_Some in He' as [_ He']. by eapply Hxt.
    + apply (sget_some _ _ s). rewrite Hx'. apply elem_of_with_hash. by eauto.
  - intros s e' t He' Ht. rewrite (dequeue_exp _ _ _ _ _ E).
    + apply lookup_delete_Some in He' as [_ He']. by eapply Hit.
    + apply (sget_some _ _ s). rewrite Hi'. apply elem_of_with_tag. by eauto.
Qed.

(** *** Refreshing the TTLs *)

Lemma refresh_typed sid e : Forall typed (refresh_cmds sid e).
Proof.
  unfold refresh_cmds. rewrite !Forall_app. split_and!; [solve_typed| |solve_typed].
  apply tag_cmds_Forall. intros tag. solve_typed.
Qed.

Lemma refresh_grows sid e : Forall grows (refresh_cmds sid e).
Proof.
  unfold refresh_cmds. rewrite !Forall_app. split_and!; try by repeat constructor.
  apply tag_cmds_Forall. intros tag. by repeat constructor.
Qed.

(** EXPIRE changes no value. *)
Lemma expires_views now cs ks ks' k :
  apply_ws now cs ks = Some ks' → Forall (λ c, ∃ k d, c = EXPIRE k d) cs → Forall typed cs →
  hget ks' k = hget ks k ∧ sget ks' k = sget ks k ∧ zget ks' k = zget ks k.
Proof.
  intros E Hc Ht. rewrite (apply_ws_hget _ _ _ _ _ E Ht), (apply_ws_sget _ _ _ _ _ E Ht),
    (apply_ws_zget _ _ _ _ _ E Ht). clear E Ht.
  induction Hc as [|c cs (k' & d & ->) _ IH]; [done|].
  cbn. unfold w_hget at 2, w_sget at 2, w_zget at 2. by case_bool_decide.
Qed.

Lemma refresh_expires sid e : Forall (λ c, ∃ k d, c = EXPIRE k d) (refresh_cmds sid e).
Proof.
  unfold refresh_cmds. rewrite !Forall_app. split_and!; try by repeat constructor; eauto.
  apply tag_cmds_Forall. intros tag. by repeat constructor; eauto.
Qed.

Definition refresh_entry (clk : Z) (e : qent) : qent := QEnt (q_interests e) (q_joined e) (clk + 60000).

Lemma queue_is_refresh clk ks ks' q sid e :
  queue_is clk ks q → q !! sid = Some e →
  apply_ws clk (refresh_cmds sid (entry_of sid e)) ks = Some ks' → wf_ks ks' →
  queue_is clk ks' (<[sid := refresh_entry clk e]> q).
Proof.
  intros Hq Hsid E Hwf'. destruct Hq as [Hwf Hgood Hz Hs Hx Hi Hzt Hst Hxt Hit].
  assert (∀ s e, q !! s = Some e → q_deadline e ≤ clk + 60000) as Hdl.
  { intros s e0 He. by apply (map_Forall_lookup_1 _ _ _ _ Hgood He). }
  assert (∀ k, hget ks' k = hget ks k ∧ sget ks' k = sget ks k ∧ zget ks' k = zget ks k) as Hv.
  { intros k. eapply expires_views; [done|apply refresh_expires|apply refresh_typed]. }
  assert (∀ k, eget ks' k = foldl (λ p c, w_eget clk c k p) (eget ks k)
                (refresh_cmds sid (entry_of sid e))) as He.
  { intros k. apply (apply_ws_eget _ _ _ _ _ E (refresh_typed _ _) (refresh_grows _ _)). }
  unfold refresh_cmds in He. setoid_rewrite foldl_app in He. setoid_rewrite foldl_app in He.
  assert (∀ k d, exp_of ks k = Some d → eget ks k = Some (Some d)) as Hex.
  { intros k d. rewrite exp_of_eget. by destruct (eget ks k) as [[]|]; cbn; intros [= ->]. }
  split.
  - done.
  - apply map_Forall_insert_2; [|done].
    destruct (map_Forall_lookup_1 _ _ _ _ Hgood Hsid) as (H1 & H2 & _).
    split; [done|]. split; [done|]. cbn. lia.
  - destruct (Hv keyMatchQueue) as (_ & _ & ->). rewrite Hz, fmap_insert, insert_id; [done|].
    rewrite lookup_fmap, Hsid. done.
  - intros s. destruct (Hv (keySessionPrefix +:+ s)) as (-> & _ & _). rewrite Hs.
    destruct (decide (s = sid)) as [->|]; [by rewrite lookup_insert_eq, Hsid|].
    by rewrite lookup_insert_ne.
  - intros h. destruct (Hv (keyExactPrefix +:+ h)) as (_ & -> & _). rewrite Hx. apply set_eq.
    intros s. rewrite !elem_of_with_hash. setoid_rewrite lookup_insert_Some. cbn.
    destruct (decide (sid = s)) as [->|]; naive_solver.
  - intros t. destruct (Hv (keyInterestPrefix +:+ t)) as (_ & -> & _). rewrite Hi. apply set_eq.
    intros s. rewrite !elem_of_with_tag. setoid_rewrite lookup_insert_Some. cbn.
    destruct (decide (sid = s)) as [->|]; naive_solver.
  - rewrite exp_of_eget, He, foldl_tags_other; [|intros tag; by qview]. qview.
    by rewrite <-exp_of_eget.
  - intros s e'. rewrite lookup_insert_Some, exp_of_eget, He.
    rewrite foldl_tags_other by (intros tag; by qview).
    intros [[-> <-]|[Hne He']]; qview.
    + by rewrite (Hex _ _ (Hst _ _ Hsid)).
    + by rewrite (Hex _ _ (Hst _ _ He')).
  - intros s e'. rewrite lookup_insert_Some, exp_of_eget, He.
    rewrite foldl_tags_other by (intros tag; by qview).
    intros [[-> <-]|[Hne He']].
    + destruct (Hxt _ _ Hsid) as (d & Hd & _). qview. cbn [q_interests refresh_entry]. rewrite (Hex _ _ Hd). cbn.
      eexists. split; [done|]. by vm_compute (Z.quot _ _).
    + destruct (Hxt _ _ He') as (d & Hd & Hle).
      destruct (decide (InterestsHash (q_interests e') = InterestsHash (q_interests e))) as [Heq|Hneq].
      * rewrite Heq in *. qview. rewrite (Hex _ _ Hd). eexists. split; [done|]. by eapply Hdl.
      * cbn [Hash entry_of]. qview. rewrite (Hex _ _ Hd). cbn. by eauto.
  - intros s e' t. rewrite lookup_insert_Some, exp_of_eget, He.
    intros [[-> <-]|[Hne He']] Ht.
    + destruct (Hit _ _ _ Hsid Ht) as (d & Hd & _). qview.
      rewrite (foldl_tags_key _ (λ p, (λ _, Some (clk + 60000)) <$> p) _ t).
      * rewrite bool_decide_true by done. rewrite (Hex _ _ Hd). eexists. split; [done|]. cbn. lia.
      * intros b. by qview.
      * intros b tag Hne. by qview.
      * by intros [].
    + destruct (Hit _ _ _ He' Ht) as (d & Hd & Hle). qview.
      rewrite (foldl_tags_key _ (λ p, (λ _, Some (clk + 60000)) <$> p) _ t).
      * rewrite (Hex _ _ Hd). case_bool_decide; (eexists; split; [done|]); [by eapply Hdl|done].
      * intros b. by qview.
      * intros b tag Hne'. by qview.
      * by intros [].
Qed.

(** *** Time, and writes elsewhere *)

Lemma expire_keep now ks k d :
  exp_of ks k = Some d → now < d → expire_keys now ks !! k = ks !! k.
Proof.
  unfold exp_of, expire_keys. destruct (ks !! k) as [e|] eqn:Ek; [|done]. intros He Hd.
  apply map_lookup_filter_Some. split; [done|]. cbn. unfold live_at. by rewrite He.
Qed.

Lemma expire_sget now ks k : expire_keys now ks !! k = ks !! k ∨ expire_keys now ks !! k = None.
Proof.
  unfold expire_keys. destruct (filter _ ks !! k) as [e|] eqn:E; [|by right].
  left. by apply map_lookup_filter_Some in E as [-> _].
Qed.

(** While no entry has reached its deadline, time changes nothing. *)
Lemma queue_is_elapse clk ks q d :
  queue_is clk ks q → 0 ≤ d → map_Forall (λ _ e, clk + d < q_deadline e) q →
  queue_is (clk + d) (expire_keys (clk + d) ks) q.
Proof.
  intros Hq Hd Hall. destruct Hq as [Hwf Hgood Hz Hs Hx Hi Hzt Hst Hxt Hit].
  set (ks' := expire_keys (clk + d) ks).
  assert (∀ k, ks' !! k = ks !! k ∨ ks' !! k = None) as HK by apply expire_sget.
  assert (ks' !! keyMatchQueue = ks !! keyMatchQueue) as HzK.
  { unfold ks', expire_keys. destruct (ks !! keyMatchQueue) as [e|] eqn:Ek.
    - apply map_lookup_filter_Some. split; [done|]. unfold live_at, exp_of in *.
      rewrite Ek in Hzt. cbn. by rewrite Hzt.
    - apply map_lookup_filter_None. by left. }
  assert (∀ s e, q !! s = Some e →
    ks' !! (keySessionPrefix +:+ s) = ks !! (keySessionPrefix +:+ s)) as HsK.
  { intros s e He. eapply expire_keep; [by apply Hst|]. by apply (Hall _ _ He). }
  assert (∀ s e, q !! s = Some e → ks' !! (keyExactPrefix +:+ InterestsHash (q_interests e)) =
            ks !! (keyExactPrefix +:+ InterestsHash (q_interests e))) as HxK.
  { intros s e He. destruct (Hxt _ _ He) as (d' & Hd' & Hle). eapply expire_keep; [done|].
    pose proof (Hall _ _ He) as Hl. cbn in Hl. lia. }
  assert (∀ s e t, q !! s = Some e → t ∈ q_interests e →
            ks' !! (keyInterestPrefix +:+ t) = ks !! (keyInterestPrefix +:+ t)) as HiK.
  { intros s e t He Ht. destruct (Hit _ _ _ He Ht) as (d' & Hd' & Hle). eapply expire_keep; [done|].
    pose proof (Hall _ _ He) as Hl. cbn in Hl. lia. }
  split.
  - intros k e [Hk _]%map_lookup_filter_Some. by apply (wf_lookup _ _ _ Hwf).
  - intros s e He. destruct (Hgood _ _ He) as (?&?&?). split_and!; [done..|lia].
  - unfold zget, zset_of. rewrite HzK. exact Hz.
  - intros s. unfold hget, hash_of. destruct (q !! s) as [e|] eqn:He.
    + rewrite (HsK _ _ He). specialize (Hs s). by rewrite He in Hs.
    + specialize (Hs s). rewrite He in Hs.
      destruct (HK (keySessionPrefix +:+ s)) as [->| ->]; done.
  - intros h. destruct (decide (with_hash q h = ∅)) as [Hem|Hne].
    + specialize (Hx h). unfold sget, set_of in *.
      destruct (HK (keyExactPrefix +:+ h)) as [->| ->]; [done|].
      by rewrite Hem.
    + apply set_choose_L in Hne as [s Hin]. apply elem_of_with_hash in Hin as (e & He & <-).
      unfold sget, set_of. rewrite (HxK _ _ He). apply Hx.
  - intros t. destruct (decide (with_tag q t = ∅)) as [Hem|Hne].
    + specialize (Hi t). unfold sget, set_of in *.
      destruct (HK (keyInterestPrefix +:+ t)) as [->| ->]; [done|].
      by rewrite Hem.
    + apply set_choose_L in Hne as [s Hin]. apply elem_of_with_tag in Hin as (e & He & Ht).
      unfold sget, set_of. rewrite (HiK _ _ _ He Ht). apply Hi.
  - unfold exp_of. rewrite HzK. exact Hzt.
  - intros s e He. unfold exp_of. rewrite (HsK _ _ He). by apply Hst.
  - intros s e He. unfold exp_of. rewrite (HxK _ _ He). by eapply Hxt.
  - intros s e t He Ht. unfold exp_of. rewrite (HiK _ _ _ He Ht). by eapply Hit.
Qed.

(** The keys of the queue. *)
Definition queue_key (k : string) : Prop :=
  k = keyMatchQueue ∨ (∃ s, k = keySessionPrefix +:+ s) ∨
  (∃ h, k = keyExactPrefix +:+ h) ∨ (∃ t, k = keyInterestPrefix +:+ t).

Lemma queue_is_frame clk ks ks' q :
  queue_is clk ks q → wf_ks ks' → (∀ k, queue_key k → ks' !! k = ks !! k) → queue_is clk ks' q.
Proof.
  intros Hq Hwf' Hk. destruct Hq as [Hwf Hgood Hz Hs Hx Hi Hzt Hst Hxt Hit].
  unfold queue_key in Hk.
  split; try done; unfold zget, zset_of, hget, hash_of, sget, set_of, exp_of in *; intros;
    rewrite ?Hk by eauto 6; eauto.
Qed.

(** ** The operations on the abstract queue *)

Section rules.
Context `{EnvLaws W}.
Implicit Types (w : W).

Lemma wp_Enqueue sid interests q (Q : option error → W → Prop) w :
  up w → queue_is (rclock w) (keyspace w) q → clean interests → Z.abs (wall w) < 2 ^ 53 →
  requeue_ok q sid interests →
  (∀ w', up w' → frame w w' →
     queue_is (rclock w) (keyspace w') (<[sid := new_entry (rclock w) (wall w) interests]> q) →
     Q None w') →
  wp (Enqueue sid interests) Q w.
Proof.
  intros Hup Hq Hc Ht Hre HQ. unfold Enqueue. wp_pure. apply wp_now. cbv zeta.
  rewrite float64_exact by done.
  destruct (apply_ws_typed (rclock w) _ _ (qi_wf _ _ _ Hq) (enqueue_typed sid interests (wall w)))
    as (ks' & E & Hwf').
  eapply wp_pipeline; [done..|]. intros w' Hup' Hf Hk. apply HQ; [done..|]. rewrite Hk.
  by eapply queue_is_enqueue.
Qed.

Lemma wp_GetEntry sid q (Q : res (option QueueEntry) → W → Prop) w :
  up w → queue_is (rclock w) (keyspace w) q →
  (∀ w', same w w' → Q (Ok (entry_of sid <$> q !! sid)) w') →
  wp (GetEntry sid) Q w.
Proof.
  intros Hup Hq HQ. unfold GetEntry. wp_pure.
  eapply wp_hgetall; [done|apply wf_hash; [apply Hq|auto with go]|]. intros w' Hs. wp_pure.
  rewrite (qi_session _ _ _ Hq). specialize (HQ w' Hs).
  destruct (q !! sid) as [e|] eqn:He; [|done]. rewrite bool_decide_false.
  - destruct (map_Forall_lookup_1 _ _ _ _ (qi_good _ _ _ Hq) He) as (Hc & Hj & _).
    by rewrite entry_of_entry_hash.
  - rewrite map_size_empty_iff. intros Hn. pose proof (entry_hash_joined (q_interests e) (q_joined e)).
    by rewrite Hn in *.
Qed.

(** A session that is not queued is left alone. *)
Lemma wp_Dequeue sid q (Q : option error → W → Prop) w :
  up w → queue_is (rclock w) (keyspace w) q →
  (∀ w', up w' → frame w w' → queue_is (rclock w) (keyspace w') (delete sid q) →
     (∀ k, ¬ queue_key k → keyspace w' !! k = keyspace w !! k) → Q None w') →
  wp (Dequeue sid) Q w.
Proof.
  intros Hup Hq HQ. unfold Dequeue. wp_pure. eapply wp_GetEntry; [done..|].
  intros w1 (Hk1 & Hf1 & Hu1). destruct (q !! sid) as [e|] eqn:He; cbn; wp_pure.
  - destruct (apply_ws_typed (rclock w1) _ _ (qi_wf _ _ _ Hq) (dequeue_typed sid (entry_of sid e)))
      as (ks' & E & Hwf'). rewrite <-Hk1 in E.
    eapply wp_pipeline; [auto|done|]. intros w' Hup' Hf' Hk. apply HQ; [done|by etrans| |].
    + destruct Hf1 as [Hc1 _]. rewrite Hk. rewrite Hc1, Hk1 in E. by eapply queue_is_dequeue.
    + intros k Hn. rewrite Hk, <-Hk1. eapply apply_ws_other; [done|]. intros Hin. apply Hn.
      unfold dequeue_cmds in Hin. rewrite !fmap_app, !elem_of_app in Hin.
      unfold queue_key. destruct Hin as [Hin|[Hin|Hin]].
      * cbn in Hin. rewrite !elem_of_cons in Hin. set_solver.
      * apply list_elem_of_fmap in Hin as (c & -> & Hc). unfold tag_cmds in Hc.
        rewrite list_elem_of_In, in_concat in Hc. destruct Hc as (l & Hl2 & Hl1).
        apply list_elem_of_In in Hl1, Hl2.
        apply list_elem_of_fmap in Hl2 as (t & -> & _). apply list_elem_of_singleton in Hl1 as ->.
        cbn. eauto.
      * cbn in Hin. set_solver.
  - apply HQ; [by auto|done| |by rewrite Hk1]. rewrite delete_id by done. by rewrite Hk1.
Qed.

Lemma wp_RefreshTTLs sid q (Q : option error → W → Prop) w :
  up w → queue_is (rclock w) (keyspace w) q →
  (∀ w', up w' → frame w w' →
     queue_is (rclock w) (keyspace w') (alter (refresh_entry (rclock w)) sid q) → Q None w') →
  wp (RefreshTTLs sid) Q w.
Proof.
  intros Hup Hq HQ. unfold RefreshTTLs. wp_pure. eapply wp_GetEntry; [done..|].
  intros w1 (Hk1 & Hf1 & Hu1). destruct (q !! sid) as [e|] eqn:He; cbn; wp_pure.
  - destruct (apply_ws_typed (rclock w1) _ _ (qi_wf _ _ _ Hq) (refresh_typed sid (entry_of sid e)))
      as (ks' & E & Hwf'). rewrite <-Hk1 in E.
    eapply wp_pipeline; [auto|done|]. intros w' Hup' Hf' Hk. apply HQ; [done|by etrans|].
    destruct Hf1 as [Hc1 _]. rewrite Hk. rewrite Hc1, Hk1 in E.
    assert (alter (refresh_entry (rclock w)) sid q = <[sid := refresh_entry (rclock w) e]> q) as ->.
    { apply map_eq. intros s. rewrite lookup_alter, lookup_insert.
      case_decide; [subst; by rewrite He|done]. }
    by eapply queue_is_refresh.
  - apply HQ; [by auto|done|]. rewrite Hk1.
    assert (alter (refresh_entry (rclock w)) sid q = q) as ->; [|done].
    apply map_eq. intros s. rewrite lookup_alter. case_decide; [subst; by rewrite He|done].
Qed.

Lemma wp_IsQueued sid q (Q : res bool → W → Prop) w :
  up w → queue_is (rclock w) (keyspace w) q →
  (∀ w', same w w' → Q (Ok (bool_decide (is_Some (q !! sid)))) w') →
  wp (IsQueued sid) Q w.
Proof.
  intros Hup Hq HQ. unfold IsQueued. wp_pure.
  eapply wp_zscore; [done|apply wf_zset; [apply Hq|auto with go]|]. intros w' Hs. wp_pure.
  rewrite (qi_queue _ _ _ Hq), lookup_fmap. specialize (HQ w' Hs).
  destruct (q !! sid); [by rewrite bool_decide_true in HQ by eauto|].
  by rewrite bool_decide_false in HQ by (by intros [? [=]]).
Qed.

Lemma wp_GetAllQueued q (Q : res (list string) → W → Prop) w :
  up w → queue_is (rclock w) (keyspace w) q →
  (∀ w', same w w' → Q (Ok (zorder (q_joined <$> q)).*1) w') → wp GetAllQueued Q w.
Proof.
  intros Hup Hq HQ. unfold GetAllQueued.
  eapply wp_zrange; [done|apply wf_zset; [apply Hq|auto with go]|]. intros w' Hs.
  rewrite (qi_queue _ _ _ Hq). by apply HQ.
Qed.

Lemma wp_GetExactCandidates h q (Q : res (list string) → W → Prop) w :
  up w → queue_is (rclock w) (keyspace w) q →
  (∀ l w', l ≡ₚ elements (with_hash q h) → same w w' → Q (Ok l) w') →
  wp (GetExactCandidates h) Q w.
Proof.
  intros Hup Hq HQ. unfold GetExactCandidates.
  eapply wp_smembers; [done|apply wf_set; [apply Hq|auto with go]|]. intros l w' Hl Hs.
  rewrite (qi_exact _ _ _ Hq) in Hl. by apply HQ.
Qed.

Lemma wp_GetInterestCandidates t q (Q : res (list string) → W → Prop) w :
  up w → queue_is (rclock w) (keyspace w) q →
  (∀ l w', l ≡ₚ elements (with_tag q t) → same w w' → Q (Ok l) w') →
  wp (GetInterestCandidates t) Q w.
Proof.
  intros Hup Hq HQ. unfold GetInterestCandidates.
  eapply wp_smembers; [done|apply wf_set; [apply Hq|auto with go]|]. intros l w' Hl Hs.
  rewrite (qi_interest _ _ _ Hq) in Hl. by apply HQ.
Qed.

Lemma wp_QueueSize q (Q : res Z → W → Prop) w :
  up w → queue_is (rclock w) (keyspace w) q →
  (∀ w', same w w' → Q (Ok (Z.of_nat (size q))) w') → wp QueueSize Q w.
Proof.
  intros Hup Hq HQ. unfold QueueSize.
  eapply wp_zcard; [done|apply wf_zset; [apply Hq|auto with go]|]. intros w' Hs.
  rewrite (qi_queue _ _ _ Hq), map_size_fmap. by apply HQ.
Qed.
End rules.

(** ** Runs of queue operations *)

Inductive queue_op : Type :=
  | QEnqueue (sid : string) (interests : list string)
  | QDequeue (sid : string)
  | QRefresh (sid : string)
  | QWait (ms : Z).

(** The steps of the abstract queue; the state has the Redis clock, the local
    clock and the queue.  A wait may not outlive a queued entry's keys. *)
Inductive queue_step : Z * Z * aqueue → queue_op → Z * Z * aqueue → Prop :=
  | step_enqueue clk t q sid interests :
      clean interests → Z.abs t < 2 ^ 53 → requeue_ok q sid interests →
      queue_step (clk, t, q) (QEnqueue sid interests)
                 (clk, t, <[sid := new_entry clk t interests]> q)
  | step_dequeue clk t q sid :
      queue_step (clk, t, q) (QDequeue sid) (clk, t, delete sid q)
  | step_refresh clk t q sid :
      queue_step (clk, t, q) (QRefresh sid) (clk, t, alter (refresh_entry clk) sid q)
  | step_wait clk t q ms :
      0 ≤ ms → map_Forall (λ _ e, clk + ms < q_deadline e) q →
      queue_step (clk, t, q) (QWait ms) (clk + ms, t + ms, q).

Inductive queue_steps : Z * Z * aqueue → list queue_op → Z * Z * aqueue → Prop :=
  | steps_nil s : queue_steps s [] s
  | steps_cons s op s1 ops s2 :
      queue_step s op s1 → queue_steps s1 ops s2 → queue_steps s (op :: ops) s2.

Definition queue_do `{Env W} (op : queue_op) : M W (option error) :=
  match op with
  | QEnqueue sid interests => Enqueue sid interests
  | QDequeue sid => Dequeue sid
  | QRefresh sid => RefreshTTLs sid
  | QWait ms => λ w, (None, elapse ms w)
  end.

Fixpoint queue_run `{Env W} (ops : list queue_op) : M W (option error) :=
  match ops with
  | [] => ret None
  | op :: ops =>
      let! e := queue_do op in
      match e with Some e => ret (Some e) | None => queue_run ops end
  end.

(** Everything the queue can be asked. *)
Definition queue_reads `{Env W} (sid h tag : string)
    : M W (res (list string) * res bool * res (option QueueEntry) *
           res (list string) * res (list string) * res Z) :=
  let! all := GetAllQueued in
  let! queued := IsQueued sid in
  let! entry := GetEntry sid in
  let! exact := GetExactCandidates h in
  let! tagged := GetInterestCandidates tag in
  let! n := QueueSize in
  ret (all, queued, entry, exact, tagged, n).

Lemma Sum256_length s : length (Sum256 s) = 32%nat.
Proof.
  unfold Sum256. cbv zeta.
  assert (∀ fuel st ws, length st = 8%nat → length (blocks fuel st ws) = 8%nat) as Hb.
  { assert (∀ st kw, length st = 8%nat → length (round st kw) = 8%nat) as Hr.
    { intros st kw Hst. do 8 (destruct st as [|? st]; [done|]). by destruct st. }
    assert (∀ l st, length st = 8%nat → length (foldl round st l) = 8%nat) as Hf.
    { intros l. induction l as [|kw l IH]; intros st Hst; cbn [foldl]; [done|]. apply IH, Hr, Hst. }
    intros fuel. induction fuel as [|fuel IH]; intros st ws Hst; [done|].
    destruct ws as [|x ws]; [done|]. cbn [blocks]. apply IH. unfold compress.
    rewrite length_zip_with, Hf by done. lia. }
  match goal with |- context [blocks ?n ?st ?ws] =>
    pose proof (Hb n st ws eq_refl) as Hl; revert Hl; generalize (blocks n st ws) end.
  intros st Hst. do 8 (destruct st as [|? st]; [done|]). by destruct st.
Qed.

Lemma hex_length bs : String.length (hex bs) = (2 * length bs)%nat.
Proof. induction bs as [|b bs IH]; cbn; [done|]. rewrite IH. lia. Qed.

(** The interest hash does not depend on the order in which the interests
    are listed and is always sixteen characters long. *)
Theorem interests_hash_canonical interests interests' :
  interests ≡ₚ interests' →
  InterestsHash interests = InterestsHash interests' ∧
  String.length (InterestsHash interests) = 16%nat.
Proof.
  intros Hp. split; [by apply InterestsHash_perm|]. unfold InterestsHash. cbv zeta.
  by rewrite hex_length, length_take, Sum256_length.
Qed.

Lemma interests_hash_canonical_witness :
  InterestsHash ["music"; "go"; "chess"] = InterestsHash ["chess"; "music"; "go"] ∧
  String.length (InterestsHash ["music"; "go"; "chess"]) = 16%nat.
Proof.
  apply (interests_hash_canonical ["music"; "go"; "chess"] ["chess"; "music"; "go"]).
  apply Permutation_sym. change ["chess"; "music"; "go"] with ("chess" :: ["music"; "go"]).
  apply (Permutation_cons_append ["music"; "go"] "chess").
Defined.

Section theorems.
Context `{EnvLaws W}.
Implicit Types (w : W).

Lemma wp_queue_do op q (Q : option error → W → Prop) w s' :
  up w → queue_is (rclock w) (keyspace w) q →
  queue_step (rclock w, wall w, q) op s' →
  (∀ w', up w' → rclock w' = s'.1.1 → wall w' = s'.1.2 →
     queue_is (rclock w') (keyspace w') s'.2 → Q None w') →
  wp (queue_do op) Q w.
Proof.
  intros Hup Hq Hs HQ. inversion Hs; subst; cbn [queue_do fst snd] in *.
  - eapply wp_Enqueue; [done..|]. intros w' Hup' (Hc & Hw & _) Hq'.
    apply HQ; [done..|]. by rewrite Hc.
  - eapply wp_Dequeue; [done..|]. intros w' Hup' (Hc & Hw & _) Hq' _.
    apply HQ; [done..|]. by rewrite Hc.
  - eapply wp_RefreshTTLs; [done..|]. intros w' Hup' (Hc & Hw & _) Hq'.
    apply HQ; [done..|]. by rewrite Hc.
  - unfold wp. cbn. destruct (elapse_spec ms w) as (Hk & Hc & Hw & _ & Hu); [done|].
    apply HQ; [auto|done..|]. rewrite Hk, Hc. by apply queue_is_elapse.
Qed.

Lemma wp_queue_run ops q (Q : option error → W → Prop) w s' :
  up w → queue_is (rclock w) (keyspace w) q →
  queue_steps (rclock w, wall w, q) ops s' →
  (∀ w', up w' → rclock w' = s'.1.1 → wall w' = s'.1.2 →
     queue_is (rclock w') (keyspace w') s'.2 → Q None w') →
  wp (queue_run ops) Q w.
Proof.
  intros Hup Hq Hs. remember (rclock w, wall w, q) as s eqn:Es. revert w q Hup Hq Es.
  induction Hs as [s|s op [[clk t] q1] ops s2 Hstep _ IH]; intros w q Hup Hq -> HQ; cbn [queue_run].
  - apply wp_ret. by apply HQ.
  - wp_pure. eapply wp_queue_do; [done..|]. cbn. intros w1 Hup1 Hc1 Hw1 Hq1. wp_pure.
    eapply IH; [done|exact Hq1|by rewrite Hc1, Hw1|done].
Qed.

(** C6: the Redis structures implement the abstract queue: after any run of
    enqueues, dequeues, TTL refreshes and waits that the abstract queue allows
    (interests without comma, sessions queued again only with the interests
    they have, no entry left to outlive the TTL of its keys), no operation
    reports an error and every read agrees with the abstract queue: all
    sessions by join time, membership, the entry with its interests, hash and
    join time, the sessions with a given hash or tag, and the size. *)
Theorem queue_refines (w : W) ops sid h tag clk t q :
  up w → keyspace w = ∅ → queue_steps (rclock w, wall w, ∅) ops (clk, t, q) →
  wp (let! e := queue_run ops in
      let! rs := queue_reads sid h tag in
      ret (e, rs))
     (λ out _, ∃ exact tagged,
        out = (None, (Ok (zorder (q_joined <$> q)).*1, Ok (bool_decide (is_Some (q !! sid))),
                      Ok (entry_of sid <$> q !! sid), Ok exact, Ok tagged,
                      Ok (Z.of_nat (size q)))) ∧
        exact ≡ₚ elements (with_hash q h) ∧ tagged ≡ₚ elements (with_tag q tag)) w.
Proof.
  intros Hup Hk Hs. wp_pure. eapply (wp_queue_run _ ∅); [done| |done|].
  { rewrite Hk. apply queue_is_empty. }
  cbn. intros w1 Hup1 _ _ Hq. unfold queue_reads. wp_pure.
  eapply wp_GetAllQueued; [done..|]. intros w2 (Hk2 & (Hc2 & _) & Hu2). wp_pure.
  rewrite <-Hk2, <-Hc2 in Hq. specialize (Hu2 Hup1).
  eapply wp_IsQueued; [done..|]. intros w3 (Hk3 & (Hc3 & _) & Hu3). wp_pure.
  rewrite <-Hk3, <-Hc3 in Hq. specialize (Hu3 Hu2).
  eapply wp_GetEntry; [done..|]. intros w4 (Hk4 & (Hc4 & _) & Hu4). wp_pure.
  rewrite <-Hk4, <-Hc4 in Hq. specialize (Hu4 Hu3).
  eapply wp_GetExactCandidates; [done..|]. intros exact w5 Hx (Hk5 & (Hc5 & _) & Hu5). wp_pure.
  rewrite <-Hk5, <-Hc5 in Hq. specialize (Hu5 Hu4).
  eapply wp_GetInterestCandidates; [done..|]. intros tagged w6 Ht (Hk6 & (Hc6 & _) & Hu6). wp_pure.
  rewrite <-Hk6, <-Hc6 in Hq. specialize (Hu6 Hu5).
  eapply wp_QueueSize; [done..|]. intros w7 _. wp_pure. by eauto.
Qed.

(** Once the key [match:session:<id>] of a queued session has expired,
    [Dequeue] reports success but leaves the session in the queue. *)
Theorem dequeue_leaves_ghost (w : W) sid :
  up w → wf_ks (keyspace w) → keyspace w !! (keySessionPrefix +:+ sid) = None →
  is_Some (zget (keyspace w) keyMatchQueue !! sid) →
  wp (let! e := Dequeue sid in
      let! b := IsQueued sid in
      ret (e, b))
     (λ out _, out = (None, Ok true)) w.
Proof.
  intros Hup Hwf Hk [sc Hsc]. wp_pure. unfold Dequeue, GetEntry. wp_pure.
  eapply wp_hgetall; [done|apply wf_hash; auto with go|]. intros w1 (Hk1 & _ & Hu1). wp_pure.
  unfold hget, hash_of. rewrite Hk. cbn [default id].
  rewrite bool_decide_true by apply map_size_empty. wp_pure. unfold IsQueued. wp_pure.
  eapply wp_zscore; [auto|rewrite Hk1; apply wf_zset; auto with go|]. intros w2 _. wp_pure.
  by rewrite Hsc.
Qed.
End theorems.

Definition queue_world : mem := mem_fresh 1700000000000.

Lemma queue_refines_witness :
  let ops := [QEnqueue "alice" ["go"; "chess"]; QWait 5000; QEnqueue "bob" ["chess"];
              QRefresh "alice"; QDequeue "carol"; QDequeue "bob"; QWait 59000] in
  let q := {["alice" := QEnt ["go"; "chess"] 1700000000000 1700000065000]} in
  wp (let! e := queue_run ops in
      let! rs := queue_reads "alice" (InterestsHash ["chess"; "go"]) "chess" in
      ret (e, rs))
     (λ out _, ∃ exact tagged,
        out = (None, (Ok (zorder (q_joined <$> q)).*1, Ok (bool_decide (is_Some (q !! "alice"))),
                      Ok (entry_of "alice" <$> q !! "alice"), Ok exact, Ok tagged,
                      Ok (Z.of_nat (size q)))) ∧
        exact ≡ₚ elements (with_hash q (InterestsHash ["chess"; "go"])) ∧
        tagged ≡ₚ elements (with_tag q "chess")) queue_world.
Proof.
  intros ops q.
  apply (queue_refines queue_world ops "alice" (InterestsHash ["chess"; "go"]) "chess"
           1700000064000 1700000064000 q); [reflexivity | reflexivity |].
  assert (∀ e : qent, @None qent = Some e → False) as Hno by (intros e He; discriminate He).
  repeat (eapply steps_cons; [constructor|]).
  1, 6: split; [discriminate | repeat constructor].
  1, 5: reflexivity.
  1, 4: intros e He; vm_compute in He; destruct (Hno _ He).
  1, 3: vm_compute; discriminate.
  1, 2: apply (bool_decide_unpack _); vm_compute; exact I.
  vm_compute. constructor.
Defined.

Lemma dequeue_leaves_ghost_witness :
  let w := elapse 60000 (Enqueue "alice" ["go"] queue_world).2 in
  wp (let! e := Dequeue "alice" in
      let! b := IsQueued "alice" in
      ret (e, b))
     (λ out _, out = (None, Ok true)) w.
Proof.
  intros w. apply (dequeue_leaves_ghost w "alice");
    [reflexivity
    | apply (bool_decide_unpack (wf_ks (keyspace w))); vm_compute; exact I
    | reflexivity | vm_compute; eexists; reflexivity].
Defined.
