(* ===== verification/Tiers.v ===== *)
(** * internal/matching: the four matching tiers

    exact.go, overlap.go, single.go and random.go.  Each tier is shown sound
    and complete on the abstract queue: what it returns, and that it returns
    nothing only when there is nothing to return. *)

From stdpp Require Import base gmap strings sorting numbers list_basics list_relations list.
From S2P Require Import Prelude GoStd Json Env Keys MemEnv Queue.
Open Scope Z_scope.

Record MatchCandidate : Type := Candidate {
  SessionA : string;
  SessionB : string;
  SharedInterests : list string;
}.

Section tiers.
Context `{Env W}.

(** Whether a candidate is still in the queue; an error counts as not. *)
Definition still_queued (candidateID : string) : M W bool :=
  let! r := IsQueued candidateID in
  ret match r with Err _ => false | Ok queued => queued end.

Definition TryExactMatch (sessionID : string) : M W (res (option MatchCandidate)) :=
  let! r := GetEntry sessionID in
  match r with
  | Err err => ret (Err err)
  | Ok None => ret (Ok None)
  | Ok (Some entry) =>
      let! r := GetExactCandidates (Hash entry) in
      match r with
      | Err err => ret (Err err)
      | Ok candidates =>
          let! found := range_find candidates (λ candidateID,
            if bool_decide (candidateID = sessionID) then ret None
            else
              let! queued := still_queued candidateID in
              if queued then ret (Some (Candidate sessionID candidateID (Interests entry)))
              else ret None) in
          ret (Ok found)
      end
  end.

(** *** Tier 2 *)

(** The maps of tier 2: how many interests each candidate shares, and which. *)
Definition score_state : Type := gmap string Z * gmap string (gmap string bool).

Definition score_member (sessionID tag : string) (st : score_state) (memberID : string) : score_state :=
  if bool_decide (memberID = sessionID) then st
  else
    let '(scores, candidateInterests) := st in
    (<[memberID := default 0 (scores !! memberID) + 1]> scores,
     <[memberID := <[tag := true]> (default ∅ (candidateInterests !! memberID))]> candidateInterests).

Definition TryOverlapMatch (sessionID : string) : M W (res (option MatchCandidate)) :=
  let! r := GetEntry sessionID in
  match r with
  | Err err => ret (Err err)
  | Ok None => ret (Ok None)
  | Ok (Some entry) =>
      let! st := range_fold (Interests entry) (λ st tag,
        let! r := GetInterestCandidates tag in
        match r with
        | Err _ => ret st
        | Ok members => ret (foldl (score_member sessionID tag) st members)
        end) (∅, ∅) in
      let '(scores, candidateInterests) := st in
      if bool_decide (size scores = 0%nat) then ret (Ok None)
      else
        let! ranked := map_range scores in
        let! ranked := sort_slice (λ a b : string * Z, bool_decide (a.2 > b.2)) ranked in
        let! found := range_find ranked (λ candidate,
          let! queued := still_queued candidate.1 in
          if queued then
            let! tags := map_range (default ∅ (candidateInterests !! candidate.1)) in
            let shared := sort_Strings tags.*1 in
            ret (Some (Candidate sessionID candidate.1 shared))
          else ret None) in
        ret (Ok found)
  end.

(** *** Tier 3 *)

Definition seen_state : Type := gmap string bool * gmap string (list string).

Definition see_member (sessionID tag : string) (st : seen_state) (memberID : string) : seen_state :=
  if bool_decide (memberID = sessionID) then st
  else
    let '(seen, candidateInterests) := st in
    if default false (seen !! memberID) then
      (seen, <[memberID := default [] (candidateInterests !! memberID) ++ [tag]]> candidateInterests)
    else (<[memberID := true]> seen, <[memberID := [tag]]> candidateInterests).

Definition TrySingleInterestMatch (sessionID : string) : M W (res (option MatchCandidate)) :=
  let! r := GetEntry sessionID in
  match r with
  | Err err => ret (Err err)
  | Ok None => ret (Ok None)
  | Ok (Some entry) =>
      let! st := range_fold (Interests entry) (λ st tag,
        let! r := GetInterestCandidates tag in
        match r with
        | Err _ => ret st
        | Ok members => ret (foldl (see_member sessionID tag) st members)
        end) (∅, ∅) in
      let '(_, candidateInterests) := st in
      let! order := map_range candidateInterests in
      let! found := range_find order (λ '(candidateID, shared),
        let! queued := still_queued candidateID in
        if queued then ret (Some (Candidate sessionID candidateID (sort_Strings shared)))
        else ret None) in
      ret (Ok found)
  end.

(** *** Tier 4 *)

Definition TryRandomMatch (sessionID : string) : M W (res (option MatchCandidate)) :=
  let! r := GetAllQueued in
  match r with
  | Err err => ret (Err err)
  | Ok allQueued =>
      let! found := range_find allQueued (λ candidateID,
        if bool_decide (candidateID = sessionID) then ret None
        else
          let! queued := still_queued candidateID in
          if queued then ret (Some (Candidate sessionID candidateID []))
          else ret None) in
      ret (Ok found)
  end.
End tiers.

(** ** What the tiers find *)

(** The interests of [e] that [e'] has as well, in the order of [e]. *)
Definition common (e e' : qent) : list string :=
  filter (λ t, t ∈ q_interests e') (q_interests e).

(** Every other queued session. *)
Definition other (q : aqueue) (sid m : string) (em : qent) : Prop := m ≠ sid ∧ q !! m = Some em.

Definition exact_spec (q : aqueue) (sid : string) (e : qent) (r : option MatchCandidate) : Prop :=
  match r with
  | None => ∀ m em, other q sid m em →
              InterestsHash (q_interests em) ≠ InterestsHash (q_interests e)
  | Some c => SessionA c = sid ∧ SharedInterests c = q_interests e ∧
      ∃ eb, other q sid (SessionB c) eb ∧
            InterestsHash (q_interests eb) = InterestsHash (q_interests e)
  end.

Definition overlap_spec (q : aqueue) (sid : string) (e : qent) (r : option MatchCandidate) : Prop :=
  match r with
  | None => ∀ m em, other q sid m em → common e em = []
  | Some c => SessionA c = sid ∧
      ∃ eb, other q sid (SessionB c) eb ∧ common e eb ≠ [] ∧
        SharedInterests c = sort_Strings (remove_dups (common e eb)) ∧
        ∀ m em, other q sid m em → (length (common e em) ≤ length (common e eb))%nat
  end.

Definition single_spec (q : aqueue) (sid : string) (e : qent) (r : option MatchCandidate) : Prop :=
  match r with
  | None => ∀ m em, other q sid m em → common e em = []
  | Some c => SessionA c = sid ∧
      ∃ eb, other q sid (SessionB c) eb ∧ common e eb ≠ [] ∧
        SharedInterests c = sort_Strings (common e eb)
  end.

Definition random_spec (q : aqueue) (sid : string) (r : option MatchCandidate) : Prop :=
  match r with
  | None => ∀ m em, ¬ other q sid m em
  | Some c => SessionA c = sid ∧ SharedInterests c = [] ∧
      ∃ eb, other q sid (SessionB c) eb ∧
        ∀ m em, other q sid m em → q_joined eb ≤ q_joined em
  end.

(** ** Proofs *)

(** What every tier needs of the world while it only reads. *)
Definition reading `{Env W} (q : aqueue) (w0 w : W) : Prop :=
  same w0 w ∧ up w ∧ queue_is (rclock w) (keyspace w) q.

Section proofs.
Context `{EnvLaws W}.
Implicit Types (w : W).

Lemma reading_refl q w : up w → queue_is (rclock w) (keyspace w) q → reading q w w.
Proof. intros. split; [reflexivity|done]. Qed.

Lemma reading_same q w0 w w' : reading q w0 w → same w w' → reading q w0 w'.
Proof.
  intros (Hs & Hu & Hq) Hs'. split; [by etrans|]. destruct Hs' as (Hk & (Hc & _) & Hu').
  split; [auto|]. by rewrite Hk, Hc.
Qed.
Hint Resolve reading_refl reading_same : go.

Lemma wp_still_queued sid q (Q : bool → W → Prop) w0 w :
  reading q w0 w → (∀ w', reading q w0 w' → Q (bool_decide (is_Some (q !! sid))) w') →
  wp (still_queued sid) Q w.
Proof.
  intros Hr HQ. unfold still_queued. wp_pure. pose proof Hr as (_ & Hu & Hq).
  eapply wp_IsQueued; [done..|]. intros w' Hs. wp_pure. eauto with go.
Qed.

Lemma wp_entry sid q (Q : res (option QueueEntry) → W → Prop) w0 w :
  reading q w0 w → (∀ w', reading q w0 w' → Q (Ok (entry_of sid <$> q !! sid)) w') →
  wp (GetEntry sid) Q w.
Proof.
  intros Hr HQ. pose proof Hr as (_ & Hu & Hq). eapply wp_GetEntry; [done..|]. eauto with go.
Qed.

(** Looking for a queued candidate in a list: the first one the body accepts,
    or none. *)
Lemma wp_first_queued {A} (q : aqueue) w0 (id : A → string) (ok : A → bool)
    (R : A → MatchCandidate → Prop)
    (body : A → M W (option MatchCandidate)) xs w (Q : option MatchCandidate → W → Prop) :
  reading q w0 w →
  (∀ x w', x ∈ xs → reading q w0 w' →
     wp (body x) (λ r w'', reading q w0 w'' ∧
       (if ok x && bool_decide (is_Some (q !! id x)) then ∃ c, r = Some c ∧ R x c else r = None)) w') →
  (∀ pre x post c w', xs = pre ++ x :: post → reading q w0 w' →
     Forall (λ y, ok y && bool_decide (is_Some (q !! id y)) = false) pre →
     ok x = true → is_Some (q !! id x) → R x c → Q (Some c) w') →
  (∀ w', reading q w0 w' → Forall (λ y, ok y && bool_decide (is_Some (q !! id y)) = false) xs →
     Q None w') →
  wp (range_find xs body) Q w.
Proof.
  intros Hr Hbody Hsome Hnone.
  apply (wp_range_find (λ pre w', reading q w0 w' ∧
    Forall (λ y, ok y && bool_decide (is_Some (q !! id y)) = false) pre)).
  - by split.
  - intros pre x post w' [Hr' Hpre] Hxs. eapply wp_mono.
    { apply Hbody; [rewrite Hxs; set_solver|done]. }
    intros r w'' [Hr'' Hres]. destruct (ok x && _) eqn:Eok.
    + destruct Hres as (c & -> & HR). apply andb_true_iff in Eok as [? ?%bool_decide_eq_true].
      by eapply Hsome.
    + subst r. split; [done|]. apply Forall_app. split; [done|]. by repeat constructor.
  - intros w' [Hr' Hall]. by apply Hnone.
Qed.

(** *** Tiers 1 and 4 *)

Lemma wp_TryExactMatch sid q e w0 (Q : res (option MatchCandidate) → W → Prop) w :
  reading q w0 w → q !! sid = Some e →
  (∀ r w', reading q w0 w' → exact_spec q sid e r → Q (Ok r) w') →
  wp (TryExactMatch sid) Q w.
Proof.
  intros Hr He HQ. unfold TryExactMatch. wp_pure. eapply wp_entry; [done|].
  intros w1 Hr1. rewrite He. cbn. wp_pure. pose proof Hr1 as (_ & Hu1 & Hq1).
  eapply wp_GetExactCandidates; [done..|]. intros l w2 Hl Hs2. wp_pure.
  eapply (reading_same _ _ _ _ Hr1) in Hs2 as Hr2.
  assert (∀ m, m ∈ l ↔ ∃ em, q !! m = Some em ∧
            InterestsHash (q_interests em) = InterestsHash (q_interests e)) as Hin.
  { intros m. rewrite Hl, elem_of_elements. apply elem_of_with_hash. }
  eapply (wp_first_queued q w0 (λ x, x) (λ x, negb (bool_decide (x = sid)))
    (λ x c, c = Candidate sid x (q_interests e))); [done| | |].
  - intros x w' _ Hr'. case_bool_decide as Hx; cbn [negb andb]; [by wp_pure|]. wp_pure.
    eapply wp_still_queued; [done|]. intros w'' Hr''. case_bool_decide; wp_pure; by eauto.
  - intros pre x post c w' Hxs Hr' _ Hok [eb Heb] ->. wp_pure. apply HQ; [done|].
    apply negb_true_iff, bool_decide_eq_false in Hok. split; [done|]. split; [done|].
    exists eb. split; [done|]. destruct (Hin x) as [Hx _].
    destruct Hx as (eb' & ? & ?); [rewrite Hxs; set_solver|]. by simplify_eq.
  - intros w' Hr' Hall. wp_pure. apply HQ; [done|]. intros m em [Hne Hm] Hh.
    rewrite Forall_forall in Hall. specialize (Hall m). cbn in Hall.
    rewrite !(bool_decide_false (m = sid)), bool_decide_true in Hall by by eauto.
    discriminate Hall. apply Hin. by eauto.
Qed.

(** *** Tier 4 *)

Lemma wp_TryRandomMatch sid q w0 (Q : res (option MatchCandidate) → W → Prop) w :
  reading q w0 w →
  (∀ r w', reading q w0 w' → random_spec q sid r → Q (Ok r) w') →
  wp (TryRandomMatch sid) Q w.
Proof.
  intros Hr HQ. unfold TryRandomMatch. wp_pure. pose proof Hr as (_ & Hu & Hq).
  eapply wp_GetAllQueued; [done..|]. intros w1 Hs1. wp_pure.
  eapply (reading_same _ _ _ _ Hr) in Hs1 as Hr1.
  set (l := zorder (q_joined <$> q)).
  assert (∀ m t, (m, t) ∈ l ↔ ∃ em, q !! m = Some em ∧ t = q_joined em) as Hin.
  { intros m t. unfold l. rewrite zorder_elem, lookup_fmap_Some. naive_solver. }
  assert (∀ m, m ∈ l.*1 ↔ is_Some (q !! m)) as Hin1.
  { intros m. rewrite list_elem_of_fmap. split.
    - intros ([m' t] & -> & Hm). apply Hin in Hm as (em & ? & _). by eauto.
    - intros [em Hm]. exists (m, q_joined em). split; [done|]. apply Hin. by eauto. }
  eapply (wp_first_queued q w0 (λ x, x) (λ x, negb (bool_decide (x = sid)))
    (λ x c, c = Candidate sid x [])); [done| | |].
  - intros x w' _ Hr'. case_bool_decide as Hx; cbn [negb andb]; [by wp_pure|]. wp_pure.
    eapply wp_still_queued; [done|]. intros w'' Hr''. case_bool_decide; wp_pure; by eauto.
  - intros pre x post c w' Hxs Hr' Hpre Hok [eb Heb] ->. wp_pure. apply HQ; [done|].
    apply negb_true_iff, bool_decide_eq_false in Hok. split; [done|]. split; [done|].
    exists eb. split; [done|]. intros m em [Hne Hm].
    assert (m ∈ l.*1) as Hml by (apply Hin1; by eauto). rewrite Hxs in Hml.
    apply elem_of_app in Hml as [Hml|Hml].
    { rewrite Forall_forall in Hpre. specialize (Hpre m ltac:(done)).
      rewrite bool_decide_false, bool_decide_true in Hpre by by eauto. done. }
    apply fmap_app_inv in Hxs as (l1 & l2 & Hpre' & Hpost & Hl).
    destruct l2 as [|[x' t] l2]; [done|]. cbn in Hpost. injection Hpost as -> Hpost.
    assert (t = q_joined eb) as ->.
    { destruct (proj1 (Hin x' t)) as (eb' & ? & ->); [rewrite Hl; set_solver|]. by simplify_eq. }
    apply elem_of_cons in Hml as [->|Hml]; [by simplify_eq|].
    rewrite Hpost in Hml. apply list_elem_of_fmap in Hml as ([m' t'] & -> & Hm').
    assert (t' = q_joined em) as ->.
    { destruct (proj1 (Hin m' t')) as (em' & ? & ->); [rewrite Hl; set_solver|]. cbn in *; by simplify_eq. }
    pose proof (zorder_sorted (q_joined <$> q)) as Hso. fold l in Hso. rewrite Hl in Hso.
    apply StronglySorted_app_1_r in Hso. apply StronglySorted_inv in Hso as [_ Hso].
    rewrite Forall_forall in Hso. specialize (Hso _ Hm').
    unfold zle in Hso. cbn in Hso. lia.
  - intros w' Hr' Hall. wp_pure. apply HQ; [done|]. intros m em [Hne Hm].
    rewrite Forall_forall in Hall. specialize (Hall m ltac:(apply Hin1; by eauto)).
    rewrite bool_decide_false, bool_decide_true in Hall by by eauto. done.
Qed.
End proofs.

(** *** The maps of tiers 2 and 3 *)

(** The tags of a list that a session has. *)
Definition hits (q : aqueue) (m : string) (tags : list string) : list string :=
  match q !! m with Some em => filter (λ t, t ∈ q_interests em) tags | None => [] end.

Lemma hits_snoc q m tags tag :
  hits q m (tags ++ [tag]) = hits q m tags ++ (if decide (m ∈ with_tag q tag) then [tag] else []).
Proof.
  unfold hits. destruct (q !! m) as [em|] eqn:Em.
  - rewrite filter_app, filter_cons, filter_nil. f_equal.
    destruct (decide (tag ∈ q_interests em)) as [Ht|Ht]; case_decide as Hw; try done.
    + destruct Hw. apply elem_of_with_tag. by eauto.
    + apply elem_of_with_tag in Hw as (em' & ? & ?). by simplify_eq.
  - rewrite decide_False; [done|]. intros (em & ? & _)%elem_of_with_tag. congruence.
Qed.

(** One interest: every listed member but the session itself is counted. *)
Lemma score_members sid tag members sc ci m :
  NoDup members →
  let st := foldl (score_member sid tag) (sc, ci) members in
  let counted := bool_decide (m ∈ members) && negb (bool_decide (m = sid)) in
  st.1 !! m = (if counted then Some (default 0 (sc !! m) + 1) else sc !! m) ∧
  st.2 !! m = (if counted then Some (<[tag := true]> (default ∅ (ci !! m))) else ci !! m).
Proof.
  intros Hnd. revert sc ci. induction Hnd as [|x members Hx _ IH]; intros sc ci; cbn.
  { by rewrite bool_decide_false by (by intros ?%elem_of_nil). }
  unfold score_member at 2 4. destruct (decide (x = sid)) as [->|Hxs].
  { rewrite bool_decide_true by done. destruct (IH sc ci) as [-> ->].
    destruct (decide (m = sid)) as [->|Hm].
    - rewrite !(bool_decide_true (sid = sid)) by done. cbn. by rewrite !andb_false_r.
    - rewrite (bool_decide_ext (m ∈ sid :: members) (m ∈ members)); [done|].
      rewrite elem_of_cons. naive_solver. }
  rewrite bool_decide_false by done.
  match goal with |- context [foldl _ (?a, ?b) members] => destruct (IH a b) as [-> ->] end.
  destruct (decide (m = x)) as [->|Hm].
  - rewrite (bool_decide_false (x ∈ members)), (bool_decide_true (x ∈ x :: members)) by
      (done || by left). rewrite bool_decide_false by done. cbn. by rewrite !lookup_insert_eq.
  - rewrite !lookup_insert_ne by done.
    rewrite (bool_decide_ext (m ∈ x :: members) (m ∈ members)); [done|].
    rewrite elem_of_cons. naive_solver.
Qed.

Definition score_inv (q : aqueue) (sid : string) (tags : list string) (st : score_state) : Prop :=
  ∀ m, let ts := if decide (m = sid) then [] else hits q m tags in
    st.1 !! m = (if decide (ts = []) then None else Some (Z.of_nat (length ts))) ∧
    dom (default ∅ (st.2 !! m)) = list_to_set (C := gset string) ts.

Lemma score_inv_step q sid tags tag members st :
  score_inv q sid tags st → members ≡ₚ elements (with_tag q tag) →
  score_inv q sid (tags ++ [tag]) (foldl (score_member sid tag) st members).
Proof.
  intros Hinv Hmem m. destruct st as [sc ci]. specialize (Hinv m). cbn in Hinv.
  assert (NoDup members) as Hnd by (rewrite Hmem; apply NoDup_elements).
  destruct (score_members sid tag members sc ci m Hnd) as [-> ->].
  rewrite (bool_decide_ext (m ∈ members) (m ∈ with_tag q tag)) by
    (by rewrite Hmem, elem_of_elements).
  destruct (decide (m = sid)) as [->|Hm].
  { rewrite (bool_decide_true (sid = sid)), andb_false_r by done. exact Hinv. }
  rewrite (bool_decide_false (m = sid)), andb_true_r by done. rewrite hits_snoc.
  destruct Hinv as [Hsc Hci]. destruct (decide (m ∈ with_tag q tag)) as [Hw|Hw].
  - rewrite bool_decide_true by done. rewrite Hsc. split.
    + rewrite (decide_False (P := hits q m tags ++ [tag] = [])) by (by destruct (hits q m tags)).
      rewrite length_app. cbn. destruct (decide (hits q m tags = [])) as [->|]; [done|].
      cbn. f_equal. lia.
    + cbn. rewrite dom_insert_L, Hci, list_to_set_app_L. cbn. set_solver.
  - rewrite bool_decide_false, app_nil_r by done. by rewrite Hsc, Hci.
Qed.

(** Tier 3 lists the shared tags of every candidate. *)
Definition seen_inv (q : aqueue) (sid : string) (tags : list string) (st : seen_state) : Prop :=
  ∀ m, let ts := if decide (m = sid) then [] else hits q m tags in
    st.1 !! m = (if decide (ts = []) then None else Some true) ∧
    st.2 !! m = (if decide (ts = []) then None else Some ts).

Lemma see_members sid tag members sn ci m :
  NoDup members → (∀ x, x ∈ members → sn !! x = None ∧ ci !! x = None ∨
                          sn !! x = Some true ∧ is_Some (ci !! x)) →
  let st := foldl (see_member sid tag) (sn, ci) members in
  let counted := bool_decide (m ∈ members) && negb (bool_decide (m = sid)) in
  st.1 !! m = (if counted then Some true else sn !! m) ∧
  st.2 !! m = (if counted then Some (default [] (ci !! m) ++ [tag]) else ci !! m).
Proof.
  intros Hnd. revert sn ci. induction Hnd as [|x members Hx _ IH]; intros sn ci Hok; cbn.
  { by rewrite bool_decide_false by (by intros ?%elem_of_nil). }
  destruct (decide (x = sid)) as [->|Hxs].
  { unfold see_member at 2 4. rewrite bool_decide_true by done.
    destruct (IH sn ci) as [-> ->]; [intros y Hy; apply Hok; by right|].
    destruct (decide (m = sid)) as [->|Hm].
    - rewrite !(bool_decide_true (sid = sid)) by done. cbn. by rewrite !andb_false_r.
    - rewrite (bool_decide_ext (m ∈ sid :: members) (m ∈ members)); [done|].
      rewrite elem_of_cons. naive_solver. }
  assert (see_member sid tag (sn, ci) x =
          (<[x := true]> sn, <[x := default [] (ci !! x) ++ [tag]]> ci)) as ->.
  { unfold see_member. rewrite bool_decide_false by done.
    destruct (Hok x ltac:(by left)) as [[-> ->]|[Hs [ts Ht]]]; [done|].
    rewrite Hs. cbn. f_equal. symmetry. by apply insert_id. }
  destruct (IH (<[x := true]> sn) (<[x := default [] (ci !! x) ++ [tag]]> ci)) as [-> ->].
  { intros y Hy. rewrite !lookup_insert_ne by (by intros ->). apply Hok. by right. }
  destruct (decide (m = x)) as [->|Hm].
  - rewrite (bool_decide_false (x ∈ members)), (bool_decide_true (x ∈ x :: members)) by
      (done || by left). rewrite bool_decide_false by done. cbn. by rewrite !lookup_insert_eq.
  - rewrite !lookup_insert_ne by done.
    rewrite (bool_decide_ext (m ∈ x :: members) (m ∈ members)); [done|].
    rewrite elem_of_cons. naive_solver.
Qed.

Lemma seen_inv_step q sid tags tag members st :
  seen_inv q sid tags st → members ≡ₚ elements (with_tag q tag) →
  seen_inv q sid (tags ++ [tag]) (foldl (see_member sid tag) st members).
Proof.
  intros Hinv Hmem m. destruct st as [sn ci].
  assert (NoDup members) as Hnd by (rewrite Hmem; apply NoDup_elements).
  destruct (see_members sid tag members sn ci m Hnd) as [-> ->].
  { intros x _. destruct (Hinv x) as [H1 H2]; cbn in H1, H2; rewrite H1, H2. case_decide; [by left|right; by eauto]. }
  specialize (Hinv m). cbn in Hinv.
  rewrite (bool_decide_ext (m ∈ members) (m ∈ with_tag q tag)) by
    (by rewrite Hmem, elem_of_elements).
  destruct (decide (m = sid)) as [->|Hm].
  { rewrite (bool_decide_true (sid = sid)), andb_false_r by done. exact Hinv. }
  rewrite (bool_decide_false (m = sid)), andb_true_r by done. rewrite hits_snoc.
  destruct Hinv as [Hsn Hci]. destruct (decide (m ∈ with_tag q tag)) as [Hw|Hw].
  - rewrite bool_decide_true by done. rewrite Hci. cbv zeta.
    rewrite !(decide_False (P := hits q m tags ++ [tag] = [])) by (by destruct (hits q m tags)).
    split; [done|]. by destruct (decide (hits q m tags = [])) as [->|].
  - rewrite bool_decide_false, app_nil_r by done. by rewrite Hsn, Hci.
Qed.

Lemma hits_nil q m : hits q m [] = [].
Proof. unfold hits. by destruct (q !! m). Qed.

Lemma score_inv_nil q sid : score_inv q sid [] (∅, ∅).
Proof. intros m. cbn. rewrite hits_nil. by destruct (decide (m = sid)). Qed.

Lemma seen_inv_nil q sid : seen_inv q sid [] (∅, ∅).
Proof. intros m. cbn. rewrite hits_nil. by destruct (decide (m = sid)). Qed.

Section interest_tiers.
Context `{EnvLaws W}.
Implicit Types (w : W).

(** The loop over the interests, for both tiers. *)
Lemma wp_collect {S} (q : aqueue) w0 (I : list string → S → Prop)
    (step : string → S → string → S) tags st (Q : S → W → Prop) w :
  reading q w0 w → I [] st →
  (∀ pre tag members st', I pre st' → members ≡ₚ elements (with_tag q tag) →
     I (pre ++ [tag]) (foldl (step tag) st' members)) →
  (∀ st' w', reading q w0 w' → I tags st' → Q st' w') →
  wp (range_fold tags (λ st tag,
        let! r := GetInterestCandidates tag in
        match r with
        | Err _ => ret st
        | Ok members => ret (foldl (step tag) st members)
        end) st) Q w.
Proof.
  intros Hr HI Hstep HQ.
  apply (wp_range_fold (λ pre st' w', reading q w0 w' ∧ I pre st')).
  - by split.
  - intros pre tag post st' w' [Hr' HI'] _. wp_pure. pose proof Hr' as (_ & Hu & Hq).
    eapply wp_GetInterestCandidates; [done..|]. intros members w'' Hm Hs. wp_pure.
    split; [by eapply reading_same|by apply Hstep].
  - intros st' w' [Hr' HI']. by apply HQ.
Qed.

Lemma hits_common q m e em : q !! m = Some em → hits q m (q_interests e) = common e em.
Proof. unfold hits, common. by intros ->. Qed.

Lemma hits_other q sid m e ts :
  (if decide (m = sid) then [] else hits q m (q_interests e)) = ts → ts ≠ [] →
  ∃ em, other q sid m em ∧ ts = common e em.
Proof.
  unfold other. case_decide as Hm; [by intros <-|]. unfold hits.
  destruct (q !! m) as [em|] eqn:Em; [|by intros <-]. intros <- _. by eauto.
Qed.

Lemma wp_TrySingleInterestMatch sid q e w0 (Q : res (option MatchCandidate) → W → Prop) w :
  reading q w0 w → q !! sid = Some e →
  (∀ r w', reading q w0 w' → single_spec q sid e r → Q (Ok r) w') →
  wp (TrySingleInterestMatch sid) Q w.
Proof.
  intros Hr He HQ. unfold TrySingleInterestMatch. wp_pure. eapply wp_entry; [done|].
  intros w1 Hr1. rewrite He. cbn [fmap option_fmap option_map]. wp_pure.
  eapply (wp_collect q w0 (seen_inv q sid) (see_member sid)); [done|apply seen_inv_nil| |].
  { intros pre tag members st' HI Hm. by apply seen_inv_step. }
  intros [sn ci] w2 Hr2 Hinv. wp_pure. apply wp_map_range. intros l w3 Hl Hs3. wp_pure.
  eapply (reading_same _ _ _ _ Hr2) in Hs3 as Hr3. cbn [Interests entry_of] in Hinv.
  assert (∀ m ts, (m, ts) ∈ l → ∃ em, other q sid m em ∧ ts = common e em ∧ ts ≠ []) as Hin.
  { intros m ts Hm. rewrite Hl, elem_of_map_to_list in Hm. destruct (Hinv m) as [_ Hci].
    cbn in Hci. rewrite Hm in Hci. case_decide as Hd; [done|]. injection Hci as ->.
    destruct (hits_other q sid m e _ eq_refl Hd) as (em & Ho & Heq). by eauto. }
  eapply (wp_first_queued q w0 fst (λ _, true)
    (λ x c, c = Candidate sid x.1 (sort_Strings x.2))); [done| | |].
  - intros [x ts] w' _ Hr'. wp_pure. eapply wp_still_queued; [done|]. intros w'' Hr''.
    cbn [andb fst]. case_bool_decide; wp_pure; by eauto.
  - intros pre [x ts] post c w' Hxs Hr' _ _ _ ->. wp_pure. apply HQ; [done|].
    destruct (Hin x ts) as (em & Ho & -> & Hne); [rewrite Hxs; set_solver|].
    split; [done|]. cbn. by eauto.
  - intros w' Hr' Hall. wp_pure. apply HQ; [done|]. intros m em [Hne Hm].
    destruct (decide (common e em = [])) as [|Hc]; [done|]. exfalso.
    destruct (Hinv m) as [_ Hci]. cbn in Hci.
    rewrite !(decide_False (P := m = sid)), (hits_common _ _ _ _ Hm), decide_False in Hci by done.
    rewrite Forall_forall in Hall. specialize (Hall (m, common e em)). cbn in Hall.
    rewrite bool_decide_true in Hall by by eauto. discriminate Hall.
    by rewrite Hl, elem_of_map_to_list.
Qed.

Lemma map_range_keys (m : gmap string bool) l (ts : list string) :
  l ≡ₚ map_to_list m → dom m = list_to_set (C := gset string) ts →
  sort_Strings l.*1 = sort_Strings (remove_dups ts).
Proof.
  intros Hl Hd. apply sort_Strings_unique. apply NoDup_Permutation.
  - rewrite Hl. apply NoDup_fst_map_to_list.
  - apply NoDup_remove_dups.
  - intros t. rewrite Hl, elem_of_remove_dups, <-(elem_of_list_to_set (C := gset string) t ts), <-Hd.
    rewrite elem_of_dom, list_elem_of_fmap. split.
    + intros ([t' b] & -> & Hb). apply elem_of_map_to_list in Hb. by eauto.
    + intros [b Hb]. exists (t, b). split; [done|]. by apply elem_of_map_to_list.
Qed.

Lemma wp_TryOverlapMatch sid q e w0 (Q : res (option MatchCandidate) → W → Prop) w :
  reading q w0 w → q !! sid = Some e →
  (∀ r w', reading q w0 w' → overlap_spec q sid e r → Q (Ok r) w') →
  wp (TryOverlapMatch sid) Q w.
Proof.
  intros Hr He HQ. unfold TryOverlapMatch. wp_pure. eapply wp_entry; [done|].
  intros w1 Hr1. rewrite He. cbn [fmap option_fmap option_map]. wp_pure.
  eapply (wp_collect q w0 (score_inv q sid) (score_member sid)); [done|apply score_inv_nil| |].
  { intros pre tag members st' HI Hm. by apply score_inv_step. }
  intros [sc ci] w2 Hr2 Hinv. wp_pure. cbn [Interests entry_of] in Hinv.
  assert (∀ m em, other q sid m em → common e em ≠ [] →
            sc !! m = Some (Z.of_nat (length (common e em)))) as Hsc.
  { intros m em [Hne Hm] Hc. destruct (Hinv m) as [Hs _]. cbn in Hs.
    by rewrite !(decide_False (P := m = sid)), (hits_common _ _ _ _ Hm), decide_False in Hs. }
  destruct (decide (size sc = 0%nat)) as [Hsz|Hsz].
  { rewrite bool_decide_true by done. wp_pure. apply HQ; [done|]. intros m em Ho.
    destruct (decide (common e em = [])) as [|Hc]; [done|].
    apply map_size_empty_inv in Hsz. specialize (Hsc _ _ Ho Hc). by rewrite Hsz in Hsc. }
  rewrite bool_decide_false by done. wp_pure. apply wp_map_range. intros l w3 Hl Hs3. wp_pure.
  eapply (reading_same _ _ _ _ Hr2) in Hs3 as Hr3. apply wp_sort_slice.
  { split.
    - intros x Hx%bool_decide_eq_true. lia.
    - intros x y z ?%bool_decide_eq_true ?%bool_decide_eq_true. apply bool_decide_eq_true. lia. }
  { intros x y z ?%bool_decide_eq_false ?%bool_decide_eq_false. apply bool_decide_eq_false. lia. }
  intros l' w4 Hl' Hsorted Hs4. wp_pure. eapply (reading_same _ _ _ _ Hr3) in Hs4 as Hr4.
  assert (∀ m n, (m, n) ∈ l' ↔ sc !! m = Some n) as Hin.
  { intros m n. by rewrite Hl', Hl, elem_of_map_to_list. }
  assert (∀ m n, sc !! m = Some n → ∃ em, other q sid m em ∧ common e em ≠ [] ∧
            n = Z.of_nat (length (common e em)) ∧
            dom (default ∅ (ci !! m)) = list_to_set (C := gset string) (common e em)) as Hm.
  { intros m n Hmn. destruct (Hinv m) as [Hs Hd]. cbn in Hs, Hd. rewrite Hmn in Hs.
    match type of Hs with context [decide (?l = [])] => destruct (decide (l = [])) as [|Hc] end;
      [done|]. injection Hs as ->.
    destruct (hits_other q sid m e _ eq_refl Hc) as (em & Ho & Heq).
    rewrite Heq in *. by eauto. }
  eapply (wp_first_queued q w0 fst (λ _, true) (λ x c, ∃ em, other q sid x.1 em ∧
    c = Candidate sid x.1 (sort_Strings (remove_dups (common e em))))); [done| | |].
  - intros [x n] w' Hx Hr'. wp_pure. eapply wp_still_queued; [done|]. intros w5 Hr5.
    cbn [andb fst]. case_bool_decide; wp_pure; [|by eauto].
    apply wp_map_range. intros ts w6 Hts Hs6. wp_pure. split; [by eapply reading_same|].
    apply Hin, Hm in Hx as (em & Ho & _ & _ & Hd). rewrite (map_range_keys _ _ _ Hts Hd).
    by eauto.
  - intros pre [x n] post c w' Hxs Hr' Hpre _ _ (eb & Hob & ->). wp_pure. apply HQ; [done|].
    destruct (Hm x n) as (eb' & Hob' & Hc & -> & _); [apply Hin; rewrite Hxs; set_solver|].
    assert (eb' = eb) as -> by (destruct Hob, Hob'; cbn in *; congruence).
    split; [done|]. exists eb. cbn. split_and!; [done..|]. intros m em Ho.
    destruct (decide (common e em = [])) as [->|Hcm]; [cbn; lia|].
    pose proof (Hsc _ _ Ho Hcm) as Hmn. apply Hin in Hmn. rewrite Hxs in Hmn.
    apply elem_of_app in Hmn as [Hmn|Hmn].
    { rewrite Forall_forall in Hpre. specialize (Hpre _ Hmn). cbn in Hpre.
      destruct Ho as [_ Ho]. by rewrite bool_decide_true in Hpre by eauto. }
    apply elem_of_cons in Hmn as [[= -> Heq]|Hmn]; [lia|].
    rewrite Hxs in Hsorted. apply StronglySorted_app_1_r, StronglySorted_inv in Hsorted as [_ Hso].
    rewrite Forall_forall in Hso. specialize (Hso _ Hmn). apply bool_decide_eq_false in Hso.
    cbn in Hso. lia.
  - intros w' Hr' Hall. exfalso.
    assert (sc ≠ ∅) as (m & n & Hmn)%map_choose by (intros ->; by apply Hsz).
    pose proof Hmn as (em & [_ Ho] & _)%Hm. rewrite Forall_forall in Hall.
    specialize (Hall (m, n) ltac:(by apply Hin)). cbn in Hall.
    by rewrite bool_decide_true in Hall by eauto.
Qed.
End interest_tiers.

(** ** The tiers are sound and complete *)

Section theorems.
Context `{EnvLaws W}.
Implicit Types (w : W).

(** Tier 1 finds exactly the identical interests: a result pairs the
    session with another queued session of the same interest hash and shares
    the session's interests, and no result means that no other queued session
    has that hash; the queue is only read. *)
Theorem exact_match_correct (w : W) q sid e :
  up w → queue_is (rclock w) (keyspace w) q → q !! sid = Some e →
  wp (TryExactMatch sid)
     (λ r w', keyspace w' = keyspace w ∧ ∃ c, r = Ok c ∧ exact_spec q sid e c) w.
Proof.
  intros Hup Hq He. eapply wp_TryExactMatch; [by apply reading_refl|done|].
  intros r w' ((Hk & _) & _) Hs. by eauto.
Qed.


(** Tier 4 is fair: a result pairs the session with the queued session that
    joined first among the others, with no shared interests, and no result
    means that no other session is queued. *)
Theorem random_match_oldest (w : W) q sid :
  up w → queue_is (rclock w) (keyspace w) q →
  wp (TryRandomMatch sid)
     (λ r w', keyspace w' = keyspace w ∧ ∃ c, r = Ok c ∧ random_spec q sid c) w.
Proof.
  intros Hup Hq. eapply wp_TryRandomMatch; [by apply reading_refl|].
  intros r w' ((Hk & _) & _) Hs. by eauto.
Qed.

(** C32: tier 3 is sound and complete too, and it adds nothing to tier 2: run
    after a tier 2 that found nobody, it finds nobody. *)
Theorem single_adds_nothing (w : W) q sid e :
  up w → queue_is (rclock w) (keyspace w) q → q !! sid = Some e →
  wp (let! r2 := TryOverlapMatch sid in
      let! r3 := TrySingleInterestMatch sid in
      ret (r2, r3))
     (λ out _, ∃ c2 c3, out = (Ok c2, Ok c3) ∧ single_spec q sid e c3 ∧
                        (c2 = None ↔ c3 = None)) w.
Proof.
  intros Hup Hq He. wp_pure. eapply wp_TryOverlapMatch; [by apply reading_refl|done|].
  intros r2 w1 Hr1 Hs2. wp_pure. eapply wp_TrySingleInterestMatch; [done..|].
  intros r3 w2 Hr2 Hs3. wp_pure. exists r2, r3. split; [done|]. split; [done|].
  destruct r2 as [c2|], r3 as [c3|]; try done; cbn in *.
  - destruct Hs2 as (_ & eb & Ho & Hc & _). exfalso. by apply Hc, (Hs3 _ _ Ho).
  - destruct Hs3 as (_ & eb & Ho & Hc & _). exfalso. by apply Hc, (Hs2 _ _ Ho).
Qed.
End theorems.

(** A queue of four sessions to run the tiers on. *)
Definition tier_ops : list queue_op :=
  [QEnqueue "dave" ["tea"]; QWait 1000; QEnqueue "alice" ["go"; "chess"]; QWait 1000;
   QEnqueue "bob" ["chess"; "go"]; QEnqueue "carol" ["chess"; "music"]].
Definition tier_world : mem := (queue_run tier_ops queue_world).2.
Definition tier_queue : aqueue :=
  {["carol" := QEnt ["chess"; "music"] 1700000002000 1700000062000;
    "bob" := QEnt ["chess"; "go"] 1700000002000 1700000062000;
    "alice" := QEnt ["go"; "chess"] 1700000001000 1700000061000;
    "dave" := QEnt ["tea"] 1700000000000 1700000060000]}.

Lemma tier_queue_is : queue_is (rclock tier_world) (keyspace tier_world) tier_queue.
Proof.
  apply (wp_queue_run tier_ops ∅ (λ _ w', queue_is (rclock w') (keyspace w') tier_queue) queue_world
    (1700000002000, 1700000002000, tier_queue)).
  - reflexivity.
  - apply queue_is_empty.
  - assert (∀ e : qent, @None qent = Some e → False) as Hno by (intros e He; discriminate He).
    unfold tier_ops. repeat (eapply steps_cons; [constructor|]).
    all: try (split; [discriminate | by repeat constructor]).
    all: try reflexivity.
    all: try (intros e He; vm_compute in He; destruct (Hno _ He)).
    all: try (vm_compute; discriminate).
    1, 2: apply (bool_decide_unpack _); vm_compute; exact I.
    vm_compute. constructor.
  - done.
Qed.

Lemma exact_match_correct_witness :
  wp (TryExactMatch "alice")
     (λ r w', keyspace w' = keyspace tier_world ∧
        ∃ c, r = Ok c ∧ exact_spec tier_queue "alice" (QEnt ["go"; "chess"] 1700000001000 1700000061000) c)
     tier_world.
Proof.
  apply (exact_match_correct tier_world tier_queue "alice");
    [vm_compute; reflexivity | apply tier_queue_is | reflexivity].
Defined.


Lemma random_match_oldest_witness :
  wp (TryRandomMatch "carol")
     (λ r w', keyspace w' = keyspace tier_world ∧ ∃ c, r = Ok c ∧ random_spec tier_queue "carol" c)
     tier_world.
Proof.
  apply (random_match_oldest tier_world tier_queue "carol"); [vm_compute; reflexivity | apply tier_queue_is].
Defined.

Lemma single_adds_nothing_witness :
  wp (let! r2 := TryOverlapMatch "dave" in
      let! r3 := TrySingleInterestMatch "dave" in
      ret (r2, r3))
     (λ out _, ∃ c2 c3, out = (Ok c2, Ok c3) ∧
        single_spec tier_queue "dave" (QEnt ["tea"] 1700000000000 1700000060000) c3 ∧
        (c2 = None ↔ c3 = None)) tier_world.
Proof.
  apply (single_adds_nothing tier_world tier_queue "dave");
    [vm_compute; reflexivity | apply tier_queue_is | reflexivity].
Defined.

(** The tiers on the sample queue. *)
Example tiers_run :
  ((TryExactMatch "alice" tier_world).1, (TryOverlapMatch "alice" tier_world).1,
   (TryOverlapMatch "dave" tier_world).1, (TryRandomMatch "alice" tier_world).1) =
  (Ok (Some (Candidate "alice" "bob" ["go"; "chess"])),
   Ok (Some (Candidate "alice" "bob" ["chess"; "go"])),
   Ok None, Ok (Some (Candidate "alice" "dave" []))).
Proof. vm_compute. reflexivity. Qed.
