(* ===== verification/Matcher.v ===== *)
(** * internal/matching: the matching service

    service.go (the match loop and the NATS handlers), publisher.go and
    cleanup.go.  One pass over the queue ([processQueue]) is shown to refine a
    cycle of the abstract queue in which each session in turn is skipped, timed
    out or paired according to the time it has waited. *)

From stdpp Require Import base gmap strings sorting numbers list_basics list_relations list.
From S2P Require Import Prelude GoStd Json Env Keys MemEnv ChatStore Messaging Queue Tiers.
Open Scope Z_scope.

Definition matchInterval : Z := 2 * Second.
Definition tier1MaxWait : Z := 10 * Second.
Definition tier2MaxWait : Z := 20 * Second.
Definition tier3MaxWait : Z := 25 * Second.
Definition matchTimeout : Z := 30 * Second.

(** ** Payloads *)

Record MatchRequest : Type := { req_SessionID : string; req_Interests : list string }.
Definition unmarshal_MatchRequest (data : json) : option MatchRequest :=
  unmarshal (λ ms,
    sid ← get_str "session_id" ms;
    interests ← get_strs "interests" ms;
    Some {| req_SessionID := sid; req_Interests := interests |}) data.

Record CancelRequest : Type := { cancel_SessionID : string }.
Definition unmarshal_CancelRequest (data : json) : option CancelRequest :=
  unmarshal (λ ms, sid ← get_str "session_id" ms; Some {| cancel_SessionID := sid |}) data.

Record MatchResult : Type := {
  Timeout : bool;
  mr_ChatID : string;
  PartnerID : string;
  mr_SharedInterests : list string;
  mr_AcceptDeadline : Z;
}.

Definition marshal_MatchResult (m : MatchResult) : json :=
  JObj (omit_bool "timeout" (Timeout m) ++ omit_str "chat_id" (mr_ChatID m) ++
        omit_str "partner_id" (PartnerID m) ++ omit_strs "shared_interests" (mr_SharedInterests m) ++
        omit_int "accept_deadline" (mr_AcceptDeadline m)).

Record MatchNotification : Type := { mn_Type : string; mn_ChatID : string }.
Definition marshal_MatchNotification (m : MatchNotification) : json :=
  JObj (fld "type" (JStr (mn_Type m)) ++ fld "chat_id" (JStr (mn_ChatID m))).

Section service.
Context `{Env W}.

(** *** publisher.go *)

Definition match_result_for (chatID partner : string) (shared : list string) : json :=
  marshal_MatchResult
    {| Timeout := false; mr_ChatID := chatID; PartnerID := partner;
       mr_SharedInterests := shared; mr_AcceptDeadline := 15 |}.

Definition PublishMatchFound (chatID : string) (candidate : MatchCandidate) : M W (option error) :=
  let dataA := match_result_for chatID (SessionB candidate) (SharedInterests candidate) in
  let! e := Publish (subject SubjectMatchFound (SessionA candidate)) dataA in
  match e with
  | Some err => ret (Some ("matching: publish match.found for " +:+ SessionA candidate +:+ ": " +:+ err))
  | None =>
      let dataB := match_result_for chatID (SessionA candidate) (SharedInterests candidate) in
      let! e := Publish (subject SubjectMatchFound (SessionB candidate)) dataB in
      match e with
      | Some err => ret (Some ("matching: publish match.found for " +:+ SessionB candidate +:+ ": " +:+ err))
      | None => ret None
      end
  end.

(** *** service.go *)

Definition handleMatchRequest (data : json) : M W unit :=
  match unmarshal_MatchRequest data with
  | None => ret tt
  | Some req =>
      let! e := Enqueue (req_SessionID req) (req_Interests req) in
      match e with
      | Some _ => ret tt
      | None => do! QueueSize in ret tt
      end
  end.

Definition handleCancelRequest (data : json) : M W unit :=
  match unmarshal_CancelRequest data with
  | None => ret tt
  | Some req => do! Dequeue (cancel_SessionID req) in ret tt
  end.

(** Errors are logged and the function goes on. *)
Definition handleMatch (m : MatchCandidate) : M W unit :=
  let! chatID := uuid_new in
  do! Dequeue (SessionA m) in
  do! Dequeue (SessionB m) in
  do! CreatePending chatID (SessionA m) (SessionB m) in
  do! PublishMatchFound chatID m in
  ret tt.

Definition timeout_message : json :=
  marshal_MatchResult
    {| Timeout := true; mr_ChatID := ""; PartnerID := ""; mr_SharedInterests := [];
       mr_AcceptDeadline := 0 |}.

Definition handleTimeout (sessionID : string) : M W unit :=
  do! Dequeue sessionID in
  do! Publish (subject SubjectMatchFound sessionID) timeout_message in
  ret tt.

(** The match a tier returned; an error is logged and counts as no match. *)
Definition match_of (r : res (option MatchCandidate)) : option MatchCandidate :=
  match r with Ok m => m | Err _ => None end.

(** The tiers of [processQueue], each attempted only while there is no match
    and the session has waited long enough. *)
Definition try_tiers (sid : string) (waitDuration : Z) : M W (option MatchCandidate) :=
  let! r := TryExactMatch sid in
  let m := match_of r in
  let! m := (if bool_decide (m = None ∧ waitDuration >= tier1MaxWait)
             then let! r := TryOverlapMatch sid in ret (match_of r) else ret m) in
  let! m := (if bool_decide (m = None ∧ waitDuration >= tier2MaxWait)
             then let! r := TrySingleInterestMatch sid in ret (match_of r) else ret m) in
  (if bool_decide (m = None ∧ waitDuration >= tier3MaxWait)
   then let! r := TryRandomMatch sid in ret (match_of r) else ret m).

(** One iteration of the loop of [processQueue]. *)
Definition process_session (sid : string) : M W unit :=
  let! queued := still_queued sid in
  if negb queued then ret tt
  else
    let! r := GetEntry sid in
    match r with
    | Err _ | Ok None => ret tt
    | Ok (Some entry) =>
        let! t := now_ms in
        let waitMs := float64 (float64 t - JoinedAt entry) in
        let waitDuration := wrap64 (waitMs * Millisecond) in
        if bool_decide (waitDuration >= matchTimeout) then handleTimeout sid
        else
          let! m := try_tiers sid waitDuration in
          match m with
          | Some m => handleMatch m
          | None => ret tt
          end
    end.

Definition processQueue : M W unit :=
  let! r := GetAllQueued in
  match r with
  | Err _ => ret tt
  | Ok sessionIDs => range_do sessionIDs process_session
  end.

(** *** cleanup.go *)

(** The number of entries it counts as removed, which is only logged. *)
Definition cleanStaleEntries : M W Z :=
  let! r := GetAllQueued in
  match r with
  | Err _ => ret 0
  | Ok sessionIDs =>
      range_fold sessionIDs (λ removed sid,
        let! r := rd (EXISTS ("session:" +:+ sid)) in
        match r with
        | Err _ => ret removed
        | Ok exists_ =>
            if bool_decide (exists_ = 0) then
              let! e := Dequeue sid in
              match e with
              | Some _ => ret removed
              | None => ret (removed + 1)
              end
            else ret removed
        end) 0
  end.

(** [v, _ := rdb.HGet(key, field).Result()]: an error or a missing field reads
    as the empty string. *)
Definition hget_or_empty (key field : string) : M W string :=
  let! r := rd (HGET key field) in
  ret match r with Ok (Some v) => v | _ => "" end.

Definition timed_out (chatID : string) : json :=
  marshal_MatchNotification {| mn_Type := "timed_out"; mn_ChatID := chatID |}.

Definition clean_pending_chat (chatID : string) : M W unit :=
  let! status := hget_or_empty ("chat:" +:+ chatID) "status" in
  do! (if bool_decide (status = "pending_accept") then
         let! userA := hget_or_empty ("chat:" +:+ chatID) "user_a" in
         let! userB := hget_or_empty ("chat:" +:+ chatID) "user_b" in
         let notif := timed_out chatID in
         do! (if bool_decide (userA ≠ "") then PublishMatchNotify userA notif else ret None) in
         do! (if bool_decide (userB ≠ "") then PublishMatchNotify userB notif else ret None) in
         do! rd (Do (DEL ("chat:" +:+ chatID))) in
         ret tt
       else ret tt) in
  do! rd (Do (ZREM "match:pending_chats" chatID)) in
  ret tt.

Definition cleanExpiredPendingChats : M W unit :=
  let! t := now_ms in
  let now := float64 (Unix t) in
  let! r := rd (ZRANGEBYSCORE "match:pending_chats" 0 now) in
  match r with
  | Err _ => ret tt
  | Ok chatIDs => range_do chatIDs clean_pending_chat
  end.
End service.

(** ** The abstract cycle *)

Inductive outcome : Type :=
  | OMatch (chatID a b : string) (shared : list string)
  | OTimeout (sid : string).

(** The sessions an outcome removes from the queue. *)
Definition served (o : outcome) : list string :=
  match o with OMatch _ a b _ => [a; b] | OTimeout sid => [sid] end.

(** The messages an outcome publishes. *)
Definition messages (o : outcome) : list (string * json) :=
  match o with
  | OMatch id a b shared =>
      [(subject SubjectMatchFound a, match_result_for id b shared);
       (subject SubjectMatchFound b, match_result_for id a shared)]
  | OTimeout sid => [(subject SubjectMatchFound sid, timeout_message)]
  end.

(** The match of a session that has waited [wait] milliseconds: identical
    interests at any time, the best overlap after ten seconds, anybody after
    twenty-five. *)
Definition tier_choice (wait : Z) (q : aqueue) (sid : string) (e : qent)
    (r : option MatchCandidate) : Prop :=
  ∃ r1, exact_spec q sid e r1 ∧
    match r1 with
    | Some _ => r = r1
    | None =>
        if bool_decide (wait < 10000) then r = None
        else ∃ r2, overlap_spec q sid e r2 ∧
          match r2 with
          | Some _ => r = r2
          | None => if bool_decide (wait < 25000) then r = None else random_spec q sid r
          end
    end.

(** One session's turn at time [now]. *)
Inductive turn (now : Z) (q : aqueue) (sid : string) : list outcome → aqueue → Prop :=
  | turn_absent : q !! sid = None → turn now q sid [] q
  | turn_timeout e : q !! sid = Some e → 30000 ≤ now - q_joined e →
      turn now q sid [OTimeout sid] (delete sid q)
  | turn_waits e : q !! sid = Some e → now - q_joined e < 30000 →
      tier_choice (now - q_joined e) q sid e None → turn now q sid [] q
  | turn_match e id b shared : q !! sid = Some e → now - q_joined e < 30000 →
      tier_choice (now - q_joined e) q sid e (Some (Candidate sid b shared)) →
      turn now q sid [OMatch id sid b shared] (delete b (delete sid q)).

Inductive cycle (now : Z) : aqueue → list string → list outcome → aqueue → Prop :=
  | cycle_nil q : cycle now q [] [] q
  | cycle_cons q sid sids os os' q1 q2 :
      turn now q sid os q1 → cycle now q1 sids os' q2 →
      cycle now q (sid :: sids) (os ++ os') q2.

(** A chat that waits for its two users. *)
Definition pending_chat (ks : keyspace_t) (id a b : string) : Prop :=
  let h := hget ks (ChatPrefix +:+ id) in
  h !! "status" = Some StatusPendingAccept ∧ h !! "user_a" = Some a ∧ h !! "user_b" = Some b.

Definition chat_ids (os : list outcome) : list string :=
  concat ((λ o, match o with OMatch id _ _ _ => [id] | OTimeout _ => [] end) <$> os).

Definition chats_pending (ks : keyspace_t) (os : list outcome) : Prop :=
  NoDup (chat_ids os) → ∀ id a b sh, OMatch id a b sh ∈ os → pending_chat ks id a b.

(** *** Facts about cycles *)

Lemma cycle_snoc now q sids os q1 sid os' q2 :
  cycle now q sids os q1 → turn now q1 sid os' q2 →
  cycle now q (sids ++ [sid]) (os ++ os') q2.
Proof.
  intros Hc Ht. induction Hc as [q|q s sids o1 o2 q' q'' Ht' _ IH]; cbn.
  - rewrite <-(app_nil_r os'). econstructor; [done|]. constructor.
  - rewrite <-app_assoc. econstructor; [done|]. by apply IH.
Qed.

Lemma chat_ids_app os os' : chat_ids (os ++ os') = chat_ids os ++ chat_ids os'.
Proof. unfold chat_ids. by rewrite fmap_app, concat_app. Qed.

Lemma elem_of_chat_ids os id a b sh : OMatch id a b sh ∈ os → id ∈ chat_ids os.
Proof.
  intros (l1 & l2 & ->)%list_elem_of_split. rewrite chat_ids_app. cbn. set_solver.
Qed.

Lemma tier_choice_other wait q sid e c :
  tier_choice wait q sid e (Some c) →
  SessionA c = sid ∧ ∃ eb, other q sid (SessionB c) eb.
Proof.
  intros (r1 & H1 & H). destruct r1 as [c1|].
  { injection H as <-. destruct H1 as (? & ? & eb & ? & ?). by eauto. }
  case_bool_decide; [done|]. destruct H as (r2 & H2 & H). destruct r2 as [c2|].
  { injection H as <-. destruct H2 as (? & eb & ? & ?). by eauto. }
  case_bool_decide; [done|]. destruct H as (? & ? & eb & ? & ?). by eauto.
Qed.

(** A turn removes exactly the sessions it serves, which were queued. *)
Lemma turn_served now q sid os q' :
  turn now q sid os q' →
  NoDup (concat (served <$> os)) ∧
  (∀ s, s ∈ concat (served <$> os) → is_Some (q !! s) ∧ q' !! s = None) ∧
  (∀ s, s ∉ concat (served <$> os) → q' !! s = q !! s).
Proof.
  intros Ht. inversion Ht as [|e He Hw|e He Hw Hc|e id b shared He Hw Hc]; subst; cbn.
  - split_and!; [apply NoDup_nil_2|set_solver|done].
  - split_and!.
    + apply NoDup_singleton.
    + intros s Hs%list_elem_of_singleton. subst s. rewrite lookup_delete_eq. by eauto.
    + intros s Hs. rewrite lookup_delete_ne; [done|]. set_solver.
  - split_and!; [apply NoDup_nil_2|set_solver|done].
  - apply tier_choice_other in Hc as (_ & eb & Hne & Hb). cbn in *. split_and!.
    + apply NoDup_cons. split; [set_solver|apply NoDup_singleton].
    + intros s Hs. apply elem_of_cons in Hs as [->|Hs]; [|apply list_elem_of_singleton in Hs as ->].
      * rewrite lookup_delete_ne, lookup_delete_eq by done. by eauto.
      * rewrite lookup_delete_eq. by eauto.
    + intros s Hs. rewrite !lookup_delete_ne; set_solver.
Qed.

Lemma cycle_served now q sids os q' :
  cycle now q sids os q' →
  NoDup (concat (served <$> os)) ∧
  (∀ s, s ∈ concat (served <$> os) → is_Some (q !! s) ∧ q' !! s = None) ∧
  (∀ s, s ∉ concat (served <$> os) → q' !! s = q !! s).
Proof.
  intros Hc. induction Hc as [q|q sid sids os os' q1 q2 Ht Hc (IHn & IHin & IHout)].
  { split_and!; [apply NoDup_nil_2|set_solver|done]. }
  apply turn_served in Ht as (Hn & Hin & Hout).
  rewrite fmap_app, concat_app. split_and!.
  - apply NoDup_app. split_and!; [done| |done]. intros s Hs Hs'.
    destruct (Hin s Hs) as [_ Hq1]. destruct (IHin s Hs') as [[e He] _]. congruence.
  - intros s [Hs|Hs]%elem_of_app.
    + destruct (Hin s Hs) as [Hq Hq1]. split; [done|].
      destruct (decide (s ∈ concat (served <$> os'))) as [Hs'|Hs'].
      * by apply IHin.
      * by rewrite IHout.
    + destruct (IHin s Hs) as [[e He] Hq2]. split; [|done].
      destruct (decide (s ∈ concat (served <$> os))) as [Hs'|Hs'].
      * destruct (Hin s Hs') as [_ ?]. congruence.
      * rewrite <-Hout by done. by eauto.
  - intros s [Hs Hs']%not_elem_of_app. by rewrite IHout, Hout.
Qed.

(** Nobody is added by a cycle. *)
Lemma cycle_sub now q sids os q' s e :
  cycle now q sids os q' → q' !! s = Some e → q !! s = Some e.
Proof.
  intros Hc Hs. apply cycle_served in Hc as (_ & Hin & Hout).
  destruct (decide (s ∈ concat (served <$> os))) as [Hs'|Hs'].
  - destruct (Hin s Hs') as [_ ?]. congruence.
  - by rewrite <-Hout.
Qed.

(** A session whose turn has come and that is still queued was not due for a
    timeout, and was alone if it was due for any match. *)
Lemma cycle_kept now q sids os q' s e :
  cycle now q sids os q' → s ∈ sids → q' !! s = Some e →
  now - q_joined e < 30000 ∧
  (25000 ≤ now - q_joined e → ∀ m em, q' !! m = Some em → m = s).
Proof.
  intros Hc Hin. induction Hc as [q|q sid sids os os' q1 q2 Ht Hc IH]; [by apply elem_of_nil in Hin|].
  intros Hs. apply elem_of_cons in Hin as [<-|Hin]; [|by apply IH].
  pose proof (cycle_sub _ _ _ _ _ _ _ Hc Hs) as Hs1.
  inversion Ht as [Hn|e' He Hw|e' He Hw Hch|e' id b shared He Hw Hch]; subst.
  - congruence.
  - by rewrite lookup_delete_eq in Hs1.
  - simplify_eq. split; [lia|]. intros Hlong m em Hm.
    destruct (decide (m = s)) as [|Hne]; [done|]. exfalso.
    destruct Hch as (r1 & H1 & Hch). destruct r1 as [|]; [done|].
    rewrite bool_decide_false in Hch by lia. destruct Hch as (r2 & H2 & Hch).
    destruct r2 as [|]; [done|]. rewrite bool_decide_false in Hch by lia.
    apply (Hch m em). split; [done|]. by eapply cycle_sub.
  - rewrite lookup_delete_Some in Hs1. destruct Hs1 as [_ Hs1]. by rewrite lookup_delete_eq in Hs1.
Qed.

(** ** The service implements the cycle *)

Lemma not_queue_chat id : ¬ queue_key (ChatPrefix +:+ id).
Proof. by intros [|[[]|[[]|[]]]]. Qed.
Lemma not_queue_pending : ¬ queue_key PendingKey.
Proof. by intros [|[[]|[[]|[]]]]. Qed.

(** The environment as the cycle sees it. *)
Definition at_queue `{Env W} (clk now : Z) (q : aqueue) (w : W) : Prop :=
  up w ∧ rclock w = clk ∧ wall w = now ∧ queue_is clk (keyspace w) q.

Section proofs.
Context `{EnvLaws W}.
Implicit Types (w : W).

Lemma at_queue_reading clk now q w : at_queue clk now q w → reading q w w.
Proof. intros (? & <- & _ & ?). by apply reading_refl. Qed.

Lemma reading_at_queue clk now q w w' :
  at_queue clk now q w → reading q w w' →
  at_queue clk now q w' ∧ published w' = published w ∧ keyspace w' = keyspace w.
Proof.
  intros (Hu & Hc & Hn & Hq) ((Hk & (Hc' & Hn' & Hp') & _) & Hu' & Hq').
  split; [|done]. repeat (split; [congruence || done|]). by rewrite <-Hc, <-Hc'.
Qed.

Lemma wp_dequeue clk now q sid w (Q : option error → W → Prop) :
  at_queue clk now q w →
  (∀ w', at_queue clk now (delete sid q) w' → published w' = published w →
     (∀ k, ¬ queue_key k → keyspace w' !! k = keyspace w !! k) → Q None w') →
  wp (Dequeue sid) Q w.
Proof.
  intros (Hu & <- & <- & Hq) HQ. eapply wp_Dequeue; [done..|].
  intros w' Hu' (Hc & Hn & Hp) Hq' Hk. by apply HQ.
Qed.

Lemma wp_pub clk now q subj data w (Q : option error → W → Prop) :
  at_queue clk now q w →
  (∀ w', at_queue clk now q w' → published w' = published w ++ [(subj, data)] →
     keyspace w' = keyspace w → Q None w') →
  wp (Publish subj data) Q w.
Proof.
  intros (Hu & <- & <- & Hq) HQ. apply wp_publish; [done|].
  intros w' Hu' Hk Hc Hn Hp. apply HQ; try done. repeat (split; [done|]). by rewrite Hk.
Qed.

Lemma wp_handleTimeout clk now q sid w (Q : unit → W → Prop) :
  at_queue clk now q w →
  (∀ w', at_queue clk now (delete sid q) w' →
     published w' = published w ++ messages (OTimeout sid) →
     (∀ k, ¬ queue_key k → keyspace w' !! k = keyspace w !! k) → Q tt w') →
  wp (handleTimeout sid) Q w.
Proof.
  intros Hw HQ. unfold handleTimeout. wp_pure. eapply wp_dequeue; [done|].
  intros w1 Hw1 Hp1 Hk1. wp_pure. eapply wp_pub; [done|]. intros w2 Hw2 Hp2 Hk2. wp_pure.
  apply HQ; [done|by rewrite Hp2, Hp1|]. intros k Hk. rewrite Hk2. by apply Hk1.
Qed.

Lemma wp_PublishMatchFound clk now q id c w (Q : option error → W → Prop) :
  at_queue clk now q w →
  (∀ w', at_queue clk now q w' →
     published w' = published w ++ messages (OMatch id (SessionA c) (SessionB c) (SharedInterests c)) →
     keyspace w' = keyspace w → Q None w') →
  wp (PublishMatchFound id c) Q w.
Proof.
  intros Hw HQ. unfold PublishMatchFound. wp_pure. eapply wp_pub; [done|].
  intros w1 Hw1 Hp1 Hk1. wp_pure. eapply wp_pub; [done|]. intros w2 Hw2 Hp2 Hk2. wp_pure.
  apply HQ; [done| |congruence]. by rewrite Hp2, Hp1, <-app_assoc.
Qed.

Lemma wp_handleMatch clk now q c w (Q : unit → W → Prop) :
  at_queue clk now q w →
  (∀ id w', at_queue clk now (delete (SessionB c) (delete (SessionA c) q)) w' →
     published w' = published w ++ messages (OMatch id (SessionA c) (SessionB c) (SharedInterests c)) →
     pending_chat (keyspace w') id (SessionA c) (SessionB c) →
     (∀ k, ¬ queue_key k → k ≠ ChatPrefix +:+ id → k ≠ PendingKey →
        keyspace w' !! k = keyspace w !! k) → Q tt w') →
  wp (handleMatch c) Q w.
Proof.
  intros Hw HQ. unfold handleMatch. wp_pure. apply wp_uuid. intros id w1 Hs1. wp_pure.
  assert (reading q w w1) as Hr1.
  { eapply reading_same; [by eapply at_queue_reading|done]. }
  destruct (reading_at_queue _ _ _ _ _ Hw Hr1) as (Hw1 & Hp1 & Hk1).
  eapply wp_dequeue; [done|]. intros w2 Hw2 Hp2 Hk2. wp_pure.
  eapply wp_dequeue; [done|]. intros w3 Hw3 Hp3 Hk3. wp_pure.
  pose proof Hw3 as (Hu3 & Hc3 & Hn3 & Hq3).
  apply wp_CreatePending; [done|apply Hq3|]. intros w4 Hu4 (Hc4 & Hn4 & Hp4) Hwf4 Hk4 Hh4 Hz4. wp_pure.
  assert (at_queue clk now (delete (SessionB c) (delete (SessionA c) q)) w4) as Hw4.
  { repeat (split; [congruence || done|]). eapply queue_is_frame; [done..|].
    intros k Hk. apply Hk4; intros ->; [by eapply not_queue_chat|by apply not_queue_pending]. }
  eapply wp_PublishMatchFound; [done|]. intros w5 Hw5 Hp5 Hk5. wp_pure.
  apply (HQ id); [done|by rewrite Hp5, Hp4, Hp3, Hp2, Hp1| |].
  - unfold pending_chat. rewrite Hk5, Hh4. unfold pending_fields. by hash_simpl.
  - intros k Hk Hne Hne'. rewrite Hk5, Hk4 by done. by rewrite Hk3, Hk2, Hk1 by done.
Qed.

Lemma wp_try_tiers clk now q sid e wait w (Q : option MatchCandidate → W → Prop) :
  at_queue clk now q w → q !! sid = Some e →
  (∀ r w', reading q w w' → tier_choice wait q sid e r → Q r w') →
  wp (try_tiers sid (wait * Millisecond)) Q w.
Proof.
  intros Hw He HQ. unfold try_tiers, tier1MaxWait, tier2MaxWait, tier3MaxWait, Millisecond, Second.
  wp_pure.
  eapply wp_TryExactMatch; [by eapply at_queue_reading|done|]. intros r1 w1 Hr1 H1. wp_pure.
  cbn [match_of]. destruct r1 as [c1|].
  { rewrite !bool_decide_false by (by intros [? _]). wp_pure.
    rewrite !bool_decide_false by (by intros [? _]). wp_pure.
    rewrite !bool_decide_false by (by intros [? _]). wp_pure. apply HQ; [done|].
    by exists (Some c1). }
  destruct (decide (wait < 10000)) as [Hlt|Hge].
  { rewrite bool_decide_false by lia. wp_pure. rewrite bool_decide_false by lia. wp_pure.
    rewrite bool_decide_false by lia. wp_pure. apply HQ; [done|].
    exists None. split; [done|]. by rewrite bool_decide_true. }
  rewrite bool_decide_true by (split; [done|lia]). wp_pure. eapply wp_TryOverlapMatch; [done..|].
  intros r2 w2 Hr2 H2. wp_pure. cbn [match_of].
  assert (∀ r, match r2 with
               | Some _ => r = r2
               | None => if bool_decide (wait < 25000) then r = None else random_spec q sid r
               end → tier_choice wait q sid e r) as Hch.
  { intros r Hr. exists None. split; [done|]. rewrite bool_decide_false by done. by eauto. }
  destruct r2 as [c2|].
  { rewrite bool_decide_false by (by intros [? _]). wp_pure.
    rewrite bool_decide_false by (by intros [? _]). wp_pure. apply HQ; [done|]. by apply Hch. }
  assert (∀ w2', reading q w w2' →
    wp (if bool_decide (@None MatchCandidate = None ∧ wait * 1000000 >= 25 * 1000000000)
        then let! r := TryRandomMatch sid in ret (match_of r) else ret None) Q w2') as Hrest.
  { intros w2' Hr2'. destruct (decide (wait < 25000)) as [Hlt'|Hge'].
    - rewrite bool_decide_false by lia. wp_pure. apply HQ; [done|]. apply Hch.
      by rewrite bool_decide_true.
    - rewrite bool_decide_true by (split; [done|lia]). wp_pure. eapply wp_TryRandomMatch; [done|].
      intros r4 w4 Hr4 H4. wp_pure. apply HQ; [done|]. apply Hch. by rewrite bool_decide_false. }
  destruct (decide (wait < 20000)) as [Hlt'|Hge'].
  { rewrite bool_decide_false by lia. wp_pure. by apply Hrest. }
  rewrite bool_decide_true by (split; [done|lia]). wp_pure. eapply wp_TrySingleInterestMatch; [done..|].
  intros r3 w3 Hr3 H3. wp_pure. cbn [match_of]. destruct r3 as [c3|]; [|by apply Hrest].
  exfalso. destruct H3 as (_ & eb & Ho & Hc & _). by apply Hc, (H2 _ _ Ho).
Qed.

(** What a turn leaves in the world. *)
Definition after_turn (clk now : Z) (w : W) (os : list outcome) (q' : aqueue) (w' : W) : Prop :=
  at_queue clk now q' w' ∧
  published w' = published w ++ concat (messages <$> os) ∧
  (∀ id a b sh, OMatch id a b sh ∈ os → pending_chat (keyspace w') id a b) ∧
  (∀ id, id ∉ chat_ids os → hget (keyspace w') (ChatPrefix +:+ id) = hget (keyspace w) (ChatPrefix +:+ id)).

Lemma wp_process_session clk now q sid w (Q : unit → W → Prop) :
  at_queue clk now q w → Z.abs now < 2 ^ 53 →
  (∀ e, q !! sid = Some e → 0 ≤ now - q_joined e < 2 ^ 43) →
  (∀ os q' w', turn now q sid os q' → after_turn clk now w os q' w' → Q tt w') →
  wp (process_session sid) Q w.
Proof.
  intros Hw Hnow Hwait HQ. unfold process_session. wp_pure.
  eapply wp_still_queued; [by eapply at_queue_reading|]. intros w1 Hr1.
  destruct (q !! sid) as [e|] eqn:He.
  2:{ rewrite bool_decide_false by (by intros [? ?]). cbn [negb]. wp_pure.
      destruct (reading_at_queue _ _ _ _ _ Hw Hr1) as (Hw1 & Hp1 & Hk1).
      apply (HQ [] q); [by constructor|]. split; [done|]. rewrite Hk1, app_nil_r.
      split; [done|]. split; [set_solver|done]. }
  rewrite bool_decide_true by eauto. cbn [negb]. wp_pure. eapply wp_entry; [done|].
  intros w2 Hr2. rewrite He. cbn [fmap option_fmap option_map]. wp_pure. apply wp_now. wp_pure.
  destruct (reading_at_queue _ _ _ _ _ Hw Hr2) as (Hw2 & Hp2 & Hk2).
  pose proof Hw2 as (_ & _ & -> & Hq2).
  specialize (Hwait e eq_refl). cbn [JoinedAt entry_of].
  rewrite (float64_exact now), float64_exact, wrap64_id by
    (done || unfold min_int64, max_int64, Millisecond; lia).
  set (wait := now - q_joined e) in *.
  destruct (decide (30000 ≤ wait)) as [Hto|Hto].
  { rewrite bool_decide_true by (unfold matchTimeout, Second, Millisecond; lia).
    eapply wp_handleTimeout; [done|]. intros w3 Hw3 Hp3 Hk3.
    apply (HQ [OTimeout sid] (delete sid q)); [by econstructor|]. split; [done|].
    split; [by rewrite Hp3, Hp2|]. split; [set_solver|]. intros id _.
    unfold hget, hash_of. by rewrite Hk3, Hk2 by apply not_queue_chat. }
  rewrite bool_decide_false by (unfold matchTimeout, Second, Millisecond; lia). wp_pure.
  eapply wp_try_tiers; [done..|]. intros r w3 Hr3 Hc.
  destruct (reading_at_queue _ _ _ _ _ Hw2 Hr3) as (Hw3 & Hp3 & Hk3).
  destruct r as [c|].
  - pose proof (tier_choice_other _ _ _ _ _ Hc) as (HA & _).
    eapply wp_handleMatch; [done|]. intros id w4 Hw4 Hp4 Hpend Hk4. destruct c as [a b sh]. cbn in *. subst a.
    apply (HQ [OMatch id sid b sh] (delete b (delete sid q))); [by eapply turn_match; [done|lia|]|].
    split; [done|]. split; [by rewrite Hp4, Hp3, Hp2|]. split.
    + intros id' a' b' sh' Hin%list_elem_of_singleton. by injection Hin as -> -> -> ->.
    + intros id' Hid. unfold hget, hash_of. rewrite Hk4, Hk3, Hk2; [done|apply not_queue_chat| |done].
      intros Heq%append_inj. subst id'. apply Hid. cbn. set_solver.
  - wp_pure. apply (HQ [] q); [by eapply turn_waits; [done|lia|]|]. split; [done|].
    rewrite Hk3, Hk2, Hp3, Hp2, app_nil_r. split; [done|]. split; [set_solver|done].
Qed.

(** The world after a cycle that produced [os]. *)
Definition after_cycle (clk now : Z) (w : W) (os : list outcome) (q' : aqueue) (w' : W) : Prop :=
  at_queue clk now q' w' ∧ published w' = published w ++ concat (messages <$> os) ∧
  chats_pending (keyspace w') os.

Lemma after_cycle_turn clk now w os q1 w1 os' q2 w2 :
  after_cycle clk now w os q1 w1 → after_turn clk now w1 os' q2 w2 →
  after_cycle clk now w (os ++ os') q2 w2.
Proof.
  intros (_ & Hp1 & Hch1) (Hw2 & Hp2 & Hin & Hout). split; [done|].
  rewrite fmap_app, concat_app, app_assoc, Hp2, Hp1. split; [done|].
  intros Hnd id a b sh [Hm|Hm]%elem_of_app; [|by eapply Hin].
  rewrite chat_ids_app in Hnd. apply NoDup_app in Hnd as (Hnd & Hdis & _).
  unfold pending_chat. rewrite Hout by (apply Hdis; by eapply elem_of_chat_ids).
  by eapply Hch1.
Qed.

Lemma wp_processQueue clk now q w (Q : unit → W → Prop) :
  at_queue clk now q w → Z.abs now < 2 ^ 53 →
  map_Forall (λ _ e, 0 ≤ now - q_joined e < 2 ^ 43) q →
  (∀ os q' w', cycle now q (zorder (q_joined <$> q)).*1 os q' →
     after_cycle clk now w os q' w' → Q tt w') →
  wp processQueue Q w.
Proof.
  intros Hw Hnow Hwait HQ. unfold processQueue. wp_pure.
  pose proof Hw as (Hu & Hc & Hn & Hq). eapply wp_GetAllQueued; [done|by rewrite Hc|].
  intros w1 Hs1. wp_pure.
  assert (reading q w w1) as Hr1.
  { eapply reading_same; [by eapply at_queue_reading|done]. }
  destruct (reading_at_queue _ _ _ _ _ Hw Hr1) as (Hw1 & Hp1 & Hk1).
  apply (wp_range_do (λ pre _ w', ∃ os q1, cycle now q pre os q1 ∧ after_cycle clk now w os q1 w')).
  - exists [], q. split; [constructor|]. split; [done|]. split; [by rewrite app_nil_r|].
    intros _ ???? []%elem_of_nil.
  - intros pre sid post w2 (os & q1 & Hcy & Haf) _. pose proof Haf as (Hw2 & _).
    eapply wp_process_session; [done..| |].
    + intros e He. by apply (Hwait _ _ (cycle_sub _ _ _ _ _ _ _ Hcy He)).
    + intros os' q2 w3 Ht Haf'. exists (os ++ os'), q2.
      split; [by eapply cycle_snoc|by eapply after_cycle_turn].
  - intros w2 (os & q' & Hcy & Haf). by eapply HQ.
Qed.



Lemma elem_of_zorder_keys q s e : q !! s = Some e → s ∈ (zorder (q_joined <$> q)).*1.
Proof.
  intros He. apply list_elem_of_fmap. exists (s, q_joined e). split; [done|].
  apply zorder_elem. rewrite lookup_fmap, He. done.
Qed.

End proofs.

(** ** A pass over the sample queue after 26 seconds *)

Definition match_world : mem := elapse 26000 tier_world.

Lemma match_queue_is : queue_is (rclock match_world) (keyspace match_world) tier_queue.
Proof.
  apply (queue_is_elapse _ _ _ 26000 tier_queue_is); [lia|].
  apply (bool_decide_unpack _). vm_compute. exact I.
Qed.

Lemma match_world_now : wall match_world = 1700000028000.
Proof. vm_compute. reflexivity. Qed.

Lemma match_world_waits : map_Forall (λ _ e, 0 ≤ wall match_world - q_joined e < 2 ^ 43) tier_queue.
Proof. rewrite match_world_now. apply (bool_decide_unpack _). vm_compute. exact I. Qed.




(** The pass pairs dave with alice (random tier) and bob with carol (one
    shared interest). *)
Example match_run :
  (published (processQueue match_world).2).*1 =
  ["match.found.dave"; "match.found.alice"; "match.found.bob"; "match.found.carol"].
Proof. vm_compute. reflexivity. Qed.
