(* ===== verification/Cleanup.v ===== *)
(** * internal/matching: the NATS handlers and the clean-up pass

    Theorems about [handleMatchRequest], [handleCancelRequest],
    [cleanStaleEntries] and [cleanExpiredPendingChats] of Matcher.v. *)

From stdpp Require Import base gmap strings sorting numbers list_basics list_relations list.
From S2P Require Import Prelude GoStd Json Env Keys MemEnv ChatStore Messaging Queue Tiers Matcher.
Open Scope Z_scope.

(** ** Requests *)

Definition marshal_MatchRequest (r : MatchRequest) : json :=
  JObj (fld "session_id" (JStr (req_SessionID r)) ++
        fld "interests" (JArr (JStr <$> req_Interests r))).

Lemma unmarshal_marshal_request r : unmarshal_MatchRequest (marshal_MatchRequest r) = Some r.
Proof.
  destruct r as [sid tags].
  set (ms := [("session_id", JStr sid); ("interests", JArr (JStr <$> tags))]).
  transitivity (sid' ← get_str "session_id" ms; tags' ← get_strs "interests" ms;
                Some {| req_SessionID := sid'; req_Interests := tags' |}); [reflexivity|].
  unfold get_str, get_strs.
  assert (member "session_id" ms = Some (JStr sid)) as -> by reflexivity.
  assert (member "interests" ms = Some (JArr (JStr <$> tags))) as -> by reflexivity.
  by rewrite json_strs_map.
Qed.

Section requests.
Context `{EnvLaws W}.
Implicit Types (w : W).

(** A match request is carried out: the payload of a session and its
    interests, whatever came before it, leaves the session queued with those
    interests and the current time; a cancel request for it afterwards leaves
    the queue without it, and the other sessions are never touched. *)
Theorem match_request_then_cancel (w : W) q sid interests :
  up w → queue_is (rclock w) (keyspace w) q → clean interests → Z.abs (wall w) < 2 ^ 53 →
  requeue_ok q sid interests →
  wp (do! handleMatchRequest (marshal_MatchRequest
            {| req_SessionID := sid; req_Interests := interests |}) in
      let! e := GetEntry sid in
      do! handleCancelRequest (JObj (fld "session_id" (JStr sid))) in
      let! b := IsQueued sid in
      ret (e, b))
     (λ out w',
        out = (Ok (Some {| SessionID := sid; Interests := interests;
                           Hash := InterestsHash interests; JoinedAt := wall w |}), Ok false) ∧
        queue_is (rclock w) (keyspace w') (delete sid q)) w.
Proof.
  intros Hup Hq Hc Hnow Hre. wp_pure. unfold handleMatchRequest.
  rewrite unmarshal_marshal_request. cbn [req_SessionID req_Interests]. wp_pure.
  eapply wp_Enqueue; [done..|]. intros w1 Hup1 (Hc1 & Hw1 & _) Hq1. wp_pure. rewrite <-Hc1 in Hq1.
  eapply wp_QueueSize; [done..|]. intros w2 (Hk2 & (Hc2 & _) & Hu2). wp_pure.
  rewrite <-Hk2, <-Hc2 in Hq1. eapply wp_GetEntry; [auto|done|].
  intros w3 (Hk3 & (Hc3 & _) & Hu3). wp_pure. rewrite <-Hk3, <-Hc3 in Hq1.
  unfold handleCancelRequest. cbn [unmarshal_CancelRequest]. wp_pure.
  assert (unmarshal_CancelRequest (JObj (fld "session_id" (JStr sid))) =
          Some {| cancel_SessionID := sid |}) as -> by reflexivity. wp_pure.
  eapply wp_Dequeue; [auto|done|]. intros w4 Hup4 (Hc4 & _) Hq4 _. wp_pure. rewrite <-Hc4 in Hq4.
  eapply wp_IsQueued; [done..|]. intros w5 (Hk5 & (Hc5 & _) & _). wp_pure.
  rewrite lookup_insert_eq, lookup_delete_eq. cbn. split; [done|].
  rewrite delete_insert_eq in Hq4. rewrite Hk5, <-Hc1, <-Hc2, <-Hc3, <-Hc4. done.
Qed.

(** ** Stale entries *)

Definition session_exists (ks : keyspace_t) (sid : string) : Prop := is_Some (ks !! ("session:" +:+ sid)).

Definition alive_queue (ks : keyspace_t) (q : aqueue) (pre : list string) : aqueue :=
  filter (λ p : string * qent, p.1 ∉ pre ∨ session_exists ks p.1) q.

Lemma alive_queue_all ks q (l : list string) :
  (∀ s, is_Some (q !! s) → s ∈ l) →
  alive_queue ks q l = filter (λ p : string * qent, session_exists ks p.1) q.
Proof.
  intros Hl. apply map_filter_ext. intros s e He. cbn.
  assert (s ∈ l) by eauto. naive_solver.
Qed.

Lemma alive_queue_kept ks q pre sid :
  session_exists ks sid → alive_queue ks q (pre ++ [sid]) = alive_queue ks q pre.
Proof.
  intros Hs. apply map_filter_ext. intros s e He. cbn.
  rewrite not_elem_of_app, list_elem_of_singleton. destruct (decide (s = sid)); naive_solver.
Qed.

Lemma alive_queue_gone ks q pre sid :
  ¬ session_exists ks sid → alive_queue ks q (pre ++ [sid]) = delete sid (alive_queue ks q pre).
Proof.
  intros Hs. apply map_eq. intros s. unfold alive_queue.
  apply option_eq. intros e. rewrite lookup_delete_Some, !map_lookup_filter_Some. cbn.
  rewrite not_elem_of_app, list_elem_of_singleton. naive_solver.
Qed.

Lemma queued_in_list q pre sid post :
  (zorder (q_joined <$> q)).*1 = pre ++ sid :: post → sid ∉ pre ∧ ∃ e, q !! sid = Some e.
Proof.
  intros Hl. pose proof (zorder_NoDup (q_joined <$> q)) as Hnd. rewrite Hl in Hnd.
  apply NoDup_app in Hnd as (_ & Hdis & _). split.
  - intros Hin. apply (Hdis sid Hin). by left.
  - assert (sid ∈ (zorder (q_joined <$> q)).*1) as Hin by (rewrite Hl; set_solver).
    apply list_elem_of_fmap in Hin as ([s t] & -> & Hz%zorder_elem).
    apply lookup_fmap_Some in Hz as (e & _ & He). by eauto.
Qed.

Lemma session_not_queue_key sid : ¬ queue_key ("session:" +:+ sid).
Proof. by intros [|[[]|[[]|[]]]]. Qed.

(** The pass over the queue, for one that goes on. *)
Lemma wp_cleanStaleEntries (w : W) q (Q : Z → W → Prop) :
  up w → queue_is (rclock w) (keyspace w) q →
  (∀ w', let q' := filter (λ p : string * qent, is_Some (keyspace w !! ("session:" +:+ p.1))) q in
     at_queue (rclock w) (wall w) q' w' → published w' = published w →
     Q (Z.of_nat (size q) - Z.of_nat (size q')) w') →
  wp cleanStaleEntries Q w.
Proof.
  intros Hup Hq HQ. unfold cleanStaleEntries. wp_pure. eapply wp_GetAllQueued; [done..|].
  intros w1 Hs1. wp_pure. set (l := (zorder (q_joined <$> q)).*1).
  assert (at_queue (rclock w) (wall w) q w) as Hw by done.
  assert (reading q w w1) as Hr1 by (eapply reading_same; [by eapply at_queue_reading|done]).
  destruct (reading_at_queue _ _ _ _ _ Hw Hr1) as (Hw1 & Hp1 & Hk1).
  apply (wp_range_fold (λ pre n w',
    at_queue (rclock w) (wall w) (alive_queue (keyspace w) q pre) w' ∧
    (∀ k, ¬ queue_key k → keyspace w' !! k = keyspace w !! k) ∧ published w' = published w ∧
    n = Z.of_nat (size q) - Z.of_nat (size (alive_queue (keyspace w) q pre)))).
  - assert (alive_queue (keyspace w) q [] = q) as ->.
    { apply map_filter_id. intros s e _. left. set_solver. }
    split_and!; [done|by rewrite Hk1|done|lia].
  - intros pre sid post n w2 (Hw2 & Hk2 & Hp2 & Hn) Hl. wp_pure. pose proof Hw2 as (Hu2 & _).
    assert (keyspace w2 !! ("session:" +:+ sid) = keyspace w !! ("session:" +:+ sid)) as Hks
      by apply Hk2, session_not_queue_key.
    apply wp_exists; [done|]. intros w3 Hs3. wp_pure. rewrite Hks.
    assert (reading (alive_queue (keyspace w) q pre) w2 w3) as Hr3
      by (eapply reading_same; [by eapply at_queue_reading|done]).
    destruct (reading_at_queue _ _ _ _ _ Hw2 Hr3) as (Hw3 & Hp3 & Hk3).
    destruct (decide (session_exists (keyspace w) sid)) as [Hs|Hs].
    + rewrite (bool_decide_true (is_Some _)) by done. rewrite bool_decide_false by done. wp_pure.
      rewrite alive_queue_kept by done. rewrite Hk3, Hp3. done.
    + rewrite (bool_decide_false (is_Some _)) by done. rewrite bool_decide_true by done. wp_pure.
      eapply wp_dequeue; [done|]. intros w4 Hw4 Hp4 Hk4. wp_pure.
      rewrite alive_queue_gone by done. split; [done|]. split.
      { intros k Hk. rewrite Hk4, Hk3 by done. by apply Hk2. }
      split; [by rewrite Hp4, Hp3|].
      destruct (queued_in_list q pre sid post Hl) as (Hpre & e & He).
      assert (alive_queue (keyspace w) q pre !! sid = Some e) as Ha
        by (apply map_lookup_filter_Some; by split; [|left]).
      rewrite map_size_delete, Ha.
      assert (size (alive_queue (keyspace w) q pre) ≠ 0%nat); [|lia].
      intros Hz%map_size_empty_inv. by rewrite Hz in Ha.
  - intros n w2 (Hw2 & _ & Hp2 & ->).
    assert (∀ s, is_Some (q !! s) → s ∈ l) as Hl by (intros s [e He]; by eapply elem_of_zorder_keys).
    rewrite (alive_queue_all _ _ _ Hl) in *. by apply HQ.
Qed.

(** The clean-up removes from the queue exactly the sessions whose session
    key no longer exists, reports how many they were, and keeps all others as
    they are. *)
Theorem clean_stale_entries_exact (w : W) q :
  up w → queue_is (rclock w) (keyspace w) q →
  wp cleanStaleEntries (λ n w',
    let q' := filter (λ p : string * qent, is_Some (keyspace w !! ("session:" +:+ p.1))) q in
    queue_is (rclock w) (keyspace w') q' ∧ n = Z.of_nat (size q) - Z.of_nat (size q')) w.
Proof.
  intros Hup Hq. eapply wp_cleanStaleEntries; [done..|]. cbv zeta. by intros w' (_ & _ & _ & Hq') _.
Qed.
End requests.

(** ** Pending chats past their deadline *)

Definition status_pending (ks : keyspace_t) (id : string) : bool :=
  bool_decide (hget ks (ChatPrefix +:+ id) !! "status" = Some "pending_accept").

(** The notifications for one expired chat. *)
Definition expiry_notices (ks : keyspace_t) (id : string) : list (string * json) :=
  let h := hget ks (ChatPrefix +:+ id) in
  let notice f :=
    match h !! f with
    | Some u => if bool_decide (u = "") then [] else [(subject SubjectMatchNotify u, timed_out id)]
    | None => []
    end in
  if status_pending ks id then notice "user_a" ++ notice "user_b" else [].

Lemma hget_empty_status ks id :
  default "" (hget ks ("chat:" +:+ id) !! "status") = "pending_accept" ↔ status_pending ks id = true.
Proof.
  unfold status_pending. rewrite bool_decide_eq_true. change "chat:" with ChatPrefix.
  destruct (hget ks (ChatPrefix +:+ id) !! "status"); cbn; naive_solver.
Qed.

Section pending.
Context `{EnvLaws W}.
Implicit Types (w : W).

Lemma wp_hget_or_empty k f (Q : string → W → Prop) w :
  up w → wf_ks (keyspace w) → schema k = Some KHash →
  (∀ w', same w w' → Q (default "" (hget (keyspace w) k !! f)) w') →
  wp (hget_or_empty k f) Q w.
Proof.
  intros Hup Hwf Hk HQ. unfold hget_or_empty. wp_pure.
  eapply wp_hget; [done|by apply wf_hash|]. intros w' Hs. wp_pure. specialize (HQ w' Hs).
  by destruct (hget (keyspace w) k !! f).
Qed.

(** A notification that is sent only to a non-empty user. *)
Lemma wp_notify_if (u : string) data (Q : option error → W → Prop) w :
  up w →
  (∀ w', up w' → keyspace w' = keyspace w → rclock w' = rclock w → wall w' = wall w →
     published w' = published w ++
       (if bool_decide (u = "") then [] else [(subject SubjectMatchNotify u, data)]) → Q None w') →
  wp (if bool_decide (u ≠ "") then PublishMatchNotify u data else ret None) Q w.
Proof.
  intros Hup HQ. destruct (decide (u = "")) as [Hu|Hu].
  - rewrite bool_decide_false by (intros Hn; by apply Hn). rewrite bool_decide_true in HQ by done.
    apply wp_ret, HQ; [done..|]. by rewrite app_nil_r.
  - rewrite bool_decide_true by done. rewrite bool_decide_false in HQ by done.
    apply wp_publish; [done|]. intros w' ?????. by apply HQ.
Qed.

(** What the clean-up of one chat does to the keys. *)
Definition clean_ks (id : string) (ks ks' : keyspace_t) : Prop :=
  wf_ks ks' ∧
  (∀ k, k ≠ ChatPrefix +:+ id → k ≠ PendingKey → ks' !! k = ks !! k) ∧
  ks' !! (ChatPrefix +:+ id) =
    (if status_pending ks id then None else ks !! (ChatPrefix +:+ id)) ∧
  zget ks' PendingKey = delete id (zget ks PendingKey).

Lemma clean_zrem clk id ks ks1 ks2 :
  wf_ks ks1 → (∀ k, k ≠ ChatPrefix +:+ id → ks1 !! k = ks !! k) →
  ks1 !! (ChatPrefix +:+ id) = (if status_pending ks id then None else ks !! (ChatPrefix +:+ id)) →
  apply_w clk (ZREM PendingKey id) ks1 = Some ks2 → clean_ks id ks ks2.
Proof.
  intros Hwf1 Hk Hc E.
  assert (typed (ZREM PendingKey id)) as Ht by reflexivity.
  destruct (apply_w_typed clk _ _ Hwf1 Ht) as (ks' & E' & Hwf2). rewrite E in E'. injection E' as <-.
  split; [done|]. split_and!.
  - intros k Hk1 Hk2. rewrite (apply_w_other _ _ _ _ _ E) by done. by apply Hk.
  - by rewrite (apply_w_other _ _ _ _ _ E).
  - rewrite (apply_w_zget _ _ _ _ _ E Ht). unfold w_zget. rewrite bool_decide_true by done.
    unfold zget, zset_of. by rewrite Hk.
Qed.

Lemma wp_clean_pending_chat id (Q : unit → W → Prop) w :
  up w → wf_ks (keyspace w) →
  (∀ w', up w' → rclock w' = rclock w → wall w' = wall w → clean_ks id (keyspace w) (keyspace w') →
     published w' = published w ++ expiry_notices (keyspace w) id → Q tt w') →
  wp (clean_pending_chat id) Q w.
Proof.
  intros Hup Hwf HQ. unfold clean_pending_chat. wp_pure.
  assert (schema ("chat:" +:+ id) = Some KHash) as Hsch by apply schema_chat.
  assert (∀ w1 ks, up w1 → wf_ks (keyspace w1) → rclock w1 = rclock w → wall w1 = wall w → ks = keyspace w →
    (∀ k, k ≠ ChatPrefix +:+ id → keyspace w1 !! k = ks !! k) →
    keyspace w1 !! (ChatPrefix +:+ id) =
      (if status_pending ks id then None else ks !! (ChatPrefix +:+ id)) →
    published w1 = published w ++ expiry_notices ks id →
    wp (rd (Do (ZREM "match:pending_chats" id))) (λ _, wp (ret tt) Q) w1) as Hend.
  { intros w1 ks Hu1 Hwf1 Hc1 Hw1 -> Hk1 Hch1 Hp1.
    destruct (apply_w_typed (rclock w1) (ZREM PendingKey id) _ Hwf1) as (ks2 & E & _); [reflexivity|].
    eapply wp_do; [done|exact E|]. intros w2 Hu2 (Hc2 & Hw2 & Hp2) Hk2. wp_pure.
    apply HQ; [done|congruence|congruence| |by rewrite Hp2, Hp1]. rewrite Hk2. by eapply clean_zrem. }
  apply wp_hget_or_empty; [done..|]. intros w1 (Hk1 & (Hc1 & Hw1 & Hp1) & Hu1). wp_pure.
  specialize (Hu1 Hup). pose proof (hget_empty_status (keyspace w) id) as Hst.
  destruct (status_pending (keyspace w) id) eqn:Est.
  2:{ rewrite bool_decide_false by (intros Hd; by apply Hst in Hd). wp_pure.
      eapply (Hend _ (keyspace w)); [done|by rewrite Hk1|done|done|done|by rewrite Hk1| |].
      - by rewrite Est, Hk1.
      - unfold expiry_notices. by rewrite Est, app_nil_r. }
  rewrite bool_decide_true by by apply Hst. wp_pure.
  apply wp_hget_or_empty; [done|by rewrite Hk1|done|]. intros w2 (Hk2 & (Hc2 & Hw2 & Hp2) & Hu2). wp_pure.
  apply wp_hget_or_empty; [auto|by rewrite Hk2, Hk1|done|].
  intros w3 (Hk3 & (Hc3 & Hw3 & Hp3) & Hu3). wp_pure. rewrite Hk2, Hk1.
  apply wp_notify_if; [auto|]. intros w4 Hu4 Hk4 Hc4 Hw4 Hp4. wp_pure.
  apply wp_notify_if; [auto|]. intros w5 Hu5 Hk5 Hc5 Hw5 Hp5. wp_pure.
  assert (keyspace w5 = keyspace w) as Hks by congruence.
  eapply wp_do; [done|done|]. intros w6 Hu6 (Hc6 & Hw6 & Hp6) Hk6. wp_pure.
  eapply (Hend _ (keyspace w)); [done| |congruence|congruence|done| | |].
  - rewrite Hk6, Hks. by apply wf_delete.
  - intros k Hk. rewrite Hk6, Hks. by apply lookup_delete_ne.
  - by rewrite Est, Hk6, lookup_delete_eq.
  - rewrite Hp6, Hp5, Hp4, Hp3, Hp2, Hp1, <-app_assoc. f_equal. unfold expiry_notices.
    rewrite Est. change "chat:" with ChatPrefix.
    f_equal; match goal with |- context [?h !! ?f] => by destruct (h !! f) end.
Qed.

(** The chats whose deadline is not after [now], by deadline. *)
Definition expired_chats (ks : keyspace_t) (now : Z) : list string :=
  (filter (λ p : string * Z, 0 ≤ p.2 ∧ p.2 ≤ now) (zorder (zget ks PendingKey))).*1.

Lemma elem_of_expired_chats ks now id :
  id ∈ expired_chats ks now ↔ ∃ sc, zget ks PendingKey !! id = Some sc ∧ 0 ≤ sc ≤ now.
Proof.
  unfold expired_chats. rewrite list_elem_of_fmap. split.
  - intros ([id' sc] & -> & [Hsc Hz]%list_elem_of_filter). apply zorder_elem in Hz. by eauto.
  - intros (sc & Hz & Hsc). exists (id, sc). split; [done|]. apply list_elem_of_filter.
    split; [done|]. by apply zorder_elem.
Qed.

Lemma expired_chats_NoDup ks now : NoDup (expired_chats ks now).
Proof.
  unfold expired_chats. eapply sublist_NoDup; [apply (zorder_NoDup (zget ks PendingKey))|].
  apply fmap_sublist, sublist_filter.
Qed.

(** The keys after the chats [pre] were cleaned. *)
Definition cleaned (ks : keyspace_t) (pre : list string) (ks' : keyspace_t) : Prop :=
  wf_ks ks' ∧
  (∀ k, (∀ id, id ∈ pre → k ≠ ChatPrefix +:+ id) → k ≠ PendingKey → ks' !! k = ks !! k) ∧
  (∀ id, id ∈ pre → ks' !! (ChatPrefix +:+ id) =
     (if status_pending ks id then None else ks !! (ChatPrefix +:+ id))) ∧
  (∀ id, zget ks' PendingKey !! id = if decide (id ∈ pre) then None else zget ks PendingKey !! id).

Lemma cleaned_step ks pre ks1 id ks2 :
  cleaned ks pre ks1 → id ∉ pre → clean_ks id ks1 ks2 →
  status_pending ks1 id = status_pending ks id ∧ expiry_notices ks1 id = expiry_notices ks id ∧
  cleaned ks (pre ++ [id]) ks2.
Proof.
  intros (Hwf1 & Hk1 & Hp1 & Hz1) Hid (Hwf2 & Hk2 & Hc2 & Hz2).
  assert (ks1 !! (ChatPrefix +:+ id) = ks !! (ChatPrefix +:+ id)) as Hsame.
  { apply Hk1; [|done]. intros id' Hin Heq%append_inj. by subst. }
  assert (status_pending ks1 id = status_pending ks id) as Hst.
  { unfold status_pending, hget, hash_of. by rewrite Hsame. }
  split; [done|]. split.
  { unfold expiry_notices. rewrite Hst. unfold hget, hash_of. by rewrite Hsame. }
  split; [done|]. split_and!.
  - intros k Hk Hkp. rewrite Hk2; [|apply Hk; set_solver|done].
    apply Hk1; [|done]. intros id' Hin. apply Hk. set_solver.
  - intros id' [Hin|Hin%list_elem_of_singleton]%elem_of_app.
    + rewrite Hk2; [by apply Hp1| |done]. intros Heq%append_inj. by subst.
    + subst id'. by rewrite Hc2, Hst, Hsame.
  - intros id'. rewrite Hz2. destruct (decide (id' = id)) as [->|Hne].
    + rewrite lookup_delete_eq, decide_True; [done|set_solver].
    + rewrite lookup_delete_ne, Hz1 by done.
      destruct (decide (id' ∈ pre)), (decide (id' ∈ pre ++ [id])); set_solver.
Qed.

(** The pass over the pending chats, for one that goes on. *)
Lemma wp_cleanExpiredPendingChats (w : W) (Q : unit → W → Prop) :
  up w → wf_ks (keyspace w) → Z.abs (Unix (wall w)) < 2 ^ 53 →
  (∀ w', let expired := expired_chats (keyspace w) (Unix (wall w)) in
     up w' → rclock w' = rclock w → wall w' = wall w → cleaned (keyspace w) expired (keyspace w') →
     published w' = published w ++ concat (expiry_notices (keyspace w) <$> expired) → Q tt w') →
  wp cleanExpiredPendingChats Q w.
Proof.
  intros Hup Hwf Hnow HQ. unfold cleanExpiredPendingChats. wp_pure. apply wp_now. wp_pure.
  rewrite float64_exact by done.
  eapply wp_zrangebyscore; [done|by apply wf_zset; auto with go|].
  intros w1 (Hk1 & (Hc1 & Hw1 & Hp1) & Hu1). wp_pure.
  change ((filter _ (zorder (zget (keyspace w) "match:pending_chats"))).*1)
    with (expired_chats (keyspace w) (Unix (wall w))).
  apply (wp_range_do (λ pre _ w', up w' ∧ rclock w' = rclock w ∧ wall w' = wall w ∧ cleaned (keyspace w) pre (keyspace w') ∧
    published w' = published w ++ concat (expiry_notices (keyspace w) <$> pre))).
  - split; [auto|]. split; [done|]. split; [done|]. rewrite Hk1, Hp1, app_nil_r. split; [|done].
    split; [done|]. split_and!; [done|set_solver|]. intros id. by rewrite decide_False by set_solver.
  - intros pre id post w2 (Hu2 & Hc2 & Hw2 & Hcl & Hp2) Hl.
    assert (id ∉ pre) as Hid.
    { pose proof (expired_chats_NoDup (keyspace w) (Unix (wall w))) as Hnd. rewrite Hl in Hnd.
      apply NoDup_app in Hnd as (_ & Hdis & _). intros Hin. apply (Hdis id Hin). by left. }
    apply wp_clean_pending_chat; [done|apply Hcl|]. intros w3 Hu3 Hc3 Hw3 Hck Hp3.
    destruct (cleaned_step _ _ _ _ _ Hcl Hid Hck) as (_ & Hno & Hcl3). split_and!; [done|congruence|congruence|done|]. rewrite Hp3, Hp2, Hno, fmap_app, concat_app. cbn. by rewrite app_nil_r, app_assoc.
  - intros w2 (Hu & Hc & Hw & Hcl & Hp). by apply HQ.
Qed.

End pending.

Lemma match_request_then_cancel_witness :
  wp (do! handleMatchRequest (marshal_MatchRequest
            {| req_SessionID := "eve"; req_Interests := ["tea"] |}) in
      let! e := GetEntry "eve" in
      do! handleCancelRequest (JObj (fld "session_id" (JStr "eve"))) in
      let! b := IsQueued "eve" in
      ret (e, b))
     (λ out w',
        out = (Ok (Some {| SessionID := "eve"; Interests := ["tea"];
                           Hash := InterestsHash ["tea"]; JoinedAt := wall match_world |}), Ok false) ∧
        queue_is (rclock match_world) (keyspace w') (delete "eve" tier_queue)) match_world.
Proof.
  apply (match_request_then_cancel match_world tier_queue "eve" ["tea"]).
  - vm_compute. reflexivity.
  - apply match_queue_is.
  - split; [discriminate | repeat constructor].
  - vm_compute. reflexivity.
  - intros e He. vm_compute in He. discriminate He.
Defined.

Lemma clean_stale_entries_exact_witness :
  wp cleanStaleEntries (λ n w',
    let q' := filter (λ p : string * qent,
                is_Some (keyspace match_world !! ("session:" +:+ p.1))) tier_queue in
    queue_is (rclock match_world) (keyspace w') q' ∧
    n = Z.of_nat (size tier_queue) - Z.of_nat (size q')) match_world.
Proof.
  apply (clean_stale_entries_exact match_world tier_queue);
    [vm_compute; reflexivity | apply match_queue_is].
Defined.

(** One chat accepted by both users, one by neither, fifteen seconds later. *)
Definition expiry_world : mem :=
  elapse 15000 ((do! CreatePending "c1" "alice" "bob" in
                 do! CreatePending "c2" "carol" "dave" in
                 do! AcceptMatch "c1" "alice" in
                 AcceptMatch "c1" "bob") demo_world).2.


Example expiry_run :
  (published (cleanExpiredPendingChats expiry_world).2).*1 =
  ["match.notify.carol"; "match.notify.dave"].
Proof. vm_compute. reflexivity. Qed.
