(* ===== verification/App.v ===== *)
(** * The process of cmd/wsserver: its state

    One WebSocket server process: the services it reaches ([world]: Redis, NATS
    publishing, the clock), its connections ([conns]), its NATS subscriptions
    ([nats]), the buffer of recent messages, the report database, and the
    Prometheus metrics it sets.  The handlers of cmd/wsserver/main.go are
    closures; the ones given to NATS capture identifiers only and are the values
    of [callback]. *)

From stdpp Require Import base gmap strings numbers list_basics list_relations list.
From S2P Require Import Prelude GoStd Json Env ChatBuffer Subscriptions Connection Report.
Open Scope Z_scope.

(** ** Payloads on NATS: chat/event.go, moderation/types.go *)

Record ChatEvent : Type := {
  ev_Type : string; ev_From : string; ev_Text : string; ev_IsTyping : bool; ev_Ts : Z;
}.
Definition marshal_ChatEvent (e : ChatEvent) : json :=
  JObj (fld "type" (JStr (ev_Type e)) ++ fld "from" (JStr (ev_From e)) ++
        omit_str "text" (ev_Text e) ++ omit_bool "is_typing" (ev_IsTyping e) ++
        omit_int "ts" (ev_Ts e)).
Definition unmarshal_ChatEvent (data : json) : option ChatEvent :=
  unmarshal (λ ms,
    type ← get_str "type" ms; from ← get_str "from" ms; text ← get_str "text" ms;
    typing ← get_bool "is_typing" ms; ts ← get_int "ts" ms;
    Some {| ev_Type := type; ev_From := from; ev_Text := text; ev_IsTyping := typing; ev_Ts := ts |}) data.

Record ModerationRequest : Type := {
  mreq_SessionID : string; mreq_ChatID : string; mreq_Text : string; mreq_Ts : Z;
}.
Definition marshal_ModerationRequest (r : ModerationRequest) : json :=
  JObj (fld "session_id" (JStr (mreq_SessionID r)) ++ fld "chat_id" (JStr (mreq_ChatID r)) ++
        fld "text" (JStr (mreq_Text r)) ++ fld "ts" (JNum (mreq_Ts r))).
Definition unmarshal_ModerationRequest (data : json) : option ModerationRequest :=
  unmarshal (λ ms,
    sid ← get_str "session_id" ms; cid ← get_str "chat_id" ms; text ← get_str "text" ms;
    ts ← get_int "ts" ms;
    Some {| mreq_SessionID := sid; mreq_ChatID := cid; mreq_Text := text; mreq_Ts := ts |}) data.

Record ModerationResult : Type := {
  mres_SessionID : string; mres_ChatID : string; mres_Blocked : bool; mres_Reason : string;
  mres_Term : string;
}.
Definition marshal_ModerationResult (r : ModerationResult) : json :=
  JObj (fld "session_id" (JStr (mres_SessionID r)) ++ fld "chat_id" (JStr (mres_ChatID r)) ++
        fld "blocked" (JBool (mres_Blocked r)) ++ fld "reason" (JStr (mres_Reason r)) ++
        fld "term" (JStr (mres_Term r))).
Definition unmarshal_ModerationResult (data : json) : option ModerationResult :=
  unmarshal (λ ms,
    sid ← get_str "session_id" ms; cid ← get_str "chat_id" ms; blocked ← get_bool "blocked" ms;
    reason ← get_str "reason" ms; term ← get_str "term" ms;
    Some {| mres_SessionID := sid; mres_ChatID := cid; mres_Blocked := blocked;
            mres_Reason := reason; mres_Term := term |}) data.

(** Decoding gives back what was encoded, omitted fields included. *)
Lemma unmarshal_marshal_event e : unmarshal_ChatEvent (marshal_ChatEvent e) = Some e.
Proof.
  destruct e as [type from text typing ts]. unfold marshal_ChatEvent, omit_str, omit_bool, omit_int.
  cbn [ev_Type ev_From ev_Text ev_IsTyping ev_Ts].
  case_bool_decide as Ht; case_bool_decide as Hs; destruct typing; subst; reflexivity.
Qed.
Lemma unmarshal_marshal_mreq r : unmarshal_ModerationRequest (marshal_ModerationRequest r) = Some r.
Proof. by destruct r. Qed.
Lemma unmarshal_marshal_mres r : unmarshal_ModerationResult (marshal_ModerationResult r) = Some r.
Proof. by destruct r. Qed.

(** ** The closures subscribed to NATS, by the session they serve *)

Inductive callback : Type :=
  | OnChat (localSID : string)
  | OnMatchFound (sid : string)
  | OnMatchNotify (sid : string)
  | OnModerationResult (sid : string).
#[export] Instance callback_eq_dec : EqDecision callback.
Proof. solve_decision. Defined.

(** ** Metrics *)

Record metrics_t : Type := Metrics {
  ConnectionsTotal : Z; ActiveChats : Z;
  MessagesSent : Z; MessagesReceived : Z; MessagesBlocked : Z;
}.

Definition set_ConnectionsTotal (n : Z) (m : metrics_t) : metrics_t :=
  Metrics n (ActiveChats m) (MessagesSent m) (MessagesReceived m) (MessagesBlocked m).
Definition add_ActiveChats (d : Z) (m : metrics_t) : metrics_t :=
  Metrics (ConnectionsTotal m) (ActiveChats m + d) (MessagesSent m) (MessagesReceived m) (MessagesBlocked m).
Definition inc_sent (m : metrics_t) : metrics_t :=
  Metrics (ConnectionsTotal m) (ActiveChats m) (MessagesSent m + 1) (MessagesReceived m) (MessagesBlocked m).
Definition inc_received (m : metrics_t) : metrics_t :=
  Metrics (ConnectionsTotal m) (ActiveChats m) (MessagesSent m) (MessagesReceived m + 1) (MessagesBlocked m).
Definition inc_blocked (m : metrics_t) : metrics_t :=
  Metrics (ConnectionsTotal m) (ActiveChats m) (MessagesSent m) (MessagesReceived m) (MessagesBlocked m + 1).

(** ** The state *)

Record app (W NW B D : Type) : Type := App {
  world : W;
  conns : hub NW;
  nats : NATSClient B;
  msgBuffer : MessageBuffer;
  db : D;
  metrics : metrics_t;
  draining : bool;
  (** a goroutine panicked *)
  panicked : bool;
}.
Arguments App {W NW B D} _ _ _ _ _ _ _ _.
Arguments world {W NW B D} _.
Arguments conns {W NW B D} _.
Arguments nats {W NW B D} _.
Arguments msgBuffer {W NW B D} _.
Arguments db {W NW B D} _.
Arguments metrics {W NW B D} _.
Arguments draining {W NW B D} _.
Arguments panicked {W NW B D} _.

Section lift.
Context {W NW B D : Type}.
Abbreviation A := (app W NW B D).
Implicit Types (s : A).

Definition set_world (w : W) s : A :=
  App w (conns s) (nats s) (msgBuffer s) (db s) (metrics s) (draining s) (panicked s).
Definition set_conns (h : hub NW) s : A :=
  App (world s) h (nats s) (msgBuffer s) (db s) (metrics s) (draining s) (panicked s).
Definition set_nats (c : NATSClient B) s : A :=
  App (world s) (conns s) c (msgBuffer s) (db s) (metrics s) (draining s) (panicked s).
Definition set_buffer (b : MessageBuffer) s : A :=
  App (world s) (conns s) (nats s) b (db s) (metrics s) (draining s) (panicked s).
Definition set_db (d : D) s : A :=
  App (world s) (conns s) (nats s) (msgBuffer s) d (metrics s) (draining s) (panicked s).
Definition set_metrics (m : metrics_t) s : A :=
  App (world s) (conns s) (nats s) (msgBuffer s) (db s) m (draining s) (panicked s).
Definition set_draining (b : bool) s : A :=
  App (world s) (conns s) (nats s) (msgBuffer s) (db s) (metrics s) b (panicked s).
Definition set_panicked s : A :=
  App (world s) (conns s) (nats s) (msgBuffer s) (db s) (metrics s) (draining s) true.

(** Running a component's operation on its part of the state. *)
Definition on_world {X} (m : M W X) : M A X := λ s, let '(x, w) := m (world s) in (x, set_world w s).
Definition on_conns {X} (m : M (hub NW) X) : M A X :=
  λ s, let '(x, h) := m (conns s) in (x, set_conns h s).
Definition on_nats {X} (m : M (NATSClient B) X) : M A X :=
  λ s, let '(x, c) := m (nats s) in (x, set_nats c s).
Definition on_db {X} (m : M D X) : M A X := λ s, let '(x, d) := m (db s) in (x, set_db d s).

Definition get_app : M A A := λ s, (s, s).
Definition metric (f : metrics_t → metrics_t) : M A unit := λ s, (tt, set_metrics (f (metrics s)) s).
Definition panic : M A unit := λ s, (tt, set_panicked s).

Definition buffer_Add (chatID : string) (msg : BufferedMessage) : M A unit :=
  λ s, match ChatBuffer.Add (msgBuffer s) chatID msg with
       | Some b => (tt, set_buffer b s)
       | None => panic s
       end.
Definition buffer_Get (chatID : string) : M A (list BufferedMessage) :=
  λ s, match ChatBuffer.Get (msgBuffer s) chatID with
       | Some l => (l, s)
       | None => ([], set_panicked s)
       end.
Definition buffer_Remove (chatID : string) : M A unit :=
  λ s, (tt, set_buffer (ChatBuffer.Remove (msgBuffer s) chatID) s).

(** ** Proof rules *)

Lemma wp_on_world {X} (m : M W X) (Q : X → A → Prop) s :
  wp m (λ x w, Q x (set_world w s)) (world s) → wp (on_world m) Q s.
Proof. unfold wp, on_world. by destruct (m (world s)). Qed.
Lemma wp_on_conns {X} (m : M (hub NW) X) (Q : X → A → Prop) s :
  wp m (λ x h, Q x (set_conns h s)) (conns s) → wp (on_conns m) Q s.
Proof. unfold wp, on_conns. by destruct (m (conns s)). Qed.
Lemma wp_on_nats {X} (m : M (NATSClient B) X) (Q : X → A → Prop) s :
  wp m (λ x c, Q x (set_nats c s)) (nats s) → wp (on_nats m) Q s.
Proof. unfold wp, on_nats. by destruct (m (nats s)). Qed.
Lemma wp_on_db {X} (m : M D X) (Q : X → A → Prop) s :
  wp m (λ x d, Q x (set_db d s)) (db s) → wp (on_db m) Q s.
Proof. unfold wp, on_db. by destruct (m (db s)). Qed.
Lemma wp_get_app (Q : A → A → Prop) s : Q s s → wp get_app Q s.
Proof. done. Qed.
Lemma wp_metric f (Q : unit → A → Prop) s :
  Q tt (set_metrics (f (metrics s)) s) → wp (metric f) Q s.
Proof. done. Qed.
Lemma wp_buffer_Add c msg b (Q : unit → A → Prop) s :
  ChatBuffer.Add (msgBuffer s) c msg = Some b → Q tt (set_buffer b s) → wp (buffer_Add c msg) Q s.
Proof. intros E HQ. unfold wp, buffer_Add. by rewrite E. Qed.
Lemma wp_buffer_Remove c (Q : unit → A → Prop) s :
  Q tt (set_buffer (ChatBuffer.Remove (msgBuffer s) c) s) → wp (buffer_Remove c) Q s.
Proof. done. Qed.
End lift.
