(* ===== verification/WsServer.v ===== *)
(** * internal/ws: server.go, dispatcher.go, heartbeat.go

    The server is parametric in its two callbacks, [onMessage] and
    [onDisconnect], which cmd/wsserver supplies (Handlers.v).  A step of the model
    is one complete call; the calls are taken apart, with the pool of read workers,
    the done channel, concurrent upgrades and the locks and deadlines of writes, in
    Workers.v, EventLoop.v, Upgrades.v and WriteLocks.v. *)

From stdpp Require Import base gmap strings numbers list_basics list_relations list.
From S2P Require Import Prelude GoStd Json Env SessionStore Protocol ChatBuffer Subscriptions Connection App.
Open Scope Z_scope.

Record ServerConfig : Type := {
  ListenAddr : string; WorkerPoolSize : Z; MaxConnections : Z; ReadTimeout : Z; WriteTimeout : Z; MaxFrameSize : Z;
}.
Definition DefaultServerConfig : ServerConfig :=
  {| ListenAddr := ":8080"; WorkerPoolSize := 256; MaxConnections := 100000; ReadTimeout := 10 * Second;
     WriteTimeout := 10 * Second; MaxFrameSize := 4096 |}.

Record HeartbeatConfig : Type := { Interval : Z; Timeout : Z }.
Definition DefaultHeartbeatConfig : HeartbeatConfig :=
  {| Interval := 30 * Second; Timeout := 10 * Second |}.

(** The HTTP answers of [handleUpgrade] that do not upgrade. *)
Inductive upgrade_answer : Type :=
  | ServiceUnavailable (reason : string)
  | UpgradeFailed
  | Upgraded (sessionID : string).

Definition error_msg (code message : string) : json :=
  NewServerMessage TypeError
    (marshal_ErrorMsg {| er_Type := ""; er_Code := code; er_Message := message |}).
Definition pong_msg : json := NewServerMessage TypePong (marshal_PongMsg {| po_Type := "" |}).
Definition session_created_msg (sessionID : string) : json :=
  NewServerMessage TypeSessionCreated
    (marshal_SessionCreatedMsg {| sc_Type := ""; sc_SessionID := sessionID |}).

Section server.
Context {W NW B D : Type} `{!Env W, !Net NW}.
Context (config : ServerConfig) (serverName : string).
Abbreviation A := (app W NW B D).

Definition now_ : M A Z := on_world now_ms.

(** *** Server.SendMessage *)
Definition SendMessage (connID : string) (data : json) : M A (option error) :=
  let! c := on_conns (Connection.Get connID) in
  match c with
  | None => ret (Some ("ws: connection " +:+ connID +:+ " not found"))
  | Some c => on_conns (WriteMessage c data)
  end.

(** [conn.WriteMessage] with its error dropped. *)
Definition reply (conn : loc) (data : json) : M A unit :=
  let! _ := on_conns (WriteMessage conn data) in ret tt.

Definition conn_id (conn : loc) : M A string :=
  let! s := get_app in ret (Connection.ID (deref (conns s) conn)).

(** *** Dispatcher *)

(** [msg.(T)] never fails in the handlers: see [dispatch_routes]. *)
Definition MessageHandler : Type := loc → client_msg → M A unit.

Definition sendError (conn : loc) (code message : string) : M A unit :=
  reply conn (error_msg code message).

Definition sendPong (conn : loc) : M A unit :=
  let! now := now_ in
  do! on_conns (update_conn conn (set_LastPing now)) in
  reply conn pong_msg.

Definition Register (handlers : gmap string MessageHandler) (msgType : string) (handler : MessageHandler)
    : gmap string MessageHandler := <[msgType := handler]> handlers.

Definition Dispatch (handlers : gmap string MessageHandler) (conn : loc) (data : option json) : M A unit :=
  match ParseClientMessage data with
  | (msgType, Some msg, None) =>
      if bool_decide (msgType = TypePing) then sendPong conn
      else match handlers !! msgType with
           | None => sendError conn "unsupported_type" "unsupported message type"
           | Some handler => handler conn msg
           end
  | _ => sendError conn "parse_error" "invalid message format"
  end.

Section callbacks.
Context (onDisconnect : string → M A unit) (onMessage : loc → option json → M A unit).

(** *** Server.RemoveConnection *)
Definition RemoveConnection (c : loc) : M A unit :=
  let! s := get_app in
  let conn := deref (conns s) c in
  let! _ := on_conns (epoll_Remove (Conn conn)) in
  let! removed := on_conns (Connection.Remove (Connection.ID conn)) in
  if negb removed then ret tt
  else
    let! n := on_conns Count in
    do! metric (set_ConnectionsTotal n) in
    do! onDisconnect (Connection.ID conn) in
    let! _ := on_world (SessionStore.Delete (Connection.ID conn)) in
    ret tt.

(** *** Server.handleUpgrade *)
Definition handleUpgrade : M A upgrade_answer :=
  let! s := get_app in
  if draining s then ret (ServiceUnavailable "server shutting down")
  else
  let! n := on_conns Count in
  if bool_decide (MaxConnections config ≤ n) then ret (ServiceUnavailable "too many connections")
  else
  let! r := on_conns (on_net upgrade_http) in
  match r with
  | Err _ => ret UpgradeFailed
  | Ok conn =>
      let! fd := on_conns (socketFD conn) in
      let! sessionID := on_world uuid_new in
      let! created := now_ in
      let! last := now_ in
      let! c := on_conns (register conn fd sessionID created last) in
      let! n := on_conns Count in
      do! metric (set_ConnectionsTotal n) in
      let! e := on_conns (epoll_Add conn) in
      match e with
      | Some _ =>
          let! _ := on_conns (Connection.Remove sessionID) in
          ret UpgradeFailed
      | None =>
          let! _ := on_world (SessionStore.Create serverName sessionID) in
          do! reply c (session_created_msg sessionID) in
          ret (Upgraded sessionID)
      end
  end.

(** *** Server.handleConn *)
Definition read_frame (netConn : sock) (c : loc) : M A unit :=
  let! r := on_conns (on_net (next_reader netConn)) in
  match r with
  | RTimeout => ret tt
  | RError => RemoveConnection c
  | RFrame op length =>
      let! now := now_ in
      do! on_conns (update_conn c (set_LastPing now)) in
      if IsControl op then
        match op with OpClose => RemoveConnection c | _ => ret tt end
      else if bool_decide (0 < MaxFrameSize config) && bool_decide (MaxFrameSize config < length) then
        do! on_conns (on_net (discard netConn)) in
        reply c (error_msg "frame_too_large" "Message exceeds 4KB limit")
      else if bool_decide (length = 0) then ret tt
      else
        let! r := on_conns (on_net (read_full netConn length)) in
        match r with
        | Err _ => RemoveConnection c
        | Ok data => onMessage c data
        end
  end.

Definition handleConn (netConn : sock) : M A unit :=
  let! c := on_conns (GetByConn netConn) in
  match c with
  | None => ret tt
  | Some c =>
      let! s := get_app in
      if processing (deref (conns s) c) then ret tt
      else
        do! on_conns (update_conn c (set_processing true)) in
        do! read_frame netConn c in
        on_conns (update_conn c (set_processing false))
  end.

(** One round of [startEventLoop], its reads one after the other. *)
Definition event_round : M A unit :=
  let! r := on_conns epoll_Wait in
  match r with
  | Err _ => ret tt
  | Ok ready => range_do ready handleConn
  end.

(** *** heartbeat.go: checkConnections *)
Definition check_connection (deadline now : Z) (c : loc) : M A unit :=
  let! s := get_app in
  if bool_decide (deadline < (now - LastPing (deref (conns s) c)) * Millisecond) then RemoveConnection c
  else
    let! e := on_conns (WritePing c) in
    match e with
    | Some _ => RemoveConnection c
    | None => ret tt
    end.

Definition checkConnections (hc : HeartbeatConfig) : M A unit :=
  let deadline := Interval hc + Timeout hc in
  let! now := now_ in
  let! all := on_conns All in
  range_do all (check_connection deadline now).

(** *** Server.Shutdown *)

(** What happens while [Shutdown] waits: its ticker, its deadline, and the
    steps of the other goroutines. *)
Inductive drain_event : Type :=
  | DrainTicker
  | DrainDeadline
  | DrainOther (m : M A unit).

Fixpoint drainLoop (events : list drain_event) : M A unit :=
  match events with
  | [] | DrainDeadline :: _ => let! _ := on_conns Count in ret tt
  | DrainTicker :: events =>
      let! remaining := on_conns Count in
      if bool_decide (remaining = 0) then ret tt else drainLoop events
  | DrainOther m :: events => do! m in drainLoop events
  end.

(** Phase 4, for one connection. *)
Definition force_close (c : loc) : M A unit :=
  let! id := conn_id c in
  let! _ := on_world (SessionStore.Delete id) in
  let! s := get_app in
  let! _ := on_conns (epoll_Remove (Conn (deref (conns s) c))) in
  let! _ := on_conns (Close c) in
  ret tt.

(** Phases 1 to 3. *)
Definition drain_connections (events : list drain_event) : M A unit :=
  do! (λ s, (tt, set_draining true s)) in
  let! _ := on_conns Count in
  let! all := on_conns All in
  do! range_do all (λ c, let! id := conn_id c in onDisconnect id) in
  drainLoop events.

Definition Shutdown (events : list drain_event) : M A unit :=
  do! drain_connections events in
  let! all := on_conns All in
  range_do all force_close.
End callbacks.

(** *** Server.handleOnlineCount *)
Definition handleOnlineCount : M A json :=
  let! n := on_conns Count in
  ret (JObj (fld "count" (JNum n))).
End server.
