(* ===== verification/Handlers.v ===== *)
(** * cmd/wsserver/main.go: the message handlers and NATS callbacks

    Each handler is the closure of main.go of the same message type, on the
    state of App.v.  [deliver] runs the closure a NATS subscription was made
    with.  The NATS callbacks are written before the handlers that subscribe
    them, the disconnect callback before the server that calls it. *)

From stdpp Require Import base gmap strings numbers list_basics list_relations list.
From S2P Require Import Prelude GoStd Json Env ChatBuffer ChatStore SessionStore RateLimit BanStore Validator Report Filter Protocol Messaging Subscriptions Matcher Cleanup Connection App WsServer.
Open Scope Z_scope.

Definition unmarshal_MatchResult (data : json) : option (MatchResult * option (list string)) :=
  unmarshal (λ ms,
    timeout ← get_bool "timeout" ms; cid ← get_str "chat_id" ms; pid ← get_str "partner_id" ms;
    shared ← get_strs "shared_interests" ms; deadline ← get_int "accept_deadline" ms;
    Some ({| Matcher.Timeout := timeout; mr_ChatID := cid; PartnerID := pid; mr_SharedInterests := shared;
             mr_AcceptDeadline := deadline |},
          (* the slice itself: nil when the member is missing or null *)
          match member "shared_interests" ms with None | Some JNull => None | _ => Some shared end)) data.
Definition unmarshal_MatchNotification (data : json) : option MatchNotification :=
  unmarshal (λ ms,
    type ← get_str "type" ms; cid ← get_str "chat_id" ms;
    Some {| mn_Type := type; mn_ChatID := cid |}) data.
Definition marshal_CancelRequest (r : CancelRequest) : json :=
  JObj (fld "session_id" (JStr (cancel_SessionID r))).

(** ** The frames the handlers send *)

Definition chat_msg (text : string) (ts : Z) : json :=
  NewServerMessage TypeMessage
    (marshal_ServerChatMsg {| sch_Type := ""; sch_From := "partner"; sch_Text := text; sch_Ts := ts |}).
Definition typing_msg (is_typing : bool) : json :=
  NewServerMessage TypeTyping (marshal_ServerTypingMsg {| sty_Type := ""; sty_IsTyping := is_typing |}).
Definition partner_left_msg : json :=
  NewServerMessage TypePartnerLeft (marshal_PartnerLeftMsg {| pl_Type := "" |}).
Definition banned_msg (duration : Z) (reason : string) : json :=
  NewServerMessage TypeBanned
    (marshal_BannedMsg {| bn_Type := ""; bn_Duration := duration; bn_Reason := reason |}).
Definition rate_limited_msg (rule : Rule) : json :=
  NewServerMessage TypeRateLimited
    (marshal_RateLimitedMsg {| rl_Type := ""; rl_RetryAfter := Z.quot (Window rule) Second |}).
Definition match_timeout_msg : json :=
  NewServerMessage TypeMatchTimeout (marshal_MatchTimeoutMsg {| mt_Type := "" |}).
Definition match_found_msg (chatID : string) (shared : option (list string)) (deadline : Z) : json :=
  NewServerMessage TypeMatchFound
    (marshal_MatchFoundMsg {| mf_Type := ""; mf_ChatID := chatID; mf_SharedInterests := shared;
                              mf_AcceptDeadline := deadline |}).
Definition match_accepted_msg (chatID : string) : json :=
  NewServerMessage TypeMatchAccepted (marshal_MatchAcceptedMsg {| ma_Type := ""; ma_ChatID := chatID |}).
Definition match_declined_msg : json :=
  NewServerMessage TypeMatchDeclined (marshal_MatchDeclinedMsg {| md_Type := "" |}).
Definition matching_started_msg : json :=
  NewServerMessage TypeMatchingStarted (marshal_MatchingStartedMsg {| ms_Type := ""; ms_Timeout := 30 |}).

Definition left_event (sid : string) : json :=
  marshal_ChatEvent {| ev_Type := "partner_left"; ev_From := sid; ev_Text := ""; ev_IsTyping := false; ev_Ts := 0 |}.
Definition message_event (sid text : string) (now : Z) : json :=
  marshal_ChatEvent {| ev_Type := "message"; ev_From := sid; ev_Text := text; ev_IsTyping := false; ev_Ts := now |}.
Definition typing_event (sid : string) (is_typing : bool) : json :=
  marshal_ChatEvent {| ev_Type := "typing"; ev_From := sid; ev_Text := ""; ev_IsTyping := is_typing; ev_Ts := 0 |}.
Definition notification (type chatID : string) : json :=
  marshal_MatchNotification {| mn_Type := type; mn_ChatID := chatID |}.

Section handlers.
Context {W NW B D : Type} `{!Env W, !Net NW, !Broker callback B, !ReportDB D, !Unicode}.
Context (contentFilter : Filter).
Abbreviation A := (app W NW B D).

Definition ignore {X} (m : M A X) : M A unit := let! _ := m in ret tt.

(** ** NATS callbacks *)

Definition subscribeToChatNATS (localSID chatID : string) : M A unit :=
  ignore (on_nats (SubscribeToChat chatID localSID (OnChat localSID))).

Definition on_chat (localSID : string) (data : json) : M A unit :=
  match unmarshal_ChatEvent data with
  | None => ret tt
  | Some event =>
      if bool_decide (ev_From event = localSID) then ret tt
      else if bool_decide (ev_Type event = "message") then
        let! e := SendMessage localSID (chat_msg (ev_Text event) (ev_Ts event)) in
        match e with Some _ => ret tt | None => metric inc_received end
      else if bool_decide (ev_Type event = "typing") then
        ignore (SendMessage localSID (typing_msg (ev_IsTyping event)))
      else if bool_decide (ev_Type event = "partner_left") then
        do! ignore (SendMessage localSID partner_left_msg) in
        do! ignore (on_nats (UnsubscribeFromChat localSID)) in
        ignore (on_world (ClearChatID localSID))
      else ret tt
  end.

Definition on_moderation_result (sid : string) (data : json) : M A unit :=
  match unmarshal_ModerationResult data with
  | None => ret tt
  | Some modResult =>
      if negb (mres_Blocked modResult) then ret tt
      else ignore (SendMessage sid
             (error_msg "content_warning" "Your message was flagged by our moderation system"))
  end.

Definition on_match_notify (sid : string) (data : json) : M A unit :=
  match unmarshal_MatchNotification data with
  | None => ret tt
  | Some notif =>
      do! (if bool_decide (mn_Type notif = "accepted") then
             do! subscribeToChatNATS sid (mn_ChatID notif) in
             do! ignore (on_world (SetChatID sid (mn_ChatID notif))) in
             do! ignore (on_nats (SubscribeModerationResult sid (OnModerationResult sid))) in
             ignore (SendMessage sid (match_accepted_msg (mn_ChatID notif)))
           else if bool_decide (mn_Type notif = "declined" ∨ mn_Type notif = "timed_out") then
             do! ignore (SendMessage sid match_declined_msg) in
             ignore (on_world (UpdateStatus sid StatusIdle))
           else ret tt) in
      ignore (on_nats (UnsubscribeMatchNotify sid))
  end.

Definition on_match_found (sid : string) (data : json) : M A unit :=
  match unmarshal_MatchResult data with
  | None => ret tt
  | Some (result, shared) =>
      do! (if Matcher.Timeout result then
             do! ignore (SendMessage sid match_timeout_msg) in
             ignore (on_world (UpdateStatus sid StatusIdle))
           else
             do! ignore (SendMessage sid
                   (match_found_msg (mr_ChatID result) shared (mr_AcceptDeadline result))) in
             do! ignore (on_nats (UnsubscribeMatchNotify sid)) in
             ignore (on_nats (SubscribeMatchNotify sid (OnMatchNotify sid)))) in
      ignore (on_nats (UnsubscribeMatchFound sid))
  end.

(** The closure of a subscription, run on a message. *)
Definition deliver (cb : callback) (data : json) : M A unit :=
  match cb with
  | OnChat sid => on_chat sid data
  | OnMatchFound sid => on_match_found sid data
  | OnMatchNotify sid => on_match_notify sid data
  | OnModerationResult sid => on_moderation_result sid data
  end.

(** ** Disconnects *)

(** A chat read with its error dropped: [cs, _ := chatStore.Get(...)]. *)
Definition get_chat (chatID : string) : M A (option ChatSession) :=
  let! r := on_world (ChatStore.Get chatID) in
  ret match r with Ok cs => cs | Err _ => None end.

Definition onDisconnect (connID : string) : M A unit :=
  let! r := on_world (SessionStore.Get connID) in
  match r with
  | Err _ | Ok None => ret tt
  | Ok (Some sess) =>
      do! (if bool_decide (SessionStore.Status sess = StatusMatching) then
             do! ignore (on_world (PublishMatchCancel
                   (marshal_CancelRequest {| cancel_SessionID := connID |}))) in
             do! ignore (on_nats (UnsubscribeMatchFound connID)) in
             ignore (on_nats (UnsubscribeMatchNotify connID))
           else ret tt) in
      if bool_decide (SessionStore.ChatID sess = "") then ret tt
      else
        let! cs := get_chat (SessionStore.ChatID sess) in
        do! (match cs with
             | Some cs =>
                 if IsParticipant cs connID then
                   do! ignore (on_world (PublishChatMessage (SessionStore.ChatID sess) (left_event connID))) in
                   do! ignore (on_nats (UnsubscribeFromChat connID)) in
                   do! ignore (on_nats (UnsubscribeModerationResult connID)) in
                   ignore (on_world (ChatStore.Delete (SessionStore.ChatID sess)))
                 else ret tt
             | None => ret tt
             end) in
        buffer_Remove (SessionStore.ChatID sess)
  end.

Definition removeConnection (c : loc) : M A unit := RemoveConnection onDisconnect c.

(** ** Message handlers *)

Definition handle_set_fingerprint (conn : loc) (fpMsg : SetFingerprintMsg) : M A unit :=
  let! sid := conn_id conn in
  if bool_decide (fp_Fingerprint fpMsg = "") then ret tt
  else
  let! e := on_world (SetFingerprint sid (fp_Fingerprint fpMsg)) in
  match e with
  | Some _ => ret tt
  | None =>
      let! r := on_world (IsBanned (fp_Fingerprint fpMsg)) in
      match r with
      | (_, _, _, Some _) => ret tt
      | (banned, remaining, reason, None) =>
          if banned then
            do! reply conn (banned_msg remaining reason) in
            removeConnection conn
          else ret tt
      end
  end.

Definition handle_find_match (conn : loc) (findMsg : FindMatchMsg) : M A unit :=
  let! sid := conn_id conn in
  let! '(allowed, _) := on_world (Allow sid RuleMatch) in
  if negb allowed then reply conn (rate_limited_msg RuleMatch)
  else
  let interests := CheckInterests contentFilter (fm_Interests findMsg) in
  do! ignore (on_world (SetInterests sid (Join interests ","))) in
  do! ignore (on_world (UpdateStatus sid StatusMatching)) in
  do! ignore (on_world (PublishMatchRequest
        (marshal_MatchRequest {| req_SessionID := sid; req_Interests := interests |}))) in
  do! ignore (on_nats (UnsubscribeMatchFound sid)) in
  do! ignore (on_nats (SubscribeMatchFound sid (OnMatchFound sid))) in
  reply conn matching_started_msg.

Definition handle_cancel_match (conn : loc) : M A unit :=
  let! sid := conn_id conn in
  do! ignore (on_world (PublishMatchCancel (marshal_CancelRequest {| cancel_SessionID := sid |}))) in
  do! ignore (on_nats (UnsubscribeMatchFound sid)) in
  do! ignore (on_nats (UnsubscribeMatchNotify sid)) in
  ignore (on_world (UpdateStatus sid StatusIdle)).

Definition handle_accept_match (conn : loc) (acceptMsg : AcceptMatchMsg) : M A unit :=
  let! sid := conn_id conn in
  let chatID := am_ChatID acceptMsg in
  let! '(result, err) := on_world (AcceptMatch chatID sid) in
  match err with
  | Some _ => ret tt
  | None =>
      if bool_decide (result = 1) then
        do! metric (add_ActiveChats 1) in
        do! subscribeToChatNATS sid chatID in
        do! ignore (on_world (SetChatID sid chatID)) in
        do! ignore (on_nats (SubscribeModerationResult sid (OnModerationResult sid))) in
        do! ignore (SendMessage sid (match_accepted_msg chatID)) in
        let! cs := get_chat chatID in
        do! (match cs with
             | Some cs => ignore (on_world (PublishMatchNotify (GetPartner cs sid) (notification "accepted" chatID)))
             | None => ret tt
             end) in
        ignore (on_nats (UnsubscribeMatchNotify sid))
      else ret tt
  end.

Definition handle_decline_match (conn : loc) (declineMsg : DeclineMatchMsg) : M A unit :=
  let! sid := conn_id conn in
  let chatID := dm_ChatID declineMsg in
  let! cs := get_chat chatID in
  match cs with
  | None => ret tt
  | Some cs =>
      let partnerID := GetPartner cs sid in
      do! ignore (on_world (ChatStore.Delete chatID)) in
      do! ignore (on_world (PublishMatchNotify partnerID (notification "declined" chatID))) in
      do! ignore (on_nats (UnsubscribeMatchNotify sid)) in
      ignore (on_world (UpdateStatus sid StatusIdle))
  end.

Definition handle_message (conn : loc) (chatMsg : ChatMsg) : M A unit :=
  let! sid := conn_id conn in
  let! '(allowed, _) := on_world (Allow sid RuleMessage) in
  if negb allowed then reply conn (rate_limited_msg RuleMessage)
  else
  match ValidateMessage (cmsg_Text chatMsg) with
  | Some err => reply conn (error_msg "invalid_message" err)
  | None =>
  if Blocked (Check contentFilter (cmsg_Text chatMsg)) then
    do! metric inc_blocked in
    reply conn (error_msg "message_blocked" "Message contains prohibited content")
  else
  let! r := on_world (ChatStore.Get (cmsg_ChatID chatMsg)) in
  let invalid := reply conn (error_msg "invalid_chat" "not in an active chat") in
  match r with
  | Err _ | Ok None => invalid
  | Ok (Some cs) =>
      if negb (IsParticipant cs sid) || bool_decide (ChatStore.Status cs ≠ StatusActive) then invalid
      else
        do! metric inc_sent in
        let! t := now_ in
        let now := Unix t in
        do! ignore (on_world (PublishChatMessage (cmsg_ChatID chatMsg)
              (message_event sid (cmsg_Text chatMsg) now))) in
        do! buffer_Add (cmsg_ChatID chatMsg)
              {| ChatBuffer.From := sid; ChatBuffer.Text := cmsg_Text chatMsg; ChatBuffer.Ts := now |} in
        ignore (on_world (PublishModerationRequest
          (marshal_ModerationRequest {| mreq_SessionID := sid; mreq_ChatID := cmsg_ChatID chatMsg;
                                        mreq_Text := cmsg_Text chatMsg; mreq_Ts := now |})))
  end
  end.

Definition handle_typing (conn : loc) (typingMsg : TypingMsg) : M A unit :=
  let! sid := conn_id conn in
  ignore (on_world (PublishChatMessage (ty_ChatID typingMsg) (typing_event sid (ty_IsTyping typingMsg)))).

Definition handle_end_chat (conn : loc) (endMsg : EndChatMsg) : M A unit :=
  let! sid := conn_id conn in
  let chatID := ec_ChatID endMsg in
  let! cs := get_chat chatID in
  match cs with
  | None => ret tt
  | Some cs =>
      if negb (IsParticipant cs sid) then ret tt
      else
        do! ignore (on_world (PublishChatMessage chatID (left_event sid))) in
        do! metric (add_ActiveChats (-1)) in
        do! ignore (on_nats (UnsubscribeFromChat sid)) in
        do! ignore (on_nats (UnsubscribeModerationResult sid)) in
        do! ignore (on_world (ChatStore.Delete chatID)) in
        do! ignore (on_world (ClearChatID sid)) in
        buffer_Remove chatID
  end.

(** Telling a banned partner and closing its connection, when it is here. *)
Definition notify_banned (partnerID : string) (duration : Z) : M A unit :=
  do! ignore (SendMessage partnerID (banned_msg (Z.quot duration Second) "multiple_reports")) in
  let! c := on_conns (Connection.Get partnerID) in
  match c with
  | Some c => removeConnection c
  | None => ret tt
  end.

Definition handle_report (conn : loc) (reportMsg : ReportMsg) : M A unit :=
  let! sid := conn_id conn in
  let! cs := get_chat (rp_ChatID reportMsg) in
  match cs with
  | None => ret tt
  | Some cs =>
  if negb (IsParticipant cs sid) then ret tt
  else
  let partnerID := GetPartner cs sid in
  if bool_decide (partnerID = "") then ret tt
  else
  let! partner := on_world (SessionStore.Get partnerID) in
  match partner with
  | Err _ | Ok None => ret tt
  | Ok (Some partnerSession) =>
  let fp := Fingerprint partnerSession in
  if bool_decide (fp = "") then ret tt
  else
  let! reporter := on_world (SessionStore.Get sid) in
  let reporterFP := match reporter with Ok (Some s) => Fingerprint s | _ => "" end in
  let! buffered := buffer_Get (rp_ChatID reportMsg) in
  let reportMessages :=
    (λ bm, {| Report.From := ChatBuffer.From bm; Report.Text := ChatBuffer.Text bm;
              Report.Ts := ChatBuffer.Ts bm |}) <$> buffered in
  do! (if bool_decide (reporterFP = "") then ret tt
       else ignore (on_db (Report.Create
              {| ReporterFingerprint := reporterFP; ReportedFingerprint := fp;
                 Report.ChatID := rp_ChatID reportMsg; Report.Reason := rp_Reason reportMsg;
                 Messages := reportMessages |}))) in
  let! '(banned, duration, err) := on_world (ReportAndCheck fp (rp_Reason reportMsg)) in
  match err with
  | Some _ => ret tt
  | None =>
  if banned then notify_banned partnerID duration
  else
    let! '(pgCount, pgErr) := on_db (CountRecent fp (24 * Hour)) in
    match pgErr with
    | Some _ => ret tt
    | None =>
        if bool_decide (pgCount >= AutoBanThreshold) then
          let! '(pgDuration, escErr) := on_world (Escalate fp "multiple_reports") in
          match escErr with
          | Some _ => ret tt
          | None => notify_banned partnerID pgDuration
          end
        else ret tt
    end
  end
  end
  end.

(** A handler behind its type assertion: any other type returns at once. *)
Definition assert_msg {T} (proj : client_msg → option T) (h : loc → T → M A unit) : loc → client_msg → M A unit :=
  λ conn msg, match proj msg with Some m => h conn m | None => ret tt end.

(** The dispatcher's registrations, in the order of main. *)
Definition handlers : gmap string (loc → client_msg → M A unit) :=
  foldl (λ hs h, Register hs h.1 h.2) ∅
   [(TypeSetFingerprint, assert_msg (λ m, match m with CSetFingerprint m => Some m | _ => None end) handle_set_fingerprint);
    (TypeFindMatch, assert_msg (λ m, match m with CFindMatch m => Some m | _ => None end) handle_find_match);
    (TypeCancelMatch, λ conn _, handle_cancel_match conn);
    (TypeAcceptMatch, assert_msg (λ m, match m with CAcceptMatch m => Some m | _ => None end) handle_accept_match);
    (TypeDeclineMatch, assert_msg (λ m, match m with CDeclineMatch m => Some m | _ => None end) handle_decline_match);
    (TypeMessage, assert_msg (λ m, match m with CChat m => Some m | _ => None end) handle_message);
    (TypeTyping, assert_msg (λ m, match m with CTyping m => Some m | _ => None end) handle_typing);
    (TypeEndChat, assert_msg (λ m, match m with CEndChat m => Some m | _ => None end) handle_end_chat);
    (TypeReport, assert_msg (λ m, match m with CReport m => Some m | _ => None end) handle_report)].

Definition onMessage (conn : loc) (data : option json) : M A unit := Dispatch handlers conn data.
End handlers.
