(* ===== verification/Moderator.v ===== *)
(** * cmd/moderator/main.go: the moderation service

    The handler of moderation.check requests. *)

From stdpp Require Import base gmap strings numbers list_basics list_relations list.
From S2P Require Import Prelude GoStd Json Env MemEnv Filter Messaging App.

Section moderator.
Context `{Env W, Unicode}.
Context (filter : Filter).

Definition moderation_check (data : json) : M W unit :=
  match unmarshal_ModerationRequest data with
  | None => ret tt
  | Some req =>
      let result := Check filter (mreq_Text req) in
      if Blocked result then
        let resp := {| mres_SessionID := mreq_SessionID req; mres_ChatID := mreq_ChatID req;
                       mres_Blocked := true; mres_Reason := Reason result; mres_Term := Term result |} in
        let! _ := PublishModerationResult (mreq_SessionID req) (marshal_ModerationResult resp) in
        ret tt
      else ret tt
  end.
End moderator.
