(* ===== verification/HandlerProofs.v ===== *)
(** * Theorems about the handlers of the WebSocket server

    The behaviour of the handlers of Handlers.v on every branch, the routing of
    client messages, the life cycle of a connection, and the agreement of the
    server with the moderation service. *)

From stdpp Require Import base gmap strings numbers list_basics list_relations list.
From S2P Require Import Prelude GoStd Json Env Keys MemEnv Counters ChatBuffer ChatStore SessionStore RateLimit BanStore Validator Report Filter Protocol Messaging Subscriptions Matcher Cleanup Connection App WsServer Handlers Moderator.
Open Scope Z_scope.

(** ** Shared rules *)

(** The keyspace after a counter was bumped. *)
Lemma counter_wf ks ks' k o :
  schema k = Some KStr → ctr_is ks' k o → (∀ k', k' ≠ k → ks' !! k' = ks !! k') →
  wf_ks ks → wf_ks ks'.
Proof.
  intros Hk Ho Hs Hwf k' e He. destruct (decide (k' = k)) as [->|Hne].
  - destruct o as [[n d]|]; cbn in Ho; [destruct Ho as [Ho _]|]; rewrite Ho in He; by simplify_eq.
  - rewrite Hs in He by done. by apply (Hwf k').
Qed.

Lemma hget_lookup ks ks' k : ks' !! k = ks !! k → hget ks' k = hget ks k.
Proof. unfold hget, hash_of. by intros ->. Qed.

Lemma schema_rl_msg id : schema (Key RuleMessage +:+ id) = Some KStr.
Proof. by destruct id. Qed.

Section rules.
Context {W NW B D : Type} `{!Env W, !EnvLaws W, !Net NW, !NetLaws NW}.
Abbreviation A := (app W NW B D).
Implicit Types (s : A).

Lemma wp_conn_id conn c (Q : string → A → Prop) s :
  heap (conns s) !! conn = Some c → Q (Connection.ID c) s → wp (conn_id conn) Q s.
Proof. intros Hc HQ. unfold conn_id. wp_pure. apply wp_get_app. wp_pure. by rewrite (deref_heap _ _ _ Hc). Qed.

(** A reply reaches the peer or is lost; nothing else changes. *)
Lemma wp_reply conn c data (Q : unit → A → Prop) s :
  heap (conns s) !! conn = Some c →
  (∀ n', opened n' = opened (net (conns s)) →
     (frames n' = frames (net (conns s)) ∨ frames n' = frames (net (conns s)) ++ [(Conn c, data)]) →
     Q tt (set_conns (Hub (heap (conns s)) (byID (conns s)) (byFd (conns s)) (ep_connections (conns s)) n') s)) →
  wp (reply conn data) Q s.
Proof.
  intros Hc HQ. unfold reply. wp_pure. apply wp_on_conns, wp_WriteMessage. intros e n' Ho Hf.
  wp_pure. apply HQ; [done|]. rewrite (deref_heap _ _ _ Hc) in Hf.
  destruct e; [left; by rewrite app_nil_r in Hf|by right].
Qed.
End rules.

(** ** Sending a message *)

Inductive msg_outcome : Type :=
  | MLimited
  | MInvalid (err : error)
  | MBlocked
  | MNoChat
  | MSent.
#[export] Instance msg_outcome_eq_dec : EqDecision msg_outcome.
Proof. solve_decision. Defined.

Section message.
Context `{Unicode}.
Context (f : Filter).

(** The verdict on a message of [sid]: [count] messages were counted in the
    window before it, [h] is the hash of the chat it names. *)
Definition message_outcome (count : Z) (sid : string) (m : ChatMsg) (h : gmap string string) : msg_outcome :=
  if negb (bool_decide (count + 1 ≤ 5)) then MLimited
  else match ValidateMessage (cmsg_Text m) with
  | Some err => MInvalid err
  | None =>
      if Blocked (Check f (cmsg_Text m)) then MBlocked
      else if bool_decide (h !! "status" = Some "active"
                           ∧ (sid = default "" (h !! "user_a") ∨ sid = default "" (h !! "user_b")))
           then MSent else MNoChat
  end.

(** What is published for it, and what the sender is told. *)
Definition message_published (r : msg_outcome) (sid : string) (m : ChatMsg) (now : Z) : list (string * json) :=
  match r with
  | MSent =>
      [("chat." +:+ cmsg_ChatID m, message_event sid (cmsg_Text m) now);
       ("moderation.check", marshal_ModerationRequest
          {| mreq_SessionID := sid; mreq_ChatID := cmsg_ChatID m; mreq_Text := cmsg_Text m; mreq_Ts := now |})]
  | _ => []
  end.

Definition message_reply (r : msg_outcome) : option json :=
  match r with
  | MLimited => Some (NewServerMessage "rate_limited" [("type", JStr ""); ("retry_after", JNum 10)])
  | MInvalid err => Some (error_msg "invalid_message" err)
  | MBlocked => Some (error_msg "message_blocked" "Message contains prohibited content")
  | MNoChat => Some (error_msg "invalid_chat" "not in an active chat")
  | MSent => None
  end.

Lemma outcome_chat sid m h :
  (if bool_decide (h = ∅) then false
   else IsParticipant (session_of_hash (cmsg_ChatID m) h) sid
        && bool_decide (ChatStore.Status (session_of_hash (cmsg_ChatID m) h) = StatusActive))
  = bool_decide (h !! "status" = Some "active"
                 ∧ (sid = default "" (h !! "user_a") ∨ sid = default "" (h !! "user_b"))).
Proof.
  case_bool_decide as He; [subst; rewrite bool_decide_false; [done|]; intros [? _]; done|].
  unfold IsParticipant, session_of_hash, StatusActive. cbn.
  destruct (h !! "status") as [st|]; cbn.
  - apply eq_true_iff_eq. rewrite andb_true_iff, orb_true_iff, !bool_decide_eq_true. naive_solver.
  - rewrite (bool_decide_eq_false_2 (_ = "active")) by discriminate. rewrite andb_false_r. symmetry. apply bool_decide_eq_false. naive_solver.
Qed.
End message.

Section message_theorems.
Context {W NW B D : Type} `{!Env W, !EnvLaws W, !Net NW, !NetLaws NW, !Unicode}.
Context (f : Filter).
Abbreviation A := (app W NW B D).
Implicit Types (s : A).

(** What a message does to the state, given its outcome. *)
Record message_effect (r : msg_outcome) (conn : loc) (c : Connection) (m : ChatMsg)
    (hist : string → list BufferedMessage) (s s' : A) : Prop := {
  me_published : published (world s') =
    published (world s) ++ message_published r (Connection.ID c) m (Unix (wall (world s)));
  me_frames : frames (net (conns s')) = frames (net (conns s)) ∨
    ∃ j, message_reply r = Some j ∧ frames (net (conns s')) = frames (net (conns s)) ++ [(Conn c, j)];
  me_buffer : buf_rep (msgBuffer s') (λ chat,
    if bool_decide (r = MSent ∧ cmsg_ChatID m = chat)
    then hist chat ++ [{| ChatBuffer.From := Connection.ID c; ChatBuffer.Text := cmsg_Text m;
                          ChatBuffer.Ts := Unix (wall (world s)) |}]
    else hist chat);
  me_keys : ∀ k, k ≠ Key RuleMessage +:+ Connection.ID c →
    keyspace (world s') !! k = keyspace (world s) !! k;
  me_panic : panicked s' = panicked s;
}.

(** The branches that end with an answer to the sender. *)
Lemma wp_message_reply r conn c m hist j s0 s :
  heap (conns s0) !! conn = Some c → conns s = conns s0 → msgBuffer s = msgBuffer s0 →
  panicked s = panicked s0 → published (world s) = published (world s0) →
  (∀ k, k ≠ Key RuleMessage +:+ Connection.ID c →
     keyspace (world s) !! k = keyspace (world s0) !! k) →
  buf_rep (msgBuffer s0) hist → r ≠ MSent → message_reply r = Some j →
  wp (reply conn j) (λ _ s', message_effect r conn c m hist s0 s') s.
Proof.
  intros Hc Hcs Hb Hp Hpub Hk Hrep Hr Hj. eapply wp_reply; [by rewrite Hcs|].
  intros n' _ Hf. rewrite Hcs in *. split; cbn.
  - rewrite Hpub. destruct r; try done; by rewrite app_nil_r.
  - destruct Hf; [by left|right; eauto].
  - rewrite Hb. intros chat. rewrite bool_decide_false by naive_solver. apply Hrep.
  - done.
  - done.
Qed.

(** C4: Every message a client sends is judged in one fixed order and has
    exactly the effects of its verdict: over the rate limit, invalid text,
    blocked by the filter, or not a participant of an active chat, and then
    nothing is published, the buffer is unchanged and the sender at most gets
    the answer of that verdict; otherwise the event goes once to the chat's
    subject and once to moderation, the message enters the chat's buffer, and
    the sender gets no frame.  Redis is touched at the sender's rate counter
    only, and no index panics. *)
Theorem handle_message_spec s conn c m o hist :
  heap (conns s) !! conn = Some c → up (world s) → wf_ks (keyspace (world s)) →
  ctr_is (keyspace (world s)) (Key RuleMessage +:+ Connection.ID c) o → ctr_count o < max_int64 →
  buf_rep (msgBuffer s) hist →
  let r := message_outcome f (ctr_count o) (Connection.ID c) m
             (hget (keyspace (world s)) ("chat:" +:+ cmsg_ChatID m)) in
  message_effect r conn c m hist s (handle_message f conn m s).2.
Proof.
  intros Hc Hup Hwf Ho Hlt Hrep r.
  change (wp (handle_message f conn m) (λ _ s', message_effect r conn c m hist s s') s).
  unfold handle_message. wp_pure. eapply wp_conn_id; [exact Hc|]. wp_pure. apply wp_on_world.
  eapply wp_Allow; [done|exact Ho|done|done|]. intros w1 Hup1 (Hcl1 & Hwl1 & Hpub1) Ho1 Hk1. wp_pure.
  assert (Hwf1 : wf_ks (keyspace w1)) by (eapply counter_wf; eauto using schema_rl_msg).
  unfold r, message_outcome. cbn [Limit RuleMessage].
  destruct (bool_decide (ctr_count o + 1 ≤ 5)); cbn [negb]; [|by eapply wp_message_reply].
  destruct (ValidateMessage (cmsg_Text m)) as [err|]; [by eapply wp_message_reply|].
  destruct (Blocked (Check f (cmsg_Text m))).
  { wp_pure. apply wp_metric. by eapply wp_message_reply. }
  wp_pure. apply wp_on_world. apply wp_Get; [done|done|]. intros w2 (Hk2 & (Hcl2 & Hwl2 & Hpub2) & Hup2).
  cbn [world set_world] in *. cbv zeta.
  rewrite (hget_lookup _ _ _ (Hk1 (ChatPrefix +:+ cmsg_ChatID m) ltac:(done))).
  change ("chat:" +:+ cmsg_ChatID m) with (ChatPrefix +:+ cmsg_ChatID m).
  set (h := hget (keyspace (world s)) (ChatPrefix +:+ cmsg_ChatID m)).
  assert (Hinv : wp (reply conn (error_msg "invalid_chat" "not in an active chat"))
     (λ _ s', message_effect MNoChat conn c m hist s s') (set_world w2 (set_world w1 s))).
  { eapply wp_message_reply; try done; cbn; [congruence|]. intros k Hk. rewrite Hk2. auto. }
  rewrite <-(outcome_chat _ m h). case_bool_decide; wp_pure; [exact Hinv|].
  set (cs := session_of_hash _ h).
  destruct (IsParticipant cs (Connection.ID c)); [|exact Hinv]. cbn [negb orb andb].
  destruct (decide (ChatStore.Status cs = StatusActive)) as [Hst|Hst];
    [|rewrite (bool_decide_eq_false_2 (ChatStore.Status cs = _)), bool_decide_true by done; exact Hinv].
  rewrite (bool_decide_eq_true_2 (ChatStore.Status cs = _)), bool_decide_false by tauto. clear Hinv.
  wp_pure. apply wp_metric. wp_pure. apply wp_on_world, wp_now. wp_pure. cbn [world set_world set_metrics].
  unfold ignore. wp_pure. apply wp_on_world, wp_publish; [auto|].
  cbn [world set_world set_metrics]. intros w3 Hup3 Hk3 Hcl3 Hwl3 Hpub3. wp_pure.
  match goal with |- wp (buffer_Add _ ?x) _ _ => set (msg := x) end.
  destruct (Add_rep (msgBuffer s) hist (cmsg_ChatID m) msg Hrep) as (b' & Eb & Hrep').
  eapply wp_buffer_Add; [exact Eb|]. wp_pure. apply wp_on_world, wp_publish; [done|].
  cbn [world set_world set_metrics set_buffer]. intros w4 Hup4 Hk4 Hcl4 Hwl4 Hpub4. wp_pure.
  split; cbn [world conns msgBuffer panicked set_world set_metrics set_buffer].
  - rewrite Hpub4, Hpub3, Hpub2, Hpub1, Hwl2, Hwl1, <-app_assoc. reflexivity.
  - by left.
  - unfold msg in Hrep'. rewrite Hwl2, Hwl1 in Hrep'. intros chat. specialize (Hrep' chat).
    rewrite (bool_decide_ext (MSent = MSent ∧ _) (cmsg_ChatID m = chat)) by tauto. exact Hrep'.
  - intros k Hk. rewrite Hk4, Hk3, Hk2. auto.
  - done.
Qed.
End message_theorems.

(** ** Routing *)

Section routing.
Context {W NW B D : Type} `{!Env W, !Net NW, !Broker callback B, !ReportDB D, !Unicode}.
Context (f : Filter).
Abbreviation A := (app W NW B D).
Implicit Types (s : A).

(** Each kind of message goes to its handler, with the struct it asserts. *)
Definition route (conn : loc) (msg : client_msg) : M A unit :=
  match msg with
  | CSetFingerprint m => handle_set_fingerprint conn m
  | CFindMatch m => handle_find_match f conn m
  | CCancelMatch _ => handle_cancel_match conn
  | CAcceptMatch m => handle_accept_match conn m
  | CDeclineMatch m => handle_decline_match conn m
  | CChat m => handle_message f conn m
  | CTyping m => handle_typing conn m
  | CEndChat m => handle_end_chat conn m
  | CReport m => handle_report conn m
  | CPing _ => sendPong conn
  end.

(** C26: Routing is total and type-safe: for every frame the dispatcher with the
    handlers main registers either answers parse_error, exactly when parsing
    fails, or runs the handler of the parsed message's kind on that very
    message; no type assertion fails and the unsupported_type answer is never
    given. *)
Theorem dispatch_routes conn (data : option json) s :
  onMessage f conn data s =
  match ParseClientMessage data with
  | (_, Some msg, None) => route conn msg s
  | _ => sendError conn "parse_error" "invalid message format" s
  end.
Proof.
  unfold onMessage, Dispatch. pose proof (parse_client_sound data) as Hp.
  destruct (ParseClientMessage data) as [[t [msg|]] [e|]]; try done.
  destruct Hp as (_ & Hk & _ & _). destruct msg; cbn in Hk; subst t; reflexivity.
Qed.
End routing.

(** ** Events of a chat *)

Section chat_events.
Context {W NW B D : Type} `{!Env W, !Net NW, !Broker callback B}.
Abbreviation A := (app W NW B D).
Implicit Types (s : A).

(** C27: Chat events are never echoed and are anonymous: the subscription of a
    session does nothing on an event the session itself sent; on any other
    event its behaviour, state and frames alike, does not depend on who sent
    it; and a text message becomes one send of a frame that names the sender
    only as "partner", with the text and time of the event. *)
Theorem chat_events_anonymous (p q q' type text : string) (typing : bool) (ts : Z) s :
  let ev from := marshal_ChatEvent {| ev_Type := type; ev_From := from; ev_Text := text;
                                      ev_IsTyping := typing; ev_Ts := ts |} in
  on_chat p (ev p) s = (tt, s)
  ∧ (q ≠ p → q' ≠ p → on_chat p (ev q) s = on_chat p (ev q') s)
  ∧ (q ≠ p → type = "message" →
     let '(e, s') := SendMessage p (chat_msg text ts) s in
     on_chat p (ev q) s = (tt, match e with Some _ => s' | None => set_metrics (inc_received (metrics s')) s' end)).
Proof.
  intros ev. unfold on_chat, ev. rewrite !unmarshal_marshal_event. cbn [ev_From ev_Type ev_Text ev_Ts ev_IsTyping].
  rewrite bool_decide_true by done. split; [done|]. split.
  - intros Hq Hq'. by rewrite (bool_decide_eq_false_2 (q = p)), (bool_decide_eq_false_2 (q' = p)) by done.
  - intros Hq ->. rewrite (bool_decide_eq_false_2 (q = p)), bool_decide_true by done. unfold bind.
    destruct (SendMessage p (chat_msg text ts) s) as [[e|] s']; done.
Qed.
End chat_events.

(** ** The moderation service *)

Section moderation.
Context {W NW B D : Type} `{!Env W, !EnvLaws W, !Net NW, !Unicode}.
Context (f : Filter).
Abbreviation A := (app W NW B D).
Implicit Types (s : A).

(** Whatever the services answer, publishing appends. *)
Lemma wp_ignore_publish subj data (Q : unit → A → Prop) s :
  (∀ w', published w' = published (world s) ∨ published w' = published (world s) ++ [(subj, data)] →
     Q tt (set_world w' s)) →
  wp (ignore (on_world (Publish subj data))) Q s.
Proof.
  intros HQ. unfold ignore, Publish. wp_pure. apply wp_on_world, wp_intro. intros [e|] w' E; wp_pure; apply HQ.
  - left. by eapply publish_err.
  - right. by eapply publish_ok.
Qed.

(** The rate limiter and the stores publish nothing. *)
Lemma allow_published id rule (w : W) : published (Allow id rule w).2 = published w.
Proof.
  change (wp (Allow id rule) (λ _ w', published w' = published w) w). unfold Allow. wp_pure.
  apply wp_rd_any; [|intros e w1 (_ & _ & Hp1); by wp_pure]. intros n w1 (_ & _ & Hp1) _. wp_pure.
  destruct (bool_decide (n = 1)); wp_pure; [|by case_bool_decide; wp_pure].
  apply wp_rd_any; intros x w2 (_ & _ & Hp2); [intros _|]; wp_pure.
  - case_bool_decide; wp_pure; congruence.
  - apply wp_rd_any; intros ? w3 (_ & _ & Hp3); [intros _|]; wp_pure; congruence.
Qed.

Lemma chat_get_published id (w : W) : published (ChatStore.Get id w).2 = published w.
Proof.
  change (wp (ChatStore.Get id) (λ _ w', published w' = published w) w). unfold ChatStore.Get. wp_pure.
  apply wp_rd_any; intros ? w1 (_ & _ & Hp1); [intros _|]; by wp_pure.
Qed.

(** What is published in reaction to a message, in any world. *)
Lemma message_publishes conn m s :
  ∃ new, published (world (handle_message f conn m s).2) = published (world s) ++ new
    ∧ ∀ subj data, (subj, data) ∈ new →
        ValidateMessage (cmsg_Text m) = None ∧ Blocked (Check f (cmsg_Text m)) = false
        ∧ (subj = SubjectModeration →
           ∃ req, data = marshal_ModerationRequest req ∧ mreq_Text req = cmsg_Text m).
Proof.
  change (wp (handle_message f conn m) (λ _ s', ∃ new, published (world s') = published (world s) ++ new
    ∧ ∀ subj data, (subj, data) ∈ new →
        ValidateMessage (cmsg_Text m) = None ∧ Blocked (Check f (cmsg_Text m)) = false
        ∧ (subj = SubjectModeration →
           ∃ req, data = marshal_ModerationRequest req ∧ mreq_Text req = cmsg_Text m)) s).
  set (Q := λ (_ : unit) (s' : A), _).
  assert (Hreply : ∀ j s1, published (world s1) = published (world s) → wp (reply conn j) Q s1).
  { intros j s1 Hs1. unfold reply. wp_pure. apply wp_on_conns, wp_intro. intros e h' _. wp_pure.
    exists []. split; [by rewrite app_nil_r|]. by intros ?? ?%elem_of_nil. }
  unfold handle_message. wp_pure. unfold conn_id. wp_pure. apply wp_get_app. wp_pure.
  apply wp_on_world, wp_intro. intros [allowed e] w1 E1.
  pose proof (allow_published (Connection.ID (deref (conns s) conn)) RuleMessage (world s)) as Hp1.
  rewrite E1 in Hp1. wp_pure.
  destruct allowed; cbn [negb]; [|by apply Hreply].
  destruct (ValidateMessage (cmsg_Text m)) eqn:EV; [by apply Hreply|].
  destruct (Blocked (Check f (cmsg_Text m))) eqn:EB; [wp_pure; by apply wp_metric, Hreply|].
  wp_pure. apply wp_on_world, wp_intro. intros r w2 E2.
  pose proof (chat_get_published (cmsg_ChatID m) w1) as Hp2. cbn [world set_world] in E2. rewrite E2 in Hp2.
  cbn [snd] in *. assert (published w2 = published (world s)) as Hp by congruence. wp_pure.
  destruct r as [[cs|]|]; [|by apply Hreply..].
  destruct (_ || _); [by apply Hreply|]. wp_pure. apply wp_metric. wp_pure.
  apply wp_on_world, wp_now. wp_pure. apply wp_ignore_publish. cbn [world set_world set_metrics].
  intros w3 Hp3. wp_pure.
  apply wp_intro. intros [] s3 E3.
  assert (world s3 = w3) as Hw3.
  { unfold buffer_Add, panic in E3. destruct (ChatBuffer.Add _ _ _); by simplify_eq/=. }
  apply wp_ignore_publish. intros w4 Hp4. rewrite Hw3 in Hp4. unfold Q. cbn [world set_world].
  set (e1 := (subject SubjectChat (cmsg_ChatID m), _ : json)) in Hp3.
  set (e2 := (SubjectModeration, _ : json)) in Hp4.
  assert (∃ new, published w4 = published (world s) ++ new ∧ new ⊆ [e1; e2]) as (new & -> & Hsub).
  { rewrite <-Hp. destruct Hp3 as [E|E], Hp4 as [E'|E']; rewrite E', E, <-?app_assoc; cbn;
      [exists []; rewrite app_nil_r|exists [e2]|exists [e1]|exists [e1; e2]]; (split; [done|set_solver]). }
  exists new. split; [done|]. intros subj data Hin%Hsub. split; [done|]. split; [done|].
  intros ->. apply elem_of_cons in Hin as [[=]|Hin]. apply list_elem_of_singleton in Hin.
  unfold e2 in Hin. injection Hin as ->. by eexists.
Qed.

(** C28: The moderation service agrees with the server: on any request it
    publishes one result for the sender exactly when the filter blocks the text,
    with the filter's reason and term; and it stays silent on every request the
    server sends for a message it let through, as both apply the same filter, so
    no message that was delivered is flagged afterwards. *)
Theorem moderation_agrees conn m s data (w : W) :
  (SubjectModeration, data) ∈
    drop (length (published (world s))) (published (world (handle_message f conn m s).2)) →
  moderation_check f data w = (tt, w)
  ∧ ∀ req w', up w' →
      published (moderation_check f (marshal_ModerationRequest req) w').2 = published w' ++
        let result := Check f (mreq_Text req) in
        if Blocked result
        then [("moderation.result." +:+ mreq_SessionID req, marshal_ModerationResult
                {| mres_SessionID := mreq_SessionID req; mres_ChatID := mreq_ChatID req;
                   mres_Blocked := true; mres_Reason := Reason result; mres_Term := Term result |})]
        else [].
Proof.
  intros Hin. destruct (message_publishes conn m s) as (new & E & Hnew).
  rewrite E, drop_app_length in Hin. destruct (Hnew _ _ Hin) as (_ & HB & Hreq).
  destruct (Hreq eq_refl) as (req & -> & Ht). split.
  - unfold moderation_check. rewrite unmarshal_marshal_mreq, Ht, HB. done.
  - intros req' w' Hup. unfold moderation_check. rewrite unmarshal_marshal_mreq. cbv zeta.
    destruct (Blocked (Check f (mreq_Text req'))); cbv iota; [|symmetry; apply app_nil_r].
    set (data := marshal_ModerationResult _).
    change (wp (let! _ := PublishModerationResult (mreq_SessionID req') data in ret tt)
      (λ _ w'', published w'' = published w' ++ [("moderation.result." +:+ mreq_SessionID req', data)]) w').
    wp_pure. apply wp_publish; [done|]. intros w'' _ _ _ _ Hp. wp_pure. exact Hp.
Qed.
End moderation.

(** ** A sample process *)

Definition sample_world : mem :=
  (CreatePending "c1" "alice" "bob" (mem_fresh 1700000000000)).2.
Definition sample_active : mem :=
  (AcceptMatch "c1" "bob" (AcceptMatch "c1" "alice" sample_world).2).2.

Definition sample_hub : hub mem_net :=
  (range_do [CAccept "alice" 1700000000000; CAccept "bob" 1700000000000] conn_do
     (NewConnectionManager (MemNet ∅ [] []))).2.

Definition sample_app : app mem mem_net (mem_broker callback) table :=
  App sample_active sample_hub (Client ∅ (MemBroker 0 ∅)) NewMessageBuffer (Table 0 [])
      (Metrics 2 1 0 0 0) false false.

Definition sample_msg : ChatMsg := {| cmsg_Type := "message"; cmsg_ChatID := "c1"; cmsg_Text := "hello" |}.

Definition sample_conn : Connection :=
  {| ID := "alice"; Conn := 0; Fd := 0; CreatedAt := 1700000000000; LastPing := 1700000000000;
     processing := false |}.

Example sample_outcome :
  message_outcome sample_filter 0 "alice" sample_msg (hget (keyspace sample_active) ("chat:" +:+ "c1")) = MSent.
Proof. vm_compute. reflexivity. Qed.

Lemma handle_message_spec_witness :
  message_effect (message_outcome sample_filter 0 "alice" sample_msg
      (hget (keyspace sample_active) ("chat:" +:+ "c1"))) 0%nat sample_conn sample_msg (λ _, [])
    sample_app (handle_message sample_filter 0%nat sample_msg sample_app).2.
Proof.
  apply (handle_message_spec sample_filter sample_app 0%nat sample_conn sample_msg None (λ _, [])).
  - vm_compute. reflexivity.
  - vm_compute. reflexivity.
  - apply (bool_decide_unpack _). vm_compute. exact I.
  - vm_compute. reflexivity.
  - vm_compute. reflexivity.
  - intros c. split; [done|]. reflexivity.
Defined.

Definition sample_request : json :=
  marshal_ModerationRequest {| mreq_SessionID := "alice"; mreq_ChatID := "c1"; mreq_Text := "hello";
                               mreq_Ts := 1700000000 |}.

Lemma moderation_agrees_witness :
  moderation_check sample_filter sample_request sample_world = (tt, sample_world)
  ∧ ∀ req w', up w' →
      published (moderation_check sample_filter (marshal_ModerationRequest req) w').2 = published w' ++
        let result := Check sample_filter (mreq_Text req) in
        if Blocked result
        then [("moderation.result." +:+ mreq_SessionID req, marshal_ModerationResult
                {| mres_SessionID := mreq_SessionID req; mres_ChatID := mreq_ChatID req;
                   mres_Blocked := true; mres_Reason := Reason result; mres_Term := Term result |})]
        else [].
Proof.
  apply (moderation_agrees sample_filter 0%nat sample_msg sample_app sample_request sample_world).
  vm_compute. right. left.
Defined.
