(* ===== verification/LifeCycle.v ===== *)
(** * Theorems about connections and chats over their life

    Accepting and removing connections ([handleUpgrade], [RemoveConnection]),
    and ending a chat ([handle_end_chat], [onDisconnect],
    [handle_decline_match]). *)

From stdpp Require Import base gmap strings numbers list_basics list_relations list.
From S2P Require Import Prelude GoStd Json Env Keys MemEnv Counters ChatBuffer ChatStore SessionStore RateLimit BanStore Validator Report Filter Protocol Messaging Subscriptions Matcher Cleanup Connection App WsServer Handlers HandlerProofs.
Open Scope Z_scope.

(** ** Computations that leave the connections alone *)

Definition keeps {W NW B D X} (m : M (app W NW B D) X) : Prop := ∀ s, conns (m s).2 = conns s.

Section keeps.
Context {W NW B D : Type} {X Y : Type}.
Abbreviation A := (app W NW B D).

Lemma keeps_ret (x : X) : keeps (ret x : M A X).
Proof. done. Qed.
Lemma keeps_bind (m : M A X) (k : X → M A Y) : keeps m → (∀ x, keeps (k x)) → keeps (bind m k).
Proof.
  intros Hm Hk s. specialize (Hm s). unfold bind. destruct (m s) as [x s'] eqn:E. cbn in Hm.
  rewrite <-Hm. apply Hk.
Qed.
Lemma keeps_world (m : M W X) : keeps (on_world m : M A X).
Proof. intros s. unfold on_world. by destruct (m (world s)). Qed.
Lemma keeps_nats (m : M (NATSClient B) X) : keeps (on_nats m : M A X).
Proof. intros s. unfold on_nats. by destruct (m (nats s)). Qed.
Lemma keeps_remove c : keeps (buffer_Remove c : M A unit).
Proof. done. Qed.
End keeps.
#[export] Hint Resolve keeps_ret keeps_world keeps_nats keeps_remove : go.

Ltac solve_keeps :=
  repeat first
    [ solve [auto with go]
    | apply keeps_bind; [|intros ?]
    | match goal with |- keeps (match ?x with _ => _ end) => destruct x end ].

Section disconnect_keeps.
Context {W NW B D : Type} `{!Env W, !Broker callback B}.

Lemma onDisconnect_keeps id : keeps (onDisconnect id : M (app W NW B D) unit).
Proof. unfold onDisconnect, get_chat, ignore. solve_keeps. Qed.
End disconnect_keeps.

(** ** The epoll wrapper changes nothing the manager sees *)

Section epoll.
Context `{NetLaws NW}.
Implicit Types (h : hub NW).

Definition epoll_moved h h' : Prop :=
  ∃ ep n', h' = Hub (heap h) (byID h) (byFd h) ep n'
    ∧ opened n' = opened (net h) ∧ frames n' = frames (net h).

Lemma wp_quiet {X} (m : M NW X) (Q : X → hub NW → Prop) h :
  quiet m →
  (∀ x n', opened n' = opened (net h) → frames n' = frames (net h) →
     Q x (Hub (heap h) (byID h) (byFd h) (ep_connections h) n')) →
  wp (on_net m) Q h.
Proof.
  intros Hq HQ. apply wp_on_net, wp_intro. intros x n' E. destruct (Hq (net h)) as [Hf Ho].
  rewrite E in *. by apply HQ.
Qed.

Lemma wp_socketFD_any conn (Q : Z → hub NW → Prop) h :
  (∀ fd n', opened n' = opened (net h) → frames n' = frames (net h) →
     Q fd (Hub (heap h) (byID h) (byFd h) (ep_connections h) n')) →
  wp (socketFD conn) Q h.
Proof. intros HQ. unfold socketFD. wp_pure. apply wp_quiet; [apply quiet_control|]. intros. wp_pure. auto. Qed.

Lemma wp_epoll_Remove conn (Q : option error → hub NW → Prop) h :
  (∀ e h', epoll_moved h h' → Q e h') → wp (epoll_Remove conn) Q h.
Proof.
  intros HQ. unfold epoll_Remove. wp_pure. apply wp_socketFD_any. intros fd n1 Ho1 Hf1. wp_pure.
  apply wp_quiet; [apply quiet_del|]. cbn. intros [e|] n2 Ho2 Hf2; wp_pure.
  - apply HQ. eexists _, n2. split; [done|]. split; congruence.
  - apply wp_get_hub. wp_pure. unfold wp, set_ep. cbn. apply HQ. eexists _, n2. split; [done|]. split; congruence.
Qed.

Lemma wp_epoll_Add conn (Q : option error → hub NW → Prop) h :
  (∀ e h', epoll_moved h h' → Q e h') → wp (epoll_Add conn) Q h.
Proof.
  intros HQ. unfold epoll_Add. wp_pure. apply wp_socketFD_any. intros fd n1 Ho1 Hf1. wp_pure.
  apply wp_quiet; [apply quiet_add|]. cbn. intros [e|] n2 Ho2 Hf2; wp_pure.
  - apply HQ. eexists _, n2. split; [done|]. split; congruence.
  - apply wp_get_hub. wp_pure. unfold wp, set_ep. cbn. apply HQ. eexists _, n2. split; [done|]. split; congruence.
Qed.

Lemma epoll_moved_ok h h' : epoll_moved h h' → conns_ok h → conns_ok h'.
Proof. intros (ep & n' & -> & Ho & _) [H1 H2 H3]. split; cbn; rewrite ?Ho; auto. Qed.
End epoll.

(** ** Removing a connection *)

Section remove.
Context {W NW B D : Type} `{!Env W, !Net NW, !NetLaws NW, !Broker callback B}.
Abbreviation A := (app W NW B D).
Implicit Types (s : A).

(** States that agree on everything but the epoll map and the network. *)
Definition same_app s s' : Prop :=
  world s' = world s ∧ nats s' = nats s ∧ msgBuffer s' = msgBuffer s ∧ db s' = db s
  ∧ metrics s' = metrics s ∧ draining s' = draining s ∧ panicked s' = panicked s
  ∧ epoll_moved (conns s) (conns s').

Lemma wp_Count (Q : Z → hub NW → Prop) h : Q (Z.of_nat (size (byID h))) h → wp Count Q h.
Proof. done. Qed.

(** A connection that is not registered. *)
Lemma wp_remove_gone c (Q : unit → A → Prop) s :
  byID (conns s) !! Connection.ID (deref (conns s) c) = None →
  (∀ s', same_app s s' → Q tt s') →
  wp (removeConnection c) Q s.
Proof.
  intros Hid HQ. unfold removeConnection, RemoveConnection. wp_pure. apply wp_get_app. wp_pure.
  apply wp_on_conns, wp_epoll_Remove. intros e h' Hm. wp_pure. apply wp_on_conns. unfold Connection.Remove.
  wp_pure. apply wp_get_hub. cbn [conns set_conns]. destruct Hm as (ep & n' & -> & Ho & Hf). cbn [byID].
  rewrite Hid. wp_pure. apply HQ. repeat split. by eexists _, _.
Qed.

(** A registered one. *)
Lemma wp_remove_registered c co (Q : unit → A → Prop) s :
  conns_ok (conns s) → heap (conns s) !! c = Some co → byID (conns s) !! Connection.ID co = Some c →
  (∀ s0, world s0 = world s → nats s0 = nats s → msgBuffer s0 = msgBuffer s → db s0 = db s →
     panicked s0 = panicked s →
     metrics s0 = set_ConnectionsTotal (Z.of_nat (size (byID (conns s0)))) (metrics s) →
     heap (conns s0) = heap (conns s) →
     byID (conns s0) = delete (Connection.ID co) (byID (conns s)) →
     byFd (conns s0) = delete (Fd co) (byFd (conns s)) →
     opened (net (conns s0)) = delete (Conn co) (opened (net (conns s))) →
     frames (net (conns s0)) = frames (net (conns s)) →
     conns_ok (conns s0) →
     wp (do! onDisconnect (Connection.ID co) in
         let! _ := on_world (SessionStore.Delete (Connection.ID co)) in ret tt) Q s0) →
  wp (removeConnection c) Q s.
Proof.
  intros Hok Hc Hid HQ. unfold removeConnection, RemoveConnection. wp_pure. apply wp_get_app.
  rewrite (deref_heap _ _ _ Hc). wp_pure.
  apply wp_on_conns, wp_epoll_Remove. intros e h' Hm. wp_pure. apply wp_on_conns.
  pose proof (epoll_moved_ok _ _ Hm Hok) as Hok'. destruct Hm as (ep & n' & -> & Ho & Hf).
  cbn [conns set_conns]. apply wp_Remove; [exact Hok'|cbn; congruence|].
  cbn [byID heap net]. intros l c0 n2 Hl Hc0 _ Hf2 Ho2 Hok2. simplify_eq. wp_pure. cbn [negb].
  wp_pure. apply wp_on_conns, wp_Count. wp_pure. apply wp_metric. cbn [conns set_conns].
  apply HQ; cbn; try done; congruence.
Qed.

End remove.

(** ** Accepting a connection *)

Section upgrade.
Context {W NW B D : Type} `{!Env W, !EnvLaws W, !Net NW, !NetLaws NW}.
Context (config : ServerConfig) (serverName : string).
Abbreviation A := (app W NW B D).
Implicit Types (s : A).

Lemma reply_conns conn data (Q : unit → A → Prop) s :
  (∀ n', opened n' = opened (net (conns s)) →
     Q tt (set_conns (Hub (heap (conns s)) (byID (conns s)) (byFd (conns s)) (ep_connections (conns s)) n') s)) →
  wp (reply conn data) Q s.
Proof. intros HQ. unfold reply. wp_pure. apply wp_on_conns, wp_WriteMessage. intros e n' Ho _. wp_pure. auto. Qed.

Lemma wp_register conn fd id created last n (Q : loc → hub NW → Prop) h :
  conns_ok h → byID h !! id = None → opened (net h) !! conn = None →
  opened n = <[conn := fd]> (opened (net h)) →
  (∀ l c h', conns_ok h' → heap h' !! l = Some c → Connection.ID c = id → byFd h !! fd = None →
     byID h' = <[id := l]> (byID h) → byFd h' = <[fd := l]> (byFd h) → Fd c = fd → Q l h') →
  wp (register conn fd id created last) Q (Hub (heap h) (byID h) (byFd h) (ep_connections h) n).
Proof.
  intros Hok Hid Hs Ho HQ.
  pose proof (conns_ok_register h conn fd id created last n Hok Hid Hs Ho) as Hok'.
  assert (Hfd : byFd h !! fd = None).
  { destruct (byFd h !! fd) as [l|] eqn:E; [|done]. exfalso.
    destruct (ok_fd _ Hok _ _ E) as (c & Hc & <- & Hi). destruct (ok_id _ Hok _ _ Hi) as (c' & Hc' & _ & _ & Hop).
    simplify_eq. assert (Hne : Conn c ≠ conn) by congruence. apply Hne.
    apply (opened_inj n _ _ (Fd c)); rewrite Ho; [by rewrite lookup_insert_ne|apply lookup_insert_eq]. }
  apply wp_intro. intros l h' E. rewrite E in Hok'. cbn in Hok'.
  unfold register, new_conn, Add, bind, get_hub, set_maps, ret, deref in E. cbn in E.
  rewrite lookup_insert_eq in E. cbn in E. injection E as <- <-.
  eapply HQ; [exact Hok'|apply lookup_insert_eq|done..].
Qed.

(** What an answer of [handleUpgrade] means for the registry. *)
Definition upgrade_effect s (a : upgrade_answer) s' : Prop :=
  conns_ok (conns s') ∧ msgBuffer s' = msgBuffer s ∧ panicked s' = panicked s ∧
  match a with
  | ServiceUnavailable _ => s' = s
  | UpgradeFailed => byID (conns s') = byID (conns s) ∧ byFd (conns s') = byFd (conns s)
  | Upgraded id =>
      draining s = false ∧ Z.of_nat (size (byID (conns s))) < MaxConnections config
      ∧ ConnectionsTotal (metrics s') = Z.of_nat (size (byID (conns s')))
      ∧ ∃ l, byID (conns s) !! id = None ∧ byID (conns s') = <[id := l]> (byID (conns s))
  end.

(** [handleUpgrade] as a rule. *)
Lemma wp_handleUpgrade s :
  conns_ok (conns s) → Z.of_nat (size (byID (conns s))) ≤ MaxConnections config →
  byID (conns s) !! (uuid_new (world s)).1 = None →
  wp (handleUpgrade config serverName) (λ a s', upgrade_effect s a s' ∧
    Z.of_nat (size (byID (conns s'))) ≤ MaxConnections config ∧
    (draining s = true ∨ Z.of_nat (size (byID (conns s))) = MaxConnections config →
     ∃ reason, a = ServiceUnavailable reason)) s.
Proof.
  intros Hok Hmax Hid. set (P := λ a s', upgrade_effect s a s' ∧
    Z.of_nat (size (byID (conns s'))) ≤ MaxConnections config ∧
    (draining s = true ∨ Z.of_nat (size (byID (conns s))) = MaxConnections config →
     ∃ reason, a = ServiceUnavailable reason)).
  change (wp (handleUpgrade config serverName) P s).
  unfold handleUpgrade. wp_pure. apply wp_get_app. destruct (draining s) eqn:Hdr; wp_pure.
  { split; [by unfold upgrade_effect; split_and!|]. split; [done|]. intros _. by eexists. }
  apply wp_on_conns, wp_Count. destruct (decide (MaxConnections config ≤ Z.of_nat (size (byID (conns s))))) as [Hge|Hlt];
    [rewrite bool_decide_true by done|rewrite bool_decide_false by done]; wp_pure.
  { split; [unfold upgrade_effect; split_and!; [done..|by destruct s]|]. split; [done|]. intros _. by eexists. }
  assert (Hfail : ∀ s', conns_ok (conns s') → byID (conns s') = byID (conns s) → byFd (conns s') = byFd (conns s) →
    msgBuffer s' = msgBuffer s → panicked s' = panicked s → P UpgradeFailed s').
  { intros s' H1 H2 H3 H4 H5. split; [by unfold upgrade_effect; split_and!|]. split; [by rewrite H2|]. intros [?|?]; [congruence|lia]. }
  apply wp_on_conns, wp_on_net, wp_intro. cbn [conns set_conns]. intros [conn|e] n1 E.
  2: { apply upgrade_err in E as [_ Ho]. wp_pure. apply Hfail; cbn; try done. by apply conns_ok_quiet. }
  apply upgrade_ok in E as (Hs & Hf & fd & Ho). wp_pure. apply wp_on_conns.
  cbn [conns set_conns]. eapply wp_socketFD; [cbn; rewrite Ho; apply lookup_insert_eq|].
  cbn. intros n2 Ho2 _. wp_pure. apply wp_on_world, wp_intro. cbn [world set_conns]. intros id w1 Eu.
  rewrite Eu in Hid. cbn in Hid. wp_pure.
  apply wp_on_world, wp_now. wp_pure. apply wp_on_world, wp_now. wp_pure. apply wp_on_conns. cbn [conns set_conns set_world].
  eapply (wp_register conn fd id _ _ n2 _ (conns s)); [done|done|done|congruence|].
  intros l c h' Hok' Hl Hc Hfd Hi' Hf' Hcf. wp_pure. apply wp_on_conns, wp_Count. wp_pure. apply wp_metric.
  wp_pure. apply wp_on_conns, wp_epoll_Add. cbn [conns set_conns set_world set_metrics].
  intros e h2 Hm. pose proof (epoll_moved_ok _ _ Hm Hok') as Hok2. destruct Hm as (ep & n3 & -> & Ho3 & Hf3).
  destruct e as [e|]; wp_pure.
  - apply wp_on_conns. cbn [conns set_conns]. apply wp_Remove; [exact Hok2|cbn; by rewrite Hi', lookup_insert_eq|].
    cbn [byID heap byFd net]. intros l' c' n4 Hl' Hc' Hid' _ _ Hok4. rewrite Hi', lookup_insert_eq in Hl'. simplify_eq.
    wp_pure. apply Hfail; cbn; [exact Hok4|..|done|done].
    + rewrite Hi', delete_insert_id by done. done.
    + rewrite Hf', delete_insert_id by done. done.
  - apply wp_on_world, wp_intro. intros r w2 _. wp_pure. apply reply_conns. intros n4 Ho4. wp_pure.
    cbn [conns set_conns set_world set_metrics] in *. split_and!; cbn.
    + split; [by apply (conns_ok_quiet _ n4 Ho4)|]. cbn. split_and!; [done|done|done|lia|done|].
      exists l. by rewrite Hi'.
    + rewrite Hi', map_size_insert_None by done. lia.
    + intros [?|?]; [congruence|lia].
Qed.

(** Accepting connections respects the limits: [handleUpgrade] refuses and
    changes nothing while the server drains or when MaxConnections connections
    are registered; otherwise it registers exactly one new connection, under the
    new session ID, or, when the upgrade or epoll fails, leaves the registry as
    it was; the maps stay consistent and the number of connections never exceeds
    the limit. *)
Theorem upgrade_respects_limit s :
  conns_ok (conns s) → Z.of_nat (size (byID (conns s))) ≤ MaxConnections config →
  byID (conns s) !! (uuid_new (world s)).1 = None →
  let '(a, s') := handleUpgrade config serverName s in
  upgrade_effect s a s' ∧ Z.of_nat (size (byID (conns s'))) ≤ MaxConnections config
  ∧ (draining s = true ∨ Z.of_nat (size (byID (conns s))) = MaxConnections config →
     ∃ reason, a = ServiceUnavailable reason).
Proof.
  intros Hok Hmax Hid. pose proof (wp_handleUpgrade s Hok Hmax Hid) as HP. unfold wp in HP.
  by destruct (handleUpgrade config serverName s).
Qed.
End upgrade.

(** ** Ending a chat *)

Section session_writes.
Context `{EnvLaws W}.
Implicit Types (w : W).

Lemma wp_hset_key key fs (Q : res unit → W → Prop) w :
  up w → wf_ks (keyspace w) → schema key = Some KHash →
  (∀ w', up w' → frame w w' → wf_ks (keyspace w') →
     (∀ k, k ≠ key → keyspace w' !! k = keyspace w !! k) →
     hget (keyspace w') key = hset fs (hget (keyspace w) key) → Q (Ok tt) w') →
  wp (rd (Do (HSET key fs))) Q w.
Proof.
  intros Hup Hwf Hk HQ.
  destruct (apply_w_typed (rclock w) (HSET key fs) (keyspace w) Hwf) as (ks' & E & Hwf'); [done|].
  eapply wp_do; [done|exact E|]. intros w' Hup' Hf Hks. subst ks'. apply HQ; try done.
  - intros k Hne. eapply apply_w_other; [exact E|done].
  - cbn in E. rewrite (wf_hash _ _ Hwf Hk) in E. cbn in E. injection E as <-. unfold put.
    by rewrite hget_insert.
Qed.

Lemma wp_ClearChatID id (Q : option error → W → Prop) w :
  up w → wf_ks (keyspace w) →
  (∀ w', up w' → frame w w' → wf_ks (keyspace w') →
     (∀ k, k ≠ SessionPrefix +:+ id → keyspace w' !! k = keyspace w !! k) →
     hget (keyspace w') (SessionPrefix +:+ id) !! "chat_id" = Some "" →
     hget (keyspace w') (SessionPrefix +:+ id) !! "status" = Some StatusIdle → Q None w') →
  wp (ClearChatID id) Q w.
Proof.
  intros Hup Hwf HQ. unfold ClearChatID. wp_pure. apply wp_now. wp_pure.
  apply wp_hset_key; [done|done|auto with go|]. intros w' Hup' Hf Hwf' Hk Hh. wp_pure.
  apply HQ; try done; rewrite Hh; by hash_simpl.
Qed.
End session_writes.

Section chat_end.
Context {W NW B D : Type} `{!Env W, !EnvLaws W, !Net NW, !Broker callback B, !Unicode}.
Abbreviation A := (app W NW B D).
Implicit Types (s : A).

Lemma wp_ignore_nats {X} (m : M (NATSClient B) X) (Q : unit → A → Prop) s :
  (∀ c', Q tt (set_nats c' s)) → wp (ignore (on_nats m)) Q s.
Proof. intros HQ. unfold ignore. wp_pure. apply wp_on_nats, wp_intro. intros x c' _. wp_pure. auto. Qed.

Lemma wp_ignore_world {X} (m : M W X) (Q : unit → A → Prop) s :
  wp m (λ _ w', Q tt (set_world w' s)) (world s) → wp (ignore (on_world m)) Q s.
Proof.
  intros Hm. unfold ignore. wp_pure. apply wp_on_world. eapply wp_mono; [exact Hm|]. intros x w' HQ.
  wp_pure. exact HQ.
Qed.

Lemma wp_get_chat chatID (Q : option ChatSession → A → Prop) s :
  up (world s) → wf_ks (keyspace (world s)) →
  (∀ w', same (world s) w' →
     let h := hget (keyspace (world s)) (ChatPrefix +:+ chatID) in
     Q (if bool_decide (h = ∅) then None else Some (session_of_hash chatID h)) (set_world w' s)) →
  wp (get_chat chatID) Q s.
Proof.
  intros Hup Hwf HQ. unfold get_chat. wp_pure. apply wp_on_world, wp_Get; [done|done|].
  intros w' Hs. wp_pure. by apply HQ.
Qed.

Definition chat_member (h : gmap string string) (sid : string) : Prop :=
  h ≠ ∅ ∧ (sid = default "" (h !! "user_a") ∨ sid = default "" (h !! "user_b")).
#[export] Instance chat_member_dec h sid : Decision (chat_member h sid).
Proof. unfold chat_member. apply _. Defined.

Lemma chat_member_spec chatID h sid :
  h ≠ ∅ → IsParticipant (session_of_hash chatID h) sid = bool_decide (chat_member h sid).
Proof.
  intros Hh. unfold IsParticipant, chat_member, session_of_hash. cbn. apply eq_true_iff_eq.
  rewrite orb_true_iff, !bool_decide_eq_true. naive_solver.
Qed.

Lemma outcome_no_chat (f : Filter) count sid m : message_outcome f count sid m ∅ ≠ MSent.
Proof.
  unfold message_outcome. destruct (negb _); [done|]. destruct (ValidateMessage _); [done|].
  destruct (Blocked _); [done|]. rewrite bool_decide_false by (by intros [? _]). done.
Qed.

(** The chat is over: its partner was told once, it is gone from Redis and from
    the buffer. *)
Record chat_over (chatID sid : string) (hist : string → list BufferedMessage) s s' : Prop := {
  co_gone : hget (keyspace (world s')) ("chat:" +:+ chatID) = ∅;
  co_pending : zget (keyspace (world s')) PendingKey = delete chatID (zget (keyspace (world s)) PendingKey);
  co_keys : ∀ k, k ≠ "chat:" +:+ chatID → k ≠ PendingKey → k ≠ "session:" +:+ sid →
    keyspace (world s') !! k = keyspace (world s) !! k;
  co_buffer : buf_rep (msgBuffer s') (λ chat, if bool_decide (chatID = chat) then [] else hist chat);
  co_conns : conns s' = conns s;
  co_reject : ∀ (f : Filter) count sid' m,
    message_outcome f count sid' m (hget (keyspace (world s')) ("chat:" +:+ chatID)) ≠ MSent;
}.

(** C25: Ending a chat closes it for both: when a participant sends end_chat the
    partner's subject gets exactly one partner_left event, the chat disappears
    from Redis, from the pending set and from the report buffer, the sender's
    session is idle and in no chat, and no later message to that chat, from
    anyone, is sent; on a request from anybody else nothing changes. *)
Theorem end_chat_closes s conn c m hist :
  heap (conns s) !! conn = Some c → up (world s) → wf_ks (keyspace (world s)) →
  buf_rep (msgBuffer s) hist →
  let sid := Connection.ID c in
  let s' := (handle_end_chat conn m s).2 in
  if bool_decide (chat_member (hget (keyspace (world s)) ("chat:" +:+ ec_ChatID m)) sid) then
    chat_over (ec_ChatID m) sid hist s s'
    ∧ published (world s') = published (world s) ++ [("chat." +:+ ec_ChatID m, left_event sid)]
    ∧ hget (keyspace (world s')) ("session:" +:+ sid) !! "status" = Some "idle"
    ∧ hget (keyspace (world s')) ("session:" +:+ sid) !! "chat_id" = Some ""
  else ∃ w', s' = set_world w' s ∧ same (world s) w'.
Proof.
  intros Hc Hup Hwf Hrep sid. set (P := λ (_ : unit) (s' : A), if bool_decide (chat_member (hget (keyspace (world s)) ("chat:" +:+ ec_ChatID m)) sid) then
    chat_over (ec_ChatID m) sid hist s s'
    ∧ published (world s') = published (world s) ++ [("chat." +:+ ec_ChatID m, left_event sid)]
    ∧ hget (keyspace (world s')) ("session:" +:+ sid) !! "status" = Some "idle"
    ∧ hget (keyspace (world s')) ("session:" +:+ sid) !! "chat_id" = Some ""
  else ∃ w', s' = set_world w' s ∧ same (world s) w').
  change (wp (handle_end_chat conn m) P s). unfold handle_end_chat. wp_pure.
  eapply wp_conn_id; [exact Hc|]. fold sid. wp_pure. apply wp_get_chat; [done|done|]. intros w1 Hs1. cbv zeta.
  set (h := hget _ _). unfold P. change (hget (keyspace (world s)) ("chat:" +:+ ec_ChatID m)) with h.
  destruct (decide (h = ∅)) as [Hh|Hh].
  { rewrite (bool_decide_eq_true_2 (h = ∅)) by done. wp_pure.
    rewrite bool_decide_false by (by intros [? _]). by exists w1. }
  rewrite (bool_decide_eq_false_2 (h = ∅)) by done. rewrite chat_member_spec by done.
  destruct (bool_decide (chat_member h sid)); cbn [negb]; [|wp_pure; by exists w1].
  destruct Hs1 as (Hk1 & (Hcl1 & Hwl1 & Hp1) & Hup1). wp_pure.
  apply wp_ignore_world, wp_publish; [auto|]. cbn [world set_world]. intros w2 Hup2 Hk2 _ _ Hp2. wp_pure.
  apply wp_metric. wp_pure. apply wp_ignore_nats. intros n1. wp_pure. apply wp_ignore_nats. intros n2. wp_pure.
  apply wp_ignore_world. cbn [world set_world set_metrics set_nats].
  apply wp_Delete; [done|by rewrite Hk2, Hk1|]. intros w3 Hup3 (_ & _ & Hp3) Hwf3 Hk3 Hg3 Hz3. wp_pure.
  apply wp_ignore_world. cbn [world set_world set_metrics set_nats].
  apply wp_ClearChatID; [done|done|]. intros w4 Hup4 (_ & _ & Hp4) Hwf4 Hk4 Hcid Hst. wp_pure.
  apply wp_buffer_Remove. cbn [world set_world set_metrics set_nats].
  assert (Hg4 : hget (keyspace w4) ("chat:" +:+ ec_ChatID m) = ∅).
  { rewrite <-Hg3. apply hget_lookup, Hk4. done. }
  split; [split; cbn|].
  - exact Hg4.
  - rewrite <-Hk1, <-Hk2, <-Hz3. unfold zget, zset_of. by rewrite Hk4.
  - intros k H1 H2 H3. rewrite Hk4, Hk3, Hk2, Hk1 by done. done.
  - by apply Remove_rep.
  - done.
  - intros. rewrite Hg4. apply outcome_no_chat.
  - cbn. split_and!; [|done..]. rewrite Hp4, Hp3, Hp2, Hp1. reflexivity.
Qed.

(** Reading the session of a connection. *)
Lemma wp_session_get id sess (Q : res (option Session) → W → Prop) (w : W) :
  up w → wf_ks (keyspace w) → hash_is (hget (keyspace w) (SessionPrefix +:+ id)) sess →
  SessionStore.ID sess ≠ "" →
  (∀ w', same w w' → Q (Ok (Some sess)) w') → wp (SessionStore.Get id) Q w.
Proof.
  intros Hup Hwf Hh Hid HQ. unfold SessionStore.Get. wp_pure.
  eapply wp_hgetall; [done|by apply wf_hash; auto with go|]. intros w' Hs. wp_pure.
  rewrite (scan_is _ _ Hh). rewrite bool_decide_false by done. wp_pure. by apply HQ.
Qed.

(** The part of [onDisconnect] for a session in a chat. *)
Lemma wp_leave_chat chat id hist (Q : unit → A → Prop) s :
  up (world s) → wf_ks (keyspace (world s)) → buf_rep (msgBuffer s) hist →
  (∀ s', up (world s') →
         (if bool_decide (chat_member (hget (keyspace (world s)) (ChatPrefix +:+ chat)) id) then
            chat_over chat id hist s s'
            ∧ published (world s') = published (world s) ++ [("chat." +:+ chat, left_event id)]
          else same (world s) (world s') ∧ conns s' = conns s
               ∧ msgBuffer s' = ChatBuffer.Remove (msgBuffer s) chat) → Q tt s') →
  wp (let! cs := get_chat chat in
      do! (match cs with
           | Some cs =>
               if IsParticipant cs id then
                 do! ignore (on_world (PublishChatMessage chat (left_event id))) in
                 do! ignore (on_nats (UnsubscribeFromChat id)) in
                 do! ignore (on_nats (UnsubscribeModerationResult id)) in
                 ignore (on_world (ChatStore.Delete chat))
               else ret tt
           | None => ret tt
           end) in
      buffer_Remove chat) Q s.
Proof.
  intros Hup Hwf Hrep HQ. wp_pure. apply wp_get_chat; [done|done|]. intros w1 Hs1. cbv zeta.
  set (h := hget _ _) in *.
  destruct (decide (h = ∅)) as [Hh|Hh].
  { rewrite (bool_decide_eq_true_2 (h = ∅)) by done. wp_pure. apply wp_buffer_Remove, HQ; [by apply Hs1|].
    rewrite bool_decide_false by (by intros [? _]). done. }
  rewrite (bool_decide_eq_false_2 (h = ∅)) by done. wp_pure. rewrite chat_member_spec by done.
  destruct (bool_decide (chat_member h id)); [|wp_pure; apply wp_buffer_Remove, HQ; [by apply Hs1|done]].
  destruct Hs1 as (Hk1 & (Hcl1 & Hwl1 & Hp1) & Hup1). wp_pure.
  apply wp_ignore_world, wp_publish; [auto|]. cbn [world set_world]. intros w2 Hup2 Hk2 _ _ Hp2. wp_pure.
  apply wp_ignore_nats. intros n1. wp_pure. apply wp_ignore_nats. intros n2. wp_pure.
  apply wp_ignore_world. cbn [world set_world set_nats].
  apply wp_Delete; [done|by rewrite Hk2, Hk1|]. intros w3 Hup3 (_ & _ & Hp3) Hwf3 Hk3 Hg3 Hz3.
  apply wp_buffer_Remove, HQ; [done|]. cbn [world set_world set_nats set_buffer].
  change ("chat:" +:+ chat) with (ChatPrefix +:+ chat). split; [split; cbn|].
  - exact Hg3.
  - by rewrite <-Hk1, <-Hk2, <-Hz3.
  - intros k H1 H2 H3. by rewrite Hk3, Hk2, Hk1.
  - by apply Remove_rep.
  - done.
  - intros. change ("chat:" +:+ chat) with (ChatPrefix +:+ chat). rewrite Hg3. apply outcome_no_chat.
  - rewrite Hp3, Hp2, Hp1. reflexivity.
Qed.

(** What the disconnect of a live session does. *)
Definition disconnect_effect (id : string) (sess : Session) (hist : string → list BufferedMessage) s s' : Prop :=
  let chat := SessionStore.ChatID sess in
  let left := bool_decide (chat ≠ "" ∧ chat_member (hget (keyspace (world s)) ("chat:" +:+ chat)) id) in
  published (world s') = published (world s)
    ++ (if bool_decide (SessionStore.Status sess = "matching")
        then [("match.cancel", JObj [("session_id", JStr id)])] else [])
    ++ (if left then [("chat." +:+ chat, left_event id)] else [])
  ∧ conns s' = conns s
  ∧ if left then chat_over chat id hist s s' else keyspace (world s') = keyspace (world s).

Lemma chat_over_from chat id hist s s1 s' :
  keyspace (world s1) = keyspace (world s) → conns s1 = conns s →
  chat_over chat id hist s1 s' → chat_over chat id hist s s'.
Proof. intros Hk Hc [H1 H2 H3 H4 H5 H6]. split; rewrite <-?Hk, <-?Hc; done. Qed.

Lemma wp_onDisconnect s id sess hist (Q : unit → A → Prop) :
  up (world s) → wf_ks (keyspace (world s)) → buf_rep (msgBuffer s) hist →
  hash_is (hget (keyspace (world s)) (SessionPrefix +:+ id)) sess → SessionStore.ID sess ≠ "" →
  (∀ s', up (world s') → disconnect_effect id sess hist s s' → Q tt s') →
  wp (onDisconnect id) Q s.
Proof.
  intros Hup Hwf Hrep Hh Hid HQ.
  unfold onDisconnect. wp_pure. apply wp_on_world. eapply wp_session_get; [done..|].
  intros w1 (Hk1 & (_ & _ & Hp1) & Hup1). wp_pure.
  set (cancel := if bool_decide (SessionStore.Status sess = "matching")
                 then [("match.cancel", JObj [("session_id", JStr id)])] else []).
  match goal with |- context [if bool_decide (SessionStore.ChatID sess = "") then ret tt else ?t] =>
    set (tail := t) end.
  assert (Htail : ∀ s1 : A, up (world s1) → keyspace (world s1) = keyspace (world s) →
    published (world s1) = published (world s) ++ cancel → conns s1 = conns s →
    msgBuffer s1 = msgBuffer s →
    wp (if bool_decide (SessionStore.ChatID sess = "") then ret tt else tail)
       Q s1).
  2: { unfold StatusMatching. destruct (bool_decide (SessionStore.Status sess = "matching")); wp_pure.
       - apply wp_ignore_world, wp_publish; [auto|]. cbn [world set_world]. intros w2 Hup2 Hk2 _ _ Hp2. wp_pure.
         apply wp_ignore_nats. intros n1. wp_pure. apply wp_ignore_nats. intros n2.
         apply Htail; cbn; try done; [congruence|]. by rewrite Hp2, Hp1.
       - apply Htail; cbn; auto. by rewrite app_nil_r. }
  intros s1 Hup' Hk' Hp' Hc' Hb'. destruct (decide (SessionStore.ChatID sess = "")) as [Ec|Ec].
  - rewrite bool_decide_true by done. wp_pure. apply HQ; [done|]. unfold disconnect_effect. cbv zeta. fold cancel.
    rewrite bool_decide_false by tauto. by rewrite app_nil_r.
  - rewrite bool_decide_false by done. eapply (wp_leave_chat _ _ hist); [done|by rewrite Hk'|by rewrite Hb'|].
    intros s' Hup'' Hs'. rewrite Hk' in Hs'. apply HQ; [done|]. unfold disconnect_effect. cbv zeta. fold cancel.
    change ("chat:" +:+ SessionStore.ChatID sess) with (ChatPrefix +:+ SessionStore.ChatID sess).
    rewrite (bool_decide_ext (_ ∧ chat_member _ _)
      (chat_member (hget (keyspace (world s)) (ChatPrefix +:+ SessionStore.ChatID sess)) id)) by tauto.
    destruct (bool_decide (chat_member _ id)).
    + destruct Hs' as [Ho Hp]. split_and!; [by rewrite Hp, Hp', app_assoc| |by eapply chat_over_from].
      rewrite (co_conns _ _ _ _ _ Ho). done.
    + destruct Hs' as ((Hk & (_ & _ & Hp) & _) & Hc & _). rewrite Hp, Hp', app_nil_r.
      split_and!; [done|congruence|congruence].
Qed.

(** C8: A disconnect tells everyone it concerns: for a live session the callback
    publishes a cancel request exactly when the session was matching and one
    partner_left event exactly when it was a participant of its chat, in that
    order and nothing else; in the latter case the chat is over (gone from
    Redis, pending set and buffer, later messages rejected), otherwise Redis is
    left as it was. *)
Theorem disconnect_notifies s id sess hist :
  up (world s) → wf_ks (keyspace (world s)) → buf_rep (msgBuffer s) hist →
  hash_is (hget (keyspace (world s)) ("session:" +:+ id)) sess → SessionStore.ID sess ≠ "" →
  disconnect_effect id sess hist s (onDisconnect id s).2.
Proof.
  intros Hup Hwf Hrep Hh Hid.
  by apply (wp_onDisconnect s id sess hist (λ _ s', disconnect_effect id sess hist s s')).
Qed.

(** Declining does not look who asks: a session that is not in the chat deletes
    it, whatever its state, and the notification goes to no session. *)
Lemma decline_by_stranger s conn c m :
  heap (conns s) !! conn = Some c → up (world s) → wf_ks (keyspace (world s)) →
  let h := hget (keyspace (world s)) ("chat:" +:+ dm_ChatID m) in
  h ≠ ∅ → ¬ chat_member h (Connection.ID c) →
  let s' := (handle_decline_match conn m s).2 in
  hget (keyspace (world s')) ("chat:" +:+ dm_ChatID m) = ∅
  ∧ published (world s') = published (world s) ++ [("match.notify.", notification "declined" (dm_ChatID m))].
Proof.
  intros Hc Hup Hwf h Hne Hmem.
  change (wp (handle_decline_match conn m) (λ _ s', hget (keyspace (world s')) ("chat:" +:+ dm_ChatID m) = ∅
    ∧ published (world s') = published (world s) ++ [("match.notify.", notification "declined" (dm_ChatID m))]) s).
  unfold handle_decline_match. wp_pure. eapply wp_conn_id; [exact Hc|]. wp_pure.
  apply wp_get_chat; [done|done|]. intros w1 (Hk1 & (_ & _ & Hp1) & Hup1). cbv zeta. fold h.
  change (ChatPrefix +:+ dm_ChatID m) with ("chat:" +:+ dm_ChatID m). fold h.
  rewrite (bool_decide_eq_false_2 (h = ∅)) by done. wp_pure.
  assert (GetPartner (session_of_hash (dm_ChatID m) h) (Connection.ID c) = "") as ->.
  { pose proof (chat_member_spec (dm_ChatID m) h (Connection.ID c) Hne) as E.
    rewrite bool_decide_false in E by done. unfold IsParticipant in E. apply orb_false_iff in E as [E1 E2].
    unfold GetPartner. by rewrite E1, E2. }
  apply wp_ignore_world, wp_Delete; [auto|cbn; by rewrite Hk1|]. cbn [world set_world].
  intros w2 Hup2 (_ & _ & Hp2) Hwf2 _ Hg2 _. wp_pure.
  apply wp_ignore_world, wp_publish; [done|]. cbn [world set_world]. intros w3 Hup3 Hk3 _ Hw3 Hp3. wp_pure.
  apply wp_ignore_nats. intros n1. wp_pure. apply wp_ignore_world. cbn [world set_world set_nats].
  unfold UpdateStatus. wp_pure. apply wp_now.
  set (cs := [HSET _ _; EXPIRE _ _]). assert (Forall typed cs) as Ht by solve_typed.
  assert (Hwf3 : wf_ks (keyspace w3)) by (by rewrite Hk3).
  destruct (apply_ws_typed (rclock w3) cs _ Hwf3 Ht) as (ks' & E & Hwf').
  eapply wp_pipeline; [done|exact E|]. intros w4 _ (_ & _ & Hp4) Hk4. cbn [world set_world]. split.
  - rewrite <-Hg2, <-Hk3. apply hget_lookup. rewrite Hk4. eapply apply_ws_other; [exact E|]. set_solver.
  - rewrite Hp4, Hp3, Hp2, Hp1. reflexivity.
Qed.
End chat_end.

(** ** Witnesses *)

Lemma sample_hub_ok : conns_ok sample_hub.
Proof.
  apply (history_ok (MemNet ∅ [] [])).
  - apply map_eq. intros x. by rewrite lookup_empty.
  - apply (bool_decide_unpack _). vm_compute. exact I.
Qed.


Lemma upgrade_respects_limit_witness :
  let '(a, s') := handleUpgrade DefaultServerConfig "ws-1" sample_app in
  upgrade_effect DefaultServerConfig sample_app a s'
  ∧ Z.of_nat (size (byID (conns s'))) ≤ MaxConnections DefaultServerConfig
  ∧ (draining sample_app = true ∨
     Z.of_nat (size (byID (conns sample_app))) = MaxConnections DefaultServerConfig →
     ∃ reason, a = ServiceUnavailable reason).
Proof.
  apply (upgrade_respects_limit DefaultServerConfig "ws-1" sample_app).
  - exact sample_hub_ok.
  - apply (bool_decide_unpack _). vm_compute. exact I.
  - vm_compute. reflexivity.
Defined.

Definition sample_end : EndChatMsg := {| ec_Type := "end_chat"; ec_ChatID := "c1" |}.

Lemma end_chat_closes_witness :
  let s' := (handle_end_chat 0%nat sample_end sample_app).2 in
  if bool_decide (chat_member (hget (keyspace (world sample_app)) ("chat:" +:+ "c1")) "alice") then
    chat_over "c1" "alice" (λ _, []) sample_app s'
    ∧ published (world s') = published (world sample_app) ++ [("chat." +:+ "c1", left_event "alice")]
    ∧ hget (keyspace (world s')) ("session:" +:+ "alice") !! "status" = Some "idle"
    ∧ hget (keyspace (world s')) ("session:" +:+ "alice") !! "chat_id" = Some ""
  else ∃ w', s' = set_world w' sample_app ∧ same (world sample_app) w'.
Proof.
  apply (end_chat_closes sample_app 0%nat sample_conn sample_end (λ _, [])).
  - vm_compute. reflexivity.
  - vm_compute. reflexivity.
  - apply (bool_decide_unpack _). vm_compute. exact I.
  - intros c. split; [done|]. reflexivity.
Defined.

Definition chatting_app : app mem mem_net (mem_broker callback) table :=
  set_world (SetChatID "alice" "c1" (SessionStore.Create "ws-1" "alice" sample_active).2).2 sample_app.

Definition alice_session : Session :=
  {| SessionStore.ID := "alice"; SessionStore.Status := "chatting"; SessionStore.ChatID := "c1";
     Server := "ws-1"; Interests := ""; Fingerprint := ""; SessionStore.CreatedAt := 1700000000;
     LastActive := 1700000000 |}.

Lemma disconnect_notifies_witness :
  disconnect_effect "alice" alice_session (λ _, []) chatting_app (onDisconnect "alice" chatting_app).2.
Proof.
  apply (disconnect_notifies chatting_app "alice" alice_session (λ _, [])).
  - vm_compute. reflexivity.
  - apply (bool_decide_unpack _). vm_compute. exact I.
  - intros c. split; [done|]. reflexivity.
  - unfold hash_is, int64. split_and!; vm_compute; done.
  - done.
Defined.
