(* ===== verification/Reporting.v ===== *)
(** * Reporting a partner

    The report handler of cmd/wsserver ([handle_report]) with the ban store, the
    session store and the connections it closes. *)

From stdpp Require Import base gmap strings numbers list_basics list_relations list.
From S2P Require Import Prelude GoStd Json Env Keys MemEnv Counters ChatBuffer ChatStore SessionStore RateLimit BanStore Validator Report Filter Protocol Messaging Subscriptions Matcher Cleanup Connection App WsServer Handlers HandlerProofs LifeCycle.
Open Scope Z_scope.

Section rules.
Context {W NW B D : Type} `{!Env W, !EnvLaws W, !Net NW, !NetLaws NW, !Broker callback B}.
Abbreviation A := (app W NW B D).
Implicit Types (s : A).

(** A session may be unreadable; reading it changes nothing. *)
Lemma wp_session_get_any id (Q : res (option Session) → W → Prop) (w : W) :
  up w → wf_ks (keyspace w) → (∀ r w', same w w' → Q r w') → wp (SessionStore.Get id) Q w.
Proof.
  intros Hup Hwf HQ. unfold SessionStore.Get. wp_pure.
  eapply wp_hgetall; [done|by apply wf_hash; auto with go|]. intros w' Hs. wp_pure.
  destruct (scan_session _); [case_bool_decide|]; by apply HQ.
Qed.

Lemma wp_SendMessage id data (Q : option error → A → Prop) s :
  (∀ e n', opened n' = opened (net (conns s)) →
     Q e (set_conns (Hub (heap (conns s)) (byID (conns s)) (byFd (conns s)) (ep_connections (conns s)) n') s)) →
  wp (SendMessage id data) Q s.
Proof.
  intros HQ. unfold SendMessage, Connection.Get. wp_pure. apply wp_on_conns. wp_pure. apply wp_get_hub. wp_pure.
  destruct (byID (conns s) !! id) as [l|].
  - apply wp_on_conns, wp_WriteMessage. cbn [conns set_conns]. intros e n' Ho _. by apply (HQ e n').
  - wp_pure. specialize (HQ (Some ("ws: connection " +:+ id +:+ " not found")) (net (conns s)) eq_refl).
    by destruct s as [? [] ? ? ? ? ? ?].
Qed.

Lemma wp_session_Delete id (Q : option error → W → Prop) (w : W) :
  up w → (∀ w', up w' → (∀ k, k ≠ SessionPrefix +:+ id → keyspace w' !! k = keyspace w !! k) → Q None w') →
  wp (SessionStore.Delete id) Q w.
Proof.
  intros Hup HQ. unfold SessionStore.Delete. wp_pure. eapply wp_do; [done|done|].
  intros w' Hup' _ Hk. wp_pure. apply HQ; [done|]. intros k Hne. by rewrite Hk, lookup_delete_ne.
Qed.

(** Keys that a disconnect never touches. *)
Definition ban_key (k : string) : Prop := ∃ fp, k = BanPrefix +:+ fp.

Lemma disconnect_effect_bans id sess hist s s' fp :
  disconnect_effect id sess hist s s' →
  keyspace (world s') !! (BanPrefix +:+ fp) = keyspace (world s) !! (BanPrefix +:+ fp).
Proof.
  intros (_ & _ & H). destruct (bool_decide _); [|by rewrite H].
  by apply (co_keys _ _ _ _ _ H).
Qed.

(** Closing the connection of a session, as after a ban: whether or not it is
    connected here, it is not afterwards, and no ban changes. *)
Lemma wp_notify_banned p sess hist duration (Q : unit → A → Prop) s :
  up (world s) → wf_ks (keyspace (world s)) → conns_ok (conns s) → buf_rep (msgBuffer s) hist →
  hash_is (hget (keyspace (world s)) (SessionPrefix +:+ p)) sess → SessionStore.ID sess ≠ "" →
  (∀ s', conns_ok (conns s') → byID (conns s') = delete p (byID (conns s)) →
     (∀ fp, keyspace (world s') !! (BanPrefix +:+ fp) = keyspace (world s) !! (BanPrefix +:+ fp)) → Q tt s') →
  wp (notify_banned p duration) Q s.
Proof.
  intros Hup Hwf Hok Hrep Hh Hid HQ. unfold notify_banned, ignore. wp_pure. apply wp_SendMessage.
  intros e n' Ho. wp_pure. set (s1 := set_conns _ s).
  assert (conns_ok (conns s1)) as Hok1 by by apply conns_ok_quiet.
  unfold Connection.Get. apply wp_on_conns. wp_pure. apply wp_get_hub. wp_pure.
  change (set_conns (conns s1) s1) with s1. destruct (byID (conns s1) !! p) as [l|] eqn:El.
  - destruct (ok_id _ Hok1 _ _ El) as (co & Hc & <- & Hf & _).
    eapply wp_remove_registered; [exact Hok1|exact Hc|exact El|].
    intros s0 Hw Hn Hb _ _ _ Hhp Hi _ _ _ Hok0. wp_pure.
    apply (wp_onDisconnect s0 (Connection.ID co) sess hist); rewrite ?Hw, ?Hb; [done..|].
    intros s2 Hup2 Heff. wp_pure. apply wp_on_world, wp_session_Delete; [done|].
    intros w' _ Hk. wp_pure. pose proof Heff as (_ & Hc2 & _).
    apply HQ; cbn; [by rewrite Hc2|by rewrite Hc2, Hi|].
    intros fp. rewrite Hk by done. rewrite (disconnect_effect_bans _ _ _ _ _ _ Heff). by rewrite Hw.
  - wp_pure. apply HQ; [done| |done]. cbn. by rewrite delete_id.
Qed.
End rules.

Section report.
Context {W NW B D : Type}
  `{!Env W, !EnvLaws W, !Net NW, !NetLaws NW, !Broker callback B, !ReportDB D}.
Abbreviation A := (app W NW B D).
Implicit Types (s : A).

(** The keyspace after a report keeps its types. *)
Lemma report_wf ks ks' fp o b :
  ctr_is ks' (ReportsPrefix +:+ fp) o → ban_is ks' fp b →
  (∀ k, k ≠ ReportsPrefix +:+ fp → k ≠ BanPrefix +:+ fp → ks' !! k = ks !! k) →
  wf_ks ks → wf_ks ks'.
Proof.
  intros Ho Hb Hk Hwf k e He. destruct (decide (k = ReportsPrefix +:+ fp)) as [->|Hr].
  { rewrite schema_reports. destruct o as [[n d]|]; cbn in Ho; [destruct Ho as [Ho _]|]; rewrite Ho in He; by simplify_eq. }
  destruct (decide (k = BanPrefix +:+ fp)) as [->|Hbk].
  { rewrite schema_ban. unfold ban_is in Hb. rewrite Hb in He. destruct b as [[r d]|]; by simplify_eq/=. }
  rewrite Hk in He by done. by apply (Hwf k).
Qed.

End report.

(** Two reports against the fingerprint of bob were counted before. *)
Definition reported_app : app mem mem_net (mem_broker callback) table :=
  set_world (ReportAndCheck "fp-bob" "spam" (ReportAndCheck "fp-bob" "spam"
    (SetFingerprint "bob" "fp-bob" (SessionStore.Create "ws-1" "bob" sample_active).2).2).2).2 sample_app.

Definition bob_session : Session :=
  {| SessionStore.ID := "bob"; SessionStore.Status := "idle"; SessionStore.ChatID := "";
     Server := "ws-1"; Interests := ""; Fingerprint := "fp-bob"; SessionStore.CreatedAt := 1700000000;
     LastActive := 1700000000 |}.

Definition sample_report : ReportMsg := {| rp_Type := "report"; rp_ChatID := "c1"; rp_Reason := "spam" |}.

Definition reported_partner : string :=
  GetPartner (session_of_hash (rp_ChatID sample_report)
    (hget (keyspace (world reported_app)) ("chat:" +:+ rp_ChatID sample_report))) (Connection.ID sample_conn).

Example reported_partner_bob : reported_partner = "bob".
Proof. vm_compute. reflexivity. Qed.

