(* ===== verification/Moves.v ===== *)
(** * What every handler does to the process

    A relation between states that every elementary operation respects is
    respected by every handler, callback and loop of the server: [HubRel] and
    [AppRel] name the elementary operations, [moves R m] says that [m] leads
    from a state to a related one.  The invariant of the process (ServerInv.v),
    the draining flag (Shutdown.v) and the flags of the workers (Workers.v) are
    instances. *)

From stdpp Require Import base gmap strings numbers relations list_basics list_relations list.
From S2P Require Import Prelude GoStd Json Env Keys ChatBuffer ChatStore SessionStore RateLimit BanStore Validator Report Filter Protocol Messaging Subscriptions Matcher Connection App WsServer Handlers HandlerProofs LifeCycle.
Open Scope Z_scope.

Definition moves {S X} (R : relation S) (m : M S X) : Prop := ∀ s, R s (m s).2.

Section moves.
Context {S : Type} (R : relation S) `{!PreOrder R}.

Lemma moves_ret {X} (x : X) : moves R (ret x).
Proof. intros s. cbn. reflexivity. Qed.
Lemma moves_bind {X Y} (m : M S X) (k : X → M S Y) : moves R m → (∀ x, moves R (k x)) → moves R (bind m k).
Proof.
  intros Hm Hk s. specialize (Hm s). unfold bind. destruct (m s) as [x s1]. etrans; [exact Hm|apply Hk].
Qed.
Lemma moves_range {X} (xs : list X) (body : X → M S unit) : (∀ x, moves R (body x)) → moves R (range_do xs body).
Proof. intros Hb. induction xs as [|x xs IH]; [apply moves_ret|]. by apply moves_bind. Qed.
End moves.

(** ** Operations of the hub *)

Definition with_net `{Net NW} (n : NW) (h : hub NW) : hub NW :=
  Hub (heap h) (byID h) (byFd h) (ep_connections h) n.

Class HubRel `{Net NW} (R : relation (hub NW)) : Prop := {
  #[global] hr_pre :: PreOrder R;
  hr_net : ∀ h n, opened n = opened (net h) → R h (with_net n h);
  hr_ep : ∀ m, moves R (set_ep m);
  hr_ping : ∀ l t, moves R (update_conn l (set_LastPing t));
  hr_remove : ∀ id, moves R (Connection.Remove id);
}.

Create HintDb mv discriminated.
#[export] Hint Extern 0 (HubRel _) => apply _ : mv.
#[export] Hint Extern 0 (NetLaws _) => apply _ : mv.
#[export] Hint Resolve quiet_control quiet_ping quiet_next quiet_discard quiet_read quiet_add quiet_del
  quiet_wait quiet_range : mv.

Section hub.
Context `{NetLaws NW} (R : relation (hub NW)) `{!HubRel R}.

Lemma mv_hub_ret {X} (x : X) : moves R (ret x).
Proof. apply moves_ret, _. Qed.
Lemma mv_get_hub : moves R (get_hub : M (hub NW) _).
Proof. intros h. cbn. reflexivity. Qed.
Lemma mv_quiet {X} (m : M NW X) : quiet m → moves R (on_net m).
Proof.
  intros Hq h. unfold on_net. specialize (Hq (net h)) as [_ Ho]. destruct (m (net h)) as [x n].
  by apply (hr_net h n).
Qed.
Lemma mv_write l data : moves R (WriteMessage l data).
Proof.
  intros h. apply (wp_WriteMessage l data (λ _ h', R h h')). intros e n Ho _. by apply (hr_net h n).
Qed.
End hub.
#[export] Hint Extern 1 (moves _ _) =>
  first [ simple eapply mv_hub_ret | simple eapply mv_get_hub | simple eapply mv_write | simple eapply hr_ep | simple eapply hr_ping | simple eapply hr_remove
        | simple eapply mv_quiet ] : mv.

Ltac solve_moves :=
  repeat first
    [ solve [auto with mv]
    | apply moves_bind; [apply _| |intros ?]
    | apply moves_range; [apply _|intros ?]
    | progress cbv zeta
    | match goal with |- moves _ (match ?x with _ => _ end) => destruct x end ].

Section hub_ops.
Context `{NetLaws NW} (R : relation (hub NW)) `{!HubRel R}.

Lemma mv_WritePing l : moves R (WritePing l).
Proof. unfold WritePing. solve_moves. Qed.
Lemma mv_socketFD c : moves R (socketFD c).
Proof. unfold socketFD. solve_moves. Qed.
Lemma mv_Get id : moves R (Connection.Get id).
Proof. unfold Connection.Get. solve_moves. Qed.
Lemma mv_Count : moves R Count.
Proof. unfold Count. solve_moves. Qed.
Lemma mv_All : moves R All.
Proof. unfold All. solve_moves. Qed.
Lemma mv_GetByFd fd : moves R (GetByFd fd).
Proof. unfold GetByFd. solve_moves. Qed.
End hub_ops.
#[export] Hint Extern 1 (moves _ _) =>
  first [ simple eapply mv_WritePing | simple eapply mv_socketFD | simple eapply mv_Get | simple eapply mv_Count | simple eapply mv_All | simple eapply mv_GetByFd ] : mv.

Section hub_ops2.
Context `{NetLaws NW} (R : relation (hub NW)) `{!HubRel R}.
Lemma mv_GetByConn c : moves R (GetByConn c).
Proof. unfold GetByConn. solve_moves. Qed.
Lemma mv_epoll_Remove c : moves R (epoll_Remove c).
Proof. unfold epoll_Remove. solve_moves. Qed.
Lemma mv_epoll_Add c : moves R (epoll_Add c).
Proof. unfold epoll_Add. solve_moves. Qed.
End hub_ops2.
#[export] Hint Extern 1 (moves _ _) =>
  first [ simple eapply mv_GetByConn | simple eapply mv_epoll_Remove | simple eapply mv_epoll_Add ] : mv.

(** ** Operations of the process *)

Class AppRel {W NW B D} `{!Net NW} (RH : relation (hub NW)) (R : relation (app W NW B D)) : Prop := {
  #[global] ar_hub :: HubRel RH;
  #[global] ar_pre :: PreOrder R;
  ar_conns : ∀ s h, RH (conns s) h → R s (set_conns h s);
  ar_world : ∀ s w, R s (set_world w s);
  ar_nats : ∀ s c, R s (set_nats c s);
  ar_db : ∀ s d, R s (set_db d s);
  ar_metrics : ∀ s m, R s (set_metrics m s);
  ar_Add : ∀ c msg, moves R (buffer_Add c msg);
  ar_Get : ∀ c, moves R (buffer_Get c);
  ar_Remove : ∀ c, moves R (buffer_Remove c);
}.

#[export] Hint Extern 0 (AppRel _ _) => first [ eassumption | apply _ ] : mv.

Section app.
Context {W NW B D : Type} `{!Net NW} (RH : relation (hub NW)) (R : relation (app W NW B D)) `{!AppRel RH R}.
Abbreviation A := (app W NW B D).

Lemma mv_ret {X} (x : X) : moves R (ret x).
Proof. apply moves_ret, ar_pre. Qed.
Lemma mv_get : moves R get_app.
Proof. intros s. cbn. apply ar_pre. Qed.
Lemma mv_world {X} (m : M W X) : moves R (on_world m).
Proof. intros s. unfold on_world. destruct (m (world s)). apply ar_world. Qed.
Lemma mv_nats {X} (m : M (NATSClient B) X) : moves R (on_nats m).
Proof. intros s. unfold on_nats. destruct (m (nats s)). apply ar_nats. Qed.
Lemma mv_db {X} (m : M D X) : moves R (on_db m).
Proof. intros s. unfold on_db. destruct (m (db s)). apply ar_db. Qed.
Lemma mv_metric f : moves R (metric f).
Proof. intros s. apply ar_metrics. Qed.
Lemma mv_conns {X} (m : M (hub NW) X) : moves RH m → moves R (on_conns m).
Proof.
  intros Hm s. specialize (Hm (conns s)). unfold on_conns. destruct (m (conns s)) as [x h]. by apply ar_conns.
Qed.
Lemma mv_Add c msg : moves R (buffer_Add c msg).
Proof. apply ar_Add. Qed.
Lemma mv_BufGet c : moves R (buffer_Get c).
Proof. apply ar_Get. Qed.
Lemma mv_Remove c : moves R (buffer_Remove c).
Proof. apply ar_Remove. Qed.
End app.
#[export] Hint Extern 1 (moves _ _) =>
  first [ simple eapply mv_ret | simple eapply mv_get | simple eapply mv_world | simple eapply mv_nats | simple eapply mv_db | simple eapply mv_metric
        | simple eapply mv_Add | simple eapply mv_BufGet | simple eapply mv_Remove | simple eapply mv_conns ] : mv.

(** ** Every handler *)

Section steps.
Context {W NW B D : Type}.
Context `{!Env W, !Net NW, !NetLaws NW, !Broker callback B, !ReportDB D, !Unicode}.
Context (RH : relation (hub NW)) (R : relation (app W NW B D)) `{!AppRel RH R}.
Context (f : Filter).
Abbreviation A := (app W NW B D).

Lemma mv_SendMessage id data : moves R (SendMessage id data).
Proof. unfold SendMessage. solve_moves. Qed.
Lemma mv_reply c data : moves R (reply c data).
Proof. unfold reply. solve_moves. Qed.
Lemma mv_get_chat c : moves R (get_chat c).
Proof. unfold get_chat. solve_moves. Qed.
Lemma mv_ignore {X} (m : M A X) : moves R m → moves R (ignore m).
Proof. intros. unfold ignore. solve_moves. Qed.
Lemma mv_conn_id c : moves R (conn_id c).
Proof. unfold conn_id. solve_moves. Qed.
Lemma mv_now : moves R now_.
Proof. unfold now_. solve_moves. Qed.
#[local] Hint Resolve mv_SendMessage mv_reply mv_get_chat mv_ignore mv_conn_id mv_now : mv.

Lemma mv_onDisconnect id : moves R (onDisconnect id).
Proof. unfold onDisconnect. solve_moves. Qed.
#[local] Hint Resolve mv_onDisconnect : mv.

Lemma mv_removeConnection c : moves R (removeConnection c).
Proof. unfold removeConnection, RemoveConnection. solve_moves. Qed.
#[local] Hint Resolve mv_removeConnection : mv.

Lemma mv_notify_banned p d : moves R (notify_banned p d).
Proof. unfold notify_banned. solve_moves. Qed.
#[local] Hint Resolve mv_notify_banned : mv.

(** The NATS callbacks. *)
Lemma mv_deliver cb data : moves R (deliver cb data).
Proof.
  destruct cb; cbn [deliver];
    unfold on_chat, on_match_found, on_match_notify, on_moderation_result, subscribeToChatNATS; solve_moves.
Qed.

(** The handlers of client messages. *)
Lemma mv_route conn msg : moves R (route f conn msg).
Proof.
  destruct msg; cbn [route];
    unfold handle_set_fingerprint, handle_find_match, handle_cancel_match, handle_accept_match,
      handle_decline_match, handle_message, handle_typing, handle_end_chat, handle_report, sendPong,
      subscribeToChatNATS; solve_moves.
Qed.

Lemma mv_handlers t h conn msg : handlers f !! t = Some h → moves R (h conn msg).
Proof.
  unfold handlers. cbn [foldl Register fst snd]. unfold Register. rewrite !lookup_insert_Some, lookup_empty.
  intros Hh. destruct msg as [m|m|m|m|m|m|m|m|m|m].
  all: repeat destruct Hh as [[_ <-]|[_ Hh]]; [..|done].
  all: first
    [ exact (mv_route conn (CCancelMatch {| cm_Type := "" |}))
    | exact (moves_ret R tt)
    | exact (mv_route conn (CSetFingerprint m)) | exact (mv_route conn (CFindMatch m))
    | exact (mv_route conn (CAcceptMatch m)) | exact (mv_route conn (CDeclineMatch m))
    | exact (mv_route conn (CChat m)) | exact (mv_route conn (CTyping m))
    | exact (mv_route conn (CEndChat m)) | exact (mv_route conn (CReport m)) ].
Qed.

Lemma mv_onMessage conn data : moves R (onMessage f conn data).
Proof.
  unfold onMessage, Dispatch, sendError.
  destruct (ParseClientMessage data) as [[t [msg|]] [e|]]; [auto with mv| |auto with mv..].
  destruct (bool_decide (t = TypePing)); [apply (mv_route conn (CPing {| pg_Type := "" |}))|].
  match goal with |- context [match ?m with _ => _ end] => destruct m as [h|] eqn:E end;
    [exact (mv_handlers t h conn msg E)|auto with mv].
Qed.
#[local] Hint Resolve mv_onMessage : mv.

(** Reading a frame, once the connection is claimed. *)
Lemma mv_read_frame config x c : moves R (read_frame config onDisconnect (onMessage f) x c).
Proof.
  unfold read_frame. change (RemoveConnection onDisconnect) with (removeConnection (W:=W) (NW:=NW) (B:=B) (D:=D)).
  solve_moves.
Qed.

Lemma mv_checkConnections hc : moves R (checkConnections onDisconnect hc).
Proof.
  unfold checkConnections, check_connection.
  change (RemoveConnection onDisconnect) with (removeConnection (W:=W) (NW:=NW) (B:=B) (D:=D)). solve_moves.
Qed.
End steps.
