(* ===== verification/ServerInv.v ===== *)
(** * The invariant of a server process

    The process as a transition system ([server_step]): a connection is
    accepted, a socket is ready to read, a subscribed callback gets a message,
    the heartbeat runs, and between these the services, the peers and the
    database do as they please, failures included.  [srv_ok] holds in every
    reachable state. *)

From stdpp Require Import base gmap strings numbers relations list_basics list_relations list.
From S2P Require Import Prelude GoStd Json Env Keys MemEnv ChatBuffer ChatStore SessionStore RateLimit BanStore Validator Report Filter Protocol Messaging Subscriptions Matcher Connection App WsServer Handlers HandlerProofs LifeCycle Moves.
Open Scope Z_scope.

(** ** The invariant *)

(** The registries stay consistent and do not grow. *)
Definition srv_hub `{Net NW} (h h' : hub NW) : Prop :=
  conns_ok h → conns_ok h' ∧ (size (byID h') ≤ size (byID h))%nat.

(** Assigning a field that is no key. *)
Lemma srv_hub_update `{NetLaws NW} l f :
  (∀ c, Connection.ID (f c) = Connection.ID c ∧ Conn (f c) = Conn c ∧ Fd (f c) = Fd c) →
  moves srv_hub (update_conn l f : M (hub NW) unit).
Proof.
  intros Hf h [H1 H2 H3]. split; [|done]. unfold update_conn. cbn.
  assert (Hal : ∀ l' c, heap h !! l' = Some c → ∃ c', alter f l (heap h) !! l' = Some c'
    ∧ Connection.ID c' = Connection.ID c ∧ Conn c' = Conn c ∧ Fd c' = Fd c).
  { intros l' c Hc. destruct (decide (l' = l)) as [->|].
    - exists (f c). by rewrite lookup_alter_eq, Hc.
    - exists c. by rewrite lookup_alter_ne. }
  split; cbn.
  - intros id l' Hl. destruct (H1 _ _ Hl) as (c & Hc & <- & Hd & Ho).
    destruct (Hal _ _ Hc) as (c' & ? & E1 & E2 & E3). exists c'. by rewrite E1, E2, E3.
  - intros fd l' Hl. destruct (H2 _ _ Hl) as (c & Hc & <- & Hd).
    destruct (Hal _ _ Hc) as (c' & ? & E1 & E2 & E3). exists c'. by rewrite E1, E3.
  - intros x Hx. destruct (H3 _ Hx) as (id & l' & c & Hid & Hc & <-).
    destruct (Hal _ _ Hc) as (c' & ? & E1 & E2 & E3). exists id, l', c'. by rewrite E2.
Qed.

#[export] Instance srv_hub_rel `{NetLaws NW} : HubRel (srv_hub (NW := NW)).
Proof.
  split.
  - split; [by intros h Hok|]. intros h1 h2 h3 H12 H23 Hok. destruct (H12 Hok) as [Hok2 ?].
    destruct (H23 Hok2) as [? ?]. split; [done|lia].
  - intros h n Ho Hok. split; [by apply conns_ok_quiet|done].
  - intros m h [H1 H2 H3]. by split.
  - intros l t. by apply srv_hub_update.
  - intros id h Hok. apply (wp_Remove id (λ _ h', conns_ok h' ∧ (size (byID h') ≤ size (byID h))%nat)); [done|done|].
    intros l c n' Hl Hc Hi _ _ Hok'. split; [done|]. cbn. apply map_subseteq_size, delete_subseteq.
Qed.

Section invariant.
Context {W NW B D : Type} `{!Net NW}.
Context (config : ServerConfig).
Abbreviation A := (app W NW B D).

(** The registries agree and hold no more connections than allowed, the report
    buffer is well formed, no goroutine has panicked. *)
Record srv_ok (s : A) : Prop := {
  srv_conns : conns_ok (conns s);
  srv_limit : Z.of_nat (size (byID (conns s))) ≤ MaxConnections config;
  srv_buffer : ∃ hist, buf_rep (msgBuffer s) hist;
  srv_panic : panicked s = false;
}.

Definition srv_rel (s s' : A) : Prop := srv_ok s → srv_ok s'.

#[export] Instance srv_app_rel `{!NetLaws NW} : AppRel srv_hub srv_rel.
Proof.
  split; try apply _.
  - split; [by intros s Hs|]. intros s1 s2 s3 H12 H23 Hs. by apply H23, H12.
  - intros s h Hh [H1 H2 H3 H4]. destruct (Hh H1) as [Hok Hs]. split; cbn in *; [done|lia|done|done].
  - intros s w []. by split.
  - intros s c []. by split.
  - intros s d []. by split.
  - intros s m []. by split.
  - intros c msg s [H1 H2 [hist H3] H4]. destruct (Add_rep _ _ c msg H3) as (b & E & Hr). unfold buffer_Add.
    rewrite E. split; cbn; eauto.
  - intros c s [H1 H2 [hist H3] H4]. destruct (H3 c) as [_ E]. unfold buffer_Get. rewrite E.
    split; cbn; eauto.
  - intros c s [H1 H2 [hist H3] H4]. split; cbn; eauto using Remove_rep.
Qed.
End invariant.

(** ** Every step of the process *)

Section steps.
Context {W NW B D : Type}.
Context `{!Env W, !EnvLaws W, !Net NW, !NetLaws NW, !Broker callback B, !ReportDB D, !Unicode}.
Context (config : ServerConfig) (serverName : string) (hc : HeartbeatConfig) (f : Filter).
Abbreviation A := (app W NW B D).
Abbreviation rel := (srv_rel (W := W) (NW := NW) (B := B) (D := D) config).

Lemma srv_handleConn x : moves rel (handleConn config onDisconnect (onMessage f) x).
Proof.
  unfold handleConn. apply moves_bind; [apply _|apply (mv_conns srv_hub rel); auto with mv|]. intros [c|]; [|apply moves_ret, _].
  apply moves_bind; [apply _|apply (mv_get srv_hub rel)|]. intros s. destruct (processing _); [apply moves_ret, _|].
  apply moves_bind; [apply _|apply (mv_conns srv_hub rel), srv_hub_update; done|]. intros _.
  apply moves_bind; [apply _|apply (mv_read_frame srv_hub rel)|]. intros _. by apply (mv_conns srv_hub rel), srv_hub_update.
Qed.

(** ** Reachable states *)

(** The state when [Start] begins to listen. *)
Definition initial (s : A) : Prop :=
  ∃ n, opened n = ∅ ∧ conns s = NewConnectionManager n ∧ msgBuffer s = NewMessageBuffer ∧ panicked s = false.

Inductive server_step : A → A → Prop :=
  (** a client connects; UUIDs do not repeat *)
  | step_upgrade s :
      byID (conns s) !! (uuid_new (world s)).1 = None →
      server_step s (handleUpgrade config serverName s).2
  (** epoll reports a socket, ready or stale *)
  | step_ready s x : server_step s (handleConn config onDisconnect (onMessage f) x s).2
  (** NATS delivers a message to an active subscription *)
  | step_deliver s id subj cb data :
      active (conn (nats s)) !! id = Some (subj, cb) → server_step s (deliver cb data s).2
  (** the heartbeat ticks *)
  | step_heartbeat s : server_step s (checkConnections onDisconnect hc s).2
  (** the services and other processes: Redis, time, NATS, the database *)
  | step_world s w : server_step s (set_world w s)
  | step_nats s b : server_step s (set_nats (Client (subs (nats s)) b) s)
  | step_db s d : server_step s (set_db d s)
  (** the peers: frames arrive or connections break, no descriptor is closed
      here *)
  | step_peers s n :
      opened n = opened (net (conns s)) →
      server_step s (set_conns (Hub (heap (conns s)) (byID (conns s)) (byFd (conns s))
                                    (ep_connections (conns s)) n) s).

Lemma initial_ok s : 0 ≤ MaxConnections config → initial s → srv_ok config s.
Proof.
  intros Hmax (n & Hn & Hc & Hb & Hp). split; rewrite ?Hc, ?Hb; [by apply conns_new|done| |done].
  exists (λ _, []). by intros c.
Qed.

Lemma step_ok s s' : server_step s s' → srv_ok config s → srv_ok config s'.
Proof.
  intros Hstep Hok. pose proof Hok as [H1 H2 H3 H4]. destruct Hstep as [s Hid|s x|s id subj cb data _|s|s w|s b|s d|s n Ho].
  - pose proof (wp_handleUpgrade config serverName s H1 H2 Hid) as Hw. unfold wp in Hw.
    destruct Hw as ((Hc & Hb & Hp & _) & Hs & _). split; rewrite ?Hb, ?Hp; done.
  - by apply srv_handleConn.
  - by apply (mv_deliver srv_hub (srv_rel config)).
  - by apply (mv_checkConnections srv_hub (srv_rel config)).
  - by split.
  - by split.
  - by split.
  - split; cbn; [by apply conns_ok_quiet|done..].
Qed.

End steps.

(** ** A run *)

Definition empty_app : app mem mem_net (mem_broker callback) table :=
  App (mem_fresh 1700000000000) (NewConnectionManager (MemNet ∅ [] [])) (Client ∅ (MemBroker 0 ∅))
      NewMessageBuffer (Table 0 []) (Metrics 0 0 0 0 0) false false.

Definition one_client : app mem mem_net (mem_broker callback) table :=
  (handleUpgrade DefaultServerConfig "ws-1" empty_app).2.

Definition after_heartbeat : app mem mem_net (mem_broker callback) table :=
  (checkConnections onDisconnect DefaultHeartbeatConfig (set_world (elapse 5000 (world one_client)) one_client)).2.

