(* ===== verification/Heartbeat.v ===== *)
(** * internal/ws/heartbeat.go: what a heartbeat evicts

    Theorems about [checkConnections]. *)

From stdpp Require Import base gmap strings numbers list_basics list_relations list.
From S2P Require Import Prelude GoStd Json Env MemEnv ChatBuffer SessionStore Report Subscriptions Connection App WsServer Handlers HandlerProofs LifeCycle ServerInv.
Open Scope Z_scope.

Section heartbeat.
Context {W NW B D : Type} `{!Env W, !EnvLaws W, !Net NW, !NetLaws NW, !Broker callback B}.
Context (hc : HeartbeatConfig).
Abbreviation A := (app W NW B D).
Implicit Types (s : A).

(** No read within Interval + Timeout. *)
Definition stale (now : Z) (c : Connection) : Prop :=
  Interval hc + Timeout hc < (now - LastPing c) * Millisecond.
#[export] Instance stale_dec now c : Decision (stale now c).
Proof. unfold stale. apply _. Defined.

(** Removing a connection, registered or not. *)
Lemma wp_remove_conns c co (Q : unit → A → Prop) s :
  conns_ok (conns s) → heap (conns s) !! c = Some co →
  (byID (conns s) !! Connection.ID co = Some c ∨ byID (conns s) !! Connection.ID co = None) →
  (∀ s', conns_ok (conns s') → heap (conns s') = heap (conns s) →
     byID (conns s') = delete (Connection.ID co) (byID (conns s)) → Q tt s') →
  wp (removeConnection c) Q s.
Proof.
  intros Hok Hc [Hr|Hr] HQ.
  - eapply wp_remove_registered; [done..|]. intros s0 _ _ _ _ _ _ Hh Hi _ _ _ Hok0.
    apply wp_bind, wp_intro. intros [] s1 E1. wp_pure. apply wp_intro. intros e s2 E2. wp_pure.
    assert (conns s2 = conns s0) as Hcs.
    { pose proof (onDisconnect_keeps (Connection.ID co) s0) as K1. rewrite E1 in K1.
      pose proof (keeps_world (SessionStore.Delete (Connection.ID co)) s1) as K2. rewrite E2 in K2.
      cbn in *. congruence. }
    apply HQ; rewrite Hcs; congruence.
  - apply wp_remove_gone; [by rewrite (deref_heap _ _ _ Hc)|].
    intros s' (_ & _ & _ & _ & _ & _ & _ & Hm). pose proof (epoll_moved_ok _ _ Hm Hok) as Hok'.
    destruct Hm as (ep & n' & Hcs & _). rewrite Hcs in *. apply HQ; rewrite ?Hcs; cbn; [done|done|].
    by rewrite delete_id.
Qed.

(** Progress of the loop over the snapshot: the connections visited so far are
    gone or fresh, the ones still to come are untouched. *)
Record evicted (now : Z) (pre post : list loc) s s' : Prop := {
  ev_ok : conns_ok (conns s');
  ev_heap : heap (conns s') = heap (conns s);
  ev_sub : byID (conns s') ⊆ byID (conns s);
  ev_fresh : ∀ id l c, byID (conns s') !! id = Some l → l ∈ pre → heap (conns s) !! l = Some c → ¬ stale now c;
  ev_keep : (∀ x n, (write_ping x n).1 = None) →
    ∀ id l c, byID (conns s) !! id = Some l → heap (conns s) !! l = Some c → ¬ stale now c →
      byID (conns s') !! id = Some l;
}.

Lemma evicted_remove now pre l post s s' s'' c :
  conns_ok (conns s) → evicted now pre (l :: post) s s' → heap (conns s) !! l = Some c →
  byID (conns s) !! Connection.ID c = Some l →
  (stale now c ∨ ∃ x n, (write_ping x n).1 ≠ None) →
  conns_ok (conns s'') → heap (conns s'') = heap (conns s') →
  byID (conns s'') = delete (Connection.ID c) (byID (conns s')) →
  evicted now (pre ++ [l]) post s s''.
Proof.
  intros Hok0 [H1 H2 H3 H4 H5] Hl Hreg Hwhy Hok Hh Hi. split.
  - done.
  - congruence.
  - rewrite Hi. etrans; [apply delete_subseteq|done].
  - intros id l' c' Hid [Hpre|Hlast]%elem_of_app Hc'.
    + rewrite Hi in Hid. apply lookup_delete_Some in Hid as [_ Hid]. eauto.
    + apply list_elem_of_singleton in Hlast as ->. exfalso. rewrite Hi in Hid.
      apply lookup_delete_Some in Hid as [Hne Hid]. apply Hne.
      destruct (ok_id _ H1 _ _ Hid) as (c2 & Hc2 & <- & _). congruence.
  - intros Hping id l' c' Hid Hc' Hst. rewrite Hi, lookup_delete_ne; [by eauto|]. intros <-.
    destruct Hwhy as [Hs|(x & n & Hx)]; [|by rewrite Hping in Hx]. simplify_eq. congruence.
Qed.

End heartbeat.

