(* ===== verification/ChatStart.v ===== *)
(** * The start of a chat

    The acceptance handler of the second session and the notification callback
    of the first one ([handle_accept_match], [on_match_notify]), with the chat
    store, the session store and the subscriptions. *)

From stdpp Require Import base gmap strings numbers list_basics list_relations list.
From S2P Require Import Prelude GoStd Json Env Keys MemEnv ChatBuffer ChatStore SessionStore Report Protocol Messaging Subscriptions Matcher Connection App WsServer Handlers HandlerProofs LifeCycle Reporting.
Open Scope Z_scope.

(** The subscriptions of a session once its chat has started. *)
Definition chat_subs (chatID sid : string) (m : gmap string (string * callback)) : gmap string (string * callback) :=
  delete ("match.notify." +:+ sid)
    (<["moderation.result." +:+ sid := ("moderation.result." +:+ sid, OnModerationResult sid)]>
      (<["chatsub:" +:+ sid := ("chat." +:+ chatID, OnChat sid)]> m)).

(** Neither is subscribed before. *)
Definition chat_free (sid : string) (m : gmap string (string * callback)) : Prop :=
  m !! ("chatsub:" +:+ sid) = None ∧ m !! ("moderation.result." +:+ sid) = None.

Lemma unmarshal_notification type chatID :
  unmarshal_MatchNotification (notification type chatID) = Some {| mn_Type := type; mn_ChatID := chatID |}.
Proof. reflexivity. Qed.

Section start.
Context {W NW B D : Type} `{!Env W, !EnvLaws W, !Net NW, !NetLaws NW}.
Context `{!Broker callback B, !BrokerLaws callback B}.
Abbreviation A := (app W NW B D).
Implicit Types (s : A).

Lemma wp_SetChatID id chatID (Q : option error → W → Prop) (w : W) :
  up w → wf_ks (keyspace w) →
  (∀ w', up w' → frame w w' → wf_ks (keyspace w') →
     (∀ k, k ≠ SessionPrefix +:+ id → keyspace w' !! k = keyspace w !! k) →
     hget (keyspace w') (SessionPrefix +:+ id) !! "chat_id" = Some chatID →
     hget (keyspace w') (SessionPrefix +:+ id) !! "status" = Some StatusChatting → Q None w') →
  wp (SetChatID id chatID) Q w.
Proof.
  intros Hup Hwf HQ. unfold SetChatID. wp_pure. apply wp_now. wp_pure.
  apply wp_hset_key; [done|done|auto with go|]. intros w' Hup' Hf Hwf' Hk Hh. wp_pure.
  apply HQ; try done; rewrite Hh; by hash_simpl.
Qed.

(** What entering a chat does to a process. *)
Record entered (chatID sid : string) (m : gmap string (string * callback)) s s' : Prop := {
  en_up : up (world s');
  en_wf : wf_ks (keyspace (world s'));
  en_frame : frame (world s) (world s');
  en_keys : ∀ k, k ≠ "session:" +:+ sid → keyspace (world s') !! k = keyspace (world s) !! k;
  en_chat : hget (keyspace (world s')) ("session:" +:+ sid) !! "chat_id" = Some chatID;
  en_status : hget (keyspace (world s')) ("session:" +:+ sid) !! "status" = Some "chatting";
  en_holds : holds m (nats s');
  en_conn : connected (conn (nats s'));
  en_metrics : metrics s' = metrics s;
}.

(** The part that both sides run: subscribe to the chat, record it in the
    session, subscribe to moderation results, tell the client. *)
Lemma wp_enter_chat chatID sid m (Q : unit → A → Prop) s :
  up (world s) → wf_ks (keyspace (world s)) → holds m (nats s) → connected (conn (nats s)) →
  chat_free sid m →
  (∀ s', entered chatID sid
     (<["moderation.result." +:+ sid := ("moderation.result." +:+ sid, OnModerationResult sid)]>
       (<["chatsub:" +:+ sid := ("chat." +:+ chatID, OnChat sid)]> m)) s s' → Q tt s') →
  wp (do! subscribeToChatNATS sid chatID in
      do! ignore (on_world (SetChatID sid chatID)) in
      do! ignore (on_nats (SubscribeModerationResult sid (OnModerationResult sid))) in
      ignore (SendMessage sid (match_accepted_msg chatID))) Q s.
Proof.
  intros Hup Hwf Hh Hcon [Hf1 Hf2] HQ. unfold subscribeToChatNATS, ignore. wp_pure. apply wp_on_nats.
  unfold SubscribeToChat, SubscribeModerationResult, Subscribe.
  eapply wp_subscribe_as; [exact Hh|done|exact Hf1|]. intros c1 Hh1 Hcon1. wp_pure.
  apply wp_on_world, wp_SetChatID; [done|done|]. intros w1 Hup1 Hfr1 Hwf1 Hk1 Hcid Hst. wp_pure.
  apply wp_on_nats. cbn [nats set_world set_nats].
  eapply wp_subscribe_as; [exact Hh1|done| |].
  { rewrite lookup_insert_ne by done. exact Hf2. }
  intros c2 Hh2 Hcon2. wp_pure. apply wp_SendMessage. intros e n' Ho. wp_pure.
  apply HQ. by split.
Qed.

(** The same inside a longer handler. *)
Lemma wp_enter_chat_then chatID sid m (k : M A unit) (Q : unit → A → Prop) s :
  up (world s) → wf_ks (keyspace (world s)) → holds m (nats s) → connected (conn (nats s)) →
  chat_free sid m →
  (∀ s', entered chatID sid
     (<["moderation.result." +:+ sid := ("moderation.result." +:+ sid, OnModerationResult sid)]>
       (<["chatsub:" +:+ sid := ("chat." +:+ chatID, OnChat sid)]> m)) s s' → wp k Q s') →
  wp (do! subscribeToChatNATS sid chatID in
      do! ignore (on_world (SetChatID sid chatID)) in
      do! ignore (on_nats (SubscribeModerationResult sid (OnModerationResult sid))) in
      do! ignore (SendMessage sid (match_accepted_msg chatID)) in k) Q s.
Proof.
  intros Hup Hwf Hh Hcon Hfree HQ.
  pose proof (wp_enter_chat chatID sid m (λ _ s', wp k Q s') s Hup Hwf Hh Hcon Hfree HQ) as H.
  revert H. unfold wp, bind.
  destruct (subscribeToChatNATS _ _ s) as [? s1]. destruct (ignore (on_world _) s1) as [? s3].
  destruct (ignore (on_nats _) s3) as [? s4]. by destruct (ignore (SendMessage _ _) s4).
Qed.

(** What the chat's hash and the two sides are after the second acceptance. *)
Lemma second_acceptance h a b sid :
  a ≠ b → sid = a ∨ sid = b →
  acceptance h a b (negb (bool_decide (sid = a))) (bool_decide (sid = a)) →
  acceptance (accept_hash h sid).2 a b true true ∧ (accept_hash h sid).1 = 1.
Proof.
  intros Hab Hsid Hacc. destruct (acceptance_step h a b _ _ sid Hab Hacc) as [H1 H2].
  revert H1 H2. destruct Hsid as [->| ->].
  - rewrite (bool_decide_eq_true_2 (a = a)), (bool_decide_eq_false_2 (a = b)) by done. cbn. naive_solver.
  - rewrite (bool_decide_eq_true_2 (b = b)), (bool_decide_eq_false_2 (b = a)) by done. cbn. naive_solver.
Qed.

(** The partner the handler reads back from the chat. *)
Lemma partner_of_hash chatID h a b sid :
  sid = a ∨ sid = b → h !! "user_a" = Some a → h !! "user_b" = Some b →
  GetPartner (session_of_hash chatID h) sid = if bool_decide (sid = a) then b else a.
Proof.
  intros Hsid Ha Hb. unfold GetPartner, session_of_hash. cbn. rewrite Ha, Hb. cbn.
  case_bool_decide; [done|]. rewrite bool_decide_true; naive_solver.
Qed.

(** The side that accepts last. *)
Lemma wp_accept_second s conn c m a b m1 :
  let sid := Connection.ID c in
  let partner := if bool_decide (sid = a) then b else a in
  let chatID := am_ChatID m in
  heap (conns s) !! conn = Some c → a ≠ b → sid = a ∨ sid = b →
  acceptance (hget (keyspace (world s)) ("chat:" +:+ chatID)) a b
    (negb (bool_decide (sid = a))) (bool_decide (sid = a)) →
  up (world s) → wf_ks (keyspace (world s)) → connected (Subscriptions.conn (nats s)) →
  holds m1 (nats s) → chat_free sid m1 →
  wp (handle_accept_match conn m) (λ _ s',
    published (world s') = published (world s) ++ [("match.notify." +:+ partner, notification "accepted" chatID)]
    ∧ hget (keyspace (world s')) ("chat:" +:+ chatID) !! "status" = Some "active"
    ∧ hget (keyspace (world s')) ("session:" +:+ sid) !! "chat_id" = Some chatID
    ∧ hget (keyspace (world s')) ("session:" +:+ sid) !! "status" = Some "chatting"
    ∧ holds (chat_subs chatID sid m1) (nats s')
    ∧ ActiveChats (metrics s') = ActiveChats (metrics s) + 1) s.
Proof.
  intros sid partner chatID Hc Hab Hsid Hacc Hup Hwf Hcon Hh Hfree.
  destruct (second_acceptance _ _ _ _ Hab Hsid Hacc) as [Hacc' Hr].
  assert (Hho := wf_hash _ _ Hwf (schema_chat chatID)).
  unfold handle_accept_match. wp_pure. eapply wp_conn_id; [exact Hc|]. fold sid chatID. wp_pure.
  apply wp_on_world. eapply wp_AcceptMatch; [done|exact Hho|]. intros w1 Hup1 (Hcl1 & _ & Hp1) Hk1. wp_pure.
  rewrite bool_decide_true by exact Hr. wp_pure. apply wp_metric.
  assert (Hwf1 : wf_ks (keyspace w1)) by (rewrite Hk1; by apply accept_ks_wf).
  apply wp_enter_chat_then with m1; [exact Hup1|exact Hwf1|exact Hh|exact Hcon|exact Hfree|].
  intros s3 [Hup3 Hwf3 (_ & _ & Hp3) Hk3 Hcid3 Hst3 Hh3 Hcon3 Hm3]. cbn [world set_world set_metrics] in *.
  assert (Hg3 : hget (keyspace (world s3)) ("chat:" +:+ chatID)
      = (accept_hash (hget (keyspace (world s)) ("chat:" +:+ chatID)) sid).2).
  { rewrite (hget_lookup (keyspace w1)) by (by apply Hk3). unfold hget at 1. rewrite Hk1.
    by rewrite accept_ks_hash by exact Hho. }
  wp_pure. apply wp_get_chat; [done|done|]. intros w4 (Hk4 & (_ & _ & Hp4) & Hup4). cbv zeta.
  change (ChatPrefix +:+ chatID) with ("chat:" +:+ chatID). rewrite Hg3.
  set (h' := (accept_hash _ sid).2) in *. destruct Hacc' as (Ha & Hb & _ & _ & Hs').
  rewrite bool_decide_false by (intros Hn; rewrite Hn in Ha; done). wp_pure.
  apply wp_ignore_world, wp_publish; [auto|]. cbn [world set_world]. intros w5 Hup5 Hk5 _ _ Hp5. wp_pure.
  rewrite (partner_of_hash chatID h' a b sid Hsid Ha Hb) in Hp5.
  unfold ignore. wp_pure. apply wp_on_nats. cbn [nats set_world].
  eapply wp_unsubscribe; [exact Hh3|exact Hcon3|]. intros e c' Hh6 _. wp_pure. cbn [world nats metrics set_world set_nats].
  rewrite Hk5, Hk4, Hg3, Hp5, Hp4, Hp3, Hp1, Hm3. by split_and!.
Qed.

(** The other side, when the notification arrives. *)
Lemma wp_partner_notified s sid chatID m :
  up (world s) → wf_ks (keyspace (world s)) → connected (Subscriptions.conn (nats s)) →
  holds m (nats s) → chat_free sid m →
  wp (on_match_notify sid (notification "accepted" chatID)) (λ _ s',
    published (world s') = published (world s)
    ∧ hget (keyspace (world s')) ("session:" +:+ sid) !! "chat_id" = Some chatID
    ∧ hget (keyspace (world s')) ("session:" +:+ sid) !! "status" = Some "chatting"
    ∧ holds (chat_subs chatID sid m) (nats s')) s.
Proof.
  intros Hup Hwf Hcon Hh Hfree. unfold on_match_notify. rewrite unmarshal_notification. cbn [mn_Type mn_ChatID].
  rewrite bool_decide_true by done. apply wp_bind. apply wp_enter_chat with m; [done..|].
  intros s' [Hup' _ (_ & _ & Hp) _ Hcid Hst Hh' Hcon' _]. wp_pure.
  unfold ignore. wp_pure. apply wp_on_nats. eapply wp_unsubscribe; [exact Hh'|exact Hcon'|].
  intros e c' Hh2 _. wp_pure. cbn [world nats set_nats]. by split_and!.
Qed.

End start.

(** ** Witness: bob accepted before, both wait for match notifications *)

Definition waiting (sid : string) : NATSClient (mem_broker callback) :=
  (SubscribeMatchNotify sid (OnMatchNotify sid) (Client ∅ (MemBroker 0 ∅))).2.
Definition waiting_subs (sid : string) : gmap string (string * callback) :=
  <["match.notify." +:+ sid := ("match.notify." +:+ sid, OnMatchNotify sid)]> ∅.

Lemma waiting_holds sid : holds (waiting_subs sid) (waiting sid).
Proof.
  set (P := λ (_ : option error) c, holds (waiting_subs sid) c).
  change (wp (SubscribeMatchNotify sid (OnMatchNotify sid)) P (Client ∅ (MemBroker 0 ∅))).
  unfold SubscribeMatchNotify, Subscribe. eapply wp_subscribe_as.
  - by apply holds_new.
  - done.
  - done.
  - by intros c' Hc' _.
Qed.

Definition half_accepted (sid : string) : app mem mem_net (mem_broker callback) table :=
  App (AcceptMatch "c1" "bob" sample_world).2 sample_hub (waiting sid) NewMessageBuffer (Table 0 [])
      (Metrics 2 0 0 0 0) false false.
Definition alice_accepts : AcceptMatchMsg := {| am_Type := "accept_match"; am_ChatID := "c1" |}.

