(* ===== verification/Service.v ===== *)
(** * The matching service over a whole run

    The service is driven by match and cancel requests from NATS, by the ticker
    of the match loop and by the ticker of the clean-up ([svc_step]); between
    these, time passes and other processes write their own keys.  The theorem
    follows a session from its request to its answer. *)

From stdpp Require Import base gmap strings numbers list_basics list_relations list.
From S2P Require Import Prelude GoStd Json Env Keys MemEnv ChatStore Messaging Subscriptions Queue Tiers Matcher Cleanup.
Open Scope Z_scope.

(** *** Service.Start, before it starts the two loops *)
Inductive svc_callback : Type := OnMatchRequest | OnMatchCancel.

Definition Start `{Broker svc_callback B} : M (NATSClient B) (option error) :=
  let! e := SubscribeMatchRequest OnMatchRequest in
  match e with
  | Some err => ret (Some err)
  | None => SubscribeMatchCancel OnMatchCancel
  end.

(** Started, the service has its two subscriptions and no other. *)
Lemma start_subscribes `{BrokerLaws svc_callback B} (b : B) :
  active b = ∅ → connected b →
  wp Start (λ e c, e = None ∧
    holds (<["match.cancel" := ("match.cancel", OnMatchCancel)]>
      (<["match.request" := ("match.request", OnMatchRequest)]> ∅)) c) (Client ∅ b).
Proof.
  intros Hb Hup. unfold Start, SubscribeMatchRequest, SubscribeMatchCancel, Subscribe. wp_pure.
  eapply wp_subscribe_as; [by apply holds_new|done|done|]. intros c1 H1 Hup1. wp_pure.
  eapply wp_subscribe_as; [exact H1|done|done|]. by intros c2 H2 _.
Qed.

Section service.
Context `{Env W}.

(** The closure of a subscription, run on a message. *)
Definition svc_deliver (cb : svc_callback) (data : json) : M W unit :=
  match cb with
  | OnMatchRequest => handleMatchRequest data
  | OnMatchCancel => handleCancelRequest data
  end.

(** What a select statement of a ticker loop receives. *)
Inductive select_case : Type := CtxDone | TickerC.

(** *** Service.matchLoop, on what its select receives *)
Fixpoint matchLoop (cases : list select_case) : M W unit :=
  match cases with
  | [] => ret tt
  | CtxDone :: _ => ret tt
  | TickerC :: cases => do! processQueue in matchLoop cases
  end.

(** *** StartCleanup, on what its select receives *)
Fixpoint StartCleanup (cases : list select_case) : M W unit :=
  match cases with
  | [] => ret tt
  | CtxDone :: _ => ret tt
  | TickerC :: cases =>
      let! _ := cleanStaleEntries in
      do! cleanExpiredPendingChats in
      StartCleanup cases
  end.

(** What happened in a step.  The clean-up is labelled with the sessions that
    are still connected, those with a session key. *)
Inductive label : Type :=
  | LRequest (sid : string)
  | LCancel (sid : string)
  | LTick
  | LClean (connected : string → bool)
  | LTime (ms : Z)
  | LOther.

(** Another process changes Redis, but not the keys of the queue. *)
Definition other_process (w w' : W) : Prop :=
  (up w → up w') ∧ frame w w' ∧ wf_ks (keyspace w') ∧
  ∀ k, queue_key k → keyspace w' !! k = keyspace w !! k.

(** A step; [interests] are those each session asks with. *)
Inductive svc_step (interests : string → list string) (w : W) : label → W → Prop :=
  | svc_request data req :
      unmarshal_MatchRequest data = Some req → req_Interests req = interests (req_SessionID req) →
      svc_step interests w (LRequest (req_SessionID req)) (svc_deliver OnMatchRequest data w).2
  | svc_bad_request data :
      unmarshal_MatchRequest data = None → svc_step interests w LOther (svc_deliver OnMatchRequest data w).2
  | svc_cancel data req :
      unmarshal_CancelRequest data = Some req →
      svc_step interests w (LCancel (cancel_SessionID req)) (svc_deliver OnMatchCancel data w).2
  | svc_bad_cancel data :
      unmarshal_CancelRequest data = None → svc_step interests w LOther (svc_deliver OnMatchCancel data w).2
  | svc_tick : svc_step interests w LTick (matchLoop [TickerC] w).2
  | svc_clean :
      svc_step interests w (LClean (λ sid, bool_decide (is_Some (keyspace w !! ("session:" +:+ sid)))))
        (StartCleanup [TickerC] w).2
  | svc_time ms : 0 ≤ ms → svc_step interests w (LTime ms) (elapse ms w)
  | svc_other w' : other_process w w' → svc_step interests w LOther w'.

(** A run, with its labels, the latest first. *)
Inductive svc_run (interests : string → list string) (w0 : W) : list label → W → Prop :=
  | run_start : svc_run interests w0 [] w0
  | run_step tr w l w' :
      svc_run interests w0 tr w → svc_step interests w l w' → svc_run interests w0 (l :: tr) w'.
End service.

(** The time since the last pass of the match loop. *)
Fixpoint since_tick (tr : list label) : Z :=
  match tr with
  | [] | LTick :: _ => 0
  | LTime ms :: tr => since_tick tr + ms
  | _ :: tr => since_tick tr
  end.

(** Two passes, and the start and the first pass, are less than thirty seconds
    apart; the ticker is set to two. *)
Fixpoint timely (tr : list label) : Prop :=
  match tr with
  | [] => True
  | l :: tr' => since_tick tr < 30000 ∧ timely tr'
  end.

(** The time the whole run takes. *)
Fixpoint duration (tr : list label) : Z :=
  match tr with
  | [] => 0
  | LTime ms :: tr => duration tr + ms
  | _ :: tr => duration tr
  end.

Section session.
Context (sid : string).

Fixpoint requests (tr : list label) : nat :=
  match tr with
  | [] => 0
  | LRequest s :: tr => (if bool_decide (s = sid) then 1 else 0) + requests tr
  | _ :: tr => requests tr
  end.

(** The time since the session's last request. *)
Fixpoint waited (tr : list label) : Z :=
  match tr with
  | [] => 0
  | LRequest s :: tr => if bool_decide (s = sid) then 0 else waited tr
  | LTime ms :: tr => waited tr + ms
  | _ :: tr => waited tr
  end.

(** The session never cancels and is connected whenever the clean-up runs. *)
Fixpoint stays (tr : list label) : Prop :=
  match tr with
  | [] => True
  | LCancel s :: tr => s ≠ sid ∧ stays tr
  | LClean connected :: tr => connected sid = true ∧ stays tr
  | _ :: tr => stays tr
  end.

(** The answers the session gets. *)
Definition answers (pub : list (string * json)) : nat :=
  length (filter (λ m, m.1 = subject SubjectMatchFound sid) pub).
End session.

(** ** The invariant of a run *)

Definition queued (q : aqueue) (sid : string) : nat := match q !! sid with Some _ => 1 | None => 0 end.

Lemma answers_app sid l l' : answers sid (l ++ l') = (answers sid l + answers sid l')%nat.
Proof. unfold answers. by rewrite filter_app, length_app. Qed.

Lemma answers_found sid s data :
  answers sid [(subject SubjectMatchFound s, data)] = if bool_decide (s = sid) then 1%nat else 0%nat.
Proof.
  unfold answers. rewrite filter_cons, filter_nil. case_bool_decide as Hs; case_decide as Hd; try done.
  - by subst.
  - unfold subject in Hd. cbn in Hd. by do 2 apply append_inj in Hd.
Qed.

(** Each session that a pass serves gets one answer. *)
Lemma answers_served sid os :
  answers sid (concat (messages <$> os)) = length (filter (.= sid) (concat (served <$> os))).
Proof.
  induction os as [|o os IH]; [done|]. rewrite !fmap_cons. cbn [concat]. rewrite answers_app, filter_app, length_app, IH. f_equal.
  destruct o as [id a b sh|s]; cbn [messages served].
  - rewrite (answers_app sid [_] [_] : answers sid [_; _] = _), !answers_found. rewrite !filter_cons, filter_nil.
    repeat case_bool_decide; repeat case_decide; done.
  - rewrite answers_found, filter_cons, filter_nil. case_bool_decide; case_decide; done.
Qed.

Lemma served_once (sid : string) l : NoDup l → length (filter (.= sid) l) = if bool_decide (sid ∈ l) then 1%nat else 0%nat.
Proof.
  induction 1 as [|x l Hx Hnd IH]; [done|]. rewrite filter_cons. destruct (decide (x = sid)) as [Hd|Hd].
  - subst x. cbn. rewrite IH, bool_decide_false, bool_decide_true by set_solver. done.
  - rewrite IH. erewrite bool_decide_ext; [done|]. set_solver.
Qed.

(** A pass moves answered sessions out of the queue. *)
Lemma cycle_answers now q sids os q' sid :
  cycle now q sids os q' →
  (answers sid (concat (messages <$> os)) + queued q' sid = queued q sid)%nat.
Proof.
  intros (Hnd & Hin & Hout)%cycle_served. rewrite answers_served, served_once by done. unfold queued.
  case_bool_decide as Hs.
  - destruct (Hin _ Hs) as [[e ->] ->]. done.
  - by rewrite (Hout _ Hs).
Qed.

(** The notices of the clean-up are no answers. *)
Lemma notices_no_answers sid ks ids : answers sid (concat (expiry_notices ks <$> ids)) = 0%nat.
Proof.
  induction ids as [|id ids IH]; [done|]. rewrite fmap_cons. cbn [concat]. rewrite answers_app, IH.
  unfold expiry_notices. destruct (status_pending ks id); [|done]. rewrite answers_app.
  repeat match goal with |- context [hget ?ks ?k !! ?f] => destruct (hget ks k !! f) end;
    repeat case_bool_decide; done.
Qed.

Section runs.
Context `{EnvLaws W} (interests : string → list string) (w0 : W).
Implicit Types (w : W).

Record svc_inv (tr : list label) w (q : aqueue) : Prop := {
  si_up : up w;
  si_queue : queue_is (rclock w) (keyspace w) q;
  si_wall : wall w = wall w0 + duration tr;
  si_entry : ∀ sid e, q !! sid = Some e →
    q_interests e = interests sid ∧ q_joined e = wall w - waited sid tr ∧
    0 ≤ waited sid tr < 30000 + since_tick tr ∧ q_deadline e = rclock w + 60000 - waited sid tr;
  si_mono : ∀ sid, (answers sid (published w0) ≤ answers sid (published w))%nat;
  si_atmost : ∀ sid, (answers sid (published w) + queued q sid
                      ≤ answers sid (published w0) + requests sid tr)%nat;
  si_exact : ∀ sid, (requests sid tr ≤ 1)%nat → stays sid tr →
    (answers sid (published w) + queued q sid = answers sid (published w0) + requests sid tr)%nat;
}.

(** Steps that keep the queue and answer nobody. *)
Lemma inv_quiet tr w q w' :
  svc_inv tr w q → up w' → frame w w' → queue_is (rclock w) (keyspace w') q → svc_inv (LOther :: tr) w' q.
Proof. intros [H1 H2 H3 H4 Hm H5 H6] Hu (Hc & Hw & Hp) Hq. split; rewrite ?Hc, ?Hw, ?Hp; done. Qed.

Lemma inv_cancel tr w q data req :
  svc_inv tr w q → unmarshal_CancelRequest data = Some req →
  wp (handleCancelRequest data) (λ _ w',
    svc_inv (LCancel (cancel_SessionID req) :: tr) w' (delete (cancel_SessionID req) q)) w.
Proof.
  intros [H1 H2 H3 H4 Hm H5 H6] E. unfold handleCancelRequest. rewrite E. wp_pure.
  eapply wp_Dequeue; [done..|]. intros w' Hu (Hc & Hw & Hp) Hq _. wp_pure.
  split; rewrite ?Hc, ?Hw, ?Hp; cbn; try done.
  - intros sid e [_ He]%lookup_delete_Some. by apply H4.
  - intros sid. specialize (H5 sid). unfold queued in *. destruct (decide (cancel_SessionID req = sid)) as [->|Hne].
    + rewrite lookup_delete_eq. lia.
    + by rewrite lookup_delete_ne.
  - intros sid Hr [Hne Hs]. unfold queued in *. rewrite lookup_delete_ne by done. by apply H6.
Qed.

Lemma inv_request tr w q data req :
  svc_inv tr w q → unmarshal_MatchRequest data = Some req →
  req_Interests req = interests (req_SessionID req) → clean (req_Interests req) →
  Z.abs (wall w) < 2 ^ 53 → 0 ≤ since_tick tr →
  wp (handleMatchRequest data) (λ _ w', ∃ q', svc_inv (LRequest (req_SessionID req) :: tr) w' q') w.
Proof.
  intros [H1 H2 H3 H4 Hm H5 H6] E Hi Hcl Hnow Hst. unfold handleMatchRequest. rewrite E. wp_pure.
  eapply wp_Enqueue; [done..| |]. { intros e He. rewrite Hi. by apply H4. }
  intros w1 Hu1 (Hc1 & Hw1 & Hp1) Hq1. wp_pure. eapply wp_QueueSize; [done|by rewrite Hc1|].
  intros w2 (Hk2 & (Hc2 & Hw2 & Hp2) & Hu2). wp_pure. exists (<[req_SessionID req := new_entry (rclock w) (wall w) (req_Interests req)]> q).
  split; rewrite ?Hc2, ?Hw2, ?Hp2, ?Hc1, ?Hw1, ?Hp1, ?Hk2; cbn; auto.
  - intros sid e [[<- <-]|[Hne He]]%lookup_insert_Some.
    + rewrite bool_decide_true by done. cbn. split_and!; [done|lia..].
    + rewrite bool_decide_false by done. by apply H4.
  - intros sid. specialize (H5 sid). unfold queued in *. destruct (decide (req_SessionID req = sid)) as [<-|Hne].
    + rewrite lookup_insert_eq, bool_decide_true by done. lia.
    + rewrite lookup_insert_ne, bool_decide_false by done. lia.
  - intros sid Hr Hs. specialize (Hm sid). specialize (H6 sid). unfold queued in *.
    destruct (decide (req_SessionID req = sid)) as [<-|Hne].
    + rewrite lookup_insert_eq. rewrite bool_decide_true in * by done.
      specialize (H6 ltac:(lia) Hs). destruct (q !! req_SessionID req); lia.
    + rewrite lookup_insert_ne by done. rewrite bool_decide_false in * by done. auto.
Qed.

Lemma inv_tick tr w q :
  svc_inv tr w q → Z.abs (wall w) < 2 ^ 53 → timely tr →
  wp (matchLoop [TickerC]) (λ _ w', ∃ q', svc_inv (LTick :: tr) w' q') w.
Proof.
  intros [H1 H2 H3 H4 Hm H5 H6] Hnow Ht. unfold matchLoop. wp_pure.
  assert (since_tick tr < 30000) as Hst by (destruct tr; [done|apply Ht]).
  eapply (wp_processQueue (rclock w) (wall w) q); [done|done| |].
  { intros sid e He. destruct (H4 _ _ He) as (_ & -> & Hw & _). lia. }
  intros os q' w' Hcy ((Hu & Hc & Hw & Hq) & Hp & _). wp_pure. exists q'.
  assert (Hsub : ∀ sid e, q' !! sid = Some e → q !! sid = Some e ∧ wall w - q_joined e < 30000).
  { intros sid e He. pose proof (cycle_sub _ _ _ _ _ _ _ Hcy He) as He'. split; [done|].
    eapply cycle_kept; [done|by eapply elem_of_zorder_keys|done]. }
  split; rewrite ?Hc, ?Hw, ?Hp; cbn; try done.
  - intros sid e [He Hlt]%Hsub. destruct (H4 _ _ He) as (? & Hj & ? & ?). split_and!; [done|done|lia..|done].
  - intros sid. rewrite answers_app. specialize (Hm sid). lia.
  - intros sid. rewrite answers_app. pose proof (cycle_answers _ _ _ _ _ sid Hcy). specialize (H5 sid). lia.
  - intros sid Hr Hs. rewrite answers_app. pose proof (cycle_answers _ _ _ _ _ sid Hcy).
    specialize (H6 sid Hr Hs). lia.
Qed.

Lemma inv_clean tr w q :
  svc_inv tr w q → Z.abs (Unix (wall w)) < 2 ^ 53 →
  wp (StartCleanup [TickerC]) (λ _ w', ∃ q',
    svc_inv (LClean (λ sid, bool_decide (is_Some (keyspace w !! ("session:" +:+ sid)))) :: tr) w' q') w.
Proof.
  intros [H1 H2 H3 H4 Hm H5 H6] Hnow. unfold StartCleanup. wp_pure.
  eapply wp_cleanStaleEntries; [done..|]. cbv zeta. set (q' := filter _ q).
  intros w1 (Hu1 & Hc1 & Hw1 & Hq1) Hp1. wp_pure.
  apply wp_cleanExpiredPendingChats; [done|apply Hq1|by rewrite Hw1|]. cbv zeta.
  intros w2 Hu2 Hc2 Hw2 (Hwf2 & Hk2 & _) Hp2. wp_pure. exists q'.
  assert (Hq2 : queue_is (rclock w) (keyspace w2) q').
  { eapply queue_is_frame; [exact Hq1|done|]. intros k Hk. apply Hk2.
    - intros id _ ->. by apply not_queue_chat in Hk.
    - intros ->. by apply not_queue_pending in Hk. }
  assert (Ha : ∀ sid, answers sid (published w2) = answers sid (published w)).
  { intros sid. rewrite Hp2, answers_app, notices_no_answers, Hp1. lia. }
  split; rewrite ?Hc2, ?Hw2, ?Hc1, ?Hw1; cbn; try done.
  - intros sid e [He _]%map_lookup_filter_Some. by apply H4.
  - intros sid. by rewrite Ha.
  - intros sid. rewrite Ha. specialize (H5 sid). unfold queued, q' in *.
    destruct (filter _ q !! sid) as [e|] eqn:He; [|lia].
    apply map_lookup_filter_Some in He as [He _]. by rewrite He in H5.
  - intros sid Hr [Hs Hst]. rewrite Ha. specialize (H6 sid Hr Hst). rewrite <-H6. f_equal.
    apply bool_decide_eq_true in Hs. unfold queued, q'. destruct (q !! sid) as [e|] eqn:He.
    + rewrite (proj2 (map_lookup_filter_Some _ _ _ e)); done.
    + by rewrite (proj2 (map_lookup_filter_None _ _ _)) by (by left).
Qed.

Lemma inv_time tr w q ms :
  svc_inv tr w q → 0 ≤ ms → since_tick tr + ms < 30000 → svc_inv (LTime ms :: tr) (elapse ms w) q.
Proof.
  intros [H1 H2 H3 H4 Hm H5 H6] Hms Ht. destruct (elapse_spec ms w Hms) as (Hk & Hc & Hw & Hp & Hu).
  split; rewrite ?Hk, ?Hc, ?Hw, ?Hp; cbn; auto.
  - apply queue_is_elapse; [done..|]. intros sid e He. destruct (H4 _ _ He) as (_ & _ & ? & ->). lia.
  - lia.
  - intros sid e He. destruct (H4 _ _ He) as (? & -> & ? & ->). split_and!; [done|lia..].
Qed.

Lemma inv_step tr w q l w' :
  svc_inv tr w q → svc_step interests w l w' → (∀ sid, clean (interests sid)) →
  Z.abs (wall w) < 2 ^ 52 → 0 ≤ since_tick tr → timely (l :: tr) → ∃ q', svc_inv (l :: tr) w' q'.
Proof.
  intros Hi Hs Hcl Hnow Hst [Hsl Ht]. pose proof Hi as [Hu Hq _ _ _ _ _].
  destruct Hs as [data req E Hint|data E|data req E|data E| | |ms Hms|w' (Hu' & Hf & Hwf & Hk)].
  - eapply (inv_request tr w q); try done; [by rewrite Hint|lia].
  - exists q. apply (inv_quiet _ w); cbn [svc_deliver]; unfold handleMatchRequest; rewrite ?E; done.
  - exists (delete (cancel_SessionID req) q). by apply (inv_cancel tr w q).
  - exists q. apply (inv_quiet _ w); cbn [svc_deliver]; unfold handleCancelRequest; rewrite ?E; done.
  - apply (inv_tick tr w q); [done|lia|done].
  - apply (inv_clean tr w q); [done|]. unfold Unix. Z.to_euclidean_division_equations. lia.
  - exists q. by apply inv_time.
  - exists q. apply (inv_quiet _ w); [done|auto|done|]. by eapply queue_is_frame.
Qed.

Lemma since_tick_pos tr w : svc_run interests w0 tr w → 0 ≤ since_tick tr ∧ 0 ≤ duration tr.
Proof.
  induction 1 as [|tr w l w' _ [IH1 IH2] Hs]; [done|]. destruct Hs; cbn; split; lia.
Qed.

Lemma run_inv tr w :
  svc_run interests w0 tr w → up w0 → queue_is (rclock w0) (keyspace w0) ∅ →
  (∀ sid, clean (interests sid)) → 0 ≤ wall w0 → wall w0 + duration tr < 2 ^ 52 → timely tr →
  ∃ q, svc_inv tr w q.
Proof.
  intros Hr Hu Hq Hcl H0. induction Hr as [|tr w l w' Hr IH Hs]; intros Hd Ht.
  - exists ∅. split; cbn; try done; unfold queued; intros; rewrite ?lookup_empty; lia.
  - pose proof (since_tick_pos _ _ Hr) as [Hst Hdu].
    assert (duration tr ≤ duration (l :: tr)) by (destruct Hs; cbn; lia).
    destruct IH as [q Hi]; [lia|apply Ht|]. pose proof (si_wall _ _ _ Hi) as Hw.
    eapply inv_step; [done..|lia|done|done].
Qed.

End runs.

(** ** Witness: a lonely session is told after thirty-two seconds *)

Definition tea (_ : string) : list string := ["tea"].
Definition alice_request : json :=
  marshal_MatchRequest {| req_SessionID := "alice"; req_Interests := ["tea"] |}.
Definition lonely_trace : list label :=
  [LTick; LTime 12000; LTick; LTime 20000; LRequest "alice"].
Definition lonely_world : mem :=
  (matchLoop [TickerC] (elapse 12000 (matchLoop [TickerC]
     (elapse 20000 (handleMatchRequest alice_request (mem_fresh 1700000000000)).2)).2)).2.


Example lonely_told :
  requests "alice" lonely_trace = 1%nat ∧ 30000 + since_tick lonely_trace ≤ waited "alice" lonely_trace
  ∧ published lonely_world = [(subject SubjectMatchFound "alice", timeout_message)].
Proof. split_and!; [done|done|vm_compute; reflexivity]. Qed.
