(* ===== verification/Shutdown.v ===== *)
(** * The shutdown of a server process

    [Shutdown] notifies the partners of all clients, waits while the rest of the
    process goes on, and closes what is left. *)

From stdpp Require Import base gmap strings numbers list_basics list_relations list.
From S2P Require Import Prelude GoStd Json Env Keys MemEnv ChatBuffer ChatStore SessionStore Report Filter Subscriptions Connection App WsServer Handlers HandlerProofs LifeCycle Moves ServerInv.
Open Scope Z_scope.

Section shutdown.
Context {W NW B D : Type}.
Context `{!Env W, !EnvLaws W, !Net NW, !NetLaws NW, !Broker callback B, !ReportDB D, !Unicode}.
Context (config : ServerConfig) (serverName : string) (hc : HeartbeatConfig) (f : Filter).
Abbreviation A := (app W NW B D).
Implicit Types (s : A).

(** While it waits, the process makes steps of its own. *)
Definition drain_ok (ev : drain_event (W:=W) (NW:=NW) (B:=B) (D:=D)) : Prop :=
  match ev with
  | DrainOther m => ∀ s, server_step config serverName hc f s (m s).2
  | _ => True
  end.

Lemma srv_drainLoop events : Forall drain_ok events → moves (srv_rel config) (drainLoop events).
Proof.
  induction 1 as [|[| |m] events Hev _ IH]; cbn [drainLoop].
  - apply moves_bind; [apply _|apply (mv_conns srv_hub (srv_rel config)); auto with mv|]. intros _. apply moves_ret, _.
  - apply moves_bind; [apply _|apply (mv_conns srv_hub (srv_rel config)); auto with mv|]. intros n.
    destruct (bool_decide _); [apply moves_ret, _|exact IH].
  - apply moves_bind; [apply _|apply (mv_conns srv_hub (srv_rel config)); auto with mv|]. intros _. apply moves_ret, _.
  - apply moves_bind; [apply _| |by intros _]. intros s Hs. by apply (step_ok config serverName hc f s).
Qed.

Lemma srv_drain_connections events :
  Forall drain_ok events → moves (srv_rel config) (drain_connections onDisconnect events).
Proof.
  intros Hev. unfold drain_connections. apply moves_bind; [apply _| |].
  { intros s [H1 H2 H3 H4]. by split. }
  intros _. apply moves_bind; [apply _|apply (mv_conns srv_hub (srv_rel config)); auto with mv|]. intros _.
  apply moves_bind; [apply _|apply (mv_conns srv_hub (srv_rel config)); auto with mv|]. intros all.
  apply moves_bind; [apply _| |intros _; by apply srv_drainLoop].
  apply moves_range; [apply _|]. intros c. apply moves_bind; [apply _|apply (mv_conn_id srv_hub (srv_rel config))|].
  intros id. apply (mv_onDisconnect srv_hub (srv_rel config)).
Qed.

(** Closing one connection. *)
Lemma wp_force_close l c (Q : unit → A → Prop) s :
  heap (conns s) !! l = Some c →
  (∀ s', heap (conns s') = heap (conns s) → byID (conns s') = byID (conns s) →
     opened (net (conns s')) = delete (Conn c) (opened (net (conns s))) → panicked s' = panicked s →
     (up (world s) → up (world s') ∧
        keyspace (world s') = delete ("session:" +:+ Connection.ID c) (keyspace (world s))) → Q tt s') →
  wp (force_close l) Q s.
Proof.
  intros Hl HQ. unfold force_close. wp_pure. eapply wp_conn_id; [exact Hl|]. wp_pure. apply wp_on_world.
  apply wp_intro. intros e w' E. wp_pure. apply wp_get_app. wp_pure. apply wp_on_conns.
  cbn [conns set_world]. rewrite (deref_heap _ _ _ Hl). apply wp_epoll_Remove.
  intros e' h' (ep & n' & -> & Ho & _). wp_pure. apply wp_on_conns. eapply wp_Close; [exact Hl|]. cbn.
  intros e2 n2 _ Ho2. wp_pure. apply HQ; cbn; [done|done|by rewrite Ho2, Ho|done|].
  intros Hup. enough (wp (SessionStore.Delete (Connection.ID c)) (λ _ w',
    up w' ∧ keyspace w' = delete ("session:" +:+ Connection.ID c) (keyspace (world s))) (world s)) as Hw.
  { unfold wp in Hw. by rewrite E in Hw. }
  unfold SessionStore.Delete. wp_pure. eapply wp_do; [done|done|]. intros w2 Hup2 _ Hk. wp_pure. done.
Qed.

(** The state after the connections [pre] are closed, before [post] are. *)
Record closing (d : A) (pre post : list loc) s' : Prop := {
  cl_heap : heap (conns s') = heap (conns d);
  cl_byID : byID (conns s') = byID (conns d);
  cl_open : ∀ x, is_Some (opened (net (conns s')) !! x) →
    ∃ l c, l ∈ post ∧ heap (conns d) !! l = Some c ∧ Conn c = x;
  cl_panic : panicked s' = panicked d;
  cl_session : up (world d) → up (world s') ∧
    ∀ l c, l ∈ pre → heap (conns d) !! l = Some c → keyspace (world s') !! ("session:" +:+ Connection.ID c) = None;
}.

Lemma closing_step d pre l post c s1 s2 :
  closing d pre (l :: post) s1 → heap (conns d) !! l = Some c →
  heap (conns s2) = heap (conns s1) → byID (conns s2) = byID (conns s1) →
  opened (net (conns s2)) = delete (Conn c) (opened (net (conns s1))) → panicked s2 = panicked s1 →
  (up (world s1) → up (world s2) ∧
     keyspace (world s2) = delete ("session:" +:+ Connection.ID c) (keyspace (world s1))) →
  closing d (pre ++ [l]) post s2.
Proof.
  intros [C1 C2 C3 C4 C5] Hc Hh Hi Ho Hp Hw. split.
  - by rewrite Hh.
  - by rewrite Hi.
  - intros x. rewrite Ho. intros [fd [Hne Hx]%lookup_delete_Some].
    destruct (C3 x ltac:(by eauto)) as (l' & c' & Hin & Hc' & Hx').
    apply elem_of_cons in Hin as [->|Hin]; [simplify_eq|by exists l', c'].
  - by rewrite Hp.
  - intros Hup. destruct (C5 Hup) as [Hup1 Hk]. destruct (Hw Hup1) as [Hup2 Hks]. split; [done|].
    intros l' c' Hin Hc'. rewrite Hks. apply lookup_delete_None.
    apply elem_of_app in Hin as [Hin|Hin]; [right; by eapply Hk|].
    apply list_elem_of_singleton in Hin as ->. left. congruence.
Qed.

End shutdown.

(** ** Witness: two clients that chat, a heartbeat while the shutdown waits *)

Definition waiting_events : list (drain_event (W:=mem) (NW:=mem_net) (B:=mem_broker callback) (D:=table)) :=
  [DrainTicker; DrainOther (checkConnections onDisconnect DefaultHeartbeatConfig); DrainDeadline].


Example shutdown_run :
  let s' := (Shutdown onDisconnect waiting_events chatting_app).2 in
  published (world s') = [("chat.c1", left_event "alice")] ∧ draining s' = true
  ∧ keyspace (world s') !! "session:alice" = None.
Proof. vm_compute. done. Qed.
