(* ===== verification/Entry.v ===== *)
(** * How a client enters: the ban check and the match request

    [handle_set_fingerprint] and [handle_find_match] with the ban store, the
    limiter, the filter, the session store and, on the other side of NATS, the
    request handler of the matcher. *)

From stdpp Require Import base gmap strings numbers list_basics list_relations list.
From S2P Require Import Prelude GoStd Json Env Keys MemEnv Counters ChatBuffer ChatStore SessionStore RateLimit BanStore Report Filter Protocol Messaging Subscriptions Connection Queue Tiers Matcher Cleanup App WsServer Handlers HandlerProofs LifeCycle ChatStart.
Open Scope Z_scope.

Section entry.
Context {W NW B D : Type} `{!Env W, !EnvLaws W, !Net NW, !NetLaws NW}.
Context `{!Broker callback B, !BrokerLaws callback B, !Unicode}.
Abbreviation A := (app W NW B D).
Implicit Types (s : A).

Lemma wp_SetFingerprint id fp (Q : option error → W → Prop) (w : W) :
  up w → wf_ks (keyspace w) →
  (∀ w', up w' → frame w w' → wf_ks (keyspace w') →
     (∀ k, k ≠ SessionPrefix +:+ id → keyspace w' !! k = keyspace w !! k) →
     hget (keyspace w') (SessionPrefix +:+ id) !! "fingerprint" = Some fp → Q None w') →
  wp (SetFingerprint id fp) Q w.
Proof.
  intros Hup Hwf HQ. unfold SetFingerprint. wp_pure.
  apply wp_hset_key; [done|done|auto with go|]. intros w' Hup' Hf Hwf' Hk Hh. wp_pure.
  apply HQ; try done; rewrite Hh; by hash_simpl.
Qed.

(** Removing a registered connection, whatever the disconnect callback does. *)
Lemma wp_remove_conn c co (Q : unit → A → Prop) s :
  conns_ok (conns s) → heap (conns s) !! c = Some co → byID (conns s) !! Connection.ID co = Some c →
  (∀ s', conns_ok (conns s') → byID (conns s') = delete (Connection.ID co) (byID (conns s)) →
     opened (net (conns s')) = delete (Conn co) (opened (net (conns s))) →
     frames (net (conns s')) = frames (net (conns s)) → Q tt s') →
  wp (removeConnection c) Q s.
Proof.
  intros Hok Hc Hid HQ. eapply wp_remove_registered; [exact Hok|exact Hc|exact Hid|].
  intros s0 _ _ _ _ _ _ _ Hi _ Ho Hf Hok0. wp_pure. apply wp_intro. intros [] s1 E1. wp_pure.
  pose proof (onDisconnect_keeps (Connection.ID co) s0) as K1. rewrite E1 in K1. cbn in K1.
  apply wp_on_world, wp_intro. intros e w' _. wp_pure. by apply HQ; cbn; rewrite K1.
Qed.

(** C11: A ban is enforced when a client shows its fingerprint: on a banned one
    the server sends at most the ban notice, with the reason and the seconds
    left, and removes and closes the connection, touching no other; on any
    other, the connections stay and the session carries the fingerprint, which
    is what reports count against. *)
Theorem banned_client_refused s conn c m o :
  up (world s) → wf_ks (keyspace (world s)) → conns_ok (conns s) →
  heap (conns s) !! conn = Some c → byID (conns s) !! Connection.ID c = Some conn →
  fp_Fingerprint m ≠ "" → ban_is (keyspace (world s)) (fp_Fingerprint m) o →
  let s' := (handle_set_fingerprint conn m s).2 in
  match o with
  | Some (reason, until) =>
      let left := (until - rclock (world s) + 500) / 1000 in
      conns_ok (conns s') ∧ byID (conns s') = delete (Connection.ID c) (byID (conns s))
      ∧ opened (net (conns s')) = delete (Conn c) (opened (net (conns s)))
      ∧ (frames (net (conns s')) = frames (net (conns s)) ∨
         frames (net (conns s')) = frames (net (conns s)) ++ [(Conn c, banned_msg (Z.max 0 left) reason)])
  | None =>
      conns s' = conns s ∧
      hget (keyspace (world s')) ("session:" +:+ Connection.ID c) !! "fingerprint" = Some (fp_Fingerprint m)
  end.
Proof.
  intros Hup Hwf Hok Hc Hid Hfp Hban.
  set (P := λ (_ : unit) (s' : A), match o with
    | Some (reason, until) =>
        let left := (until - rclock (world s) + 500) / 1000 in
        conns_ok (conns s') ∧ byID (conns s') = delete (Connection.ID c) (byID (conns s))
        ∧ opened (net (conns s')) = delete (Conn c) (opened (net (conns s)))
        ∧ (frames (net (conns s')) = frames (net (conns s)) ∨
           frames (net (conns s')) = frames (net (conns s)) ++ [(Conn c, banned_msg (Z.max 0 left) reason)])
    | None =>
        conns s' = conns s ∧
        hget (keyspace (world s')) ("session:" +:+ Connection.ID c) !! "fingerprint" = Some (fp_Fingerprint m)
    end).
  change (wp (handle_set_fingerprint conn m) P s). unfold handle_set_fingerprint. wp_pure.
  eapply wp_conn_id; [exact Hc|]. rewrite bool_decide_false by done. wp_pure. apply wp_on_world.
  apply wp_SetFingerprint; [done|done|]. intros w1 Hup1 (Hcl1 & _) Hwf1 Hk1 Hh1. wp_pure. apply wp_on_world.
  cbn [world set_world].
  eapply (wp_IsBanned _ o); [done| |]. { unfold ban_is in *. by rewrite Hk1. }
  intros w2 (Hk2 & (Hcl2 & _) & _). rewrite Hcl1. destruct o as [[reason until]|]; cbn; wp_pure.
  - eapply wp_reply; [exact Hc|]. intros n' Ho Hf. wp_pure. eapply wp_remove_conn; [by apply conns_ok_quiet|exact Hc|exact Hid|].
    intros s' Hok' Hi' Ho' Hf'. cbn in *. unfold P. split_and!; [done|done|by rewrite Ho', Ho|by rewrite Hf'].
  - split; [done|]. cbn. by rewrite Hk2.
Qed.

Lemma schema_rl_match id : schema (Key RuleMatch +:+ id) = Some KStr.
Proof. by destruct id. Qed.

Lemma wp_SetInterests id interests (Q : option error → W → Prop) (w : W) :
  up w → wf_ks (keyspace w) →
  (∀ w', up w' → frame w w' → wf_ks (keyspace w') →
     hget (keyspace w') (SessionPrefix +:+ id) !! "interests" = Some interests → Q None w') →
  wp (SetInterests id interests) Q w.
Proof.
  intros Hup Hwf HQ. unfold SetInterests. wp_pure. apply wp_now. wp_pure.
  apply wp_hset_key; [done|done|auto with go|]. intros w' Hup' Hf Hwf' Hk Hh. wp_pure.
  apply HQ; try done; rewrite Hh; by hash_simpl.
Qed.

Lemma wp_UpdateStatus id status (Q : option error → W → Prop) (w : W) :
  up w → wf_ks (keyspace w) →
  (∀ w', up w' → frame w w' → wf_ks (keyspace w') →
     (∀ f, f ≠ "status" → f ≠ "last_active" →
        hget (keyspace w') (SessionPrefix +:+ id) !! f = hget (keyspace w) (SessionPrefix +:+ id) !! f) →
     hget (keyspace w') (SessionPrefix +:+ id) !! "status" = Some status → Q None w') →
  wp (UpdateStatus id status) Q w.
Proof.
  intros Hup Hwf HQ. unfold UpdateStatus. wp_pure. apply wp_now. cbv zeta. set (cs := [_; _]).
  assert (Ht : Forall typed cs) by (repeat apply Forall_cons_2; [apply schema_session|done|apply Forall_nil_2]).
  destruct (apply_ws_typed (rclock w) cs _ Hwf Ht) as (ks' & E & Hwf').
  eapply wp_pipeline; [done|exact E|]. intros w' Hup' Hf <-.
  pose proof (apply_ws_hget _ _ _ _ (SessionPrefix +:+ id) E Ht) as Hh.
  assert (Hh' : hget (keyspace w') (SessionPrefix +:+ id)
      = hset [("status", status); ("last_active", itoa (Unix (wall w)))] (hget (keyspace w) (SessionPrefix +:+ id))).
  { rewrite Hh. cbn [foldl cs]. unfold w_hget. cbn [wkey]. by rewrite !bool_decide_true. }
  apply HQ; try done; rewrite Hh'; [intros f Hf1 Hf2|]; by hash_simpl.
Qed.

(** The request handler of the matcher, on what the server publishes. *)
Lemma wp_matcher_request sid interests q (Q : unit → W → Prop) (w : W) :
  up w → queue_is (rclock w) (keyspace w) q → clean interests → Z.abs (wall w) < 2 ^ 53 →
  requeue_ok q sid interests →
  (∀ w', queue_is (rclock w) (keyspace w') (<[sid := new_entry (rclock w) (wall w) interests]> q) → Q tt w') →
  wp (handleMatchRequest (marshal_MatchRequest {| req_SessionID := sid; req_Interests := interests |})) Q w.
Proof.
  intros Hup Hq Hc Hnow Hre HQ. unfold handleMatchRequest. rewrite unmarshal_marshal_request. wp_pure.
  eapply wp_Enqueue; [done..|]. intros w1 Hup1 (Hc1 & _) Hq1. wp_pure.
  eapply wp_QueueSize; [done|by rewrite Hc1|]. intros w2 (Hk2 & _). wp_pure. apply HQ. by rewrite Hk2.
Qed.

(** What an allowed request leaves behind. *)
Record searching (sid : string) (interests : list string) (m : gmap string (string * callback)) s s' : Prop := {
  se_published : published (world s') = published (world s) ++
    [("match.request", marshal_MatchRequest {| req_SessionID := sid; req_Interests := interests |})];
  se_status : hget (keyspace (world s')) ("session:" +:+ sid) !! "status" = Some "matching";
  se_interests : hget (keyspace (world s')) ("session:" +:+ sid) !! "interests" = Some (Join interests ",");
  se_holds : holds (<["match.found." +:+ sid := ("match.found." +:+ sid, OnMatchFound sid)]> m) (nats s');
}.

Lemma wp_find_match f conn c m o m1 (Q : unit → A → Prop) s :
  let sid := Connection.ID c in
  heap (conns s) !! conn = Some c → up (world s) → wf_ks (keyspace (world s)) →
  ctr_is (keyspace (world s)) (Key RuleMatch +:+ sid) o → ctr_count o < max_int64 →
  holds m1 (nats s) → connected (Subscriptions.conn (nats s)) →
  (∀ s', (if bool_decide (ctr_count o + 1 ≤ 10) then searching sid (CheckInterests f (fm_Interests m)) m1 s s'
          else published (world s') = published (world s) ∧ nats s' = nats s
               ∧ ∀ k, k ≠ Key RuleMatch +:+ sid → keyspace (world s') !! k = keyspace (world s) !! k) → Q tt s') →
  wp (handle_find_match f conn m) Q s.
Proof.
  intros sid Hc Hup Hwf Ho Hlt Hh Hcon HQ. unfold handle_find_match. wp_pure. eapply wp_conn_id; [exact Hc|].
  fold sid. wp_pure. apply wp_on_world. eapply wp_Allow; [done|exact Ho|done|done|].
  intros w1 Hup1 (_ & _ & Hp1) Ho1 Hk1. wp_pure. cbn [Limit RuleMatch].
  assert (Hwf1 : wf_ks (keyspace w1)) by (eapply counter_wf; eauto using schema_rl_match).
  destruct (bool_decide (ctr_count o + 1 ≤ 10)); cbn [negb].
  2:{ eapply wp_reply; [exact Hc|]. intros n' _ _. apply HQ. cbn. done. }
  wp_pure. apply wp_ignore_world. cbn [world set_world]. apply wp_SetInterests; [done|done|].
  intros w2 Hup2 (_ & _ & Hp2) Hwf2 Hi2. wp_pure.
  apply wp_ignore_world. cbn [world set_world]. apply wp_UpdateStatus; [done|done|].
  intros w3 Hup3 (_ & _ & Hp3) Hwf3 Hi3 Hst3. wp_pure.
  apply wp_ignore_world, wp_publish; [done|]. cbn [world set_world]. intros w4 _ Hk4 _ _ Hp4. wp_pure.
  unfold ignore. wp_pure. apply wp_on_nats. cbn [nats set_world].
  eapply wp_unsubscribe; [exact Hh|done|]. intros e c1 Hh1 Hcon1. wp_pure. apply wp_on_nats. cbn [nats set_nats].
  eapply wp_subscribe_as; [exact Hh1|done|apply lookup_delete_eq|]. intros c2 Hh2 _. wp_pure.
  eapply wp_reply; [exact Hc|]. intros n' _ _. apply HQ. split; cbn.
  - by rewrite Hp4, Hp3, Hp2, Hp1.
  - by rewrite Hk4.
  - rewrite Hk4, Hi3 by done. exact Hi2.
  - by rewrite insert_delete_eq in Hh2.
Qed.

End entry.

(** ** Witnesses *)

Definition banned_app : app mem mem_net (mem_broker callback) table :=
  set_world (Ban "fp-eve" Ban15Min "spam" sample_active).2 sample_app.
Definition show_fingerprint : SetFingerprintMsg :=
  {| fp_Type := "set_fingerprint"; fp_Fingerprint := "fp-eve" |}.

Lemma banned_client_refused_witness :
  let s' := (handle_set_fingerprint 0%nat show_fingerprint banned_app).2 in
  let left := (1700000900000 - rclock (world banned_app) + 500) / 1000 in
  conns_ok (conns s') ∧ byID (conns s') = delete "alice" (byID (conns banned_app))
  ∧ opened (net (conns s')) = delete 0%nat (opened (net (conns banned_app)))
  ∧ (frames (net (conns s')) = frames (net (conns banned_app)) ∨
     frames (net (conns s')) = frames (net (conns banned_app)) ++ [(0%nat, banned_msg (Z.max 0 left) "spam")]).
Proof.
  apply (banned_client_refused banned_app 0%nat sample_conn show_fingerprint (Some ("spam", 1700000900000))).
  - vm_compute. reflexivity.
  - apply (bool_decide_unpack _). vm_compute. exact I.
  - exact sample_hub_ok.
  - vm_compute. reflexivity.
  - vm_compute. reflexivity.
  - discriminate.
  - vm_compute. reflexivity.
Defined.

Definition look_for : FindMatchMsg :=
  {| fm_Type := "find_match"; fm_Interests := ["tea"; "badword"; "chess"] |}.

Definition new_matcher : mem := mem_fresh 1700000000000.


Example looked_for : CheckInterests sample_filter (fm_Interests look_for) = ["tea"; "chess"].
Proof. vm_compute. reflexivity. Qed.
