(* ===== verification/LoadClient.v ===== *)
(** * The client of the load tests

    loadtest/client/client.go: a client that answers session_created with its
    fingerprint and hands the other frames to the handlers registered for their
    types.  Its read loop is a function of what the socket gives it. *)

From stdpp Require Import base gmap strings numbers list_basics list_relations list.
From S2P Require Import Prelude GoStd Json Env Keys Protocol App WsServer.
Open Scope Z_scope.

(** The socket and the clock, as the client uses them. *)
Class ClientNet (NW : Type) := {
  WriteClientMessage : json → M NW (option error);
  conn_Close : M NW (option error);
  time_Now : M NW Z;
  sent : NW → list json;
}.

Class ClientNetLaws (NW : Type) `{!ClientNet NW} : Prop := {
  client_write_ok : ∀ j n n', WriteClientMessage j n = (None, n') → sent n' = sent n ++ [j];
  client_write_err : ∀ j n e n', WriteClientMessage j n = (Some e, n') → sent n' = sent n;
  client_close_sent : ∀ n, sent (conn_Close n).2 = sent n;
  client_now_sent : ∀ n, sent (time_Now n).2 = sent n;
}.

Record Metrics : Type := {
  ConnectLatency : Z;
  FirstMsgLatency : Z;
  MessagesReceived : Z;
  MessagesSent : Z;
  Errors : Z;
}.

(** The client with its socket.  A handler is known by the type it is registered
    for; [dispatched] lists the frames handed to handlers, [closes] counts the
    calls of [conn.Close], [panicked] is set by an index out of range. *)
Record Client (NW : Type) : Type := {
  conn : NW;
  sessionID : string;
  metrics : Metrics;
  handlers : gset string;
  dispatched : list (string * json);
  done : bool;
  closes : nat;
  firstMsg : option Z;
  panicked : bool;
}.
Arguments conn {_}. Arguments sessionID {_}. Arguments metrics {_}. Arguments handlers {_}.
Arguments dispatched {_}. Arguments done {_}. Arguments closes {_}. Arguments firstMsg {_}.
Arguments panicked {_}. Arguments Build_Client {_}.

Section setters.
Context {NW : Type}.
Definition set_conn (n : NW) (c : Client NW) : Client NW :=
  Build_Client n (sessionID c) (metrics c) (handlers c) (dispatched c) (done c) (closes c) (firstMsg c) (panicked c).
Definition set_sessionID (id : string) (c : Client NW) : Client NW :=
  Build_Client (conn c) id (metrics c) (handlers c) (dispatched c) (done c) (closes c) (firstMsg c) (panicked c).
Definition set_metrics (m : Metrics) (c : Client NW) : Client NW :=
  Build_Client (conn c) (sessionID c) m (handlers c) (dispatched c) (done c) (closes c) (firstMsg c) (panicked c).
Definition set_handlers (h : gset string) (c : Client NW) : Client NW :=
  Build_Client (conn c) (sessionID c) (metrics c) h (dispatched c) (done c) (closes c) (firstMsg c) (panicked c).
Definition set_dispatched (d : list (string * json)) (c : Client NW) : Client NW :=
  Build_Client (conn c) (sessionID c) (metrics c) (handlers c) d (done c) (closes c) (firstMsg c) (panicked c).
Definition set_done (c : Client NW) : Client NW :=
  Build_Client (conn c) (sessionID c) (metrics c) (handlers c) (dispatched c) true (S (closes c)) (firstMsg c) (panicked c).
Definition set_firstMsg (t : Z) (c : Client NW) : Client NW :=
  Build_Client (conn c) (sessionID c) (metrics c) (handlers c) (dispatched c) (done c) (closes c) (Some t) (panicked c).
Definition set_panicked (c : Client NW) : Client NW :=
  Build_Client (conn c) (sessionID c) (metrics c) (handlers c) (dispatched c) (done c) (closes c) (firstMsg c) true.
End setters.

(** What the read loop meets: a text frame (its JSON value, if it is one), a
    read error, or a [Close] from another goroutine. *)
Inductive client_event : Type :=
  | EvText (data : option json)
  | EvReadErr
  | EvClose.

Section client.
Context `{!ClientNet NW}.
Abbreviation C := (Client NW).

Definition modify (f : C → C) : M C unit := λ c, (tt, f c).
Definition get_client : M C C := λ c, (c, c).
Definition on_socket {X} (m : M NW X) : M C X := λ c, let '(x, n) := m (conn c) in (x, set_conn n c).

Definition count_sent (m : Metrics) : Metrics :=
  {| ConnectLatency := ConnectLatency m; FirstMsgLatency := FirstMsgLatency m;
     MessagesReceived := MessagesReceived m; MessagesSent := MessagesSent m + 1; Errors := Errors m |}.
Definition count_received (m : Metrics) : Metrics :=
  {| ConnectLatency := ConnectLatency m; FirstMsgLatency := FirstMsgLatency m;
     MessagesReceived := MessagesReceived m + 1; MessagesSent := MessagesSent m; Errors := Errors m |}.
Definition count_error (m : Metrics) : Metrics :=
  {| ConnectLatency := ConnectLatency m; FirstMsgLatency := FirstMsgLatency m;
     MessagesReceived := MessagesReceived m; MessagesSent := MessagesSent m; Errors := Errors m + 1 |}.
Definition set_first_latency (d : Z) (m : Metrics) : Metrics :=
  {| ConnectLatency := ConnectLatency m; FirstMsgLatency := ConnectLatency m + d;
     MessagesReceived := MessagesReceived m; MessagesSent := MessagesSent m; Errors := Errors m |}.

(** *** New, once the socket is open *)
Definition New (n : NW) (latency : Z) : C :=
  {| conn := n; sessionID := "";
     metrics := {| ConnectLatency := latency; FirstMsgLatency := 0; MessagesReceived := 0; MessagesSent := 0; Errors := 0 |};
     handlers := ∅; dispatched := []; done := false; closes := 0; firstMsg := None; panicked := false |}.

Definition Send (msg : json) : M C (option error) :=
  do! modify (λ c, set_metrics (count_sent (metrics c)) c) in
  on_socket (WriteClientMessage msg).

Definition On (msgType : string) : M C unit := modify (λ c, set_handlers ({[msgType]} ∪ handlers c) c).

Definition Close : M C (option error) :=
  let! c := get_client in
  if done c then ret None
  else
    do! modify set_done in
    on_socket conn_Close.

(** The answer to session_created, a map of strings. *)
Definition fingerprint_msg (fingerprint : string) : json :=
  JObj [("fingerprint", JStr fingerprint); ("type", JStr TypeSetFingerprint)].

Definition unmarshal_session (data : json) : option string :=
  unmarshal (λ ms, _ ← get_str "type" ms; get_str "session_id" ms) data.

Definition session_created (data : json) : M C unit :=
  match unmarshal_session data with
  | None => ret tt
  | Some id =>
      if bool_decide (id = "") then ret tt
      else
        do! modify (set_sessionID id) in
        if bool_decide (String.length id < 8)%nat then modify set_panicked
        else
          let! _ := Send (fingerprint_msg ("loadtest-" +:+ String.substring 0 8 id)) in
          ret tt
  end.

(** One frame of the read loop. *)
Definition on_text (data : option json) : M C unit :=
  let! c := get_client in
  do! (match firstMsg c with
       | Some _ => ret tt
       | None =>
           let! t := on_socket time_Now in
           do! modify (set_firstMsg t) in
           let! t' := on_socket time_Now in
           modify (λ c, set_metrics (set_first_latency (t' - t) (metrics c)) c)
       end) in
  do! modify (λ c, set_metrics (count_received (metrics c)) c) in
  match data with
  | None => ret tt
  | Some data =>
      match unmarshal (get_str "type") data with
      | None => ret tt
      | Some type =>
          do! (if bool_decide (type = TypeSessionCreated) then session_created data else ret tt) in
          let! c := get_client in
          if panicked c then ret tt
          else if bool_decide (type ∈ handlers c) then
            modify (λ c, set_dispatched (dispatched c ++ [(type, data)]) c)
          else ret tt
      end
  end.

Fixpoint readLoop (events : list client_event) : M C unit :=
  match events with
  | [] => ret tt
  | EvClose :: events =>
      let! _ := Close in
      readLoop events
  | ev :: events' =>
      let! c := get_client in
      if done c || panicked c then ret tt
      else
        match ev with
        | EvText data => do! on_text data in readLoop events'
        | _ => modify (λ c, set_metrics (count_error (metrics c)) c)
        end
  end.
End client.

(** ** What a run of the read loop does *)

(** The frames read before the socket fails or the client is closed. *)
Fixpoint frames_read (events : list client_event) : list (option json) :=
  match events with
  | EvText data :: events => data :: frames_read events
  | _ => []
  end.

(** Whether a read fails before the client is closed. *)
Fixpoint read_fails (events : list client_event) : bool :=
  match events with
  | EvText _ :: events => read_fails events
  | EvReadErr :: _ => true
  | _ => false
  end.

(** The frames that have a handler. *)
Definition handled (hs : gset string) (data : option json) : list (string * json) :=
  match data with
  | Some d =>
      match unmarshal (get_str "type") d with
      | Some type => if bool_decide (type ∈ hs) then [(type, d)] else []
      | None => []
      end
  | None => []
  end.

(** A session id of at least eight bytes, as every UUID is. *)
Definition long_session (data : option json) : Prop :=
  match data with
  | Some d => ∀ id, unmarshal_session d = Some id → id = "" ∨ (8 ≤ String.length id)%nat
  | None => True
  end.

Section run.
Context `{!ClientNet NW, !ClientNetLaws NW}.
Abbreviation C := (Client NW).
Implicit Types (c : C).

Lemma wp_modify (f : C → C) (Q : unit → C → Prop) c : Q tt (f c) → wp (modify f) Q c.
Proof. done. Qed.
Lemma wp_get_client (Q : C → C → Prop) c : Q c c → wp get_client Q c.
Proof. done. Qed.
Lemma wp_on_socket {X} (m : M NW X) (Q : X → C → Prop) c :
  wp m (λ x n, Q x (set_conn n c)) (conn c) → wp (on_socket m) Q c.
Proof. unfold wp, on_socket. by destruct (m (conn c)). Qed.

(** The parts of a client that taking the time does not change. *)
Definition same_counts c c' : Prop :=
  MessagesReceived (metrics c') = MessagesReceived (metrics c) ∧ Errors (metrics c') = Errors (metrics c) ∧
  dispatched c' = dispatched c ∧ handlers c' = handlers c ∧ done c' = done c ∧ closes c' = closes c ∧
  panicked c' = panicked c.

(** What a frame changes. *)
Record received (data : option json) c c' : Prop := {
  rc_received : MessagesReceived (metrics c') = MessagesReceived (metrics c) + 1;
  rc_errors : Errors (metrics c') = Errors (metrics c);
  rc_dispatched : dispatched c' = dispatched c ++ handled (handlers c) data;
  rc_handlers : handlers c' = handlers c;
  rc_done : done c' = done c;
  rc_closes : closes c' = closes c;
  rc_panicked : panicked c' = false;
}.

Lemma wp_session_created data (Q : unit → C → Prop) c :
  long_session (Some data) → (∀ c', same_counts c c' → Q tt c') → wp (session_created data) Q c.
Proof.
  intros Hlong HQ. unfold session_created. destruct (unmarshal_session data) as [id|] eqn:E; [|by apply wp_ret, HQ].
  case_bool_decide as Hid; [by apply wp_ret, HQ|]. wp_pure. apply wp_modify.
  rewrite bool_decide_false by (destruct (Hlong id E); [done|lia]). wp_pure. unfold Send. wp_pure.
  apply wp_modify, wp_on_socket, wp_intro. intros e n _. wp_pure. by apply HQ.
Qed.

Lemma wp_first_time (Q : unit → C → Prop) c :
  (∀ c', same_counts c c' → sent (conn c') = sent (conn c) →
     MessagesSent (metrics c') = MessagesSent (metrics c) → Q tt c') →
  wp (match firstMsg c with
      | Some _ => ret tt
      | None =>
          let! t := on_socket time_Now in
          do! modify (set_firstMsg t) in
          let! t' := on_socket time_Now in
          modify (λ c, set_metrics (set_first_latency (t' - t) (metrics c)) c)
      end) Q c.
Proof.
  intros HQ. destruct (firstMsg c); [by apply wp_ret, HQ|]. wp_pure. apply wp_on_socket, wp_intro. intros t n E.
  wp_pure. apply wp_modify. wp_pure. apply wp_on_socket, wp_intro. intros t' n' E'. wp_pure. apply wp_modify.
  pose proof (client_now_sent (conn c)) as H1. rewrite E in H1.
  pose proof (client_now_sent n) as H2. cbn [conn set_firstMsg set_conn] in E'. rewrite E' in H2. cbn in H1, H2.
  apply HQ; [done| |done]. cbn. congruence.
Qed.

Lemma wp_on_text data (Q : unit → C → Prop) c :
  long_session data → panicked c = false → (∀ c', received data c c' → Q tt c') → wp (on_text data) Q c.
Proof.
  intros Hlong Hp HQ. unfold on_text. wp_pure. apply wp_get_client. wp_pure.
  apply wp_first_time. intros c1 (R1 & E1 & D1 & H1 & N1 & K1 & P1) _ _. wp_pure. apply wp_modify.
  set (c2 := set_metrics _ c1). unfold handled in *. destruct data as [data|].
  2:{ apply wp_ret, HQ. split; cbn; rewrite ?R1, ?P1, ?D1, ?app_nil_r; done. }
  assert (Hend : ∀ c', same_counts c2 c' → received (Some data) c (set_dispatched (dispatched c' ++ handled (handlers c) (Some data)) c')).
  { intros c' (R2 & E2 & D2 & H2 & N2 & K2 & P2). split; cbn; rewrite ?R2, ?E2, ?D2, ?H2, ?N2, ?K2, ?P2; cbn;
      rewrite ?R1, ?E1, ?D1, ?H1, ?N1, ?K1, ?P1; done. }
  assert (Hskip : ∀ c', same_counts c2 c' → handled (handlers c) (Some data) = [] → Q tt c').
  { intros c' Hc' Hh. apply HQ. specialize (Hend c' Hc'). rewrite Hh, app_nil_r in Hend. by destruct c'. }
  unfold handled in *. destruct (unmarshal (get_str "type") data) as [type|]; [|by apply wp_ret, Hskip].
  apply wp_bind.
  assert (Htail : ∀ c', same_counts c2 c' → wp (let! c := get_client in
      if panicked c then ret tt
      else if bool_decide (type ∈ handlers c) then
        modify (λ c, set_dispatched (dispatched c ++ [(type, data)]) c)
      else ret tt) Q c').
  { intros c' Hc'. pose proof Hc' as (_ & _ & _ & H2 & _ & _ & P2). wp_pure. apply wp_get_client.
    rewrite P2. cbn [panicked c2 set_metrics]. rewrite P1, Hp, H2. cbn [handlers c2 set_metrics]. rewrite H1.
    destruct (bool_decide (type ∈ handlers c)); [apply wp_modify; by apply HQ, Hend|by apply wp_ret, Hskip]. }
  destruct (bool_decide (type = TypeSessionCreated)); [|by apply wp_ret, Htail]. by apply wp_session_created.
Qed.

Lemma wp_client_Close (Q : option error → C → Prop) c :
  (∀ e c', metrics c' = metrics c → dispatched c' = dispatched c → done c' = true →
     closes c' = (if done c then closes c else S (closes c)) → panicked c' = panicked c → Q e c') → wp Close Q c.
Proof.
  intros HQ. unfold Close. wp_pure. apply wp_get_client. destruct (done c) eqn:E; [by apply wp_ret, HQ|].
  wp_pure. apply wp_modify, wp_on_socket, wp_intro. intros e n _. by apply HQ.
Qed.

(** A closed client reads no more. *)
Lemma wp_readLoop_done events (Q : unit → C → Prop) c :
  done c = true →
  (∀ c', metrics c' = metrics c → dispatched c' = dispatched c → closes c' = closes c → panicked c' = panicked c → Q tt c') →
  wp (readLoop events) Q c.
Proof.
  intros Hd HQ. revert c Hd HQ. induction events as [|ev events IH]; intros c Hd HQ; cbn [readLoop]; [by apply wp_ret, HQ|].
  destruct ev; wp_pure.
  1,2: apply wp_get_client; rewrite Hd; by apply wp_ret, HQ.
  apply wp_client_Close. intros e c' Hm Hdi Hdo Hc Hp. apply IH; [done|]. rewrite Hd in Hc.
  intros c2 H1 H2 H3 H4. apply HQ; congruence.
Qed.

(** The load client counts and dispatches what it reads, and nothing else:
    over any sequence of frames, read errors and calls of Close, it counts the
    frames read until the first error or Close, hands those with a registered
    type to their handlers, in order and once each, counts one error exactly
    when a read fails before Close, closes its socket at most once, and does not
    panic as long as session ids have eight bytes. *)
Theorem client_run events c :
  done c = false → panicked c = false → closes c = 0%nat → Forall long_session (frames_read events) →
  let c' := (readLoop events c).2 in
  MessagesReceived (metrics c') = MessagesReceived (metrics c) + Z.of_nat (length (frames_read events))
  ∧ dispatched c' = dispatched c ++ concat (handled (handlers c) <$> frames_read events)
  ∧ Errors (metrics c') = Errors (metrics c) + (if read_fails events then 1 else 0)
  ∧ (closes c' ≤ 1)%nat ∧ panicked c' = false.
Proof.
  intros Hd Hp Hcl Hlong. cbv zeta.
  set (P := λ c0 events (_ : unit) (c' : C), MessagesReceived (metrics c') = MessagesReceived (metrics c0) + Z.of_nat (length (frames_read events))
    ∧ dispatched c' = dispatched c0 ++ concat (handled (handlers c0) <$> frames_read events)
    ∧ Errors (metrics c') = Errors (metrics c0) + (if read_fails events then 1 else 0)
    ∧ (closes c' ≤ 1)%nat ∧ panicked c' = false).
  change (wp (readLoop events) (P c events) c).
  revert c Hd Hp Hcl. induction events as [|ev events IH]; intros c Hd Hp Hcl; cbn [readLoop].
  { apply wp_ret. unfold P. cbn. rewrite app_nil_r. split_and!; [lia|done|lia|lia|done]. }
  destruct ev as [data| |]; wp_pure.
  - apply wp_get_client. rewrite Hd, Hp. cbn [orb]. wp_pure. cbn [frames_read] in Hlong.
    apply Forall_cons_1 in Hlong as [Hl Hls]. apply wp_on_text; [done|done|].
    intros c1 [R1 E1 D1 H1 N1 K1 P1]. eapply wp_mono; [apply IH; [done|congruence|done|congruence]|].
    intros [] c' (R2 & D2 & E2 & K2 & P2). unfold P. cbn [frames_read read_fails length]. rewrite fmap_cons. cbn [concat].
    rewrite D2, D1, H1, <-app_assoc. split_and!; [lia|done|lia|done|done].
  - apply wp_get_client. rewrite Hd, Hp. cbn [orb]. apply wp_modify. unfold P. cbn. rewrite app_nil_r.
    split_and!; [lia|done|lia|lia|done].
  - apply wp_client_Close. intros e c1 Hm Hdi Hdo Hc Hpa. apply wp_readLoop_done; [done|].
    intros c' H1 H2 H3 H4. unfold P. cbn. rewrite app_nil_r, H1, H2, H3, H4, Hm, Hdi, Hc, Hd, Hpa.
    split_and!; [lia|done|lia|lia|done].
Qed.

(** The handshake: the first frame the server sends on an upgrade gives the
    client its session id and makes it send one message (or fail to), which the
    server parses as set_fingerprint with the prefix of the session id, never
    empty, so that the server's ban check runs. *)
Theorem load_client_handshake id c :
  (8 ≤ String.length id)%nat → done c = false → panicked c = false →
  let c' := (readLoop [EvText (Some (session_created_msg id))] c).2 in
  let fp := "loadtest-" +:+ String.substring 0 8 id in
  sessionID c' = id ∧ MessagesSent (metrics c') = MessagesSent (metrics c) + 1
  ∧ (sent (conn c') = sent (conn c) ∨ sent (conn c') = sent (conn c) ++ [fingerprint_msg fp])
  ∧ ParseClientMessage (Some (fingerprint_msg fp)) =
      ("set_fingerprint", Some (CSetFingerprint {| fp_Type := "set_fingerprint"; fp_Fingerprint := fp |}), None)
  ∧ fp ≠ "".
Proof.
  intros Hid Hd Hp. cbv zeta.
  enough (wp (readLoop [EvText (Some (session_created_msg id))]) (λ _ c',
    sessionID c' = id ∧ MessagesSent (metrics c') = MessagesSent (metrics c) + 1
    ∧ (sent (conn c') = sent (conn c) ∨ sent (conn c') = sent (conn c)
       ++ [fingerprint_msg ("loadtest-" +:+ String.substring 0 8 id)])) c) as (H1 & H2 & H3).
  { split_and!; [done|done|done|reflexivity|done]. }
  cbn [readLoop]. wp_pure. apply wp_get_client. rewrite Hd, Hp. cbn [orb]. wp_pure.
  unfold on_text. wp_pure. apply wp_get_client. wp_pure.
  apply wp_first_time. intros c1 (_ & _ & _ & _ & _ & _ & P1) Hs1 Hm1. wp_pure. apply wp_modify.
  change (unmarshal (get_str "type") (session_created_msg id)) with (Some TypeSessionCreated). wp_pure.
  rewrite (bool_decide_eq_true_2 (TypeSessionCreated = TypeSessionCreated)) by done.
  unfold session_created. change (unmarshal_session (session_created_msg id)) with (Some id). cbv iota beta.
  rewrite (bool_decide_eq_false_2 (id = "")) by (intros ->; cbn in Hid; lia). wp_pure. apply wp_modify.
  rewrite (bool_decide_eq_false_2 (String.length id < 8)%nat) by lia. wp_pure. unfold Send. wp_pure. apply wp_modify.
  apply wp_on_socket, wp_intro. intros e n' E. cbn [conn set_metrics set_sessionID] in E. wp_pure.
  set (c2 := set_conn n' _).
  assert (Hend : sessionID c2 = id ∧ MessagesSent (metrics c2) = MessagesSent (metrics c) + 1
    ∧ (sent (conn c2) = sent (conn c) ∨ sent (conn c2) = sent (conn c)
       ++ [fingerprint_msg ("loadtest-" +:+ String.substring 0 8 id)])).
  { split_and!; [done|cbn; lia|]. rewrite <-Hs1. destruct e.
    - left. exact (client_write_err _ _ _ _ E).
    - right. exact (client_write_ok _ _ _ E). }
  apply wp_get_client. cbn [panicked c2 set_conn set_metrics set_sessionID]. rewrite P1, Hp.
  destruct (bool_decide _); [by apply wp_modify|by apply wp_ret].
Qed.
End run.

(** ** Witnesses: a socket in memory *)

#[export] Instance mem_client : ClientNet (Z * list json) := {|
  WriteClientMessage j := λ n, (None, (n.1, n.2 ++ [j]));
  conn_Close := λ n, (None, n);
  time_Now := λ n, (n.1, (n.1 + 1, n.2));
  sent := snd;
|}.
#[export] Instance mem_client_laws : ClientNetLaws (Z * list json).
Proof. split; by intros; simplify_eq/=. Qed.

Definition fresh_client : Client (Z * list json) := (On "match_found" (New (0, []) 7)).2.
Definition found_frame : json := JObj [("type", JStr "match_found"); ("chat_id", JStr "c1")].
Definition client_events : list client_event :=
  [EvText (Some (session_created_msg "0b5cf5e1-2d0c")); EvText None; EvText (Some found_frame); EvReadErr; EvClose].

Lemma client_run_witness :
  let c' := (readLoop client_events fresh_client).2 in
  MessagesReceived (metrics c') = 0 + Z.of_nat (length (frames_read client_events))
  ∧ dispatched c' = [] ++ concat (handled (handlers fresh_client) <$> frames_read client_events)
  ∧ Errors (metrics c') = 0 + (if read_fails client_events then 1 else 0)
  ∧ (closes c' ≤ 1)%nat ∧ panicked c' = false.
Proof.
  apply (client_run client_events fresh_client); [reflexivity..|].
  repeat apply Forall_cons_2; [| | |apply Forall_nil_2].
  - intros id E. vm_compute in E. injection E as <-. right. cbn. lia.
  - exact I.
  - intros id E. vm_compute in E. injection E as <-. by left.
Defined.

Lemma load_client_handshake_witness :
  let c' := (readLoop [EvText (Some (session_created_msg "0b5cf5e1-2d0c"))] fresh_client).2 in
  let fp := "loadtest-" +:+ String.substring 0 8 "0b5cf5e1-2d0c" in
  sessionID c' = "0b5cf5e1-2d0c" ∧ MessagesSent (metrics c') = 0 + 1
  ∧ (sent (conn c') = sent (conn fresh_client) ∨ sent (conn c') = sent (conn fresh_client) ++ [fingerprint_msg fp])
  ∧ ParseClientMessage (Some (fingerprint_msg fp)) =
      ("set_fingerprint", Some (CSetFingerprint {| fp_Type := "set_fingerprint"; fp_Fingerprint := fp |}), None)
  ∧ fp ≠ "".
Proof.
  apply (load_client_handshake "0b5cf5e1-2d0c" fresh_client); [cbn; lia|reflexivity..].
Defined.

Example client_sent :
  sent (conn (readLoop client_events fresh_client).2) = [fingerprint_msg "loadtest-0b5cf5e1"].
Proof. vm_compute. reflexivity. Qed.
