(* ===== verification/Harness.v ===== *)
(** * What the load tests and the end-to-end tests share

    The messages they send, the buffered channels their handlers fill, a client
    together with its read-loop goroutine (loadtest/client/client.go), and the
    wait for the session. *)

From stdpp Require Import base gmap strings numbers list_basics list_relations list.
From S2P Require Import Prelude GoStd Json Env Keys Protocol App WsServer LoadClient.
Open Scope Z_scope.

(** ** The messages, maps of strings marshalled with their keys in order *)

Definition find_match_msg (interests : list string) : json :=
  JObj [("interests", JArr (JStr <$> interests)); ("type", JStr TypeFindMatch)].
Definition accept_match_msg (chat_id : string) : json :=
  JObj [("chat_id", JStr chat_id); ("type", JStr TypeAcceptMatch)].
Definition text_msg (chat_id text : string) : json :=
  JObj [("chat_id", JStr chat_id); ("text", JStr text); ("type", JStr TypeMessage)].
Definition end_chat_msg (chat_id : string) : json :=
  JObj [("chat_id", JStr chat_id); ("type", JStr TypeEndChat)].

(** The chat id of a match_found frame, if it has one that is not empty. *)
Definition chat_id_of (raw : json) : option string :=
  id ← unmarshal (get_str "chat_id") raw;
  if bool_decide (id = "") then None else Some id.

(** ** Buffered channels *)

(** [select { case ch <- v: default: }] on a channel of capacity [cap]. *)
Definition try_send {A} (cap : nat) (v : A) (ch : list A) : list A :=
  if bool_decide (length ch < cap)%nat then ch ++ [v] else ch.

Lemma try_send_le {A} cap (v : A) ch : (length (try_send cap v ch) ≤ length ch + 1)%nat.
Proof. unfold try_send. case_bool_decide; rewrite ?length_app; cbn; lia. Qed.

(** What is in the channel after was in it before or has just been sent. *)
Lemma elem_of_try_send {A} cap (v x : A) ch : x ∈ try_send cap v ch → x ∈ ch ∨ x = v.
Proof. unfold try_send. case_bool_decide; [|by left]. intros [?|?%list_elem_of_singleton]%elem_of_app; auto. Qed.

(** Counting after one element of a list is replaced. *)
Lemma filter_insert_length {A} (P : A → Prop) `{!∀ a, Decision (P a)} i a b (l : list A) :
  l !! i = Some a →
  (length (filter P (<[i := b]> l)) + (if decide (P a) then 1 else 0) = length (filter P l) + (if decide (P b) then 1 else 0))%nat.
Proof.
  intros Hi. rewrite <-(take_drop_middle l i a Hi) at 2. pose proof (lookup_lt_Some _ _ _ Hi).
  rewrite insert_take_drop by done. rewrite !filter_app, !filter_cons, !length_app. repeat case_decide; cbn; lia.
Qed.

(** ** A client and its read loop *)

(** [reading]: the read-loop goroutine has not returned. *)
Record peer (NW : Type) : Type := Peer { cl : Client NW; reading : bool }.
Arguments Peer {_}. Arguments cl {_}. Arguments reading {_}.

Section peer.
Context `{!ClientNet NW}.
Abbreviation C := (Client NW).
Implicit Types (c : C) (p : peer NW).

Definition on_client {A} (m : M C A) : M (peer NW) A :=
  λ p, let '(a, c) := m (cl p) in (a, Peer c (reading p)).

(** One turn of the read loop: the frames it hands to handlers. *)
Definition peer_read (ev : client_event) (p : peer NW) : list (string * json) * peer NW :=
  if negb (reading p) then ([], p)
  else if done (cl p) || panicked (cl p) then ([], Peer (cl p) false)
  else
    match ev with
    | EvText data =>
        let c := (on_text data (cl p)).2 in
        (drop (length (dispatched (cl p))) (dispatched c), Peer c true)
    | EvReadErr => ([], Peer (set_metrics (count_error (metrics (cl p))) (cl p)) false)
    | EvClose => ([], p)
    end.

(** The dial of [New]: a socket with the time it took, or an error. *)
Definition dial (r : res (NW * Z)) : res (peer NW) :=
  match r with
  | Ok (n, latency) => Ok (Peer (New n latency) true)
  | Err e => Err ("dial: " +:+ e)
  end.

(** One turn of the loop of WaitForSession, by the case the select takes:
    [None] continues. *)
Inductive wait_case : Type := WaitDone | WaitClosed | WaitTick.

Definition WaitForSession_turn (k : wait_case) (ctx_done : bool) (p : peer NW) : option (option error) :=
  match k with
  | WaitDone => if ctx_done then Some (Some "context deadline exceeded") else None
  | WaitClosed => if done (cl p) then Some (Some "connection closed before session was created") else None
  | WaitTick => if bool_decide (sessionID (cl p) ≠ "") then Some None else None
  end.
End peer.

(** ** The read loop, turn by turn *)

Section facts.
Context `{!ClientNet NW, !ClientNetLaws NW}.
Abbreviation C := (Client NW).
Implicit Types (c : C) (p : peer NW).

Lemma Send_spec msg c err c' :
  Send msg c = (err, c') →
  done c' = done c ∧ panicked c' = panicked c ∧ dispatched c' = dispatched c ∧ handlers c' = handlers c
  ∧ sessionID c' = sessionID c ∧ Errors (metrics c') = Errors (metrics c)
  ∧ sent (conn c') = sent (conn c) ++ match err with None => [msg] | Some _ => [] end.
Proof.
  unfold Send, bind, modify, on_socket. cbn. destruct (WriteClientMessage msg (conn c)) as [e n] eqn:E.
  intros [= <- <-]. cbn. split_and!; [done..|]. destruct e as [e|].
  - rewrite app_nil_r. by eapply client_write_err.
  - by eapply client_write_ok.
Qed.

Lemma on_text_dispatched data c :
  panicked c = false → ∃ l, dispatched (on_text data c).2 = dispatched c ++ l ∧ l `sublist_of` handled (handlers c) data.
Proof.
  intros Hp.
  enough (wp (on_text data) (λ _ c', ∃ l, dispatched c' = dispatched c ++ l ∧ l `sublist_of` handled (handlers c) data) c) as H
    by exact H.
  unfold on_text. wp_pure. apply wp_get_client. wp_pure.
  apply wp_first_time. intros c1 (_ & _ & D1 & H1 & _ & _ & P1) _ _. wp_pure. apply wp_modify.
  set (c2 := set_metrics _ c1). destruct data as [data|]; [|apply wp_ret; exists []; by rewrite app_nil_r].
  unfold handled. destruct (unmarshal (get_str "type") data) as [type|]; [|apply wp_ret; exists []; by rewrite app_nil_r].
  apply wp_bind.
  assert (Htail : ∀ c', dispatched c' = dispatched c → handlers c' = handlers c → wp (let! c := get_client in
      if panicked c then ret tt
      else if bool_decide (type ∈ handlers c) then
        modify (λ c, set_dispatched (dispatched c ++ [(type, data)]) c)
      else ret tt) (λ _ c', ∃ l, dispatched c' = dispatched c ++ l
        ∧ l `sublist_of` (if bool_decide (type ∈ handlers c) then [(type, data)] else [])) c').
  { intros c' Hd Hh. wp_pure. apply wp_get_client. rewrite Hh.
    destruct (panicked c').
    - apply wp_ret. exists []. rewrite app_nil_r. split; [done|apply sublist_nil_l].
    - destruct (bool_decide (type ∈ handlers c)).
      + apply wp_modify. exists [(type, data)]. by rewrite <-Hd.
      + apply wp_ret. exists []. by rewrite app_nil_r. }
  destruct (bool_decide (type = TypeSessionCreated)); [|by apply wp_ret, Htail].
  unfold session_created. destruct (unmarshal_session data) as [id|]; [|by apply wp_ret, Htail].
  destruct (bool_decide (id = "")); [by apply wp_ret, Htail|]. wp_pure. apply wp_modify.
  destruct (bool_decide (String.length id < 8)%nat); [apply wp_modify; by apply Htail|].
  wp_pure. apply wp_intro. intros e c' E. apply Send_spec in E as (_ & _ & E1 & E2 & _). wp_pure.
  apply Htail; [by transitivity (dispatched c1); [|exact D1]; exact E1|by transitivity (handlers c1); [|exact H1]; exact E2].
Qed.

(** What a frame cannot change: the fields [on_text] writes are these. *)
Lemma on_text_preserves (P : C → Prop) data c :
  (∀ n c, P c → P (set_conn n c)) → (∀ t c, P c → P (set_firstMsg t c)) → (∀ m c, P c → P (set_metrics m c)) →
  (∀ id c, id ≠ "" → P c → P (set_sessionID id c)) → (∀ c, P c → P (set_panicked c)) →
  (∀ d c, P c → P (set_dispatched d c)) → P c → P (on_text data c).2.
Proof.
  intros H1 H2 H3 H4 H5 H6 Hc. enough (wp (on_text data) (λ _ c, P c) c) as H by exact H.
  unfold on_text. wp_pure. apply wp_get_client. wp_pure.
  assert (Hsock : ∀ {X} (m : M NW X) c, P c → wp (on_socket m) (λ _ c, P c) c)
    by (intros X m c' Hc'; apply wp_on_socket, wp_intro; intros; by apply H1).
  assert (Hfirst : wp (match firstMsg c with
       | Some _ => ret tt
       | None =>
           let! t := on_socket time_Now in
           do! modify (set_firstMsg t) in
           let! t' := on_socket time_Now in
           modify (λ c, set_metrics (set_first_latency (t' - t) (metrics c)) c)
       end) (λ _ c, P c) c).
  { destruct (firstMsg c); [by apply wp_ret|]. wp_pure. eapply wp_mono; [by apply Hsock|]. intros t c1 Hc1. wp_pure.
    apply wp_modify. wp_pure. eapply wp_mono; [by apply Hsock, H2|]. intros t' c2 Hc2. by apply wp_modify, H3. }
  eapply wp_mono; [exact Hfirst|]. intros [] c1 Hc1. wp_pure. apply wp_modify.
  destruct data as [data|]; [|by apply wp_ret, H3].
  destruct (unmarshal (get_str "type") data) as [type|]; [|by apply wp_ret, H3]. apply wp_bind.
  assert (Hsession : ∀ c, P c → wp (session_created data) (λ _ c, P c) c).
  { intros c' Hc'. unfold session_created. destruct (unmarshal_session data) as [id|]; [|by apply wp_ret].
    case_bool_decide; [by apply wp_ret|]. wp_pure. apply wp_modify. case_bool_decide; [by apply wp_modify; auto|].
    unfold Send. wp_pure. apply wp_modify. eapply wp_mono; [by apply Hsock, H3, H4|]. intros e c'' Hc''. by apply wp_ret. }
  assert (Hmid : wp (if bool_decide (type = TypeSessionCreated) then session_created data else ret tt) (λ _ c, P c)
    (set_metrics (count_received (metrics c1)) c1)).
  { case_bool_decide; [by apply Hsession, H3|by apply wp_ret, H3]. }
  eapply wp_mono; [exact Hmid|]. intros [] c2 Hc2. wp_pure. apply wp_get_client.
  destruct (panicked c2); [by apply wp_ret|]. destruct (bool_decide (type ∈ _)); [by apply wp_modify, H6|by apply wp_ret].
Qed.

Lemma peer_read_preserves (P : C → Prop) ev p :
  (∀ n c, P c → P (set_conn n c)) → (∀ t c, P c → P (set_firstMsg t c)) → (∀ m c, P c → P (set_metrics m c)) →
  (∀ id c, id ≠ "" → P c → P (set_sessionID id c)) → (∀ c, P c → P (set_panicked c)) →
  (∀ d c, P c → P (set_dispatched d c)) → P (cl p) → P (cl (peer_read ev p).2).
Proof. intros. unfold peer_read. repeat case_match; cbn [cl snd]; auto. by apply on_text_preserves. Qed.

(** A session, once given, stays, and so does the closed state. *)
Lemma peer_read_session ev p : sessionID (cl p) ≠ "" → sessionID (cl (peer_read ev p).2) ≠ "".
Proof. intros H. by apply (peer_read_preserves (λ c, sessionID c ≠ "")). Qed.
Lemma peer_read_done ev p : done (cl (peer_read ev p).2) = done (cl p).
Proof. by apply (peer_read_preserves (λ c, done c = done (cl p))). Qed.

Lemma WaitForSession_ok k late p : WaitForSession_turn k late p = Some None → sessionID (cl p) ≠ "".
Proof. unfold WaitForSession_turn. destruct k; [by destruct late|by destruct (done _)|by case_bool_decide]. Qed.

(** The only message the read loop sends by itself is the fingerprint. *)
Lemma on_text_sent data c :
  ∃ l, sent (conn (on_text data c).2) = sent (conn c) ++ l ∧ Forall (λ j, ∃ fp, j = fingerprint_msg fp) l.
Proof.
  enough (wp (on_text data) (λ _ c', ∃ l, sent (conn c') = sent (conn c) ++ l
    ∧ Forall (λ j, ∃ fp, j = fingerprint_msg fp) l) c) as H by exact H.
  unfold on_text. wp_pure. apply wp_get_client. wp_pure. apply wp_first_time. intros c1 _ S1 _. wp_pure. apply wp_modify.
  set (c2 := set_metrics _ c1).
  assert (Hnone : ∀ c', sent (conn c') = sent (conn c) → ∃ l, sent (conn c') = sent (conn c) ++ l
    ∧ Forall (λ j, ∃ fp, j = fingerprint_msg fp) l) by (intros c' E; exists []; rewrite app_nil_r; by rewrite E).
  destruct data as [data|]; [|by apply wp_ret, Hnone].
  destruct (unmarshal (get_str "type") data) as [type|]; [|by apply wp_ret, Hnone]. apply wp_bind.
  assert (Htail : ∀ c', (∃ l, sent (conn c') = sent (conn c) ++ l ∧ Forall (λ j, ∃ fp, j = fingerprint_msg fp) l) →
    wp (let! c := get_client in
      if panicked c then ret tt
      else if bool_decide (type ∈ handlers c) then
        modify (λ c, set_dispatched (dispatched c ++ [(type, data)]) c)
      else ret tt) (λ _ c', ∃ l, sent (conn c') = sent (conn c) ++ l
        ∧ Forall (λ j, ∃ fp, j = fingerprint_msg fp) l) c').
  { intros c' Hc'. wp_pure. apply wp_get_client. destruct (panicked c'); [by apply wp_ret|].
    destruct (bool_decide _); [by apply wp_modify|by apply wp_ret]. }
  destruct (bool_decide (type = TypeSessionCreated)); [|by apply wp_ret, Htail, Hnone].
  unfold session_created. destruct (unmarshal_session data) as [id|]; [|by apply wp_ret, Htail, Hnone].
  destruct (bool_decide (id = "")); [by apply wp_ret, Htail, Hnone|]. wp_pure. apply wp_modify.
  destruct (bool_decide (String.length id < 8)%nat); [apply wp_modify; by apply Htail, Hnone|].
  wp_pure. apply wp_intro. intros e c' E. apply Send_spec in E as (_ & _ & _ & _ & _ & _ & E). wp_pure. apply Htail.
  change (conn (set_sessionID id c2)) with (conn c1) in E. rewrite S1 in E. eexists; split; [exact E|].
  destruct e; [done|]. apply Forall_singleton. by eexists.
Qed.

(** Turn by turn, a peer reads what the read loop reads in one go, as long as
    nobody closes the client. *)
Lemma peer_readLoop events p :
  reading p = true → Forall (λ ev, ev ≠ EvClose) events →
  cl (foldl (λ p ev, (peer_read ev p).2) p events) = (readLoop events (cl p)).2.
Proof.
  intros Hr Hev. revert p Hr. induction Hev as [|ev events Hne Hev IH]; intros p Hr; [done|]. cbn [foldl readLoop].
  assert (Hstop : ∀ q, reading q = false → cl (foldl (λ p ev, (peer_read ev p).2) q events) = cl q).
  { clear -Hev. induction events as [|ev events IH]; intros q Hq; [done|]. apply Forall_cons_1 in Hev as [_ Hev].
    cbn [foldl]. unfold peer_read at 2. rewrite Hq. cbn. by apply IH. }
  unfold peer_read at 2. rewrite Hr. cbn [negb]. destruct ev as [data| |]; [| |done].
  - unfold bind at 1, get_client at 1. destruct (done (cl p) || panicked (cl p)); [by rewrite Hstop|].
    unfold bind at 1. destruct (on_text data (cl p)) as [[] c'] eqn:E. cbn [snd]. by apply IH.
  - unfold bind at 1, get_client at 1. destruct (done (cl p) || panicked (cl p)); by rewrite Hstop.
Qed.
End facts.

(** ** What the server makes of the messages *)

(** Every message the load tests and the end-to-end tests send is parsed by
    the server as the message it is meant to be, with the chat id, text and
    interests it was given. *)
Theorem harness_messages_parse interests chat_id text :
  ParseClientMessage (Some (find_match_msg interests))
    = ("find_match", Some (CFindMatch {| fm_Type := "find_match"; fm_Interests := interests |}), None)
  ∧ ParseClientMessage (Some (accept_match_msg chat_id))
    = ("accept_match", Some (CAcceptMatch {| am_Type := "accept_match"; am_ChatID := chat_id |}), None)
  ∧ ParseClientMessage (Some (text_msg chat_id text))
    = ("message", Some (CChat {| cmsg_Type := "message"; cmsg_ChatID := chat_id; cmsg_Text := text |}), None)
  ∧ ParseClientMessage (Some (end_chat_msg chat_id))
    = ("end_chat", Some (CEndChat {| ec_Type := "end_chat"; ec_ChatID := chat_id |}), None).
Proof.
  split_and!; [|reflexivity..].
  change (decode_as decode_FindMatchMsg CFindMatch
    {| env_Type := "find_match"; env_Raw := find_match_msg interests |} =
    ("find_match", Some (CFindMatch {| fm_Type := "find_match"; fm_Interests := interests |}), None)).
  unfold decode_as. cbn [env_Raw find_match_msg unmarshal].
  unfold decode_FindMatchMsg.
  change (get_strs "interests" [("interests", JArr (JStr <$> interests)); ("type", JStr TypeFindMatch)])
    with (json_strs (JStr <$> interests)).
  rewrite json_strs_map. reflexivity.
Qed.
