(* ===== verification/Stats.v ===== *)
(** * The percentiles of the load tests

    loadtest/stats/stats.go: the collector of latencies, and the percentiles it
    prints.  Durations are nanoseconds; a slice is a list, an index out of range
    is [None]. *)

From stdpp Require Import base numbers list_basics list_relations list sorting.
From S2P Require Import Prelude GoStd.
Open Scope Z_scope.

(** The collector, without its lock and its scraper. *)
Record Collector : Type := {
  connectLatencies : list Z;
  msgLatencies : list Z;
  errors : Z;
  connections : Z;
  startTime : Z;
}.

Definition NewCollector (now : Z) : Collector :=
  {| connectLatencies := []; msgLatencies := []; errors := 0; connections := 0; startTime := now |}.

Definition AddConnect (d : Z) (c : Collector) : Collector :=
  {| connectLatencies := connectLatencies c ++ [d]; msgLatencies := msgLatencies c; errors := errors c;
     connections := connections c + 1; startTime := startTime c |}.
Definition AddMsgLatency (d : Z) (c : Collector) : Collector :=
  {| connectLatencies := connectLatencies c; msgLatencies := msgLatencies c ++ [d]; errors := errors c;
     connections := connections c; startTime := startTime c |}.
Definition AddError (c : Collector) : Collector :=
  {| connectLatencies := connectLatencies c; msgLatencies := msgLatencies c; errors := errors c + 1;
     connections := connections c; startTime := startTime c |}.
Definition ConnectionCount (c : Collector) : Z := connections c.
Definition ErrorCount (c : Collector) : Z := errors c.

(** [sort.Slice] by value: equal durations cannot be told apart, so every
    sorting algorithm gives this list. *)
Definition sort_durations (l : list Z) : list Z := merge_sort Z.le l.

(** [time.Duration.Round]. *)
Definition Round (d m : Z) : Z :=
  if bool_decide (m ≤ 0) then d
  else
    let r := Z.rem d m in
    if bool_decide (d < 0) then
      let r := - r in
      if bool_decide (r + r < m) then d + r
      else if bool_decide (wrap64 (d - m + r) < d) then wrap64 (d - m + r) else min_int64
    else
      if bool_decide (r + r < m) then d - r
      else if bool_decide (wrap64 (d + m - r) > d) then wrap64 (d + m - r) else max_int64.

(** [int(math.Ceil(float64(n) * p))]: the literals 0.95 and 0.99 are the nearest
    float64 values, integers over [2 ^ 52]; the product is rounded to 53 bits. *)
Definition f095 : Z := 4278419646001971.
Definition f099 : Z := 4458563631096791.
Definition ceil_product (n p : Z) : Z := - (- float64 (n * p) / 2 ^ 52).

Definition index (l : list Z) (i : Z) : option Z := if bool_decide (i < 0) then None else l !! Z.to_nat i.

Record summary : Type := Summary { avg : Z; p50 : Z; p95 : Z; p99 : Z; max : Z; samples : Z }.

(** The values before they are rounded for printing; the division by zero of an
    empty slice comes after its index error. *)
Definition percentiles (durations : list Z) : option summary :=
  let durations := sort_durations durations in
  let n := Z.of_nat (length durations) in
  p50 ← index durations (Z.quot n 2);
  p95 ← index durations (ceil_product n f095 - 1);
  p99 ← index durations (ceil_product n f099 - 1);
  let sum := foldl (λ s d, wrap64 (s + d)) 0 durations in
  max ← index durations (n - 1);
  Some (Summary (Z.quot sum n) p50 p95 p99 max n).

Definition printPercentiles (durations : list Z) : option summary :=
  s ← percentiles durations;
  let r d := Round d 1000 in
  Some (Summary (r (avg s)) (r (p50 s)) (r (p95 s)) (r (p99 s)) (r (max s)) (samples s)).

(** ** The product and its ceiling *)

(** Rounding up does not pass a multiple of the spacing, rounding down stays
    within one spacing. *)
Lemma float64_bounds z e k :
  0 < z → e = Z.log2 z - 52 → 0 < e → z ≤ k * 2 ^ e → z - 2 ^ e < float64 z ≤ k * 2 ^ e.
Proof.
  intros Hz -> He Hk. unfold float64. rewrite Z.abs_eq by lia. rewrite bool_decide_false by lia.
  set (e := Z.log2 z - 52) in *. assert (H2 : 0 < 2 ^ e) by (apply Z.pow_pos_nonneg; lia).
  assert (Hh : 0 < 2 ^ (e - 1)) by (apply Z.pow_pos_nonneg; lia).
  pose proof (Z.div_mod z (2 ^ e) ltac:(lia)) as Hd. pose proof (Z.mod_pos_bound z (2 ^ e) H2) as Hm.
  set (q := z / 2 ^ e) in *. set (r := z mod 2 ^ e) in *.
  assert (Hup : bool_decide (2 ^ (e - 1) < r) || bool_decide (r = 2 ^ (e - 1)) && Z.odd q = true → 0 < r).
  { intros [H|[H _]%andb_true_iff]%orb_true_iff; apply bool_decide_eq_true in H; lia. }
  destruct (bool_decide _ || _).
  - specialize (Hup eq_refl). assert (q < k) by nia. nia.
  - assert (q ≤ k) by nia. nia.
Qed.

Lemma ceil_product_exact n p num :
  1 ≤ n < 2 ^ 40 → 50 ≤ num ≤ 100 → 0 ≤ num * 2 ^ 52 - 100 * p ≤ 20 →
  ceil_product n p = (num * n + 99) / 100.
Proof.
  intros Hn Hnum Hp. set (K := (num * n + 99) / 100). unfold ceil_product.
  assert (HK : 100 * K ≤ num * n + 99 ∧ num * n ≤ 100 * K) by (unfold K; Z.to_euclidean_division_equations; lia).
  set (z := n * p). change (2 ^ 52) with 4503599627370496 in *. change (2 ^ 40) with 1099511627776 in *.
  assert (Hz : 4503599627370496 / 4 < z < 2 ^ 92).
  { unfold z. change (2 ^ 92) with 4951760157141521099596496896. Z.to_euclidean_division_equations. nia. }
  assert (HzK : z ≤ K * 4503599627370496) by (unfold z; nia).
  assert (Hlo : 4503599627370496 - 20 * n ≤ 100 * (z - (K - 1) * 4503599627370496)) by (unfold z; nia).
  assert (float64 z ≤ K * 4503599627370496 ∧ (K - 1) * 4503599627370496 < float64 z) as [Hu Hl].
  { destruct (decide (Z.log2 z - 52 ≤ 0)) as [He|He].
    - rewrite float64_exact; [lia|]. rewrite Z.abs_eq by lia. apply Z.log2_lt_pow2; lia.
    - set (e := Z.log2 z - 52).
      assert (Hlog : Z.log2 z < 92) by (apply Z.log2_lt_pow2; lia).
      assert (E52 : 4503599627370496 = 2 ^ (52 - e) * 2 ^ e).
      { rewrite <-Z.pow_add_r by lia. replace (52 - e + e) with 52 by lia. reflexivity. }
      destruct (float64_bounds z e (K * 2 ^ (52 - e))) as [H1 H2]; [lia|done|lia| |].
      + rewrite <-Z.mul_assoc, <-E52. done.
      + rewrite <-Z.mul_assoc, <-E52 in H2. split; [done|].
        assert (2 ^ e ≤ 2 ^ 39) by (apply Z.pow_le_mono_r; lia). change (2 ^ 39) with 549755813888 in *. lia. }
  symmetry. Z.to_euclidean_division_equations. lia.
Qed.

(** ** Ranks *)

(** How many samples are at most, or below, a value. *)
Definition count_le (x : Z) (l : list Z) : Z := Z.of_nat (length (filter (λ d, d ≤ x) l)).
Definition count_lt (x : Z) (l : list Z) : Z := Z.of_nat (length (filter (λ d, d < x) l)).

#[export] Instance count_le_proper x : Proper ((≡ₚ) ==> (=)) (count_le x).
Proof. intros l l' H. unfold count_le. by rewrite H. Qed.
#[export] Instance count_lt_proper x : Proper ((≡ₚ) ==> (=)) (count_lt x).
Proof. intros l l' H. unfold count_lt. by rewrite H. Qed.

Lemma filter_all (P : Z → Prop) `{!∀ d, Decision (P d)} l : Forall P l → filter P l = l.
Proof. induction 1 as [|d l Hd _ IH]; [done|]. rewrite filter_cons_True by done. by rewrite IH. Qed.
Lemma filter_none (P : Z → Prop) `{!∀ d, Decision (P d)} l : Forall (λ d, ¬ P d) l → filter P l = [].
Proof. induction 1 as [|d l Hd _ IH]; [done|]. rewrite filter_cons_False by done. by rewrite IH. Qed.

Lemma sorted_rank l i x :
  StronglySorted Z.le l → l !! i = Some x → Z.of_nat i < count_le x l ∧ count_lt x l ≤ Z.of_nat i.
Proof.
  intros Hs Hi. pose proof (lookup_lt_Some _ _ _ Hi) as Hlt.
  rewrite <-(take_drop_middle l i x Hi) in Hs |- *.
  apply StronglySorted_app in Hs as (Hcross & _ & Hs2).
  apply StronglySorted_inv in Hs2 as [_ Hge].
  assert (Hle : Forall (λ d, d ≤ x) (take i l)).
  { apply Forall_forall. intros d Hd. apply (Hcross d x Hd). by left. }
  unfold count_le, count_lt. rewrite !filter_app, !length_app. split.
  - rewrite (filter_all _ _ Hle), filter_cons_True, length_take by lia. cbn [length]. lia.
  - rewrite (filter_none _ (x :: _)); [|constructor; [lia|eapply Forall_impl; [exact Hge|lia]]].
    pose proof (length_filter (λ d, d < x) (take i l)) as Hl. rewrite length_take in Hl. cbn [length]. lia.
Qed.

Lemma index_sorted ds i :
  0 ≤ i < Z.of_nat (length ds) →
  ∃ x, index (sort_durations ds) i = Some x ∧ x ∈ ds ∧ i < count_le x ds ∧ count_lt x ds ≤ i.
Proof.
  intros Hi. unfold index. rewrite bool_decide_false by lia.
  assert (Hp : sort_durations ds ≡ₚ ds) by apply merge_sort_Permutation.
  destruct (lookup_lt_is_Some_2 (sort_durations ds) (Z.to_nat i)) as [x Hx]; [rewrite Hp; lia|].
  exists x. split; [done|]. split; [rewrite <-Hp; by eapply list_elem_of_lookup_2|].
  destruct (sorted_rank (sort_durations ds) (Z.to_nat i) x) as [H1 H2]; [apply StronglySorted_merge_sort; apply _|done|].
  rewrite Hp in H1, H2. lia.
Qed.

(** The nearest-rank percentile: at least [num] percent of the samples are at
    most this sample, and fewer than [num] percent are below it. *)
Definition nearest_rank (num x : Z) (ds : list Z) : Prop :=
  x ∈ ds ∧ num * Z.of_nat (length ds) ≤ 100 * count_le x ds ∧ 100 * count_lt x ds < num * Z.of_nat (length ds).

Lemma nearest_rank_index ds p num :
  1 ≤ Z.of_nat (length ds) < 2 ^ 40 → 50 ≤ num ≤ 100 → 0 ≤ num * 2 ^ 52 - 100 * p ≤ 20 →
  ∃ x, index (sort_durations ds) (ceil_product (Z.of_nat (length ds)) p - 1) = Some x ∧ nearest_rank num x ds.
Proof.
  intros Hn Hnum Hp. rewrite (ceil_product_exact _ _ num) by done. set (n := Z.of_nat (length ds)) in *.
  set (K := (num * n + 99) / 100).
  assert (HK : 100 * K ≤ num * n + 99 ∧ num * n ≤ 100 * K) by (unfold K; Z.to_euclidean_division_equations; lia).
  destruct (index_sorted ds (K - 1)) as (x & Hx & Hin & H1 & H2); [fold n; nia|].
  exists x. split; [done|]. split; [done|]. fold n. nia.
Qed.

(** The sum, as long as it fits in an int64. *)
Lemma sum_exact l s :
  Forall (λ d, 0 ≤ d) l → 0 ≤ s → s + foldr Z.add 0 l ≤ max_int64 →
  foldl (λ s d, wrap64 (s + d)) s l = s + foldr Z.add 0 l.
Proof.
  intros Hl. revert s. induction Hl as [|d l Hd Hl IH]; intros s Hs Hm; cbn in *; [lia|].
  assert (0 ≤ foldr Z.add 0 l). { clear -Hl. induction Hl; cbn; lia. }
  rewrite wrap64_id by (unfold min_int64 in *; lia). rewrite IH; lia.
Qed.

(** C35: The percentiles of a load test are the nearest-rank ones: for any
    non-empty slice of samples (of any length up to 2^40, the float64 products
    with 0.95 and 0.99 notwithstanding) no index is out of range, p95 and p99
    have at least 95 and 99 percent of the samples at or below them and less
    below, p50 is the upper median, max is the largest, and the average is exact
    unless the sum overflows an int64; on an empty slice the program panics. *)
Theorem percentiles_correct ds :
  percentiles [] = None ∧
  (1 ≤ Z.of_nat (length ds) < 2 ^ 40 →
   let n := Z.of_nat (length ds) in
   ∃ s, percentiles ds = Some s ∧ samples s = n
     ∧ nearest_rank 95 (p95 s) ds ∧ nearest_rank 99 (p99 s) ds
     ∧ (p50 s ∈ ds ∧ n < 2 * count_le (p50 s) ds ∧ 2 * count_lt (p50 s) ds ≤ n)
     ∧ (max s ∈ ds ∧ Forall (λ d, d ≤ max s) ds)
     ∧ (Forall (λ d, 0 ≤ d) ds → foldr Z.add 0 ds ≤ max_int64 → avg s = foldr Z.add 0 ds / n)).
Proof.
  split; [reflexivity|]. intros Hn n.
  assert (Hp : sort_durations ds ≡ₚ ds) by apply merge_sort_Permutation.
  destruct (nearest_rank_index ds f095 95 Hn) as (x95 & E95 & H95); [lia|unfold f095; lia|].
  destruct (nearest_rank_index ds f099 99 Hn) as (x99 & E99 & H99); [lia|unfold f099; lia|].
  destruct (index_sorted ds (Z.quot n 2)) as (x50 & E50 & Hin & H1 & H2); [unfold n; Z.to_euclidean_division_equations; lia|].
  destruct (index_sorted ds (n - 1)) as (xm & Em & Hinm & H3 & H4); [lia|].
  unfold percentiles. rewrite (Permutation_length Hp). fold n. rewrite E50. cbn [mbind option_bind].
  fold n in E95, E99. rewrite E95. cbn [mbind option_bind]. rewrite E99. cbn [mbind option_bind]. rewrite Em. cbn [mbind option_bind].
  eexists. split; [done|]. cbn. split_and!; try done.
  - Z.to_euclidean_division_equations; lia.
  - Z.to_euclidean_division_equations; lia.
  - apply Forall_forall. intros d Hd. destruct (decide (d ≤ xm)) as [|Hgt]; [done|]. exfalso.
    assert (count_le xm ds < n); [|lia]. unfold count_le, n.
    assert (length (filter (λ d : Z, (d ≤ xm)%Z) ds) < length ds)%nat; [|lia].
    apply length_filter_lt with d; [done|lia].
  - intros Hpos Hsum. rewrite sum_exact.
    + assert (E : foldr Z.add 0 (sort_durations ds) = foldr Z.add 0 ds).
      { apply (foldr_permutation (=) Z.add 0); [intros; lia|done]. }
      rewrite E, Z.add_0_l. apply Z.quot_div_nonneg; [|lia]. clear -Hpos. induction Hpos; cbn; lia.
    + by rewrite Hp.
    + lia.
    + assert (E : foldr Z.add 0 (sort_durations ds) = foldr Z.add 0 ds).
      { apply (foldr_permutation (=) Z.add 0); [intros; lia|done]. }
      lia.
Qed.

Definition latencies : list Z := [300; 100; 200; 500; 400].

Lemma percentiles_correct_witness :
  percentiles [] = None ∧
  let n := Z.of_nat (length latencies) in
  ∃ s, percentiles latencies = Some s ∧ samples s = n
    ∧ nearest_rank 95 (p95 s) latencies ∧ nearest_rank 99 (p99 s) latencies
    ∧ (p50 s ∈ latencies ∧ n < 2 * count_le (p50 s) latencies ∧ 2 * count_lt (p50 s) latencies ≤ n)
    ∧ (max s ∈ latencies ∧ Forall (λ d, d ≤ max s) latencies)
    ∧ (Forall (λ d, 0 ≤ d) latencies → foldr Z.add 0 latencies ≤ max_int64 →
       avg s = foldr Z.add 0 latencies / n).
Proof.
  destruct (percentiles_correct latencies) as [H1 H2]. split; [exact H1|]. apply H2. cbn. lia.
Defined.

Example latencies_printed :
  printPercentiles ((λ d, d * 10000) <$> latencies) = Some (Summary 3000000 3000000 5000000 5000000 5000000 5).
Proof. vm_compute. reflexivity. Qed.
