(* ===== verification/LoadChat.v ===== *)
(** * The life of a chat pair in the load test

    loadtest/cmd/loadtest/chat.go, runPair: two clients look for a match, accept
    it, exchange messages from four goroutines and end the chat, while their read
    loops run the handlers.  A world is the state of all of these; an event is one
    step of one goroutine, of a read loop, of a timer or of the clock, so a list of
    events is an interleaving. *)

From stdpp Require Import base gmap strings numbers list_basics list_relations list relations.
From S2P Require Import Prelude GoStd Json Env Keys Protocol App WsServer LoadClient Harness Stats.
Open Scope Z_scope.

(** ** The state *)

Inductive who : Type := C1 | C2.
#[export] Instance who_eq_dec : EqDecision who.
Proof. solve_decision. Defined.

Record pairResult : Type := PairResult {
  matched : bool;
  chatStarted : bool;
  msgSent : Z;
  msgRecv : Z;
  endedCleanly : bool;
  matchLatency : Z;
}.
Definition zeroResult : pairResult := PairResult false false 0 0 false 0.

(** The sending goroutine of a client.  [result.msgSent++] is a load and a store,
    and the other sender may run in between. *)
Inductive sender_pc : Type := SIdle | SWait | SAdd | SLoad | SStore (v : Z) | SDone.
(** The receiving goroutine, with [result.msgRecv++] in the same way. *)
Inductive recv_pc : Type := RIdle | RWait | RLoad | RStore (v : Z) | RLatency | RDone.

(** The goroutine of runPair itself, by the statement it is at. *)
Inductive main_pc : Type :=
  | PRegister (todo : list (who * string))
  | PFind (i : who)
  | PWaitFound (i : who)
  | PAccept (i : who)
  | PWaitAccepted (i : who)
  | PChat
  | PEnd
  | PWaitLeft
  | PReturned.

#[export] Instance main_pc_eq_dec : EqDecision main_pc.
Proof. solve_decision. Defined.

(** What belongs to one client: its channels, its chat id, the time of its last
    send, its ticker and its two goroutines. *)
Record side (NW : Type) : Type := Side {
  sd_peer : peer NW;
  MatchFound : list string;
  Accepted : list unit;
  MsgRecv : list unit;
  PartnerLeft : list unit;
  chatID : string;
  LastSend : Z;
  ticked : bool;
  sender : sender_pc;
  receiver : recv_pc;
}.
Arguments Side {_}. Arguments sd_peer {_}. Arguments MatchFound {_}. Arguments Accepted {_}.
Arguments MsgRecv {_}. Arguments PartnerLeft {_}. Arguments chatID {_}. Arguments LastSend {_}.
Arguments ticked {_}. Arguments sender {_}. Arguments receiver {_}.

(** The counters all pairs share. *)
Record counters : Type := Counters {
  totalMsgSent : Z;
  totalMsgRecv : Z;
  activePairCount : Z;
  completedPairs : Z;
  errorCount : Z;
  collector : Collector;
}.

(** The contexts of runPair; [KCtx] is the one it is given. *)
Inductive ctx_kind : Type := KCtx | KMatch | KChat | KEnd.
Record expiry : Type := Expiry { xCtx : bool; xMatch : bool; xChat : bool; xEnd : bool }.

Record world (NW : Type) : Type := World {
  side1 : side NW;
  side2 : side NW;
  cnt : counters;
  result : pairResult;
  pc : main_pc;
  expired : expiry;
  matchStart : Z;
  clock : Z;
}.
Arguments World {_}. Arguments side1 {_}. Arguments side2 {_}. Arguments cnt {_}. Arguments result {_}.
Arguments pc {_}. Arguments expired {_}. Arguments matchStart {_}. Arguments clock {_}.

(** ** Field updates *)

Section setters.
Context {NW : Type}.
Implicit Types (s : side NW) (w : world NW).
Definition set_peer x s : side NW := Side x (MatchFound s) (Accepted s) (MsgRecv s) (PartnerLeft s) (chatID s) (LastSend s) (ticked s) (sender s) (receiver s).
Definition set_MatchFound x s : side NW := Side (sd_peer s) x (Accepted s) (MsgRecv s) (PartnerLeft s) (chatID s) (LastSend s) (ticked s) (sender s) (receiver s).
Definition set_Accepted x s : side NW := Side (sd_peer s) (MatchFound s) x (MsgRecv s) (PartnerLeft s) (chatID s) (LastSend s) (ticked s) (sender s) (receiver s).
Definition set_MsgRecv x s : side NW := Side (sd_peer s) (MatchFound s) (Accepted s) x (PartnerLeft s) (chatID s) (LastSend s) (ticked s) (sender s) (receiver s).
Definition set_PartnerLeft x s : side NW := Side (sd_peer s) (MatchFound s) (Accepted s) (MsgRecv s) x (chatID s) (LastSend s) (ticked s) (sender s) (receiver s).
Definition set_chatID x s : side NW := Side (sd_peer s) (MatchFound s) (Accepted s) (MsgRecv s) (PartnerLeft s) x (LastSend s) (ticked s) (sender s) (receiver s).
Definition set_LastSend x s : side NW := Side (sd_peer s) (MatchFound s) (Accepted s) (MsgRecv s) (PartnerLeft s) (chatID s) x (ticked s) (sender s) (receiver s).
Definition set_ticked x s : side NW := Side (sd_peer s) (MatchFound s) (Accepted s) (MsgRecv s) (PartnerLeft s) (chatID s) (LastSend s) x (sender s) (receiver s).
Definition set_sender x s : side NW := Side (sd_peer s) (MatchFound s) (Accepted s) (MsgRecv s) (PartnerLeft s) (chatID s) (LastSend s) (ticked s) x (receiver s).
Definition set_receiver x s : side NW := Side (sd_peer s) (MatchFound s) (Accepted s) (MsgRecv s) (PartnerLeft s) (chatID s) (LastSend s) (ticked s) (sender s) x.

Definition sd (i : who) w : side NW := match i with C1 => side1 w | C2 => side2 w end.
Definition upd (i : who) (f : side NW → side NW) w : world NW :=
  match i with
  | C1 => World (f (side1 w)) (side2 w) (cnt w) (result w) (pc w) (expired w) (matchStart w) (clock w)
  | C2 => World (side1 w) (f (side2 w)) (cnt w) (result w) (pc w) (expired w) (matchStart w) (clock w)
  end.
Definition set_cnt x w : world NW := World (side1 w) (side2 w) x (result w) (pc w) (expired w) (matchStart w) (clock w).
Definition set_result x w : world NW := World (side1 w) (side2 w) (cnt w) x (pc w) (expired w) (matchStart w) (clock w).
Definition set_pc x w : world NW := World (side1 w) (side2 w) (cnt w) (result w) x (expired w) (matchStart w) (clock w).
Definition set_expired x w : world NW := World (side1 w) (side2 w) (cnt w) (result w) (pc w) x (matchStart w) (clock w).
Definition set_matchStart x w : world NW := World (side1 w) (side2 w) (cnt w) (result w) (pc w) (expired w) x (clock w).
Definition set_clock x w : world NW := World (side1 w) (side2 w) (cnt w) (result w) (pc w) (expired w) (matchStart w) x.
End setters.

Definition add_sent (k : counters) : counters :=
  Counters (totalMsgSent k + 1) (totalMsgRecv k) (activePairCount k) (completedPairs k) (errorCount k) (collector k).
Definition add_recv (k : counters) : counters :=
  Counters (totalMsgSent k) (totalMsgRecv k + 1) (activePairCount k) (completedPairs k) (errorCount k) (collector k).
Definition add_active (d : Z) (k : counters) : counters :=
  Counters (totalMsgSent k) (totalMsgRecv k) (activePairCount k + d) (completedPairs k) (errorCount k) (collector k).
Definition add_completed (k : counters) : counters :=
  Counters (totalMsgSent k) (totalMsgRecv k) (activePairCount k) (completedPairs k + 1) (errorCount k) (collector k).
(** [errorCount.Add(1); collector.AddError()] *)
Definition add_error (k : counters) : counters :=
  Counters (totalMsgSent k) (totalMsgRecv k) (activePairCount k) (completedPairs k) (errorCount k + 1) (AddError (collector k)).
Definition add_latency (d : Z) (k : counters) : counters :=
  Counters (totalMsgSent k) (totalMsgRecv k) (activePairCount k) (completedPairs k) (errorCount k) (AddMsgLatency d (collector k)).

Definition set_msgSent (v : Z) (r : pairResult) : pairResult :=
  PairResult (matched r) (chatStarted r) v (msgRecv r) (endedCleanly r) (matchLatency r).
Definition set_msgRecv (v : Z) (r : pairResult) : pairResult :=
  PairResult (matched r) (chatStarted r) (msgSent r) v (endedCleanly r) (matchLatency r).
Definition set_started (latency : Z) (r : pairResult) : pairResult :=
  PairResult true true (msgSent r) (msgRecv r) (endedCleanly r) latency.
Definition set_ended (r : pairResult) : pairResult :=
  PairResult (matched r) (chatStarted r) (msgSent r) (msgRecv r) true (matchLatency r).

(** ** The events of an interleaving *)

Inductive event : Type :=
  | Main (pick : nat)
  | Sender (i : who) (stop : bool)
  | Receiver (i : who) (stop : bool)
  | Expire (k : ctx_kind)
  | Frame (i : who) (ev : client_event)
  | TickFires (i : who)
  | Clock (d : Z).

Section runPair.
Context `{!ClientNet NW}.
Context (msgPayload : string).
Implicit Types (w : world NW) (s : side NW).

(** The handlers, in the order runPair registers them. *)
Definition registrations : list (who * string) :=
  [(C1, TypeMatchFound); (C2, TypeMatchFound); (C1, TypeMatchAccepted); (C2, TypeMatchAccepted);
   (C1, TypeMessage); (C2, TypeMessage); (C1, TypePartnerLeft); (C2, TypePartnerLeft)].

Definition handle (i : who) (frame : string * json) (w : world NW) : world NW :=
  let '(type, raw) := frame in
  if bool_decide (type = TypeMatchFound) then
    match chat_id_of raw with
    | Some id => upd i (λ s, set_MatchFound (try_send 1 id (MatchFound s)) s) w
    | None => w
    end
  else if bool_decide (type = TypeMatchAccepted) then upd i (λ s, set_Accepted (try_send 1 tt (Accepted s)) s) w
  else if bool_decide (type = TypeMessage) then
    upd i (λ s, set_MsgRecv (try_send 100 tt (MsgRecv s)) s) (set_cnt (add_recv (cnt w)) w)
  else if bool_decide (type = TypePartnerLeft) then upd i (λ s, set_PartnerLeft (try_send 1 tt (PartnerLeft s)) s) w
  else w.

Definition on_frame (i : who) (ev : client_event) (w : world NW) : world NW :=
  let '(frames, p) := peer_read ev (sd_peer (sd i w)) in
  foldl (λ w frame, handle i frame w) (upd i (set_peer p) w) frames.

(** A child context is done when its deadline has passed or its parent is done. *)
Definition ctx_done (k : ctx_kind) (x : expiry) : bool :=
  xCtx x || match k with KCtx => false | KMatch => xMatch x | KChat => xChat x | KEnd => xEnd x end.

Definition send (i : who) (msg : json) (w : world NW) : option error * world NW :=
  let '(err, p) := on_client (Send msg) (sd_peer (sd i w)) in (err, upd i (set_peer p) w).

(** Whether [activePairCount] has been raised, so that its deferred decrement
    runs on return. *)
Definition in_chat (p : main_pc) : bool :=
  match p with PChat | PEnd | PWaitLeft => true | _ => false end.

(** [return], with the deferred calls. *)
Definition return_ (w : world NW) : world NW :=
  let k := if in_chat (pc w) then add_active (-1) (cnt w) else cnt w in
  set_pc PReturned (set_cnt (add_completed k) w).
Definition fail (w : world NW) : world NW := return_ (set_cnt (add_error (cnt w)) w).

(** Sends a message and goes on, or fails. *)
Definition send_or_fail (i : who) (msg : json) (next : main_pc) (w : world NW) : world NW :=
  match send i msg w with
  | (None, w) => set_pc next w
  | (Some _, w) => fail w
  end.

Definition spawn (s : side NW) : side NW := set_receiver RWait (set_sender SWait (set_ticked false s)).

Definition start_chat (w : world NW) : world NW :=
  let latency := clock w - matchStart w in
  let w := set_result (set_started latency (result w)) (set_cnt (add_active 1 (add_latency latency (cnt w))) w) in
  set_pc PChat (upd C1 spawn (upd C2 spawn w)).

(** The senders and receivers have all returned, and [chatWg.Wait] with them. *)
Definition side_done (s : side NW) : bool :=
  match sender s, receiver s with SDone, RDone => true | _, _ => false end.

(** One statement of runPair; [pick] is the case a select takes.  [None]: the
    goroutine is blocked, or has returned. *)
Definition main_step (pick : nat) (w : world NW) : option (world NW) :=
  match pc w with
  | PRegister ((i, type) :: todo) =>
      Some (set_pc (PRegister todo) (upd i (λ s, set_peer (on_client (On type) (sd_peer s)).2 s) w))
  | PRegister [] => Some (set_pc (PFind C1) (set_matchStart (clock w) w))
  | PFind C1 => Some (send_or_fail C1 (find_match_msg []) (PFind C2) w)
  | PFind C2 => Some (send_or_fail C2 (find_match_msg []) (PWaitFound C1) w)
  | PWaitFound i =>
      match pick with
      | O =>
          match MatchFound (sd i w) with
          | id :: rest =>
              let next := match i with C1 => PWaitFound C2 | C2 => PAccept C1 end in
              Some (set_pc next (upd i (λ s, set_chatID id (set_MatchFound rest s)) w))
          | [] => None
          end
      | _ => if ctx_done KMatch (expired w) then Some (fail w) else None
      end
  | PAccept C1 => Some (send_or_fail C1 (accept_match_msg (chatID (side1 w))) (PAccept C2) w)
  | PAccept C2 => Some (send_or_fail C2 (accept_match_msg (chatID (side2 w))) (PWaitAccepted C1) w)
  | PWaitAccepted i =>
      match pick with
      | O =>
          match Accepted (sd i w) with
          | _ :: rest =>
              let w := upd i (set_Accepted rest) w in
              Some (match i with C1 => set_pc (PWaitAccepted C2) w | C2 => start_chat w end)
          | [] => None
          end
      | _ => if ctx_done KMatch (expired w) then Some (fail w) else None
      end
  | PChat => if side_done (side1 w) && side_done (side2 w) then Some (set_pc PEnd w) else None
  | PEnd => Some (send_or_fail C1 (end_chat_msg (chatID (side1 w))) PWaitLeft w)
  | PWaitLeft =>
      let left i :=
        match PartnerLeft (sd i w) with
        | _ :: rest => Some (return_ (set_result (set_ended (result w)) (upd i (set_PartnerLeft rest) w)))
        | [] => None
        end in
      match pick with
      | O => left C2
      | S O => left C1
      | _ => if ctx_done KEnd (expired w) then Some (fail w) else None
      end
  | PReturned => None
  end.

Definition sender_step (i : who) (stop : bool) (w : world NW) : option (world NW) :=
  match sender (sd i w) with
  | SWait =>
      if stop then
        if ctx_done KChat (expired w) then Some (upd i (set_sender SDone) w) else None
      else if ticked (sd i w) then
        let w := upd i (λ s, set_LastSend (clock w) (set_ticked false s)) w in
        match send i (text_msg (chatID (sd i w)) msgPayload) w with
        | (Some _, w) => Some (upd i (set_sender SDone) (set_cnt (add_error (cnt w)) w))
        | (None, w) => Some (upd i (set_sender SAdd) w)
        end
      else None
  | SAdd => Some (upd i (set_sender SLoad) (set_cnt (add_sent (cnt w)) w))
  | SLoad => Some (upd i (set_sender (SStore (msgSent (result w)))) w)
  | SStore v => Some (upd i (set_sender SWait) (set_result (set_msgSent (v + 1) (result w)) w))
  | SIdle | SDone => None
  end.

Definition receiver_step (i : who) (stop : bool) (w : world NW) : option (world NW) :=
  match receiver (sd i w) with
  | RWait =>
      if stop then
        if ctx_done KChat (expired w) then Some (upd i (set_receiver RDone) w) else None
      else
        match MsgRecv (sd i w) with
        | _ :: rest => Some (upd i (λ s, set_receiver RLoad (set_MsgRecv rest s)) w)
        | [] => None
        end
  | RLoad => Some (upd i (set_receiver (RStore (msgRecv (result w)))) w)
  | RStore v => Some (upd i (set_receiver RLatency) (set_result (set_msgRecv (v + 1) (result w)) w))
  | RLatency =>
      let ts := LastSend (sd i w) in
      let w := if bool_decide (0 < ts) then set_cnt (add_latency (clock w - ts) (cnt w)) w else w in
      Some (upd i (set_receiver RWait) w)
  | RIdle | RDone => None
  end.

(** A deadline can pass once its context exists and until runPair returns. *)
Definition created (k : ctx_kind) (p : main_pc) : bool :=
  match k, p with
  | KCtx, _ => true
  | _, PReturned => false
  | KMatch, (PRegister _ | PFind _) => false
  | KMatch, _ => true
  | KChat, p => in_chat p
  | KEnd, PWaitLeft => true
  | KEnd, _ => false
  end.

Definition expire (k : ctx_kind) (x : expiry) : expiry :=
  match k with
  | KCtx => Expiry true (xMatch x) (xChat x) (xEnd x)
  | KMatch => Expiry (xCtx x) true (xChat x) (xEnd x)
  | KChat => Expiry (xCtx x) (xMatch x) true (xEnd x)
  | KEnd => Expiry (xCtx x) (xMatch x) (xChat x) true
  end.

Definition expire_step (k : ctx_kind) (w : world NW) : option (world NW) :=
  if created k (pc w) && negb (ctx_done k (expired w)) then Some (set_expired (expire k (expired w)) w) else None.

(** A ticker drops a tick nobody has taken. *)
Definition tick_step (i : who) (w : world NW) : option (world NW) :=
  match sender (sd i w) with
  | SIdle | SDone => None
  | _ => if ticked (sd i w) then None else Some (upd i (set_ticked true) w)
  end.

Definition step (ev : event) (w : world NW) : option (world NW) :=
  match ev with
  | Main pick => main_step pick w
  | Sender i stop => sender_step i stop w
  | Receiver i stop => receiver_step i stop w
  | Expire k => expire_step k w
  | Frame i ev => Some (on_frame i ev w)
  | TickFires i => tick_step i w
  | Clock d => if bool_decide (0 ≤ d) then Some (set_clock (clock w + d) w) else None
  end.

(** An event that cannot happen leaves the world as it is. *)
Definition run (evs : list event) (w : world NW) : world NW := foldl (λ w ev, default w (step ev w)) w evs.

Definition new_side (p : peer NW) : side NW := Side p [] [] [] [] "" 0 false SIdle RIdle.

(** The call: two connected clients, the counters as they are. *)
Definition runPair (p1 p2 : peer NW) (k : counters) (ctxDone : bool) (now : Z) : world NW :=
  World (new_side p1) (new_side p2) k zeroResult (PRegister registrations) (Expiry ctxDone false false false) now now.
End runPair.

(** ** Reasoning about steps *)

(** Splits an equation [step = Some w'] into the branches of the step; in each the
    new world replaces [w']. *)
Ltac split_step H :=
  repeat match type of H with
  | context [match ?x with _ => _ end] => destruct x eqn:?
  | Some _ = Some _ => injection H as <-
  | None = Some _ => discriminate H
  end.

Section facts.
Context `{!ClientNet NW, !ClientNetLaws NW}.
Context (msgPayload : string).
Implicit Types (w : world NW) (s : side NW) (P : world NW → Prop).

(** A send moves the socket only. *)
Lemma send_spec i msg w err w' :
  send i msg w = (err, w') →
  ∃ p, w' = upd i (set_peer p) w ∧ reading p = reading (sd_peer (sd i w))
    ∧ dispatched (cl p) = dispatched (cl (sd_peer (sd i w)))
    ∧ handlers (cl p) = handlers (cl (sd_peer (sd i w)))
    ∧ sent (conn (cl p)) = sent (conn (cl (sd_peer (sd i w)))) ++ match err with None => [msg] | Some _ => [] end.
Proof.
  unfold send, on_client. destruct (Send msg (cl (sd_peer (sd i w)))) as [e c'] eqn:E. intros [= <- <-].
  apply Send_spec in E as (_ & _ & E1 & E2 & _ & _ & E3). by eexists.
Qed.

Lemma send_or_fail_cases i msg next w :
  ∃ p, send_or_fail i msg next w = set_pc next (upd i (set_peer p) w)
     ∨ send_or_fail i msg next w = fail (upd i (set_peer p) w).
Proof.
  unfold send_or_fail. destruct (send i msg w) as [[e|] w'] eqn:E;
    apply send_spec in E as (p & -> & _); exists p; [by right|by left].
Qed.

(** A frame changes the peer and runs at most one handler. *)
Lemma peer_read_frames ev (p p' : peer NW) frames :
  peer_read ev p = (frames, p') →
  (length frames ≤ 1)%nat ∧ dispatched (cl p') = dispatched (cl p) ++ frames.
Proof.
  unfold peer_read. destruct (reading p); cbn [negb].
  2:{ intros [= <- <-]. cbn. rewrite app_nil_r. split; [lia|done]. }
  destruct (done (cl p) || panicked (cl p)) eqn:Hdp.
  { intros [= <- <-]. cbn. rewrite app_nil_r. split; [lia|done]. }
  apply orb_false_iff in Hdp as [_ Hp]. destruct ev as [data| |]; intros [= <- <-].
  2,3: cbn; rewrite app_nil_r; split; [lia|done].
  destruct (on_text_dispatched data (cl p) Hp) as (l & Hl & Hsub). cbn [cl]. rewrite Hl, drop_app_length. split; [|done].
  apply sublist_length in Hsub. enough (length (handled (handlers (cl p)) data) ≤ 1)%nat by lia.
  unfold handled. repeat case_match; cbn; lia.
Qed.

Lemma on_frame_ind P i ev w :
  (∀ frames p, peer_read ev (sd_peer (sd i w)) = (frames, p) → P (upd i (set_peer p) w)) →
  (∀ frame w', P w' → P (handle i frame w')) →
  P (on_frame i ev w).
Proof.
  intros Hp Hh. unfold on_frame. destruct (peer_read ev (sd_peer (sd i w))) as [frames p] eqn:E.
  specialize (Hp _ _ eq_refl). revert Hp. generalize (upd i (set_peer p) w). clear E.
  induction frames as [|f frames IH]; intros w' Hw'; [done|]. cbn [foldl]. by apply IH, Hh.
Qed.

(** The same for a property of the frames the handlers are given: they are among
    those the client has dispatched. *)
Lemma on_frame_dispatched_ind P i ev w :
  (∀ frames p, peer_read ev (sd_peer (sd i w)) = (frames, p) → P (upd i (set_peer p) w)) →
  (∀ frame w', frame ∈ dispatched (cl (sd_peer (sd i w'))) → P w' → P (handle i frame w')) →
  P (on_frame i ev w).
Proof.
  intros Hp Hh. unfold on_frame. destruct (peer_read ev (sd_peer (sd i w))) as [frames p] eqn:E.
  specialize (Hp _ _ eq_refl). apply peer_read_frames in E as [_ Hd].
  assert (Hin : ∀ frame, frame ∈ frames → frame ∈ dispatched (cl (sd_peer (sd i (upd i (set_peer p) w))))).
  { intros frame Hf. destruct i; cbn; rewrite Hd, elem_of_app; by right. }
  revert Hp Hin. generalize (upd i (set_peer p) w). clear -Hh.
  induction frames as [|f frames IH]; intros w' Hw' Hin; [done|]. cbn [foldl]. apply IH.
  - apply Hh; [|done]. apply Hin. by left.
  - intros frame Hf. assert (sd_peer (sd i (handle i f w')) = sd_peer (sd i w')) as ->.
    { unfold handle. repeat case_match; by destruct i. }
    apply Hin. by right.
Qed.

Lemma run_ind P evs w :
  P w → (∀ ev w1 w2, P w1 → step msgPayload ev w1 = Some w2 → P w2) → P (run msgPayload evs w).
Proof.
  intros H0 Hstep. unfold run. revert w H0. induction evs as [|ev evs IH]; intros w H0; [done|]. cbn [foldl].
  apply IH. destruct (step msgPayload ev w) as [w'|] eqn:E; [by eapply Hstep|done].
Qed.

(** ** Termination *)

Definition main_weight (p : main_pc) : nat :=
  match p with
  | PRegister todo => 20 + length todo
  | PFind C1 => 19 | PFind C2 => 18
  | PWaitFound C1 => 17 | PWaitFound C2 => 16
  | PAccept C1 => 15 | PAccept C2 => 14
  | PWaitAccepted C1 => 13 | PWaitAccepted C2 => 12
  | PChat => 3 | PEnd => 2 | PWaitLeft => 1 | PReturned => 0
  end.
Definition side_weight s : nat :=
  (if ticked s then 5 else 0) + 4 * length (MsgRecv s)
  + match sender s with SWait => 1 | SAdd => 4 | SLoad => 3 | SStore _ => 2 | SIdle | SDone => 0 end
  + match receiver s with RWait => 1 | RLoad => 4 | RStore _ => 3 | RLatency => 2 | RIdle | RDone => 0 end.
Definition expiry_weight (x : expiry) : nat :=
  (if xCtx x then 0 else 1) + (if xMatch x then 0 else 1) + (if xChat x then 0 else 1) + (if xEnd x then 0 else 1).
Definition weight w : nat :=
  main_weight (pc w) + side_weight (side1 w) + side_weight (side2 w) + expiry_weight (expired w).

(** The steps runPair takes by itself: those of its goroutines and of its own
    deadlines, as against frames, ticks, the clock and an interrupt. *)
Definition internal (ev : event) : bool :=
  match ev with
  | Main _ | Sender _ _ | Receiver _ _ => true
  | Expire k => match k with KCtx => false | _ => true end
  | _ => false
  end.

Lemma send_or_fail_weight i msg next w :
  (0 < main_weight (pc w))%nat → (main_weight next < main_weight (pc w))%nat →
  (weight (send_or_fail i msg next w) < weight w)%nat.
Proof.
  intros H0 Hn. destruct (send_or_fail_cases i msg next w) as (p & [-> | ->]);
    unfold weight, fail, return_, side_weight; destruct i; cbn; lia.
Qed.

Lemma main_step_weight pick w w' : main_step pick w = Some w' → (weight w' < weight w)%nat.
Proof.
  unfold main_step. intros H.
  destruct (pc w) as [[|[i type] todo]|[]|i|[]|i| | | |] eqn:Epc.
  2,3,4,6,7,10: injection H as <-; try (apply send_or_fail_weight; rewrite Epc; cbn; lia);
    unfold weight; rewrite Epc; destruct i; unfold side_weight; cbn; lia.
  1: by injection H as <-; unfold weight; cbn; rewrite Epc; cbn; lia.
  all: split_step H; try destruct i; unfold weight, fail, return_, start_chat, side_weight, spawn; cbn in *; rewrite ?Epc;
    cbn; try lia.
Qed.

Lemma goroutine_step_weight ev w w' :
  internal ev = true → step msgPayload ev w = Some w' → (weight w' < weight w)%nat.
Proof.
  intros Hint H. destruct ev as [pick|i stop|i stop|k|i ev|i|d]; try discriminate Hint; cbn [step] in H.
  - by eapply main_step_weight.
  - unfold sender_step in H. destruct (sender (sd i w)) eqn:Es; try discriminate H.
    2-4: injection H as <-; destruct i; unfold weight, side_weight; cbn in *; rewrite ?Es; lia.
    destruct stop.
    { destruct (ctx_done KChat (expired w)); [|discriminate H]. injection H as <-.
      destruct i; unfold weight, side_weight; cbn in *; rewrite ?Es; lia. }
    destruct (ticked (sd i w)) eqn:Et; [|discriminate H].
    destruct (send _ _ _) as [err w1] eqn:E in H. apply send_spec in E as (p & -> & _).
    destruct err; injection H as <-; destruct i; unfold weight, side_weight; cbn in *; rewrite ?Es, ?Et; cbn; lia.
  - unfold receiver_step in H. destruct (receiver (sd i w)) eqn:Er; try discriminate H.
    2-4: injection H as <-; try case_bool_decide; destruct i; unfold weight, side_weight; cbn in *; rewrite ?Er; lia.
    destruct stop.
    { destruct (ctx_done KChat (expired w)); [|discriminate H]. injection H as <-.
      destruct i; unfold weight, side_weight; cbn in *; rewrite ?Er; lia. }
    destruct (MsgRecv (sd i w)) eqn:Em; [discriminate H|]. injection H as <-.
    destruct i; unfold weight, side_weight; cbn in *; rewrite ?Er, ?Em; cbn; lia.
  - unfold expire_step in H. destruct (created k (pc w) && negb (ctx_done k (expired w))) eqn:E; [|discriminate H].
    injection H as <-. apply andb_true_iff in E as [_ E]. unfold weight, expiry_weight. cbn.
    destruct (expired w) as [[] [] [] []], k; cbn in *; try discriminate; lia.
Qed.

(** A frame or a tick adds at most five steps. *)
Lemma env_step_weight ev w w' :
  internal ev = false → step msgPayload ev w = Some w' → (weight w' ≤ weight w + 5)%nat.
Proof.
  intros Hint H. destruct ev as [pick|i stop|i stop|k|i ev|i|d]; try discriminate Hint; cbn [step] in H.
  - unfold expire_step in H. repeat case_match; simplify_eq. unfold weight, expiry_weight. cbn.
    destruct (expired w) as [[] [] [] []], k; cbn in *; lia.
  - injection H as <-. unfold on_frame. destruct (peer_read ev (sd_peer (sd i w))) as [frames p] eqn:E.
    apply peer_read_frames in E as [Hlen _].
    assert (Hp : weight (upd i (set_peer p) w) = weight w) by (by destruct i).
    destruct frames as [|[type raw] [|? frames]]; cbn in Hlen; [cbn [foldl]; lia| |lia].
    cbn [foldl]. rewrite <-Hp. generalize (upd i (set_peer p) w). clear. intros w.
    pose proof (try_send_le 100 tt (MsgRecv (sd i w))). unfold handle.
    repeat case_match; destruct i; unfold weight, side_weight; cbn in *; lia.
  - unfold tick_step in H. destruct (sender (sd i w)) eqn:Es; try discriminate H;
      (destruct (ticked (sd i w)) eqn:Et; [discriminate H|]); injection H as <-;
      destruct i; unfold weight, side_weight; cbn in *; rewrite ?Et; cbn; lia.
  - case_bool_decide; [|discriminate H]. injection H as <-. unfold weight. cbn. lia.
Qed.

(** No goroutine of the side runs: it has not been started, or has returned. *)
Definition quiet s : Prop :=
  sender s ∈ [SIdle; SDone] ∧ receiver s ∈ [RIdle; RDone].

(** Before the chat no goroutine runs, in it they have been started, and once
    they are waited for they have returned. *)
Definition threads_inv w : Prop :=
  match pc w with
  | PReturned => quiet (side1 w) ∧ quiet (side2 w)
  | PChat => sender (side1 w) ≠ SIdle ∧ receiver (side1 w) ≠ RIdle ∧ sender (side2 w) ≠ SIdle ∧ receiver (side2 w) ≠ RIdle
  | PEnd | PWaitLeft => side_done (side1 w) = true ∧ side_done (side2 w) = true
  | _ => sender (side1 w) = SIdle ∧ receiver (side1 w) = RIdle ∧ sender (side2 w) = SIdle ∧ receiver (side2 w) = RIdle
  end.

Lemma side_done_spec s : side_done s = true → sender s = SDone ∧ receiver s = RDone.
Proof. unfold side_done. by destruct (sender s), (receiver s). Qed.
Lemma side_done_quiet s : side_done s = true → quiet s.
Proof. intros [E1 E2]%side_done_spec. unfold quiet. rewrite E1, E2. split; by repeat constructor. Qed.
Lemma idle_quiet s : sender s = SIdle → receiver s = RIdle → quiet s.
Proof. unfold quiet. intros -> ->. split; by repeat constructor. Qed.
#[local] Hint Resolve side_done_quiet idle_quiet : core.

(** Outside the chat no goroutine runs. *)
Lemma threads_quiet w : threads_inv w → pc w ≠ PChat → quiet (side1 w) ∧ quiet (side2 w).
Proof. unfold threads_inv. destruct (pc w); intros; destruct_and?; auto; done. Qed.

(** What a read loop cannot change. *)
Definition same_threads s s' : Prop :=
  sender s' = sender s ∧ receiver s' = receiver s ∧ chatID s' = chatID s ∧ LastSend s' = LastSend s ∧ ticked s' = ticked s.
Definition reads_only w w' : Prop :=
  pc w' = pc w ∧ result w' = result w ∧ expired w' = expired w ∧ matchStart w' = matchStart w ∧ clock w' = clock w
  ∧ same_threads (side1 w) (side1 w') ∧ same_threads (side2 w) (side2 w').

Lemma handle_reads_only i frame w : reads_only w (handle i frame w).
Proof. unfold handle. repeat case_match; destruct i; split_and!; done. Qed.
Lemma on_frame_reads_only i ev w : reads_only w (on_frame i ev w).
Proof.
  apply (on_frame_ind (reads_only w)).
  - intros frames p _. destruct i; split_and!; done.
  - intros frame w' (H1 & H2 & H3 & H4 & H5 & H6 & H7).
    destruct (handle_reads_only i frame w') as (K1 & K2 & K3 & K4 & K5 & K6 & K7).
    destruct H6 as (?&?&?&?&?), H7 as (?&?&?&?&?), K6 as (?&?&?&?&?), K7 as (?&?&?&?&?).
    split_and!; try split_and!; etransitivity; eassumption.
Qed.

Lemma send_or_fail_threads i msg next w :
  threads_inv w → in_chat next = in_chat (pc w) → next ≠ PReturned → next ≠ PChat → pc w ≠ PReturned → pc w ≠ PChat →
  threads_inv (send_or_fail i msg next w).
Proof.
  intros H Hc Hn Hn' Hp Hp'. pose proof (threads_quiet w H Hp') as Hq.
  destruct (send_or_fail_cases i msg next w) as (p & [-> | ->]); unfold threads_inv; [|by destruct i].
  unfold threads_inv in H. destruct next, (pc w); try done; by destruct i.
Qed.

(** Senders and receivers only run in the chat. *)
Lemma thread_running i w :
  threads_inv w → sender (sd i w) ∉ [SIdle; SDone] ∨ receiver (sd i w) ∉ [RIdle; RDone] → pc w = PChat.
Proof.
  intros Hinv Hrun. destruct (decide (pc w = PChat)) as [|Hpc]; [done|]. exfalso.
  apply threads_quiet in Hinv; [|done]. destruct Hinv as [[H1 H2] [H3 H4]]. destruct i, Hrun; by cbn in *.
Qed.

Lemma threads_upd i f w :
  threads_inv w → pc w = PChat →
  (sender (sd i w) ≠ SIdle ∧ receiver (sd i w) ≠ RIdle →
   sender (f (sd i w)) ≠ SIdle ∧ receiver (f (sd i w)) ≠ RIdle) →
  threads_inv (upd i f w).
Proof.
  unfold threads_inv. intros Hinv Hpc Hf.
  assert (pc (upd i f w) = pc w) as -> by (by destruct i). rewrite Hpc in *.
  destruct Hinv as (?&?&?&?). destruct i; cbn in *; naive_solver.
Qed.

Lemma step_threads ev w w' : threads_inv w → step msgPayload ev w = Some w' → threads_inv w'.
Proof.
  intros Hinv H. destruct ev as [pick|i stop|i stop|k|i ev|i|d]; cbn [step] in H.
  - unfold main_step in H. destruct (pc w) as [[|[i type] todo]|[]|i|[]|i| | | |] eqn:Epc.
    3,4,6,7,10: injection H as <-; apply send_or_fail_threads; by rewrite ?Epc.
    all: try (assert (Hq : quiet (side1 w) ∧ quiet (side2 w)) by (apply threads_quiet; by rewrite ?Epc)).
    all: unfold threads_inv in Hinv; rewrite Epc in Hinv.
    all: split_step H; try done; try (by destruct i); try (unfold threads_inv; cbn; split_and!; done).
    by apply andb_true_iff in Heqb.
  - assert (Hrun : sender (sd i w) ∉ [SIdle; SDone])
      by (intros Hs; unfold sender_step in H; set_unfold; destruct Hs as [Hs|[Hs|[]]]; by rewrite Hs in H).
    pose proof (thread_running i w Hinv (or_introl Hrun)) as Hpc. unfold sender_step in H.
    split_step H;
    repeat match goal with E : send _ _ _ = _ |- _ => apply send_spec in E as (? & -> & _) end;
    repeat first [done | apply threads_upd; [|by destruct i|naive_solver] ].
  - assert (Hrun : receiver (sd i w) ∉ [RIdle; RDone])
      by (intros Hs; unfold receiver_step in H; set_unfold; destruct Hs as [Hs|[Hs|[]]]; by rewrite Hs in H).
    pose proof (thread_running i w Hinv (or_intror Hrun)) as Hpc. unfold receiver_step in H.
    split_step H; repeat first [done | apply threads_upd; [|by destruct i|naive_solver] ].
  - unfold expire_step in H. case_match; [|discriminate H]. by injection H as <-.
  - injection H as <-. destruct (on_frame_reads_only i ev w) as (Hpc & _ & _ & _ & _ & H1 & H2).
    unfold threads_inv, side_done, quiet in *. destruct H1 as (-> & -> & _), H2 as (-> & -> & _). by rewrite Hpc.
  - unfold tick_step in H. repeat case_match; simplify_eq;
      (apply threads_upd; [done|apply (thread_running i); [done|left; set_unfold; intros [?|[?|[]]]; congruence]|naive_solver]).
  - case_bool_decide; [|discriminate H]. by injection H as <-.
Qed.

(** A step runPair takes by itself. *)
Definition gstep w w' : Prop := ∃ ev, internal ev = true ∧ step msgPayload ev w = Some w'.

Lemma gstep_intro ev w w' : internal ev = true → step msgPayload ev w = Some w' → ∃ w'', gstep w w''.
Proof. intros Hi H. by exists w', ev. Qed.

(** Either a context is done and its case can be taken, or its deadline can pass. *)
Lemma deadline_progress k w :
  k ≠ KCtx → created k (pc w) = true → ctx_done k (expired w) = true ∨ ∃ w', gstep w w'.
Proof.
  intros Hk Hc. destruct (ctx_done k (expired w)) eqn:E; [by left|right].
  eapply (gstep_intro (Expire k)); [by destruct k|]. cbn. unfold expire_step. by rewrite Hc, E.
Qed.

Lemma side_progress i w :
  pc w = PChat → sender (sd i w) ≠ SIdle → receiver (sd i w) ≠ RIdle →
  side_done (sd i w) = true ∨ ∃ w', gstep w w'.
Proof.
  intros Hpc Hs Hr. destruct (deadline_progress KChat w) as [Hdone|?]; [done|by rewrite Hpc| |by right].
  unfold side_done. destruct (sender (sd i w)) eqn:Es; try done;
    try (right; eapply (gstep_intro (Sender i true)); [done|]; cbn; unfold sender_step; rewrite Es, ?Hdone; done).
  destruct (receiver (sd i w)) eqn:Er; auto;
    try (right; eapply (gstep_intro (Receiver i true)); [done|]; cbn; unfold receiver_step; rewrite Er, ?Hdone; done).
Qed.

Lemma progress w : threads_inv w → pc w ≠ PReturned → ∃ w', gstep w w'.
Proof.
  intros Hinv Hret.
  assert (Hmain : ∀ pick, is_Some (main_step pick w) → ∃ w', gstep w w').
  { intros pick [w' H]. by eapply (gstep_intro (Main pick)). }
  unfold threads_inv in Hinv. destruct (pc w) as [[|[i type] todo]|[]|i|[]|i| | | |] eqn:Epc; try done.
  1-4,6,7,10: apply (Hmain 0%nat); unfold main_step; rewrite Epc; by eexists.
  - destruct (deadline_progress KMatch w) as [Hd|?]; [done|by rewrite Epc| |done].
    apply (Hmain 1%nat). unfold main_step. rewrite Epc, Hd. by eexists.
  - destruct (deadline_progress KMatch w) as [Hd|?]; [done|by rewrite Epc| |done].
    apply (Hmain 1%nat). unfold main_step. rewrite Epc, Hd. by eexists.
  - destruct Hinv as (H1 & H2 & H3 & H4).
    destruct (side_progress C1 w) as [D1|?]; [done..| |done]. destruct (side_progress C2 w) as [D2|?]; [done..| |done].
    apply (Hmain 0%nat). unfold main_step. cbn in D1, D2. rewrite Epc, D1, D2. by eexists.
  - destruct (deadline_progress KEnd w) as [Hd|?]; [done|by rewrite Epc| |done].
    apply (Hmain 2%nat). unfold main_step. rewrite Epc, Hd. by eexists.
Qed.

Lemma run_weight evs w :
  (weight (run msgPayload evs w) ≤ weight w + 5 * length (filter (λ ev, internal ev = false) evs))%nat.
Proof.
  revert w. induction evs as [|ev evs IH]; intros w; [cbn; lia|].
  change (run msgPayload (ev :: evs) w) with (run msgPayload evs (default w (step msgPayload ev w))).
  specialize (IH (default w (step msgPayload ev w))). rewrite filter_cons.
  destruct (step msgPayload ev w) as [w'|] eqn:E; cbn [from_option id] in IH |- *.
  2:{ case_decide; cbn [length]; lia. }
  case_decide as Hi; cbn [length]; [apply env_step_weight in E; [lia|done]|].
  apply not_false_iff_true in Hi. apply goroutine_step_weight in E; [lia|done].
Qed.

Lemma nsteps_weight n w w' : nsteps gstep n w w' → (n + weight w' ≤ weight w)%nat.
Proof.
  induction 1 as [|n w w1 w' (ev & Hi & H) _ IH]; [lia|]. apply goroutine_step_weight in H; [lia|done].
Qed.

Lemma run_threads evs p1 p2 k ctxDone now : threads_inv (run msgPayload evs (runPair p1 p2 k ctxDone now)).
Proof. by apply (run_ind threads_inv); [|intros; eapply step_threads]. Qed.

End facts.
