(* ===== verification/PairProofs.v ===== *)
(** * What runPair counts and says

    Invariants of every interleaving of loadtest/cmd/loadtest/chat.go's runPair:
    its counters, its racy tallies and the messages its clients send. *)

From stdpp Require Import base gmap strings numbers list_basics list_relations list relations.
From S2P Require Import Prelude GoStd Json Env Keys Protocol App WsServer LoadClient Harness Stats LoadChat.
Open Scope Z_scope.

Definition returned (p : main_pc) : bool := match p with PReturned => true | _ => false end.
Definition b2z (b : bool) : Z := if b then 1 else 0.

Section account.
Context `{!ClientNet NW, !ClientNetLaws NW}.
Context (msgPayload : string) (k0 : counters).
Implicit Types (w : world NW) (s : side NW).

Definition finished s : Z := match sender s with SDone => 1 | _ => 0 end.

(** The counters, by where runPair is: [r] it has returned, [ic] it is in the
    chat, [en], [ma], [st] the flags of its result, [f] the senders that are done. *)
Definition accounts (c a e ce f : Z) (r ic en ma st : bool) : Prop :=
  c = completedPairs k0 + b2z r ∧ a = activePairCount k0 + b2z ic
  ∧ e - errorCount k0 = ce - errors (collector k0)
  ∧ errorCount k0 ≤ e ≤ errorCount k0 + f + b2z (r && negb en)
  ∧ ma = st ∧ if r then (if en then st = true else errorCount k0 < e) else en = false ∧ st = ic.

Definition account w : Prop :=
  accounts (completedPairs (cnt w)) (activePairCount (cnt w)) (errorCount (cnt w)) (errors (collector (cnt w)))
    (finished (side1 w) + finished (side2 w)) (returned (pc w)) (in_chat (pc w))
    (endedCleanly (result w)) (matched (result w)) (chatStarted (result w)).

Lemma account_fail w : account w → returned (pc w) = false → account (fail w).
Proof.
  unfold account, accounts, fail, return_. cbn. intros (H1 & H2 & H3 & H4 & H5 & H6) Hr. rewrite Hr in *. cbn in *.
  destruct H6 as [H6 H7]. rewrite H6. destruct (in_chat (pc w)); cbn in *; split_and!; try done; lia.
Qed.

Lemma account_next next w :
  account w → returned (pc w) = false → returned next = false → in_chat next = in_chat (pc w) → account (set_pc next w).
Proof. unfold account. cbn. intros H Hr -> ->. by rewrite Hr in H. Qed.

Lemma account_upd i f w : account w → sender (f (sd i w)) = sender (sd i w) → account (upd i f w).
Proof. unfold account, finished. destruct i; cbn; by intros H ->. Qed.

Lemma pc_upd i f w : pc (upd i f w) = pc w.
Proof. by destruct i. Qed.

Lemma account_send i msg next w :
  account w → returned (pc w) = false → returned next = false → in_chat next = in_chat (pc w) →
  account (send_or_fail i msg next w).
Proof.
  intros Hac Hr Hn Hc. destruct (send_or_fail_cases i msg next w) as (p & [-> | ->]).
  - apply account_next; by destruct i.
  - apply account_fail; by destruct i.
Qed.

Lemma account_main pick w w' : threads_inv w → account w → main_step pick w = Some w' → account w'.
Proof.
  intros Hth Hac H. unfold main_step in H. unfold threads_inv in Hth.
  destruct (pc w) as [[|[i type] todo]|[]|i|[]|i| | | |] eqn:Epc.
  3,4,6,7,10: injection H as <-; apply account_send; by rewrite ?Epc.
  all: split_step H; try (apply account_fail; by rewrite ?Epc).
  all: try (apply account_next; [by try apply account_upd|rewrite ?pc_upd; cbn; by rewrite ?Epc..]).
  all: unfold account, accounts, start_chat, return_, finished in *; cbn in *; rewrite Epc in *; cbn in *.
  all: destruct Hac as (H1 & H2 & H3 & H4 & H6 & H5 & H7).
  - destruct Hth as (Hs1 & _ & Hs2 & _). rewrite Hs1, Hs2 in *. rewrite H5. cbn. split_and!; try done; lia.
  - cbn. split_and!; try done; lia.
  - cbn. split_and!; try done; lia.
Qed.

Lemma account_step ev w w' : threads_inv w → account w → step msgPayload ev w = Some w' → account w'.
Proof.
  intros Hth Hac H. destruct ev as [pick|i stop|i stop|k|i ev|i|d]; cbn [step] in H.
  - by eapply account_main.
  - unfold sender_step in H. split_step H;
    repeat match goal with E : send _ _ _ = _ |- _ => apply send_spec in E as (? & -> & _) end;
    unfold account, accounts, finished in *; destruct i; cbn in *;
    repeat match goal with E : sender _ = _ |- _ => rewrite E in * end; cbn in *;
    destruct Hac as (H1 & H2 & H3 & H4 & H5 & H6); split_and!; try done; try lia;
    destruct (returned (pc w)), (endedCleanly (result w)); try done; lia.
  - unfold receiver_step in H. split_step H; try (by destruct i).
  - unfold expire_step in H. split_step H. done.
  - injection H as <-. apply (on_frame_ind account); [intros; by apply account_upd|]. clear.
    intros [type raw] w Hac. unfold handle. repeat case_match; try done; by apply account_upd.
  - unfold tick_step in H. split_step H; by destruct i.
  - split_step H. done.
Qed.

Lemma run_account p1 p2 ctxDone now evs : account (run msgPayload evs (runPair p1 p2 k0 ctxDone now)).
Proof.
  apply (run_ind msgPayload (λ w, threads_inv w ∧ account w)).
  - split; [done|]. unfold account, accounts. cbn. split_and!; try done; lia.
  - intros ev w1 w2 [Hth Hac] H. split; [by eapply step_threads|by eapply account_step].
Qed.

(** The books of runPair balance under every interleaving: it counts itself
    completed exactly when it has returned, active exactly while it is in the chat
    (so a returned pair is never left active); the error counter moves with the
    collector's and by at most three; a pair that has returned ended cleanly or
    counted an error; and a pair only ends cleanly after its chat was started,
    which is after it was matched. *)
Theorem run_pair_accounts p1 p2 ctxDone now evs :
  let w := run msgPayload evs (runPair p1 p2 k0 ctxDone now) in
  completedPairs (cnt w) = completedPairs k0 + (if decide (pc w = PReturned) then 1 else 0)
  ∧ activePairCount (cnt w) = activePairCount k0 + (if in_chat (pc w) then 1 else 0)
  ∧ errorCount (cnt w) - errorCount k0 = errors (collector (cnt w)) - errors (collector k0)
  ∧ 0 ≤ errorCount (cnt w) - errorCount k0 ≤ 3
  ∧ (pc w = PReturned → endedCleanly (result w) = true ∨ errorCount k0 < errorCount (cnt w))
  ∧ (endedCleanly (result w) = true → pc w = PReturned ∧ chatStarted (result w) = true ∧ matched (result w) = true).
Proof.
  intros w. destruct (run_account p1 p2 ctxDone now evs : account w) as (H1 & H2 & H3 & H4 & H5 & H6).
  assert (Hr : returned (pc w) = bool_decide (pc w = PReturned)) by (by destruct (pc w)).
  assert (Hf : finished (side1 w) ≤ 1 ∧ finished (side2 w) ≤ 1) by (unfold finished; repeat case_match; lia).
  rewrite Hr in *. case_decide as Hpc.
  - rewrite (bool_decide_eq_true_2 (pc w = PReturned)) in * by done. cbn in *. destruct (endedCleanly (result w)); cbn in *;
      split_and!; try done; try lia; auto. intros _. split_and!; congruence.
  - rewrite (bool_decide_eq_false_2 (pc w = PReturned)) in * by done. cbn in *. destruct H6 as [-> _].
    split_and!; try done; lia.
Qed.
End account.

(** ** The tallies of a pair *)

Section tally.
Context `{!ClientNet NW, !ClientNetLaws NW}.
Context (msgPayload : string) (k0 : counters).
Implicit Types (w : world NW) (s : side NW).

(** A message counted in [totalMsgSent] but not yet in [msgSent], and the value
    of [msgSent] its sender has loaded. *)
Definition unstored s : Z := match sender s with SLoad | SStore _ => 1 | _ => 0 end.
Definition loaded s : Z := match sender s with SStore v => v | _ => 0 end.
Definition sent_tally w : Prop :=
  let p := unstored (side1 w) + unstored (side2 w) in
  let a := totalMsgSent (cnt w) - totalMsgSent k0 in
  0 ≤ msgSent (result w) ∧ msgSent (result w) + p ≤ a
  ∧ 0 ≤ loaded (side1 w) ∧ loaded (side1 w) + p ≤ a ∧ 0 ≤ loaded (side2 w) ∧ loaded (side2 w) + p ≤ a.

(** A received message waits in the channel, or is held by its receiver. *)
Definition unread s : Z :=
  Z.of_nat (length (MsgRecv s)) + match receiver s with RLoad | RStore _ => 1 | _ => 0 end.
Definition rloaded s : Z := match receiver s with RStore v => v | _ => 0 end.
Definition recv_tally w : Prop :=
  let p := unread (side1 w) + unread (side2 w) in
  let a := totalMsgRecv (cnt w) - totalMsgRecv k0 in
  0 ≤ msgRecv (result w) ∧ msgRecv (result w) + p ≤ a
  ∧ 0 ≤ rloaded (side1 w) ∧ rloaded (side1 w) + p ≤ a ∧ 0 ≤ rloaded (side2 w) ∧ rloaded (side2 w) + p ≤ a.

Definition tally w : Prop := sent_tally w ∧ recv_tally w.

Ltac tally_tac :=
  unfold tally, sent_tally, recv_tally, unstored, loaded, unread, rloaded in *; cbn in *;
  repeat match goal with E : sender _ = _ |- _ => rewrite E in *; clear E end;
  repeat match goal with E : receiver _ = _ |- _ => rewrite E in *; clear E end;
  repeat match goal with E : MsgRecv _ = _ |- _ => rewrite E in *; clear E end; cbn in *;
  destruct_and?; split_and!; try done; try lia.

Lemma tally_return w : tally w → tally (return_ w).
Proof. unfold return_. by destruct (in_chat (pc w)). Qed.

Lemma tally_main pick w w' : threads_inv w → tally w → main_step pick w = Some w' → tally w'.
Proof.
  intros Hth Ht H. unfold main_step in H. unfold threads_inv in Hth.
  destruct (pc w) as [[|[i type] todo]|[]|i|[]|i| | | |] eqn:Epc.
  3,4,6,7,10: injection H as <-;
    match goal with |- tally (send_or_fail ?i ?m ?n ?w) => destruct (send_or_fail_cases i m n w) as (p & [-> | ->]) end;
    [exact Ht|apply tally_return; exact Ht].
  all: split_step H; try exact Ht; try (destruct i; exact Ht); try (apply tally_return; exact Ht).
  destruct Hth as (? & ? & ? & ?). tally_tac.
Qed.

Lemma tally_step ev w w' : threads_inv w → tally w → step msgPayload ev w = Some w' → tally w'.
Proof.
  intros Hth Ht H. destruct ev as [pick|i stop|i stop|k|i ev|i|d]; cbn [step] in H.
  - by eapply tally_main.
  - unfold sender_step in H. split_step H;
    repeat match goal with E : send _ _ _ = _ |- _ => apply send_spec in E as (? & -> & _) end;
    destruct i; tally_tac.
  - unfold receiver_step in H. split_step H; destruct i; try case_bool_decide; tally_tac.
  - unfold expire_step in H. split_step H. exact Ht.
  - injection H as <-. apply (on_frame_ind tally); [intros; destruct i; exact Ht|]. clear -k0.
    intros [type raw] w Ht. pose proof (try_send_le 100 tt (MsgRecv (sd i w))). unfold handle.
    repeat case_match; destruct i; try exact Ht; tally_tac.
  - unfold tick_step in H. split_step H; destruct i; exact Ht.
  - split_step H. exact Ht.
Qed.

Lemma run_tally p1 p2 ctxDone now evs : tally (run msgPayload evs (runPair p1 p2 k0 ctxDone now)).
Proof.
  apply (run_ind msgPayload (λ w, threads_inv w ∧ tally w)).
  - split; [done|]. tally_tac.
  - intros ev w1 w2 [Hth Ht] H. split; [by eapply step_threads|by eapply tally_step].
Qed.

Lemma tally_bound w : tally w →
  0 ≤ msgSent (result w) ≤ totalMsgSent (cnt w) - totalMsgSent k0
  ∧ 0 ≤ msgRecv (result w) ≤ totalMsgRecv (cnt w) - totalMsgRecv k0.
Proof.
  intros [H1 H2]. unfold sent_tally, recv_tally in *.
  assert (∀ s, 0 ≤ unstored s) by (intros; unfold unstored; case_match; lia).
  assert (∀ s, 0 ≤ unread s) by (intros; unfold unread; case_match; lia).
  pose proof (H (side1 w)). pose proof (H (side2 w)). pose proof (H0 (side1 w)). pose proof (H0 (side2 w)). lia.
Qed.

(** The tallies of a pair never exceed what was sent and received: over any
    interleaving of the two senders, the two receivers and the handlers, although
    the increments of msgSent and msgRecv race, msgSent is at most the number of
    messages this run added to totalMsgSent and msgRecv at most the number it added
    to totalMsgRecv. *)
Theorem run_pair_tallies p1 p2 ctxDone now evs :
  let w := run msgPayload evs (runPair p1 p2 k0 ctxDone now) in
  0 ≤ msgSent (result w) ≤ totalMsgSent (cnt w) - totalMsgSent k0
  ∧ 0 ≤ msgRecv (result w) ≤ totalMsgRecv (cnt w) - totalMsgRecv k0.
Proof.
  exact (tally_bound _ (run_tally p1 p2 ctxDone now evs)).
Qed.
End tally.
