(* ===== verification/PairScript.v ===== *)
(** * What the clients of a pair say

    Whatever the interleaving, each client of loadtest/cmd/loadtest/chat.go's
    runPair follows the script of a chat: it looks for a match, accepts the chat it
    was offered, sends messages in it, and the first one ends it. *)

From stdpp Require Import base gmap strings numbers list_basics list_relations list relations.
From S2P Require Import Prelude GoStd Json Env Keys Protocol App WsServer LoadClient Harness Stats LoadChat PairProofs.
Open Scope Z_scope.

(** The messages of the test itself: all but the fingerprint of the handshake. *)
Definition own (l : list json) : list json := filter (λ j, unmarshal (get_str "type") j ≠ Some TypeSetFingerprint) l.

Lemma own_app l l' : own (l ++ l') = own l ++ own l'.
Proof. apply filter_app. Qed.
Lemma own_fingerprints l : Forall (λ j, ∃ fp, j = fingerprint_msg fp) l → own l = [].
Proof.
  induction 1 as [|j l [fp ->] _ IH]; [done|]. unfold own in *. rewrite filter_cons_False; [done|]. intros H. by apply H.
Qed.

(** A chat id some match_found frame among [ds] has offered. *)
Definition offered (ds : list (string * json)) (id : string) : Prop :=
  ∃ raw, (TypeMatchFound, raw) ∈ ds ∧ chat_id_of raw = Some id.

Lemma offered_mono ds ds' id : offered ds id → offered (ds ++ ds') id.
Proof. intros (raw & H & E). exists raw. rewrite elem_of_app. auto. Qed.

Section script.
Context `{!ClientNet NW, !ClientNetLaws NW}.
Context (msgPayload : string).
Implicit Types (w : world NW) (s : side NW).

(** The script of a client, up to stage [st], with [n] messages. *)
Definition conversation (id : string) (st n : nat) : list json :=
  (if bool_decide (1 ≤ st)%nat then [find_match_msg []] else [])
  ++ (if bool_decide (2 ≤ st)%nat then [accept_match_msg id] else [])
  ++ replicate n (text_msg id msgPayload)
  ++ (if bool_decide (3 ≤ st)%nat then [end_chat_msg id] else []).

(** How far the client has come, by where runPair is. *)
Definition stage (i : who) (p : main_pc) : nat :=
  match p, i with
  | PRegister _, _ | PFind C1, _ | PFind C2, C2 => 0
  | PFind C2, C1 | PWaitFound _, _ | PAccept C1, _ | PAccept C2, C2 => 1
  | PWaitLeft, C1 => 3
  | _, _ => 2
  end.
(** Only the first client ends the chat. *)
Definition last_stage (i : who) : nat := match i with C1 => 3 | C2 => 2 end.
Lemma stage_le i p : (stage i p ≤ last_stage i)%nat.
Proof. destruct p as [|[]| |[]| | | | |], i; cbn; lia. Qed.
(** runPair has read the chat id of the client. *)
Definition found (i : who) (p : main_pc) : bool :=
  match p, i with
  | PRegister _, _ | PFind _, _ | PWaitFound C1, _ | PWaitFound C2, C2 | PReturned, _ => false
  | _, _ => true
  end.

(** [said]: what the client has sent, [ds]: the frames dispatched to it. *)
Definition follows (i : who) (base said : list json) (ds : list (string * json)) (id : string) (p : main_pc) (st n : nat) : Prop :=
  said = base ++ conversation id st n
  ∧ (p ≠ PReturned → st = stage i p) ∧ (st ≤ last_stage i)%nat ∧ (n ≠ 0%nat → (2 ≤ st)%nat)
  ∧ ((2 ≤ st)%nat ∨ found i p = true → offered ds id).

Definition said (i : who) w : list json := own (sent (conn (cl (sd_peer (sd i w))))).
Definition seen (i : who) w : list (string * json) := dispatched (cl (sd_peer (sd i w))).
Definition unadded s : nat := match sender s with SAdd => 1 | _ => 0 end.

Definition on_script (base1 base2 : list json) (t0 : Z) w : Prop :=
  Forall (offered (seen C1 w)) (MatchFound (side1 w)) ∧ Forall (offered (seen C2 w)) (MatchFound (side2 w))
  ∧ ∃ st1 n1 st2 n2,
      follows C1 base1 (said C1 w) (seen C1 w) (chatID (side1 w)) (pc w) st1 n1
      ∧ follows C2 base2 (said C2 w) (seen C2 w) (chatID (side2 w)) (pc w) st2 n2
      ∧ Z.of_nat (n1 + n2) = totalMsgSent (cnt w) - t0 + Z.of_nat (unadded (side1 w) + unadded (side2 w)).

(** *** The steps of the script *)

(** runPair moves on without a word of the client. *)
Lemma follows_next i base l ds id p p' st n :
  follows i base l ds id p st n → p ≠ PReturned →
  (p' = PReturned ∨ stage i p' = stage i p) → (found i p' = true → (2 ≤ stage i p)%nat ∨ found i p = true) →
  follows i base l ds id p' st n.
Proof.
  intros (E & Hst & Hle & Hn & Ho) Hp Hp' Hf. specialize (Hst Hp). split_and!; [done| |done|done|].
  - intros Hr. destruct Hp' as [->|Hp']; [done|congruence].
  - intros [H|H]; apply Ho; [by left|]. subst st. destruct (Hf H); auto.
Qed.

Lemma conversation_next id st :
  conversation id 1 0 = conversation id 0 0 ++ [find_match_msg []]
  ∧ conversation id 2 0 = conversation id 1 0 ++ [accept_match_msg id]
  ∧ conversation id 3 st = conversation id 2 st ++ [end_chat_msg id]
  ∧ conversation id 2 (S st) = conversation id 2 st ++ [text_msg id msgPayload].
Proof.
  pose proof (replicate_S_end st (text_msg id msgPayload)) as Hr. unfold conversation.
  cbn in *. rewrite !app_nil_r, Hr. done.
Qed.

(** The client says the next line. *)
Lemma follows_say i base l ds id p p' st n msg :
  follows i base l ds id p st n → p ≠ PReturned → p' ≠ PReturned →
  stage i p' = S (stage i p) → (2 ≤ stage i p' → found i p = true)%nat → (found i p' = true → found i p = true) →
  msg = match stage i p with 0%nat => find_match_msg [] | 1%nat => accept_match_msg id | _ => end_chat_msg id end →
  (stage i p < 3)%nat →
  follows i base (l ++ [msg]) ds id p' (S st) n.
Proof.
  intros (E & Hst & Hle & Hn & Ho) Hp Hp' Hs Hf Hf' Hm Hlt. specialize (Hst Hp). subst st.
  destruct (conversation_next id n) as (E1 & E2 & E3 & _).
  split_and!; [|congruence|rewrite <-Hs; apply stage_le| |].
  - rewrite E, Hm, <-app_assoc. f_equal. destruct (stage i p) as [|[|[|k]]]; [| | |lia].
    + assert (n = 0%nat) as -> by (destruct n; [done|lia]). by rewrite E1.
    + assert (n = 0%nat) as -> by (destruct n; [done|lia]). by rewrite E2.
    + by rewrite E3.
  - intros H0. specialize (Hn H0). lia.
  - intros H. apply Ho. right. destruct H as [H|H]; [apply Hf; lia|by apply Hf'].
Qed.

Definition other (i : who) : who := match i with C1 => C2 | C2 => C1 end.

Section steps.
Context (base1 base2 : list json) (t0 : Z).
Abbreviation scripted := (on_script base1 base2 t0).

(** runPair moves on, or returns, and nobody says a word. *)
Lemma script_next p' w :
  scripted w → pc w ≠ PReturned →
  (∀ i, (p' = PReturned ∨ stage i p' = stage i (pc w)) ∧ (found i p' = true → (2 ≤ stage i (pc w))%nat ∨ found i (pc w) = true)) →
  scripted (set_pc p' w).
Proof.
  intros (B1 & B2 & st1 & n1 & st2 & n2 & F1 & F2 & Hn) Hp H. split_and!; [done|done|]. exists st1, n1, st2, n2.
  destruct (H C1) as [H1 H2], (H C2) as [H3 H4]. split_and!; [by eapply follows_next..|done].
Qed.

Lemma script_cnt k w : scripted w → totalMsgSent k = totalMsgSent (cnt w) → scripted (set_cnt k w).
Proof. unfold on_script. cbn. by intros H ->. Qed.

Lemma script_return w : scripted w → pc w ≠ PReturned → scripted (return_ w).
Proof.
  intros Hs Hp. unfold return_. apply script_next; [|done|].
  - apply script_cnt; [done|]. by destruct (in_chat (pc w)).
  - intros i. split; [by left|by destruct i].
Qed.

Lemma script_fail w : scripted w → pc w ≠ PReturned → scripted (fail w).
Proof. intros Hs Hp. apply script_return; [by apply script_cnt|done]. Qed.

(** What the script does not look at. *)
Lemma script_upd i f w :
  scripted w → own (sent (conn (cl (sd_peer (f (sd i w)))))) = said i w → dispatched (cl (sd_peer (f (sd i w)))) = seen i w →
  chatID (f (sd i w)) = chatID (sd i w) → MatchFound (f (sd i w)) = MatchFound (sd i w) →
  unadded (f (sd i w)) = unadded (sd i w) → scripted (upd i f w).
Proof.
  intros (B1 & B2 & H) Hs Hd Hc Hm Hu. unfold on_script, said, seen in *. destruct i; cbn in *; by rewrite Hs, Hd, Hc, Hm, Hu.
Qed.

Lemma script_send i msg next w :
  scripted w → pc w ≠ PReturned → next ≠ PReturned → own [msg] = [msg] →
  stage i next = S (stage i (pc w)) → (stage i (pc w) < 3)%nat →
  (2 ≤ stage i next → found i (pc w) = true)%nat → (found i next = true → found i (pc w) = true) →
  msg = match stage i (pc w) with 0%nat => find_match_msg [] | 1%nat => accept_match_msg (chatID (sd i w)) | _ => end_chat_msg (chatID (sd i w)) end →
  stage (other i) next = stage (other i) (pc w) →
  (found (other i) next = true → (2 ≤ stage (other i) (pc w))%nat ∨ found (other i) (pc w) = true) →
  scripted (send_or_fail i msg next w).
Proof.
  intros Hw Hp Hp' Hown Hs Hlt Hf Hf' Hm Ho Hof. unfold send_or_fail. destruct (send i msg w) as [err w'] eqn:E.
  apply send_spec in E as (p & -> & _ & Hd & _ & Hsent).
  destruct err as [err|].
  { rewrite app_nil_r in Hsent. apply script_fail; [|by destruct i]. apply script_upd; try done. by cbn; rewrite Hsent. }
  assert (Hsaid : own (sent (conn (cl p))) = said i w ++ [msg]) by (rewrite Hsent, own_app, Hown; done).
  destruct Hw as (B1 & B2 & st1 & n1 & st2 & n2 & F1 & F2 & Hn). unfold on_script, said, seen in *.
  destruct i; cbn in *; rewrite Hd, Hsaid; (split_and!; [done|done|]).
  - exists (S st1), n1, st2, n2. split_and!; [by eapply follows_say| |done]. eapply follows_next; [done|done|by right|done].
  - exists st1, n1, (S st2), n2. split_and!; [|by eapply follows_say|done]. eapply follows_next; [done|done|by right|done].
Qed.

(** runPair reads the chat id the client was offered. *)
Lemma script_found i id rest w :
  scripted w → pc w = PWaitFound i → MatchFound (sd i w) = id :: rest →
  scripted (set_pc (match i with C1 => PWaitFound C2 | C2 => PAccept C1 end)
              (upd i (λ s, set_chatID id (set_MatchFound rest s)) w)).
Proof.
  intros (B1 & B2 & st1 & n1 & st2 & n2 & F1 & F2 & Hn) Hp Hm. rewrite Hp in *.
  assert (Hid : ∀ base l ds id0 st n, follows i base l ds id0 (PWaitFound i) st n → offered ds id →
    follows i base l ds id (match i with C1 => PWaitFound C2 | C2 => PAccept C1 end) st n).
  { intros base l ds id0 st n (E & Hst & Hle & Hn0 & Ho) Hof. specialize (Hst ltac:(done)).
    assert (st = 1%nat) as -> by (by destruct i). assert (n = 0%nat) as -> by (destruct n; [done|lia]).
    split_and!; [done|by destruct i|done|done|done]. }
  unfold on_script, said, seen in *. destruct i; cbn in *; rewrite Hm in *.
  - apply Forall_cons_1 in B1 as [Hof B1]. split_and!; [done|done|]. exists st1, n1, st2, n2. cbn.
    split_and!; [by eapply Hid| |done]. by eapply follows_next; [exact F2|done|right|].
  - apply Forall_cons_1 in B2 as [Hof B2]. split_and!; [done|done|]. exists st1, n1, st2, n2. cbn.
    split_and!; [|by eapply Hid|done]. eapply follows_next; [exact F1|done|by right|]. by right.
Qed.

Lemma script_main pick w w' : threads_inv w → scripted w → main_step pick w = Some w' → scripted w'.
Proof.
  intros Hth Hs H. unfold main_step in H.
  destruct (pc w) as [[|[i type] todo]|[]|i|[]|i| | | |] eqn:Epc.
  3,4,6,7,10: injection H as <-; apply script_send; rewrite ?Epc; cbn; try done; try lia; auto.
  all: split_step H; try (apply script_fail; by rewrite ?Epc).
  - apply (script_next _ (set_matchStart (clock w) w)); [done|by cbn; rewrite Epc|].
    intros []; cbn; rewrite Epc; cbn; split; auto.
  - apply script_next; [by apply script_upd|by rewrite pc_upd, Epc|].
    intros []; rewrite pc_upd, Epc; cbn; split; auto.
  - exact (script_found C1 _ _ _ Hs Epc Heql).
  - exact (script_found C2 _ _ _ Hs Epc Heql).
  - apply script_next; [by apply (script_upd C1 (set_Accepted l) w)|by cbn; rewrite Epc|].
    intros []; cbn; rewrite Epc; cbn; split; auto.
  - unfold threads_inv in Hth. rewrite Epc in Hth. destruct Hth as (S1 & _ & S2 & _). unfold start_chat.
    apply script_next; [|by cbn; rewrite Epc|intros []; cbn; rewrite Epc; cbn; split; auto].
    apply (script_upd C1 spawn); [apply (script_upd C2 spawn)|..]; cbn; try done; unfold unadded; cbn; [by rewrite S2|by rewrite S1].
  - apply script_next; [done|by rewrite Epc|]. intros []; rewrite Epc; cbn; split; auto.
  - apply script_return; [|by cbn; rewrite Epc]. by apply (script_upd C2 (set_PartnerLeft l) w).
  - apply script_return; [|by cbn; rewrite Epc]. by apply (script_upd C1 (set_PartnerLeft l) w).
Qed.

(** A sender that has sent its message. *)
Lemma script_text i p w :
  scripted w → pc w = PChat → sender (sd i w) = SWait → dispatched (cl p) = seen i w →
  own (sent (conn (cl p))) = said i w ++ [text_msg (chatID (sd i w)) msgPayload] →
  scripted (upd i (set_sender SAdd) (upd i (set_peer p) w)).
Proof.
  intros (B1 & B2 & st1 & n1 & st2 & n2 & F1 & F2 & Hn) Hp Hw Hd Hs. rewrite Hp in *.
  assert (Hsay : ∀ base l ds id st n, follows i base l ds id PChat st n →
    follows i base (l ++ [text_msg id msgPayload]) ds id PChat st (S n)).
  { intros base l ds id st n (E & Hst & Hle & Hn0 & Ho). specialize (Hst ltac:(done)).
    assert (st = 2%nat) as -> by (by destruct i).
    destruct (conversation_next id n) as (_ & _ & _ & E4).
    split_and!; [by rewrite E, E4, app_assoc|by destruct i|lia|lia|done]. }
  unfold on_script, said, seen, unadded in *. destruct i; cbn in *; rewrite Hd, Hs, Hp; rewrite Hw in Hn;
    (split_and!; [done|done|]).
  - exists st1, (S n1), st2, n2. split_and!; [by apply Hsay|done|lia].
  - exists st1, n1, st2, (S n2). split_and!; [done|by apply Hsay|lia].
Qed.

Lemma script_sender i stop w w' : threads_inv w → scripted w → sender_step msgPayload i stop w = Some w' → scripted w'.
Proof.
  intros Hth Hs H. unfold sender_step in H. destruct (sender (sd i w)) eqn:Es; try discriminate H.
  - destruct stop; [split_step H; apply script_upd; unfold unadded; cbn; by rewrite ?Es|].
    assert (Hpc : pc w = PChat) by (apply (thread_running i); [done|left; rewrite Es; set_solver]).
    split_step H.
    all: match goal with E : send ?j _ (upd ?j ?f ?v) = _ |- _ =>
           apply send_spec in E as (p & -> & _ & Hd & _ & Hsent);
           assert (Hs1 : scripted (upd j f v)) by (apply script_upd; unfold unadded; done) end.
    + rewrite app_nil_r in Hsent.
      apply script_upd; [|destruct i; unfold unadded; cbn in *; by rewrite ?Es..].
      apply script_cnt; [|done]. apply script_upd; try done. unfold said. cbn. by rewrite Hsent.
    + apply script_text; [done|by rewrite pc_upd|by destruct i|done|]. rewrite Hsent, own_app. by destruct i.
  - injection H as <-. destruct Hs as (B1 & B2 & st1 & n1 & st2 & n2 & F1 & F2 & Hn).
    unfold on_script, unadded in *. destruct i; cbn in *; rewrite Es in Hn; (split_and!; [done|done|]);
      exists st1, n1, st2, n2; (split_and!; [done|done|]); lia.
  - injection H as <-. apply script_upd; unfold unadded; cbn; by rewrite ?Es.
  - injection H as <-. apply (script_upd i (set_sender SWait)); unfold unadded; cbn; try done; by destruct i; cbn in *; rewrite Es.
Qed.

Lemma script_receiver i stop w w' : scripted w → receiver_step i stop w = Some w' → scripted w'.
Proof.
  intros Hs H. unfold receiver_step in H.
  split_step H; try (by apply script_upd); try (by apply (script_upd i (set_receiver RLatency)); destruct i).
Qed.

Lemma peer_read_said ev (p p' : peer NW) frames :
  peer_read ev p = (frames, p') → own (sent (conn (cl p'))) = own (sent (conn (cl p))).
Proof.
  unfold peer_read. intros H. split_step H; injection H as <- <-; try done.
  destruct (on_text_sent data (cl p)) as (l & E & Hl). cbn [cl]. rewrite E, own_app, (own_fingerprints l Hl). apply app_nil_r.
Qed.

Lemma follows_mono i base l ds ds' id p st n :
  follows i base l ds id p st n → follows i base l (ds ++ ds') id p st n.
Proof.
  intros (E & Hst & Hle & Hn & Ho). split_and!; try done. intros H. by apply offered_mono, Ho.
Qed.

Lemma script_frame i ev w : scripted w → scripted (on_frame i ev w).
Proof.
  intros Hs. apply (on_frame_dispatched_ind scripted).
  - intros frames p E. pose proof (peer_read_said _ _ _ _ E) as Hsaid. apply peer_read_frames in E as [_ Hd].
    assert (Hmono : ∀ ds ds' l, Forall (offered ds) l → Forall (offered (ds ++ ds')) l)
      by (intros ds ds' l Hf; eapply Forall_impl; [exact Hf|]; intros; by apply offered_mono).
    destruct Hs as (B1 & B2 & st1 & n1 & st2 & n2 & F1 & F2 & Hn). unfold on_script, said, seen in *.
    destruct i; cbn in *; rewrite Hd, Hsaid; (split_and!; [auto|auto|]); exists st1, n1, st2, n2;
      (split_and!; [|..|done]); first [done|by apply follows_mono].
  - intros [type raw] w' Hin (B1 & B2 & H). unfold handle.
    case_bool_decide as Ht; [|repeat case_match; destruct i; done].
    destruct (chat_id_of raw) as [id|] eqn:Eid; [|done]. subst type.
    assert (Hof : offered (seen i w') id) by (by exists raw).
    assert (Htry : ∀ l, Forall (offered (seen i w')) l → Forall (offered (seen i w')) (try_send 1 id l)).
    { intros l Hl. apply Forall_forall. intros x [Hx | ->]%elem_of_try_send; [|done]. by eapply Forall_forall in Hl. }
    destruct i; (split_and!; [| |done]); try done; by apply Htry.
Qed.

Lemma script_step ev w w' : threads_inv w → scripted w → step msgPayload ev w = Some w' → scripted w'.
Proof.
  intros Hth Hs H. destruct ev as [pick|i stop|i stop|k|i ev|i|d]; cbn [step] in H.
  - by eapply script_main.
  - by eapply script_sender.
  - by eapply script_receiver.
  - unfold expire_step in H. split_step H. exact Hs.
  - injection H as <-. by apply script_frame.
  - unfold tick_step in H. split_step H; by apply script_upd.
  - split_step H. exact Hs.
Qed.
End steps.

(** The clients of a pair keep to the protocol under every interleaving: what
    each has sent, apart from the fingerprint of the handshake, is find_match, then
    accept_match for a chat id that a match_found frame offered to this client,
    then messages in that chat, then (the first client only) end_chat for it; and
    once runPair has returned, the messages of both are exactly those counted in
    totalMsgSent. *)
Theorem run_pair_script p1 p2 k ctxDone now evs :
  let w := run msgPayload evs (runPair p1 p2 k ctxDone now) in
  ∃ st1 n1 st2 n2,
    said C1 w = own (sent (conn (cl p1))) ++ conversation (chatID (side1 w)) st1 n1
    ∧ said C2 w = own (sent (conn (cl p2))) ++ conversation (chatID (side2 w)) st2 n2
    ∧ (st1 ≤ 3)%nat ∧ (st2 ≤ 2)%nat
    ∧ (n1 ≠ 0%nat → (2 ≤ st1)%nat) ∧ (n2 ≠ 0%nat → (2 ≤ st2)%nat)
    ∧ ((2 ≤ st1)%nat → offered (seen C1 w) (chatID (side1 w)))
    ∧ ((2 ≤ st2)%nat → offered (seen C2 w) (chatID (side2 w)))
    ∧ (pc w = PReturned → Z.of_nat (n1 + n2) = totalMsgSent (cnt w) - totalMsgSent k).
Proof.
  intros w. set (sc := on_script (own (sent (conn (cl p1)))) (own (sent (conn (cl p2)))) (totalMsgSent k)).
  assert (Hinv : threads_inv w ∧ sc w).
  { apply (run_ind msgPayload (λ w, threads_inv w ∧ sc w)).
    - split; [done|]. unfold sc, on_script, follows. split_and!; [done|done|]. exists 0%nat, 0%nat, 0%nat, 0%nat.
      unfold said, conversation, unadded. cbn. rewrite !app_nil_r. split_and!; try done; try lia; intros [?|?]; try lia; done.
    - intros ev w1 w2 [Hth Hs] H. split; [by eapply step_threads|by eapply script_step]. }
  destruct Hinv as [Hth (_ & _ & st1 & n1 & st2 & n2 & (E1 & _ & L1 & N1 & O1) & (E2 & _ & L2 & N2 & O2) & Hn)].
  exists st1, n1, st2, n2. split_and!; try done; auto. intros Hpc.
  unfold threads_inv in Hth. rewrite Hpc in Hth. destruct Hth as [[Q1 _] [Q2 _]]. rewrite Hn.
  enough (unadded (side1 w) = 0%nat ∧ unadded (side2 w) = 0%nat) as [-> ->] by (cbn; lia).
  unfold unadded. set_unfold. split; [destruct Q1 as [->|[->|[]]]|destruct Q2 as [->|[->|[]]]]; done.
Qed.
End script.

(** ** A run on sockets in memory *)

Definition frame_of (type : string) : client_event := EvText (Some (JObj [("chat_id", JStr "chat-1"); ("type", JStr type)])).
Definition both (f : who → event) : list event := [f C1; f C2].

(** Both clients send one message, and both senders load [msgSent] before either
    stores it. *)
Definition racy_schedule : list event :=
  replicate 11 (Main 0) ++ both (λ i, Frame i (frame_of "match_found")) ++ replicate 4 (Main 0)
  ++ both (λ i, Frame i (frame_of "match_accepted")) ++ [Clock 7; Main 0; Main 0]
  ++ both TickFires ++ concat (replicate 4 (both (λ i, Sender i false)))
  ++ [Frame C2 (frame_of "message")] ++ replicate 4 (Receiver C2 false) ++ [Expire KChat]
  ++ both (λ i, Sender i true) ++ both (λ i, Receiver i true) ++ [Main 0; Main 0; Frame C2 (frame_of "partner_left"); Main 0].

Definition mem_peer : peer (Z * list json) := Peer (New (0, []) 5) true.
Definition no_counts : counters := Counters 0 0 0 0 0 (NewCollector 0).
Definition racy_end : world (Z * list json) := run "abcdefgh" racy_schedule (runPair mem_peer mem_peer no_counts false 100).

(** The pair ends cleanly with two messages sent, and has counted one of them. *)
Example racy_pair :
  pc racy_end = PReturned ∧ endedCleanly (result racy_end) = true ∧ errorCount (cnt racy_end) = 0
  ∧ matchLatency (result racy_end) = 7
  ∧ totalMsgSent (cnt racy_end) = 2 ∧ msgSent (result racy_end) = 1
  ∧ said C1 racy_end = conversation "abcdefgh" "chat-1" 3 1 ∧ said C2 racy_end = conversation "abcdefgh" "chat-1" 2 1.
Proof. vm_compute. done. Qed.


Lemma run_pair_accounts_witness :
  completedPairs (cnt racy_end) = completedPairs no_counts + (if decide (pc racy_end = PReturned) then 1 else 0)
  ∧ activePairCount (cnt racy_end) = activePairCount no_counts + (if in_chat (pc racy_end) then 1 else 0)
  ∧ errorCount (cnt racy_end) - errorCount no_counts = errors (collector (cnt racy_end)) - errors (collector no_counts)
  ∧ 0 ≤ errorCount (cnt racy_end) - errorCount no_counts ≤ 3
  ∧ (pc racy_end = PReturned → endedCleanly (result racy_end) = true ∨ errorCount no_counts < errorCount (cnt racy_end))
  ∧ (endedCleanly (result racy_end) = true →
       pc racy_end = PReturned ∧ chatStarted (result racy_end) = true ∧ matched (result racy_end) = true).
Proof. apply (run_pair_accounts "abcdefgh" no_counts mem_peer mem_peer false 100 racy_schedule). Defined.

Lemma run_pair_tallies_witness :
  0 ≤ msgSent (result racy_end) ≤ totalMsgSent (cnt racy_end) - totalMsgSent no_counts
  ∧ 0 ≤ msgRecv (result racy_end) ≤ totalMsgRecv (cnt racy_end) - totalMsgRecv no_counts.
Proof. apply (run_pair_tallies "abcdefgh" no_counts mem_peer mem_peer false 100 racy_schedule). Defined.

Lemma run_pair_script_witness :
  ∃ st1 n1 st2 n2,
    said C1 racy_end = own (sent (conn (cl mem_peer))) ++ conversation "abcdefgh" (chatID (side1 racy_end)) st1 n1
    ∧ said C2 racy_end = own (sent (conn (cl mem_peer))) ++ conversation "abcdefgh" (chatID (side2 racy_end)) st2 n2
    ∧ (st1 ≤ 3)%nat ∧ (st2 ≤ 2)%nat
    ∧ (n1 ≠ 0%nat → (2 ≤ st1)%nat) ∧ (n2 ≠ 0%nat → (2 ≤ st2)%nat)
    ∧ ((2 ≤ st1)%nat → offered (seen C1 racy_end) (chatID (side1 racy_end)))
    ∧ ((2 ≤ st2)%nat → offered (seen C2 racy_end) (chatID (side2 racy_end)))
    ∧ (pc racy_end = PReturned → Z.of_nat (n1 + n2) = totalMsgSent (cnt racy_end) - totalMsgSent no_counts).
Proof. apply (run_pair_script "abcdefgh" mem_peer mem_peer no_counts false 100 racy_schedule). Defined.
