(* ===== verification/Ramp.v ===== *)
(** * The connection phase of the load tests

    Phase 1 of loadtest/cmd/loadtest/saturate.go, match.go and chat.go: a ticker
    paces the launches, a semaphore bounds the attempts in flight, and each attempt
    is a goroutine that dials, waits for its session and records the outcome.  A
    list of events is an interleaving of these. *)

From stdpp Require Import base gmap strings numbers list_basics list_relations list.
From S2P Require Import Prelude GoStd Json Env Keys Protocol App WsServer LoadClient Harness Stats.
Open Scope Z_scope.

(** The interval between launches; [None] is the division by zero. *)
Definition ramp_interval (rampUp total : Z) : option Z :=
  if bool_decide (total = 0) then None
  else
    let interval := Z.quot rampUp total in
    Some (if bool_decide (interval ≤ 0) then Millisecond else interval).

(** The goroutine of one attempt. *)
Inductive attempt (NW : Type) : Type := ADial | AWait (p : peer NW) | AFinished.
Arguments ADial {_}. Arguments AWait {_}. Arguments AFinished {_}.

(** The launching loop: at its select, at the semaphore, at [wg.Wait], done. *)
Inductive ramp_pc : Type := LoopSelect | LoopAcquire | Waiting | RampDone.

(** [clients]: those whose session came; [refused]: those closed because it did not. *)
Record ramp (NW : Type) : Type := Ramp {
  r_pc : ramp_pc;
  launched : Z;
  interrupted : bool;
  cancelled : bool;
  sem : nat;
  attempts : list (attempt NW);
  r_collector : Collector;
  clients : list (peer NW);
  refused : list (peer NW);
}.
Arguments Ramp {_}. Arguments r_pc {_}. Arguments launched {_}. Arguments interrupted {_}. Arguments cancelled {_}.
Arguments sem {_}. Arguments attempts {_}. Arguments r_collector {_}. Arguments clients {_}. Arguments refused {_}.

(** [Signal]: ctx is cancelled.  [Tick], [Cancelled]: the cases of the launching
    select.  [Turn i k late]: attempt [i] takes case [k] of WaitForSession, its ten
    seconds over if [late]. *)
Inductive ramp_event (NW : Type) : Type :=
  | Signal
  | Tick
  | Cancelled
  | Acquire
  | Exit
  | Joined
  | Dialled (i : nat) (r : res (NW * Z))
  | Arrives (i : nat) (ev : client_event)
  | Turn (i : nat) (k : wait_case) (late : bool)
  | Reads (j : nat) (ev : client_event).
Arguments Signal {_}. Arguments Tick {_}. Arguments Cancelled {_}. Arguments Acquire {_}. Arguments Exit {_}.
Arguments Joined {_}. Arguments Dialled {_}. Arguments Arrives {_}. Arguments Turn {_}. Arguments Reads {_}.

Section ramp.
Context `{!ClientNet NW}.
Context (total : Z) (concurrency : nat).
Implicit Types (r : ramp NW).

Definition set_rpc x r : ramp NW :=
  Ramp x (launched r) (interrupted r) (cancelled r) (sem r) (attempts r) (r_collector r) (clients r) (refused r).
Definition set_attempt (i : nat) (a : attempt NW) r : ramp NW :=
  Ramp (r_pc r) (launched r) (interrupted r) (cancelled r) (sem r) (<[i := a]> (attempts r)) (r_collector r) (clients r) (refused r).
Definition set_collector x r : ramp NW :=
  Ramp (r_pc r) (launched r) (interrupted r) (cancelled r) (sem r) (attempts r) x (clients r) (refused r).
Definition set_clients x r : ramp NW :=
  Ramp (r_pc r) (launched r) (interrupted r) (cancelled r) (sem r) (attempts r) (r_collector r) x (refused r).

(** The deferred release of the slot, and the goroutine returns. *)
Definition finish (i : nat) r : ramp NW :=
  Ramp (r_pc r) (launched r) (interrupted r) (cancelled r) (sem r - 1) (<[i := AFinished]> (attempts r)) (r_collector r) (clients r) (refused r).

Definition close_peer (p : peer NW) : peer NW := (on_client Close p).2.
Definition refuse (p : peer NW) r : ramp NW :=
  Ramp (r_pc r) (launched r) (interrupted r) (cancelled r) (sem r) (attempts r) (r_collector r) (clients r) (refused r ++ [close_peer p]).

Definition is_finished (a : attempt NW) : bool := match a with AFinished => true | _ => false end.

Definition ramp_step (ev : ramp_event NW) (r : ramp NW) : option (ramp NW) :=
  match ev with
  | Signal => Some (Ramp (r_pc r) (launched r) (interrupted r) true (sem r) (attempts r) (r_collector r) (clients r) (refused r))
  | Tick =>
      match r_pc r with
      | LoopSelect =>
          if bool_decide (launched r < total)
          then Some (Ramp LoopAcquire (launched r + 1) (interrupted r) (cancelled r) (sem r) (attempts r) (r_collector r) (clients r) (refused r))
          else None
      | _ => None
      end
  | Cancelled =>
      match r_pc r with
      | LoopSelect =>
          if bool_decide (launched r < total) && cancelled r
          then Some (Ramp LoopSelect total true (cancelled r) (sem r) (attempts r) (r_collector r) (clients r) (refused r))
          else None
      | _ => None
      end
  | Acquire =>
      match r_pc r with
      | LoopAcquire =>
          if bool_decide (sem r < concurrency)%nat
          then Some (Ramp LoopSelect (launched r) (interrupted r) (cancelled r) (S (sem r)) (attempts r ++ [ADial]) (r_collector r) (clients r) (refused r))
          else None
      | _ => None
      end
  | Exit =>
      match r_pc r with
      | LoopSelect => if bool_decide (launched r < total) then None else Some (set_rpc Waiting r)
      | _ => None
      end
  | Joined =>
      match r_pc r with
      | Waiting => if forallb is_finished (attempts r) then Some (set_rpc RampDone r) else None
      | _ => None
      end
  | Dialled i d =>
      match attempts r !! i with
      | Some ADial =>
          Some (match dial d with
                | Err _ => finish i (set_collector (AddError (r_collector r)) r)
                | Ok p => set_attempt i (AWait p) r
                end)
      | _ => None
      end
  | Arrives i ev =>
      match attempts r !! i with
      | Some (AWait p) => Some (set_attempt i (AWait (peer_read ev p).2) r)
      | _ => None
      end
  | Turn i k late =>
      match attempts r !! i with
      | Some (AWait p) =>
          match WaitForSession_turn k (late || cancelled r) p with
          | None => None
          | Some (Some _) => Some (finish i (refuse p (set_collector (AddError (r_collector r)) r)))
          | Some None =>
              let r := set_collector (AddConnect (ConnectLatency (metrics (cl p))) (r_collector r)) r in
              Some (finish i (set_clients (clients r ++ [p]) r))
          end
      | _ => None
      end
  | Reads j ev =>
      match clients r !! j with
      | Some p => Some (set_clients (<[j := (peer_read ev p).2]> (clients r)) r)
      | None => None
      end
  end.

Definition ramp_run (evs : list (ramp_event NW)) (r : ramp NW) : ramp NW := foldl (λ r ev, default r (ramp_step ev r)) r evs.

Definition ramp_start (c : Collector) : ramp NW := Ramp LoopSelect 0 false false 0 [] c [] [].

(** ** What the phase accounts for *)

Lemma close_peer_done p : done (cl (close_peer p)) = true.
Proof.
  unfold close_peer, on_client, Close, bind, get_client. destruct (done (cl p)) eqn:E; [by cbn; rewrite E|].
  cbn. unfold bind, modify, on_socket. cbn. by destruct (conn_Close (conn (cl p))).
Qed.

Definition running r : nat := length (filter (λ a, is_finished a = false) (attempts r)).

Lemma finish_running i a r : attempts r !! i = Some a → is_finished a = false → S (running (finish i r)) = running r.
Proof.
  intros Hi Ha. unfold running. cbn. pose proof (filter_insert_length (λ a, is_finished a = false) i a AFinished _ Hi) as H.
  rewrite decide_True in H by done. rewrite decide_False in H by done. lia.
Qed.

Lemma set_attempt_running i a b r :
  attempts r !! i = Some a → is_finished a = is_finished b → running (set_attempt i b r) = running r.
Proof.
  intros Hi Hab. unfold running. cbn. pose proof (filter_insert_length (λ a, is_finished a = false) i a b _ Hi) as H.
  destruct (decide (is_finished a = false)), (decide (is_finished b = false)); try lia; congruence.
Qed.

Context (c0 : Collector).

Definition acquiring (p : ramp_pc) : Z := match p with LoopAcquire => 1 | _ => 0 end.

Record accounted r : Prop := {
  rm_sem : sem r = running r;
  rm_bound : (running r ≤ concurrency)%nat;
  rm_outcomes : connections (r_collector r) - connections c0 + (errors (r_collector r) - errors c0) + Z.of_nat (running r)
    = Z.of_nat (length (attempts r));
  rm_clients : Z.of_nat (length (clients r)) = connections (r_collector r) - connections c0;
  rm_launched : Z.of_nat (length (attempts r)) + acquiring (r_pc r) ≤ launched r ≤ total;
  rm_attempts : interrupted r = false → launched r = Z.of_nat (length (attempts r)) + acquiring (r_pc r);
  rm_exit : r_pc r = Waiting ∨ r_pc r = RampDone → launched r = total;
  rm_done : r_pc r = RampDone → running r = 0%nat;
  rm_sessions : Forall (λ p, sessionID (cl p) ≠ "") (clients r);
  rm_errors : errors c0 ≤ errors (r_collector r);
  rm_refused : Forall (λ p, done (cl p) = true) (refused r);
}.

Lemma running_snoc r a : length (filter (λ a, is_finished a = false) (attempts r ++ [a])) = (running r + if is_finished a then 0 else 1)%nat.
Proof. unfold running. rewrite filter_app, length_app. f_equal. by destruct a. Qed.

Lemma no_running r : forallb is_finished (attempts r) = true → running r = 0%nat.
Proof.
  unfold running. induction (attempts r) as [|a l IH]; [done|]. cbn [forallb]. intros [Ha Hl]%andb_true_iff.
  rewrite filter_cons_False by (by rewrite Ha). auto.
Qed.

(** An attempt that ends with one more outcome, and perhaps a client. *)
Lemma accounted_finish i a c cs r :
  accounted r → attempts r !! i = Some a → is_finished a = false →
  connections c + errors c = connections (r_collector r) + errors (r_collector r) + 1 → errors (r_collector r) ≤ errors c →
  Z.of_nat (length cs) = connections c - connections c0 → Forall (λ p, sessionID (cl p) ≠ "") cs →
  accounted (finish i (set_clients cs (set_collector c r))).
Proof.
  intros [] Hi Ha Hc He Hcs Hses. pose proof (finish_running i a (set_clients cs (set_collector c r)) Hi Ha) as Hr.
  change (running (set_clients cs (set_collector c r))) with (running r) in Hr.
  split; cbn -[running]; rewrite ?length_insert; try done; try lia. intros Hp. specialize (rm_done0 Hp). lia.
Qed.

Lemma accounted_attempt i a b r :
  accounted r → attempts r !! i = Some a → is_finished a = is_finished b → accounted (set_attempt i b r).
Proof.
  intros [] Hi Hab. pose proof (set_attempt_running i a b r Hi Hab) as Hr.
  split; rewrite ?Hr; cbn -[running]; rewrite ?length_insert; done.
Qed.

Lemma accounted_refuse p r : accounted r → accounted (refuse p r).
Proof.
  intros []. split; try done. cbn. apply Forall_app; split; [done|]. apply Forall_singleton, close_peer_done.
Qed.

Lemma accounted_step ev r r' : accounted r → ramp_step ev r = Some r' → accounted r'.
Proof.
  intros Hr H. destruct ev as [| | | | | |i d|i ev|i k late|j ev]; cbn [ramp_step] in H; repeat case_match; simplify_eq.
  1-6: destruct Hr; repeat match goal with E : r_pc _ = _ |- _ => rewrite E in * end; split; unfold running; cbn -[filter];
    rewrite ?running_snoc, ?length_app; cbn in *; repeat case_bool_decide; try done; try lia; try (by intros [?|?]);
    try (intros Hi; specialize (rm_attempts0 Hi); lia); auto.
  - intros _. by apply no_running.
  - by eapply accounted_attempt.
  - apply (accounted_finish i ADial (AddError (r_collector r)) (clients r)); cbn; try done; try apply Hr; lia.
  - by eapply accounted_attempt.
  - apply (accounted_finish i (AWait p) (AddError (r_collector r)) (clients r) (refuse p r)); cbn; try done; try apply Hr; try lia.
    by apply accounted_refuse.
  - eapply accounted_finish; cbn; try done; [lia|rewrite length_app; cbn; destruct Hr; lia|].
    apply Forall_app; split; [apply Hr|]. apply Forall_singleton. by eapply WaitForSession_ok.
  - destruct Hr; split; cbn -[running]; rewrite ?length_insert; try done. apply Forall_insert; [done|].
    apply peer_read_session. by eapply Forall_lookup_1 in rm_sessions0.
Qed.

Lemma ramp_accounted evs : 0 ≤ total → accounted (ramp_run evs (ramp_start c0)).
Proof.
  intros Htot. unfold ramp_run.
  generalize (ramp_start c0), (ltac:(split; cbn; try done; try lia; by intros [?|?]) : accounted (ramp_start c0)).
  induction evs as [|ev evs IH]; intros r0 Hr0; [done|]. cbn [foldl]. apply IH.
  destruct (ramp_step ev r0) as [r1|] eqn:E; [by eapply accounted_step|done].
Qed.

(** The connection phase loses no attempt: under every interleaving at most
    [concurrency] attempts are in flight, every attempt launched is in flight or
    counted as a connection or an error, never both, the clients kept are as many
    as the connections counted, each with a session, and a client whose session did
    not come has been closed; when the phase is over nothing is in flight, and
    unless it was interrupted every one of the [total] attempts has been made and
    counted. *)
Theorem ramp_accounts evs :
  0 ≤ total →
  let r := ramp_run evs (ramp_start c0) in
  let connected := connections (r_collector r) - connections c0 in
  let failed := errors (r_collector r) - errors c0 in
  (running r ≤ concurrency)%nat
  ∧ connected + failed + Z.of_nat (running r) = Z.of_nat (length (attempts r))
  ∧ Z.of_nat (length (attempts r)) ≤ total
  ∧ Z.of_nat (length (clients r)) = connected
  ∧ Forall (λ p, sessionID (cl p) ≠ "") (clients r) ∧ Forall (λ p, done (cl p) = true) (refused r)
  ∧ (r_pc r = RampDone → running r = 0%nat ∧ (interrupted r = false → connected + failed = total)).
Proof.
  intros Htot r connected failed. destruct (ramp_accounted evs Htot : accounted r).
  unfold connected, failed. assert (0 ≤ acquiring (r_pc r)) by (unfold acquiring; case_match; lia).
  split_and!; try done; try lia. intros Hp. specialize (rm_done0 Hp). split; [done|]. intros Hi. specialize (rm_attempts0 Hi).
  rewrite Hp in *. cbn in *. specialize (rm_exit0 ltac:(by right)). lia.
Qed.

(** A ramp with no slots launches nothing and never ends. *)
Lemma no_slots_stuck r ev r' :
  concurrency = 0%nat → r_pc r = LoopAcquire → ramp_step ev r = Some r' → r_pc r' = LoopAcquire.
Proof. intros -> Hp H. destruct ev; cbn in H; rewrite ?Hp in H; repeat case_match; simplify_eq; done || lia. Qed.
End ramp.

(** The interval of the ramp is positive whenever there is one, as NewTicker
    demands, and there is none exactly when no connection is asked for, where the
    division by zero stops the test; the launches then span at most the ramp-up
    time. *)
Theorem ramp_interval_positive rampUp total :
  match ramp_interval rampUp total with
  | Some d => 0 < d ∧ (0 < total → Z.quot rampUp total > 0 → total * d ≤ rampUp)
  | None => total = 0
  end.
Proof.
  unfold ramp_interval. case_bool_decide as Ht; [done|]. case_bool_decide as Hi; [split; [done|lia]|].
  split; [lia|]. intros Htot _. assert (0 ≤ rampUp).
  { destruct (Z_lt_le_dec rampUp 0) as [Hneg|]; [|done]. exfalso. apply Hi.
    rewrite <-(Z.opp_involutive rampUp), Z.quot_opp_l by lia. pose proof (Z.quot_pos (- rampUp) total). lia. }
  rewrite Z.quot_div_nonneg by lia. apply Z.mul_div_le. lia.
Qed.
