(* ===== verification/LoadTests.v ===== *)
(** * The load tests around their connection phase

    loadtest/cmd/loadtest: the hold phase of saturate.go, the pairing, payload and
    report of chat.go, cleanup of match.go, and the subcommands of main.go. *)

From stdpp Require Import base gmap strings numbers list_basics list_relations list.
From S2P Require Import Prelude GoStd Json Env Keys Protocol App WsServer LoadClient Harness Stats LoadChat PairProofs PairScript Ramp.
Open Scope Z_scope.

(** ** Subcommands *)

Inductive command : Type := CmdSaturate | CmdMatch | CmdChat.

(** [os.Args]: the command with its arguments, or the usage with the exit code. *)
Definition loadtest_main (args : list string) : (command * list string) + Z :=
  match args with
  | [] | [_] => inr 1
  | _ :: cmd :: rest =>
      if bool_decide (cmd = "saturate") then inl (CmdSaturate, rest)
      else if bool_decide (cmd = "match") then inl (CmdMatch, rest)
      else if bool_decide (cmd = "chat") then inl (CmdChat, rest)
      else if bool_decide (cmd ∈ ["help"; "-h"; "--help"]) then inr 0
      else inr 1
  end.

Section runs.
Context `{!ClientNet NW}.
Implicit Types (p : peer NW) (ps : list (peer NW)).

(** ** Cleanup *)

Definition cleanup (clients : list (peer NW)) : list (peer NW) := close_peer <$> clients.

(** ** The hold phase of runSaturate *)

Inductive hold_event : Type :=
  | HoldCtx
  | HoldTimer
  | HoldStatus
  | HoldReads (j : nat) (ev : client_event).

Definition alive (clients : list (peer NW)) : Z :=
  foldl (λ n p, if bool_decide (Errors (metrics (cl p)) = 0) then n + 1 else n) 0 clients.

(** The clients and the number of drops last stored. *)
Fixpoint holdLoop (initialAlive : Z) (evs : list hold_event) (clients : list (peer NW)) (dropped : Z) : list (peer NW) * Z :=
  match evs with
  | [] | HoldCtx :: _ | HoldTimer :: _ => (clients, dropped)
  | HoldStatus :: evs => holdLoop initialAlive evs clients (initialAlive - alive clients)
  | HoldReads j ev :: evs =>
      let clients :=
        match clients !! j with
        | Some p => <[j := (peer_read ev p).2]> clients
        | None => clients
        end in
      holdLoop initialAlive evs clients dropped
  end.

(** From the end of the ramp on: the clients and the drops reported. *)
Definition runSaturate (r : ramp NW) (evs : list hold_event) : list (peer NW) * Z :=
  let '(clients, dropped) :=
    if interrupted r then (clients r, 0)
    else holdLoop (Z.of_nat (length (clients r))) evs (clients r) 0 in
  (cleanup clients, dropped).

(** ** The pairs of runChat *)

(** An odd client is closed and dropped. *)
Definition even_clients (clients : list (peer NW)) : list (peer NW) * list (peer NW) :=
  if bool_decide (Nat.modulo (length clients) 2 ≠ 0%nat)
  then (take (length clients - 1) clients, close_peer <$> drop (length clients - 1) clients)
  else (clients, []).

(** [c1 := pairedClients[i*2]], [c2 := pairedClients[i*2+1]]. *)
Definition pair_at (clients : list (peer NW)) (i : nat) : option (peer NW * peer NW) :=
  c1 ← clients !! (i * 2)%nat;
  c2 ← clients !! (i * 2 + 1)%nat;
  Some (c1, c2).

Definition pairs_of (clients : list (peer NW)) : option (list (peer NW * peer NW)) :=
  mapM (pair_at clients) (seq 0 (length clients / 2)).

(** [strings.Repeat]; a negative count panics. *)
Fixpoint Repeat (s : string) (n : nat) : string :=
  match n with O => "" | S n => s +:+ Repeat s n end.

Definition msg_payload (msgSize : Z) : option string :=
  let count := Z.quot msgSize 8 + 1 in
  if bool_decide (count < 0 ∨ msgSize < 0) then None
  else Some (String.substring 0 (Z.to_nat msgSize) (Repeat "abcdefgh" (Z.to_nat count))).

(** The report: successful chats, pairs matched, messages sent and received, the
    sum of match latencies. *)
Record chat_report : Type := ChatReport {
  successfulChats : Z;
  matchedPairs : Z;
  totalSent : Z;
  totalRecv : Z;
  totalMatchLatency : Z;
}.
Definition add_result (t : chat_report) (r : pairResult) : chat_report :=
  {| successfulChats := if endedCleanly r then successfulChats t + 1 else successfulChats t;
     matchedPairs := if matched r then matchedPairs t + 1 else matchedPairs t;
     totalSent := totalSent t + msgSent r;
     totalRecv := totalRecv t + msgRecv r;
     totalMatchLatency := if matched r then totalMatchLatency t + matchLatency r else totalMatchLatency t |}.
Definition report_of (results : list pairResult) : chat_report := foldl add_result (ChatReport 0 0 0 0 0) results.
(** [avgMatch], when it is printed. *)
Definition avg_match (t : chat_report) : option Z :=
  if bool_decide (0 < matchedPairs t) then Some (Z.quot (totalMatchLatency t) (matchedPairs t)) else None.
End runs.

(** ** Cleanup and the hold phase *)

Section saturate.
Context `{!ClientNet NW, !ClientNetLaws NW}.
Implicit Types (p : peer NW) (ps : list (peer NW)).

Lemma cleanup_done ps : Forall (λ p, done (cl p) = true) (cleanup ps).
Proof. apply Forall_fmap, Forall_forall. intros p _. apply close_peer_done. Qed.

(** A client that can fail once: reading, open, and with errors exactly when a
    read has failed. *)
Definition fresh p : Prop :=
  Errors (metrics (cl p)) = 0 ∧ reading p = true ∧ done (cl p) = false ∧ panicked (cl p) = false.

(** The read of client [j] has failed in [evs]. *)
Definition failed (evs : list hold_event) (j : nat) : bool := existsb (λ ev, match ev with HoldReads i EvReadErr => bool_decide (i = j) | _ => false end) evs.

Definition held (evs : list hold_event) (j : nat) p : Prop :=
  if failed evs j then Errors (metrics (cl p)) = 1 ∧ reading p = false else fresh p.

(** The frames of the hold phase, session ids of eight bytes. *)
Definition calm (ev : hold_event) : Prop :=
  match ev with HoldCtx | HoldTimer => False | HoldReads _ (EvText data) => long_session data | _ => True end.

Lemma fresh_read ev p :
  match ev with EvText data => long_session data | _ => True end → fresh p →
  match ev with
  | EvReadErr => Errors (metrics (cl (peer_read ev p).2)) = 1 ∧ reading (peer_read ev p).2 = false
  | _ => fresh (peer_read ev p).2
  end.
Proof.
  intros Hev (He & Hr & Hd & Hp). unfold peer_read. rewrite Hr, Hd, Hp. cbn [negb orb].
  destruct ev as [data| |]; [|by cbn; split; [lia|]|exact (conj He (conj Hr (conj Hd Hp)))].
  unfold fresh. cbn [cl snd reading].
  enough (wp (on_text data) (λ _ c, Errors (metrics c) = 0 ∧ true = true ∧ done c = false ∧ panicked c = false) (cl p)) as Hw by exact Hw.
  apply wp_on_text; [done|done|]. intros c' []. split_and!; congruence.
Qed.

Lemma held_read evs i ev j p :
  match ev with EvText data => long_session data | _ => True end →
  held evs j p → held (evs ++ [HoldReads i ev]) j (if decide (i = j) then (peer_read ev p).2 else p).
Proof.
  intros Hev Hh. unfold held, failed in *. rewrite existsb_app. cbn [existsb]. rewrite orb_false_r.
  destruct (existsb _ evs) eqn:E; cbn [orb].
  - case_decide; [|done]. destruct Hh as [He Hr]. unfold peer_read. by rewrite Hr.
  - pose proof (fresh_read ev p Hev Hh) as Hf. case_decide as Hij; destruct ev; try done.
    + by rewrite bool_decide_true.
    + by rewrite bool_decide_false.
Qed.

Definition all_held (evs : list hold_event) ps : Prop := ∀ j p, ps !! j = Some p → held evs j p.

Lemma holdLoop_calm n pre evs rest ps dropped :
  Forall calm pre → all_held evs ps →
  ∃ ps' dropped', holdLoop n (pre ++ rest) ps dropped = holdLoop n rest ps' dropped'
    ∧ all_held (evs ++ pre) ps' ∧ length ps' = length ps ∧ (HoldStatus ∉ pre → dropped' = dropped).
Proof.
  intros Hpre. revert evs ps dropped. induction Hpre as [|ev pre Hev Hpre IH]; intros evs ps dropped Hps.
  { exists ps, dropped. by rewrite app_nil_r. }
  rewrite (cons_middle ev evs pre), app_assoc. destruct ev as [| | |j ev]; try done; cbn [Datatypes.app holdLoop].
  - assert (Hps' : all_held (evs ++ [HoldStatus]) ps).
    { intros j p Hj. specialize (Hps j p Hj). unfold held, failed in *. rewrite existsb_app. cbn [existsb]. by rewrite !orb_false_r. }
    destruct (IH _ _ (n - alive ps) Hps') as (ps' & d' & E & H1 & H2 & _). exists ps', d'. split_and!; try done. set_solver.
  - set (ps1 := match ps !! j with Some p => <[j := (peer_read ev p).2]> ps | None => ps end).
    assert (Hps' : all_held (evs ++ [HoldReads j ev]) ps1 ∧ length ps1 = length ps).
    { unfold ps1. destruct (ps !! j) as [q|] eqn:Ej; (split; [|by rewrite ?length_insert]); intros k p Hk.
      - apply list_lookup_insert_Some in Hk as [(<- & <- & _)|[Hne Hk]].
        + pose proof (held_read evs j ev j q Hev (Hps _ _ Ej)) as H. by rewrite decide_True in H.
        + pose proof (held_read evs j ev k p Hev (Hps _ _ Hk)) as H. by rewrite decide_False in H.
      - pose proof (held_read evs j ev k p Hev (Hps _ _ Hk)) as H. rewrite decide_False in H; [done|]. congruence. }
    destruct Hps' as [Hps' Hlen]. destruct (IH _ _ dropped Hps') as (ps' & d' & E & H1 & H2 & H3). exists ps', d'.
    split_and!; [done|done|congruence|]. intros Hn. apply H3. set_solver.
Qed.

Lemma alive_count evs ps k :
  (∀ j p, ps !! j = Some p → held evs (k + j) p) →
  alive ps = Z.of_nat (length ps) - Z.of_nat (length (filter (λ j, failed evs j = true) (seq k (length ps)))).
Proof.
  unfold alive. intros H.
  enough (∀ n, foldl (λ n p, if bool_decide (Errors (metrics (cl p)) = 0) then n + 1 else n) n ps
    = n + Z.of_nat (length ps) - Z.of_nat (length (filter (λ j, failed evs j = true) (seq k (length ps))))) as Hn by (rewrite Hn; lia).
  revert k H. induction ps as [|p ps IH]; intros k H n; [cbn; lia|]. cbn [foldl length seq].
  rewrite (IH (S k)) by (intros j q Hj; replace (S k + j)%nat with (k + S j)%nat by lia; by apply H).
  specialize (H 0%nat p eq_refl). rewrite Nat.add_0_r in H. unfold held in H. rewrite filter_cons.
  destruct (failed evs k) eqn:Ef.
  - destruct H as [He _]. rewrite bool_decide_false by lia. rewrite decide_True by done. cbn [length]. lia.
  - destruct H as [He _]. rewrite bool_decide_true by done. rewrite decide_False by done. lia.
Qed.

(** The saturation test reports exactly the connections that broke: when the
    ramp was not interrupted, the number of drops stored at the last status tick of
    the hold phase is the number of clients whose read had failed by then, however
    the frames, failures and ticks interleave, and when the test ends every client
    has been closed. *)
Theorem saturate_drops r pre post :
  interrupted r = false → Forall fresh (clients r) → Forall calm pre → Forall calm post → HoldStatus ∉ post →
  let '(ps, dropped) := runSaturate r (pre ++ HoldStatus :: post ++ [HoldTimer]) in
  dropped = Z.of_nat (length (filter (λ j, failed pre j = true) (seq 0 (length (clients r)))))
  ∧ length ps = length (clients r) ∧ Forall (λ p, done (cl p) = true) ps.
Proof.
  intros Hi Hfresh Hpre Hpost Hno. unfold runSaturate. rewrite Hi.
  assert (H0 : all_held [] (clients r)) by (intros j p Hj; by eapply Forall_lookup_1 in Hfresh).
  destruct (holdLoop_calm (Z.of_nat (length (clients r))) pre [] (HoldStatus :: post ++ [HoldTimer]) (clients r) 0 Hpre H0)
    as (ps1 & d1 & -> & H1 & L1 & _). cbn [holdLoop].
  assert (H1' : all_held ([] ++ pre ++ [HoldStatus]) ps1).
  { intros j p Hj. specialize (H1 j p Hj). unfold held, failed in *. cbn [Datatypes.app] in *. rewrite existsb_app. cbn [existsb]. by rewrite !orb_false_r. }
  destruct (holdLoop_calm (Z.of_nat (length (clients r))) post _ [HoldTimer] ps1 (Z.of_nat (length (clients r)) - alive ps1) Hpost H1')
    as (ps2 & d2 & -> & _ & L2 & Hd). cbn [holdLoop]. specialize (Hd Hno) as ->.
  rewrite (alive_count pre ps1 0) by exact H1. unfold cleanup. rewrite length_fmap, L2, L1. split_and!; [lia|done|].
  apply Forall_fmap, Forall_forall. intros p _. apply close_peer_done.
Qed.
End saturate.

(** ** The pairs, the payload and the report of runChat *)

Section chat.
Context `{!ClientNet NW}.
Implicit Types (p : peer NW) (ps : list (peer NW)).

Lemma pairs_from ps k :
  length ps = (2 * k)%nat →
  ∃ l, mapM (pair_at ps) (seq 0 k) = Some l ∧ concat ((λ '(a, b), [a; b]) <$> l) = ps ∧ length l = k.
Proof.
  revert ps. induction k as [|k IH]; intros ps Hlen.
  { exists []. destruct ps; [done|cbn in Hlen; lia]. }
  destruct ps as [|a [|b ps]]; cbn in Hlen; try lia.
  destruct (IH ps) as (l & E & Hl & Hk); [lia|]. exists ((a, b) :: l). rewrite fmap_cons. cbn [concat].
  split_and!; [|by rewrite Hl|cbn; lia].
  cbn [seq mapM]. change (pair_at (a :: b :: ps) 0) with (Some (a, b)). cbn [mbind option_bind].
  assert (Hs : mapM (pair_at (a :: b :: ps)) (seq 1 k) = mapM (pair_at ps) (seq 0 k)).
  { clear. rewrite <-!(fmap_S_seq 0 k). generalize (seq 0 k). intros js. induction js as [|i js IH]; [done|].
    rewrite fmap_cons. cbn [mapM]. change (pair_at (a :: b :: ps) (S i)) with (pair_at ps i). by rewrite IH. }
  by rewrite Hs, E.
Qed.

(** Every connected client is in exactly one pair, in the order of the slice, but
    for the last of an odd number, which is closed. *)
Theorem chat_pairs_cover ps :
  let '(even, extra) := even_clients ps in
  ∃ l, pairs_of even = Some l
    ∧ concat ((λ '(a, b), [a; b]) <$> l) = even
    ∧ even = take (length ps - length extra) ps ∧ (length extra ≤ 1)%nat ∧ Forall (λ p, done (cl p) = true) extra.
Proof.
  unfold even_clients. pose proof (Nat.div_mod (length ps) 2 ltac:(done)) as Hd.
  pose proof (Nat.mod_upper_bound (length ps) 2 ltac:(done)) as Hm.
  case_bool_decide as Hodd.
  - assert (Hl : length (take (length ps - 1) ps) = (2 * (length ps / 2))%nat) by (rewrite length_take; lia).
    assert (H2 : (length (take (length ps - 1) ps) / 2 = length ps / 2)%nat) by (rewrite Hl, Nat.mul_comm, Nat.div_mul; done).
    unfold pairs_of. rewrite H2. destruct (pairs_from _ _ Hl) as (l & E & Hc & _). exists l.
    rewrite length_fmap, length_drop. split_and!; [done|done|f_equal; lia|lia|].
    apply Forall_fmap, Forall_forall. intros p _. apply close_peer_done.
  - assert (Hl : length ps = (2 * (length ps / 2))%nat) by lia. unfold pairs_of.
    destruct (pairs_from ps _ Hl) as (l & E & Hc & _). exists l. cbn [length]. rewrite Nat.sub_0_r, firstn_all. split_and!; done || lia.
Qed.
End chat.

Lemma append_length s t : String.length (s +:+ t) = (String.length s + String.length t)%nat.
Proof. induction s as [|a s IH]; [done|]. change (S (String.length (s +:+ t)) = S (String.length s + String.length t))%nat. by rewrite IH. Qed.

Lemma Repeat_length s n : String.length (Repeat s n) = (n * String.length s)%nat.
Proof. induction n as [|n IH]; cbn; [done|]. by rewrite append_length, IH. Qed.

Lemma substring_0_length n s : String.length (String.substring 0 n s) = Nat.min n (String.length s).
Proof. revert n. induction s as [|a s IH]; intros [|n]; cbn; [done..|]. by rewrite IH. Qed.

(** The payload has the size asked for, and only a negative size panics. *)
Theorem msg_payload_length msgSize :
  match msg_payload msgSize with
  | Some s => 0 ≤ msgSize ∧ Z.of_nat (String.length s) = msgSize
  | None => msgSize < 0
  end.
Proof.
  unfold msg_payload. case_bool_decide as Hneg.
  - destruct Hneg as [H|H]; [|done]. destruct (Z_lt_le_dec msgSize 0); [done|]. pose proof (Z.quot_pos msgSize 8). lia.
  - split; [lia|]. rewrite substring_0_length, Repeat_length. cbn [String.length].
    rewrite Z.quot_div_nonneg by lia. pose proof (Z.div_mod msgSize 8 ltac:(done)). pose proof (Z.mod_pos_bound msgSize 8 ltac:(done)). lia.
Qed.

(** The report of the chat test adds up: of the pairs it ran, those that ended
    cleanly are among those matched; the messages are the sums over the pairs; and
    the average match latency it prints lies between any bounds of the latencies of
    the matched pairs. *)
Theorem chat_report_adds_up (results : list pairResult) lo hi :
  Forall (λ r, endedCleanly r = true → matched r = true) results →
  Forall (λ r, matched r = true → lo ≤ matchLatency r ≤ hi) results → 0 ≤ lo →
  let t := report_of results in
  0 ≤ successfulChats t ≤ matchedPairs t ∧ matchedPairs t ≤ Z.of_nat (length results)
  ∧ totalSent t = foldr Z.add 0 (msgSent <$> results) ∧ totalRecv t = foldr Z.add 0 (msgRecv <$> results)
  ∧ match avg_match t with Some d => lo ≤ d ≤ hi | None => matchedPairs t = 0 end.
Proof.
  intros He Hl Hlo.
  enough (∀ t0, let t := foldl add_result t0 results in
    0 ≤ successfulChats t - successfulChats t0 ≤ matchedPairs t - matchedPairs t0 ≤ Z.of_nat (length results)
    ∧ totalSent t - totalSent t0 = foldr Z.add 0 (msgSent <$> results)
    ∧ totalRecv t - totalRecv t0 = foldr Z.add 0 (msgRecv <$> results)
    ∧ lo * (matchedPairs t - matchedPairs t0) ≤ totalMatchLatency t - totalMatchLatency t0 ≤ hi * (matchedPairs t - matchedPairs t0)) as H.
  { specialize (H (ChatReport 0 0 0 0 0)). cbv zeta in *. fold (report_of results) in H. cbn in H. rewrite !Z.sub_0_r in H.
    destruct H as (H1 & H2 & H3 & H4). split_and!; try done; try lia. unfold avg_match. case_bool_decide as Hp; [|lia].
    rewrite Z.quot_div_nonneg by nia. split; [apply Z.div_le_lower_bound; lia|apply Z.div_le_upper_bound; lia]. }
  induction results as [|r results IH]; intros t0; [cbn; lia|].
  apply Forall_cons_1 in He as [He Hes], Hl as [Hl Hls]. specialize (IH Hes Hls (add_result t0 r)).
  rewrite !fmap_cons. cbn [foldl foldr length] in *. cbv zeta in *. destruct IH as (H1 & H2 & H3 & H4).
  destruct (matched r) eqn:Em, (endedCleanly r) eqn:Ee; cbn in *; rewrite ?Em, ?Ee in *;
    try specialize (Hl eq_refl); try (specialize (He eq_refl); discriminate); split_and!; try lia; nia.
Qed.
