(* ===== verification/ChatTest.v ===== *)
(** * The chat load test, whole

    loadtest/cmd/loadtest/chat.go, runChat: the connection phase, the pairing, all
    the pairs at once on shared counters, the report and the clean-up.  A campaign
    is the state of all pairs; its events interleave theirs. *)

From stdpp Require Import base gmap strings numbers list_basics list_relations list.
From S2P Require Import Prelude GoStd Json Env Keys Protocol App WsServer LoadClient Harness Stats LoadChat PairProofs PairScript Ramp LoadTests.
Open Scope Z_scope.

(** The goroutine of a pair: it waits for its stagger, was told to stop there, or is
    in runPair. *)
Inductive slot (NW : Type) : Type :=
  | Staggered (p1 p2 : peer NW)
  | Skipped (p1 p2 : peer NW)
  | Running (w : world NW).
Arguments Staggered {_}. Arguments Skipped {_}. Arguments Running {_}.

Record campaign (NW : Type) : Type := Campaign { slots : list (slot NW); shared : counters; c_cancelled : bool }.
Arguments Campaign {_}. Arguments slots {_}. Arguments shared {_}. Arguments c_cancelled {_}.

(** [EarlyRead]: the read loop of a client no handler has been registered for.
    [StaggerOver], [StaggerStopped]: the cases of the goroutine's select. *)
Inductive campaign_event : Type :=
  | EarlyRead (i : nat) (c : who) (ev : client_event)
  | StaggerOver (i : nat) (now : Z)
  | StaggerStopped (i : nat)
  | PairStep (i : nat) (ev : event)
  | Interrupt.

(** How the test ends: it panics, it is still running, or it has finished with the
    report of the pairs (if it came to them), the clients it has closed and the
    counters. *)
Record chat_outcome (NW : Type) : Type := ChatOutcome {
  co_report : option chat_report;
  co_clients : list (peer NW);
  co_counters : counters;
  co_interrupted : bool;
}.
Arguments ChatOutcome {_}. Arguments co_report {_}. Arguments co_clients {_}. Arguments co_counters {_}. Arguments co_interrupted {_}.
Inductive chat_end (NW : Type) : Type := Panic | Unfinished | Finished (o : chat_outcome NW).
Arguments Panic {_}. Arguments Unfinished {_}. Arguments Finished {_}.

Section runChat.
Context `{!ClientNet NW}.

Section pairs.
Context (msgPayload : string).
Implicit Types (c : campaign NW).

Definition set_slot (i : nat) (s : slot NW) c : campaign NW := Campaign (<[i := s]> (slots c)) (shared c) (c_cancelled c).

Definition early_read (k : who) (ev : client_event) (p1 p2 : peer NW) : peer NW * peer NW :=
  match k with C1 => ((peer_read ev p1).2, p2) | C2 => (p1, (peer_read ev p2).2) end.

(** The context of a pair is done when that of the test is. *)
Definition interrupt (s : slot NW) : slot NW :=
  match s with Running w => Running (set_expired (expire KCtx (expired w)) w) | _ => s end.

Definition campaign_step (ev : campaign_event) (c : campaign NW) : option (campaign NW) :=
  match ev with
  | EarlyRead i k ev =>
      s ← slots c !! i;
      match s with
      | Staggered p1 p2 => let '(p1, p2) := early_read k ev p1 p2 in Some (set_slot i (Staggered p1 p2) c)
      | Skipped p1 p2 => let '(p1, p2) := early_read k ev p1 p2 in Some (set_slot i (Skipped p1 p2) c)
      | Running _ => None
      end
  | StaggerOver i now =>
      s ← slots c !! i;
      match s with
      | Staggered p1 p2 => Some (set_slot i (Running (runPair p1 p2 (shared c) (c_cancelled c) now)) c)
      | _ => None
      end
  | StaggerStopped i =>
      s ← slots c !! i;
      match s with
      | Staggered p1 p2 => if c_cancelled c then Some (set_slot i (Skipped p1 p2) c) else None
      | _ => None
      end
  | PairStep _ (Expire KCtx) => None
  | PairStep i ev =>
      s ← slots c !! i;
      match s with
      | Running w =>
          w' ← step msgPayload ev (set_cnt (shared c) w);
          Some (Campaign (<[i := Running w']> (slots c)) (cnt w') (c_cancelled c))
      | _ => None
      end
  | Interrupt => Some (Campaign (interrupt <$> slots c) (shared c) true)
  end.

Definition campaign_run (evs : list campaign_event) (c : campaign NW) : campaign NW :=
  foldl (λ c ev, default c (campaign_step ev c)) c evs.

Definition new_campaign (pairs : list (peer NW * peer NW)) (c : Collector) (ctxDone : bool) : campaign NW :=
  Campaign ((λ '(p1, p2), Staggered p1 p2) <$> pairs) (Counters 0 0 0 0 0 c) ctxDone.

Definition slot_done (s : slot NW) : bool :=
  match s with Staggered _ _ => false | Skipped _ _ => true | Running w => bool_decide (pc w = PReturned) end.
Definition slot_result (s : slot NW) : pairResult := match s with Running w => result w | _ => zeroResult end.
Definition slot_peers (s : slot NW) : list (peer NW) :=
  match s with Staggered p1 p2 | Skipped p1 p2 => [p1; p2] | Running w => [sd_peer (side1 w); sd_peer (side2 w)] end.
End pairs.

(** [pairs], [rampUp], [msgSize] and [concurrency] are the options of the command
    line; a test cancelled in its first phase is not run further. *)
Definition runChat (pairs rampUp msgSize concurrency : Z) (now : Z)
    (ramp_evs : list (ramp_event NW)) (evs : list campaign_event) : chat_end NW :=
  let totalClients := pairs * 2 in
  let quit c := Counters 0 0 0 0 0 c in
  if bool_decide (totalClients < 0) then Panic
  else if bool_decide (ramp_interval rampUp totalClients = None) then Panic
  else if bool_decide (concurrency < 0) then Panic
  else
    let r := ramp_run totalClients (Z.to_nat concurrency) ramp_evs (ramp_start (NewCollector now)) in
    match r_pc r with
    | RampDone =>
        if interrupted r then Finished (ChatOutcome None (cleanup (clients r) ++ refused r) (quit (r_collector r)) true)
        else
          let '(even, extra) := even_clients (clients r) in
          if bool_decide (length even / 2 = 0)%nat
          then Finished (ChatOutcome None (cleanup even ++ extra ++ refused r) (quit (r_collector r)) (cancelled r))
          else
            match msg_payload msgSize, pairs_of even with
            | Some payload, Some ps =>
                let c := campaign_run payload evs (new_campaign ps (r_collector r) (cancelled r)) in
                if forallb slot_done (slots c)
                then Finished (ChatOutcome (Some (report_of (slot_result <$> slots c)))
                       (cleanup (concat (slot_peers <$> slots c)) ++ extra ++ refused r) (shared c) (c_cancelled c))
                else Unfinished
            | _, _ => Panic
            end
    | _ => Unfinished
    end.
End runChat.

(** ** Pairs do not see each other

    The counters are only ever added to, so a pair behaves the same on any. *)

Definition meters : list (counters → Z) :=
  [totalMsgSent; totalMsgRecv; activePairCount; completedPairs; errorCount; λ k, errors (collector k)].
Definition same_change (c c' k k' : counters) : Prop := Forall (λ f, f c' - f c = f k' - f k) meters.

Lemma same_change_refl c k : same_change c c k k.
Proof. unfold same_change, meters. repeat constructor; lia. Qed.

Section frame.
Context `{!ClientNet NW, !ClientNetLaws NW}.
Context (msgPayload : string).
Implicit Types (w : world NW) (k : counters).

(** From [w] to [w'], whatever the counters. *)
Definition frames (f : world NW → option (world NW)) w w' : Prop :=
  ∀ k, ∃ k', f (set_cnt k w) = Some (set_cnt k' w') ∧ same_change (cnt w) (cnt w') k k'.

Lemma sd_cnt i k w : sd i (set_cnt k w) = sd i w.
Proof. by destruct i. Qed.
Lemma upd_cnt i f k w : upd i f (set_cnt k w) = set_cnt k (upd i f w).
Proof. by destruct i. Qed.

Lemma send_frame i msg k w : send i msg (set_cnt k w) = (let '(e, w') := send i msg w in (e, set_cnt k w')).
Proof. unfold send. destruct i; cbn; by destruct (on_client _ _). Qed.

Ltac frame_tac :=
  eexists; split; [reflexivity|];
  unfold same_change, meters; cbn; repeat constructor; cbn; lia.

Lemma send_or_fail_frame i msg next w : frames (λ w, Some (send_or_fail i msg next w)) w (send_or_fail i msg next w).
Proof.
  intros k. unfold send_or_fail. rewrite send_frame. destruct (send i msg w) as [err w1] eqn:E.
  apply send_spec in E as (p & -> & _). unfold fail, return_. destruct err, i; cbn; [..|frame_tac|frame_tac].
  all: destruct (in_chat (pc w)); frame_tac.
Qed.

Lemma main_frame pick w w' : main_step pick w = Some w' → frames (main_step pick) w w'.
Proof.
  intros H k. unfold main_step in *. cbn [pc set_cnt].
  destruct (pc w) as [[|[i type] todo]|[]|i|[]|i| | | |] eqn:Epc.
  3,4,6,7,10: injection H as <-; apply send_or_fail_frame.
  all: split_step H; try destruct i; cbn in *;
    repeat match goal with E : _ = _ |- _ => rewrite E end;
    unfold fail, return_, start_chat; cbn; rewrite ?Epc; cbn; frame_tac.
Qed.

Lemma same_change_trans c c' c'' k k' k'' : same_change c c' k k' → same_change c' c'' k' k'' → same_change c c'' k k''.
Proof. unfold same_change. rewrite !Forall_forall. intros H1 H2 f Hf. specialize (H1 f Hf). specialize (H2 f Hf). lia. Qed.

Lemma handle_frame i frame w : frames (λ w, Some (handle i frame w)) w (handle i frame w).
Proof. intros k. destruct frame as [type raw]. unfold handle. repeat case_match; destruct i; frame_tac. Qed.

Lemma on_frame_frame i ev w : frames (λ w, Some (on_frame i ev w)) w (on_frame i ev w).
Proof.
  intros k. unfold on_frame. rewrite sd_cnt.
  destruct (peer_read ev (sd_peer (sd i w))) as [frames p].
  rewrite upd_cnt.
  assert (cnt w = cnt (upd i (set_peer p) w)) as -> by (by destruct i).
  generalize (upd i (set_peer p) w). clear w. revert k. induction frames as [|f frames IH]; intros k w; cbn [foldl].
  { exists k. split; [done|apply same_change_refl]. }
  destruct (handle_frame i f w k) as (k1 & E1 & H1). injection E1 as ->.
  destruct (IH k1 (handle i f w)) as (k2 & E2 & H2). exists k2. split; [done|]. by eapply same_change_trans.
Qed.

Lemma step_frame ev w w' : step msgPayload ev w = Some w' → frames (step msgPayload ev) w w'.
Proof.
  intros H. destruct ev as [pick|i stop|i stop|k|i ev|i|d]; cbn [step] in *.
  - by apply main_frame.
  - intros k. cbn [step]. unfold sender_step in *.
    rewrite sd_cnt.
    destruct (sender (sd i w)) eqn:Es; try discriminate H; split_step H; try (destruct i; frame_tac).
    { change (expired (set_cnt k w)) with (expired w). rewrite Heqb0. destruct i; frame_tac. }
    all: change (clock (set_cnt k w)) with (clock w); rewrite !upd_cnt, sd_cnt, send_frame;
      match goal with E : send _ _ _ = _ |- _ => rewrite E; apply send_spec in E as (p & -> & Hp) end;
      destruct i; frame_tac.
  - intros k. cbn [step]. unfold receiver_step in *.
    rewrite sd_cnt.
    destruct (receiver (sd i w)) eqn:Es; try discriminate H; split_step H; try (destruct i; frame_tac).
    change (expired (set_cnt k w)) with (expired w). rewrite Heqb0. destruct i; frame_tac.
  - intros k'. cbn [step]. unfold expire_step in *. change (expired (set_cnt k' w)) with (expired w).
    change (pc (set_cnt k' w)) with (pc w). split_step H. frame_tac.
  - injection H as <-. apply on_frame_frame.
  - intros k. cbn [step]. unfold tick_step in *. rewrite sd_cnt.
    split_step H; destruct i; frame_tac.
  - intros k. cbn [step]. split_step H. frame_tac.
Qed.
End frame.

(** ** Every pair runs as if alone *)

Definition total (f : counters → Z) (ks : list counters) : Z := foldr Z.add 0 (f <$> ks).

Lemma total_insert f ks i k k' : ks !! i = Some k → total f (<[i := k']> ks) = total f ks - f k + f k'.
Proof.
  unfold total. revert i. induction ks as [|k0 ks IH]; intros [|i] Hi; try done; cbn in *.
  - injection Hi as ->. lia.
  - rewrite IH by done. lia.
Qed.

Section campaign.
Context `{!ClientNet NW, !ClientNetLaws NW}.
Context (msgPayload : string) (c0 : Collector).

Definition k0 : counters := Counters 0 0 0 0 0 (NewCollector 0).

(** The share of a pair in the counters: those of a run of its own. *)
Definition alone (s : slot NW) (k : counters) : Prop :=
  match s with
  | Running w => ∃ p1 p2 b now evs, set_cnt k w = run msgPayload evs (runPair p1 p2 k0 b now)
  | _ => k = k0
  end.

Definition skipped (s : slot NW) : bool := match s with Skipped _ _ => true | _ => false end.

(** The shared counters are the sums of the shares, and only an interrupted test
    skips a pair. *)
Definition composed (c : campaign NW) : Prop :=
  (∃ ks, Forall2 alone (slots c) ks ∧ Forall (λ f, f (shared c) = f (Counters 0 0 0 0 0 c0) + total f ks) meters)
  ∧ (c_cancelled c = false → Forall (λ s, skipped s = false) (slots c)).

Lemma run_snoc evs ev w w' : step msgPayload ev (run msgPayload evs w) = Some w' → run msgPayload (evs ++ [ev]) w = w'.
Proof. unfold run. rewrite foldl_app. cbn. by intros ->. Qed.

Lemma interrupt_alone s k : alone s k → alone (interrupt s) k.
Proof.
  destruct s as [| |w]; [done..|]. intros (p1 & p2 & b & now & evs & E). cbn.
  destruct (xCtx (expired w)) eqn:Hx.
  - exists p1, p2, b, now, evs. rewrite <-E. unfold set_expired, set_cnt. cbn. f_equal.
    destruct (expired w); cbn in *. by subst.
  - exists p1, p2, b, now, (evs ++ [Expire KCtx]). symmetry. apply run_snoc. rewrite <-E. cbn.
    unfold expire_step, ctx_done. cbn. by rewrite Hx.
Qed.

Lemma composed_slot i s s' c :
  composed c → slots c !! i = Some s → (∀ k, alone s k → alone s' k) →
  (c_cancelled c = false → skipped s' = false) → composed (set_slot i s' c).
Proof.
  intros [(ks & Hks & Hm) Hsk] Hi Ha Hs'. split.
  - exists ks. split; [|done]. destruct (Forall2_lookup_l _ _ _ _ _ Hks Hi) as (k & Hk & Hal).
    rewrite <-(list_insert_id ks i k) by done. cbn. apply Forall2_insert; auto.
  - cbn. intros Hc. apply Forall_insert; auto.
Qed.

Lemma composed_step ev c c' : composed c → campaign_step msgPayload ev c = Some c' → composed c'.
Proof.
  intros Hc H. destruct ev as [i k ev|i now|i|i ev|]; cbn [campaign_step] in H.
  1-3: destruct (slots c !! i) as [[p1 p2|p1 p2|w]|] eqn:Hi; cbn in H; try discriminate H.
  - destruct (early_read k ev p1 p2). injection H as <-. by eapply composed_slot.
  - destruct (early_read k ev p1 p2). injection H as <-. eapply composed_slot; [done|done|done|].
    intros Hn. destruct Hc as [_ Hsk]. exact (Forall_lookup_1 _ _ _ _ (Hsk Hn) Hi).
  - injection H as <-. eapply composed_slot; [done|done| |done]. intros k ->.
    by exists p1, p2, (c_cancelled c), now, [].
  - destruct (c_cancelled c) eqn:E; [|done]. injection H as <-. eapply composed_slot; [done|done|done|]. congruence.
  - assert (∃ w w', slots c !! i = Some (Running w) ∧ step msgPayload ev (set_cnt (shared c) w) = Some w'
      ∧ c' = Campaign (<[i := Running w']> (slots c)) (cnt w') (c_cancelled c)) as (w & w' & Hi & Hst & ->).
    { destruct ev as [| | |[]| | |]; try discriminate H;
        destruct (slots c !! i) as [[| |w]|]; cbn [mbind option_bind] in H; try discriminate H;
        (destruct (step msgPayload _ _) as [w'|] eqn:E; cbn [mbind option_bind] in H; [|discriminate H]);
        injection H as <-; eauto. }
    destruct Hc as [(ks & Hks & Hm) Hsk].
    destruct (Forall2_lookup_l _ _ _ _ _ Hks Hi) as (k & Hk & p1 & p2 & b & now & evs & E).
    destruct (step_frame _ _ _ _ Hst k) as (k' & E' & Hch). split.
    + exists (<[i := k']> ks). split.
      * apply Forall2_insert; [done|]. exists p1, p2, b, now, (evs ++ [ev]). symmetry. apply run_snoc. by rewrite <-E.
      * cbn [shared]. unfold same_change in Hch. rewrite Forall_forall in *. intros f Hf.
        rewrite (total_insert _ _ _ _ _ Hk). specialize (Hm f Hf). specialize (Hch f Hf). cbn in Hch. lia.
    + cbn. intros Hn. by apply Forall_insert; auto.
  - injection H as <-. destruct Hc as [(ks & Hks & Hm) _]. split; [|done]. exists ks. split; [|done]. cbn.
    apply Forall2_fmap_l. eapply Forall2_impl; [done|]. intros. by apply interrupt_alone.
Qed.

Lemma composed_run evs ps b : composed (campaign_run msgPayload evs (new_campaign ps c0 b)).
Proof.
  unfold campaign_run.
  assert (composed (new_campaign ps c0 b)) as H0.
  { split.
    - exists (replicate (length ps) k0). cbn. split.
      + induction ps as [|[p1 p2] ps IH]; [constructor|]. cbn. by constructor.
      + unfold meters. repeat constructor; cbn; unfold total; (induction (length ps); cbn; lia).
    - cbn. intros _. apply Forall_fmap, Forall_forall. by intros [p1 p2] _. }
  revert H0. generalize (new_campaign ps c0 b). induction evs as [|ev evs IH]; intros c Hc; [done|]. cbn [foldl].
  apply IH. destruct (campaign_step msgPayload ev c) eqn:E; [by eapply composed_step|done].
Qed.

(** What a pair that is over has added, by its result. *)
Definition ran (s : slot NW) : Z := b2z (negb (skipped s)).

Lemma slot_share s k : alone s k → slot_done s = true →
  let r := slot_result s in
  activePairCount k = 0 ∧ completedPairs k = ran s ∧ errorCount k = errors (collector k) ∧ 0 ≤ errorCount k
  ∧ 0 ≤ b2z (endedCleanly r) ≤ ran s ∧ ran s - b2z (endedCleanly r) ≤ errorCount k
  ∧ msgSent r ≤ totalMsgSent k ∧ msgRecv r ≤ totalMsgRecv k.
Proof.
  destruct s as [p1 p2|p1 p2|w]; cbn [alone slot_done slot_result]; [done|by intros -> _; cbn; lia|].
  intros (p1 & p2 & b & now & evs & E) Hpc%bool_decide_eq_true_1.
  pose proof (run_account msgPayload k0 p1 p2 b now evs) as Ha. pose proof (run_tally msgPayload k0 p1 p2 b now evs) as Ht.
  rewrite <-E in Ha, Ht. apply tally_bound in Ht. destruct Ha as (H1 & H2 & H3 & H4 & H5 & H6).
  cbn in *. rewrite Hpc in *. cbn in *. unfold ran. cbn [skipped negb].
  destruct (endedCleanly (result w)); cbn in *; lia.
Qed.

Lemma report_sums rs :
  successfulChats (report_of rs) = foldr Z.add 0 ((λ r, b2z (endedCleanly r)) <$> rs)
  ∧ totalSent (report_of rs) = foldr Z.add 0 (msgSent <$> rs) ∧ totalRecv (report_of rs) = foldr Z.add 0 (msgRecv <$> rs).
Proof.
  unfold report_of.
  enough (∀ t, let t' := foldl add_result t rs in
    successfulChats t' = successfulChats t + foldr Z.add 0 ((λ r, b2z (endedCleanly r)) <$> rs)
    ∧ totalSent t' = totalSent t + foldr Z.add 0 (msgSent <$> rs) ∧ totalRecv t' = totalRecv t + foldr Z.add 0 (msgRecv <$> rs)) as H
    by apply (H (ChatReport 0 0 0 0 0)).
  induction rs as [|r rs IH]; intros t; [cbn; lia|]. rewrite !fmap_cons. cbn [foldl foldr].
  destruct (IH (add_result t r)) as (-> & -> & ->). cbn. destruct (endedCleanly r); cbn; lia.
Qed.

Lemma total_cons f k ks : total f (k :: ks) = f k + total f ks.
Proof. done. Qed.

(** The counters of a campaign that is over, against its report. *)
Lemma campaign_over c : composed c → forallb slot_done (slots c) = true →
  let t := report_of (slot_result <$> slots c) in
  let k := shared c in
  activePairCount k = 0 ∧ errorCount k = errors (collector k) - errors c0
  ∧ 0 ≤ successfulChats t ≤ completedPairs k ∧ completedPairs k - successfulChats t ≤ errorCount k
  ∧ totalSent t ≤ totalMsgSent k ∧ totalRecv t ≤ totalMsgRecv k
  ∧ (c_cancelled c = false → completedPairs k = Z.of_nat (length (slots c))).
Proof.
  intros [(ks & Hks & Hm) Hsk] Hd. cbv zeta. destruct (report_sums (slot_result <$> slots c)) as (-> & -> & ->).
  unfold meters in Hm. repeat (apply Forall_cons_1 in Hm as [? Hm]). cbn in *. clear Hm.
  enough (let rs := slot_result <$> slots c in let e := foldr Z.add 0 ((λ r, b2z (endedCleanly r)) <$> rs) in
    total activePairCount ks = 0 ∧ total errorCount ks = total (λ k, errors (collector k)) ks
    ∧ 0 ≤ e ≤ total completedPairs ks ∧ total completedPairs ks - e ≤ total errorCount ks
    ∧ foldr Z.add 0 (msgSent <$> rs) ≤ total totalMsgSent ks ∧ foldr Z.add 0 (msgRecv <$> rs) ≤ total totalMsgRecv ks
    ∧ (Forall (λ s, skipped s = false) (slots c) → total completedPairs ks = Z.of_nat (length (slots c)))) as Hs.
  { cbv zeta in Hs. destruct Hs as (S1 & S2 & S3 & S4 & S5 & S6 & S7). split_and!; try lia. intros Hc. specialize (S7 (Hsk Hc)). lia. }
  clear -ClientNetLaws0 Hks Hd. cbv zeta. induction Hks as [|s k l ks Hs _ IH]; [cbn; unfold total; cbn; lia|].
  cbn [forallb] in Hd. apply andb_true_iff in Hd as [Hd Hds]. specialize (IH Hds) as (I1 & I2 & I3 & I4 & I5 & I6 & I7).
  destruct (slot_share s k Hs Hd) as (J1 & J2 & J3 & J4 & J5 & J6 & J7 & J8).
  rewrite !fmap_cons, !total_cons. cbn [foldr length]. split_and!; try lia.
  intros [Hn Hns]%Forall_cons_1. specialize (I7 Hns). unfold ran in J2. rewrite Hn in J2. cbn in J2. lia.
Qed.
End campaign.

(** ** The whole test *)

Section whole.
Context `{!ClientNet NW, !ClientNetLaws NW}.

(** The number of pairs made of the clients. *)
Lemma even_length (ps : list (peer NW)) : let '(even, _) := even_clients ps in
  (length even = 2 * (length ps / 2) ∧ length even / 2 = length ps / 2)%nat.
Proof.
  unfold even_clients. pose proof (Nat.div_mod (length ps) 2 ltac:(done)).
  pose proof (Nat.mod_upper_bound (length ps) 2 ltac:(done)).
  assert (∀ n, length ps / 2 = n → (2 * n) / 2 = n)%nat as Hh by (intros n _; rewrite Nat.mul_comm; by apply Nat.div_mul).
  case_bool_decide; rewrite ?length_take.
  - assert (length ps - 1 = 2 * (length ps / 2))%nat as E by lia. rewrite Nat.min_l, E by lia. split; [done|]. by apply Hh.
  - lia.
Qed.

Lemma campaign_length payload evs (c : campaign NW) : length (slots (campaign_run payload evs c)) = length (slots c).
Proof.
  unfold campaign_run. revert c. induction evs as [|ev evs IH]; intros c; [done|]. cbn [foldl]. rewrite IH.
  destruct (campaign_step payload ev c) as [c'|] eqn:H; [|done]. cbn [default]. destruct ev as [i k ev|i now|i|i ev|]; cbn [campaign_step] in H.
  4: destruct ev as [| | |[]| | |]; try discriminate H.
  all: try (injection H as <-; cbn; by rewrite length_fmap).
  all: destruct (slots c !! i) as [[]|]; cbn [mbind option_bind] in H; try discriminate H;
    repeat match type of H with
    | context [early_read ?a ?b ?c ?d] => destruct (early_read a b c d)
    | context [c_cancelled ?c] => destruct (c_cancelled c)
    | context [step ?m ?e ?w] => destruct (step m e w); cbn [mbind option_bind] in H
    end; try discriminate H; injection H as <-; cbn; by rewrite length_insert.
Qed.

End whole.

(** ** A run on sockets in memory: four clients, of which three connect *)

Definition session_event : client_event := EvText (Some (JObj [("session_id", JStr "session-1"); ("type", JStr "session_created")])).
Definition connect_script (i : nat) : list (ramp_event (Z * list json)) :=
  [Tick; Acquire; Dialled i (Ok (0, [], 5)); Arrives i session_event; Turn i WaitTick false].
Definition two_pairs : list (ramp_event (Z * list json)) :=
  concat (connect_script <$> [0%nat; 1%nat; 2%nat]) ++ [Tick; Acquire; Dialled 3 (Err "refused"); Exit; Joined].
Definition one_chat : list campaign_event := StaggerOver 0 100 :: (PairStep 0 <$> racy_schedule).

Abbreviation two_pairs_end := (runChat 2 4000000 8 3 0 two_pairs one_chat).

Example two_pairs_finish :
  match two_pairs_end with
  | Finished o =>
      length (co_clients o) = 3%nat ∧ successfulChats <$> co_report o = Some 1 ∧ errors (collector (co_counters o)) = 1
      ∧ co_interrupted o = false
  | _ => False
  end.
Proof. vm_compute. done. Qed.

