(* ===== verification/MatchTest.v ===== *)
(** * The matching load test

    loadtest/cmd/loadtest/match.go after its connection phase: every client looks
    for a match, its read loop accepts what it is offered, and a goroutine per
    client waits for both answers or a timeout.  A list of events is an interleaving
    of the main loop, these goroutines, the read loops and the timers. *)

From stdpp Require Import base gmap strings numbers list_basics list_relations list.
From S2P Require Import Prelude GoStd Json Env Keys Utf8 Filter Protocol App WsServer LoadClient Harness Stats Ramp LoadTests.
Open Scope Z_scope.

(** ** The interest tags of the command line *)

Definition interest_tags (interests : string) : list string :=
  if bool_decide (interests = "") then []
  else filter (λ tag, tag ≠ "") (TrimSpace <$> Split interests comma).

(** ** The state *)

(** The goroutine of a client: not started, waiting for match_found, waiting for
    match_accepted, returned. *)
Inductive wait_pc : Type := WIdle | WFound | WAccepted | WDone.
#[export] Instance wait_pc_eq_dec : EqDecision wait_pc.
Proof. solve_decision. Defined.

(** [matchDone], [acceptDone]: the channel is closed; [timer]: the timeout has fired. *)
Record mclient (NW : Type) : Type := MClient {
  mc_peer : peer NW;
  matchDone : bool;
  acceptDone : bool;
  mc_pc : wait_pc;
  timer : bool;
}.
Arguments MClient {_}. Arguments mc_peer {_}. Arguments matchDone {_}. Arguments acceptDone {_}.
Arguments mc_pc {_}. Arguments timer {_}.

(** [next], [sending]: the main loop is at this client, with its handlers
    registered and find_match still to send.  [crashed]: a closed channel has been
    closed again. *)
Record mworld (NW : Type) : Type := MWorld {
  mclients : list (mclient NW);
  next : nat;
  sending : bool;
  matchedCount : Z;
  acceptedCount : Z;
  mcollector : Collector;
  mcancelled : bool;
  crashed : bool;
  mclock : Z;
  mstart : Z;
}.
Arguments MWorld {_}. Arguments mclients {_}. Arguments next {_}. Arguments sending {_}. Arguments matchedCount {_}.
Arguments acceptedCount {_}. Arguments mcollector {_}. Arguments mcancelled {_}. Arguments crashed {_}.
Arguments mclock {_}. Arguments mstart {_}.

Inductive wait_on : Type := OnChannel | OnTimer | OnCtx.

Inductive match_event : Type :=
  | MMain
  | MGo (i : nat) (k : wait_on)
  | MTimer (i : nat)
  | MSignal
  | MFrame (i : nat) (ev : client_event)
  | MClock (d : Z).

Section runMatch.
Context `{!ClientNet NW}.
Context (interestTags : list string).
Implicit Types (w : mworld NW) (c : mclient NW).

Definition set_mpeer p c : mclient NW := MClient p (matchDone c) (acceptDone c) (mc_pc c) (timer c).
Definition set_mpc x c : mclient NW := MClient (mc_peer c) (matchDone c) (acceptDone c) x (timer c).
Definition set_timer c : mclient NW := MClient (mc_peer c) (matchDone c) (acceptDone c) (mc_pc c) true.
Definition close_match c : mclient NW := MClient (mc_peer c) true (acceptDone c) (mc_pc c) (timer c).
Definition close_accept c : mclient NW := MClient (mc_peer c) (matchDone c) true (mc_pc c) (timer c).

Definition set_mclient (i : nat) c w : mworld NW :=
  MWorld (<[i := c]> (mclients w)) (next w) (sending w) (matchedCount w) (acceptedCount w) (mcollector w)
    (mcancelled w) (crashed w) (mclock w) (mstart w).
Definition set_mcollector x w : mworld NW :=
  MWorld (mclients w) (next w) (sending w) (matchedCount w) (acceptedCount w) x (mcancelled w) (crashed w) (mclock w) (mstart w).
Definition crash w : mworld NW :=
  MWorld (mclients w) (next w) (sending w) (matchedCount w) (acceptedCount w) (mcollector w) (mcancelled w) true (mclock w) (mstart w).
Definition set_next (n : nat) (s : bool) w : mworld NW :=
  MWorld (mclients w) n s (matchedCount w) (acceptedCount w) (mcollector w) (mcancelled w) (crashed w) (mclock w) (mstart w).

(** The match_found handler: its client accepts the chat it is offered, and what
    [Send] returns is not looked at. *)
Definition on_match_found (i : nat) (raw : json) c w : mworld NW :=
  let w := MWorld (mclients w) (next w) (sending w) (matchedCount w + 1) (acceptedCount w)
    (AddMsgLatency (mclock w - mstart w) (mcollector w)) (mcancelled w) (crashed w) (mclock w) (mstart w) in
  let c :=
    match chat_id_of raw with
    | Some id => set_mpeer (on_client (Send (accept_match_msg id)) (mc_peer c)).2 c
    | None => c
    end in
  if matchDone c then crash (set_mclient i c w) else set_mclient i (close_match c) w.

Definition on_match_accepted (i : nat) c w : mworld NW :=
  let w := MWorld (mclients w) (next w) (sending w) (matchedCount w) (acceptedCount w + 1) (mcollector w)
    (mcancelled w) (crashed w) (mclock w) (mstart w) in
  if acceptDone c then crash w else set_mclient i (close_accept c) w.

(** The read loop hands the frame, if it is one of these, to its handler. *)
Definition mhandle (i : nat) (w : mworld NW) (frame : string * json) : mworld NW :=
  match mclients w !! i with
  | None => w
  | Some c =>
      let '(type, raw) := frame in
      if bool_decide (type = TypeMatchFound) then on_match_found i raw c w
      else if bool_decide (type = TypeMatchAccepted) then on_match_accepted i c w
      else w
  end.

(** One turn of the loop over the clients: the handlers and the goroutine, then
    find_match. *)
Definition main_turn (w : mworld NW) : option (mworld NW) :=
  c ← mclients w !! next w;
  if sending w then
    let '(err, p) := on_client (Send (find_match_msg interestTags)) (mc_peer c) in
    let w := set_next (S (next w)) false (set_mclient (next w) (set_mpeer p c) w) in
    Some (match err with Some _ => set_mcollector (AddError (mcollector w)) w | None => w end)
  else
    let p := (on_client (On TypeMatchAccepted) (on_client (On TypeMatchFound) (mc_peer c)).2).2 in
    Some (set_next (next w) true (set_mclient (next w) (set_mpc WFound (set_mpeer p c)) w)).

(** The goroutine of a client, by the case its select takes. *)
Definition go_turn (i : nat) (k : wait_on) (w : mworld NW) : option (mworld NW) :=
  c ← mclients w !! i;
  let time_out := if timer c then Some (set_mcollector (AddError (mcollector w)) (set_mclient i (set_mpc WDone c) w)) else None in
  let stop := if mcancelled w then Some (set_mclient i (set_mpc WDone c) w) else None in
  match mc_pc c, k with
  | (WFound | WAccepted), OnTimer => time_out
  | (WFound | WAccepted), OnCtx => stop
  | WFound, OnChannel => if matchDone c then Some (set_mclient i (set_mpc WAccepted c) w) else None
  | WAccepted, OnChannel => if acceptDone c then Some (set_mclient i (set_mpc WDone c) w) else None
  | (WIdle | WDone), _ => None
  end.

Definition match_step (ev : match_event) (w : mworld NW) : option (mworld NW) :=
  if crashed w then None
  else
    match ev with
    | MMain => main_turn w
    | MGo i k => go_turn i k w
    | MTimer i =>
        c ← mclients w !! i;
        match mc_pc c with
        | WIdle | WDone => None
        | _ => Some (set_mclient i (set_timer c) w)
        end
    | MSignal => Some (MWorld (mclients w) (next w) (sending w) (matchedCount w) (acceptedCount w) (mcollector w) true
                         (crashed w) (mclock w) (mstart w))
    | MFrame i ev =>
        c ← mclients w !! i;
        let '(frames, p) := peer_read ev (mc_peer c) in
        Some (foldl (mhandle i) (set_mclient i (set_mpeer p c) w) frames)
    | MClock d =>
        if bool_decide (0 ≤ d)
        then Some (MWorld (mclients w) (next w) (sending w) (matchedCount w) (acceptedCount w) (mcollector w) (mcancelled w)
                     (crashed w) (mclock w + d) (mstart w))
        else None
    end.

Definition match_run (evs : list match_event) (w : mworld NW) : mworld NW := foldl (λ w ev, default w (match_step ev w)) w evs.

Definition new_mclient (p : peer NW) : mclient NW := MClient p false false WIdle false.
Definition runMatch (clients : list (peer NW)) (c : Collector) (now : Z) (ctxDone : bool) : mworld NW :=
  MWorld (new_mclient <$> clients) 0 false 0 0 c ctxDone false now now.

Definition successfulPairs (w : mworld NW) : Z := Z.quot (acceptedCount w) 2.
End runMatch.

(** ** The tags *)

(** Tags that are trimmed, not empty and free of commas survive the command
    line: joined by commas and parsed they come back as they were. *)
Theorem interest_tags_roundtrip tags :
  Forall (λ t, t ≠ "" ∧ has_byte comma t = false ∧ TrimSpace t = t) tags →
  interest_tags (Join tags ",") = tags.
Proof.
  intros H. unfold interest_tags. case_bool_decide as He.
  - apply (Join_empty tags comma) in He as [->| ->]; [done|]. by apply Forall_singleton in H as [? _].
  - rewrite Split_Join.
    + clear He. induction H as [|t tags (Hne & _ & Ht) H IH]; [done|]. rewrite fmap_cons, Ht, filter_cons_True by done. by rewrite IH.
    + by intros ->.
    + eapply Forall_impl; [exact H|]. by intros t (_ & ? & _).
Qed.

Lemma interest_tags_roundtrip_witness : interest_tags (Join ["music"; "sci fi"] ",") = ["music"; "sci fi"].
Proof. apply interest_tags_roundtrip. repeat constructor; by vm_compute. Defined.

(** ** What the test counts *)

Section counts.
Context `{!ClientNet NW, !ClientNetLaws NW}.
Context (interestTags : list string) (c0 : Collector).
Implicit Types (w : mworld NW) (c : mclient NW).

Definition count (f : mclient NW → bool) (l : list (mclient NW)) : Z := Z.of_nat (length (filter (λ c, f c = true) l)).
Definition b2n (b : bool) : Z := if b then 1 else 0.

Lemma b2n_bounds b : 0 ≤ b2n b ≤ 1.
Proof. destruct b; cbn; lia. Qed.

Lemma count_insert f i c c' l :
  l !! i = Some c → count f (<[i := c']> l) = count f l - b2n (f c) + b2n (f c').
Proof.
  intros Hi. unfold count. pose proof (filter_insert_length (λ c, f c = true) i c c' l Hi) as H.
  destruct (f c) eqn:E, (f c') eqn:E'; cbn in H; repeat case_decide; cbn; try lia; congruence.
Qed.

Lemma count_le f l : 0 ≤ count f l ≤ Z.of_nat (length l).
Proof. unfold count. pose proof (length_filter (λ c, f c = true) l). lia. Qed.

Lemma count_new f ps : (∀ p, f (new_mclient p) = false) → count f (new_mclient <$> ps) = 0.
Proof.
  intros Hf. unfold count. induction ps as [|p ps IH]; [done|]. rewrite fmap_cons, filter_cons_False; [exact IH|]. by rewrite Hf.
Qed.

Definition finished c : bool := match mc_pc c with WDone => true | _ => false end.
Definition started c : bool := match mc_pc c with WIdle => false | _ => true end.
(** Returned without an answer. *)
Definition unanswered c : bool := finished c && negb (acceptDone c).

(** The world, as far as it is counted: [e] errors since the start, [m] and [a] the
    two counters, [x] the main loop's position. *)
Definition tallied w : Prop :=
  let l := mclients w in
  let e := errors (mcollector w) - errors c0 in
  crashed w = false →
  matchedCount w = count matchDone l ∧ acceptedCount w = count acceptDone l
  ∧ (mcancelled w = false → count unanswered l ≤ e)
  ∧ 0 ≤ e ≤ Z.of_nat (next w) + count finished l
  ∧ (next w ≤ length l)%nat ∧ (sending w = true → (next w < length l)%nat)
  ∧ Forall (λ c, mc_pc c = WAccepted → matchDone c = true) l
  ∧ (∀ j c, l !! j = Some c → (next w + (if sending w then 1 else 0) ≤ j)%nat → mc_pc c = WIdle).

Lemma tallied_set i c c' w :
  tallied w → mclients w !! i = Some c →
  matchDone c' = matchDone c → acceptDone c' = acceptDone c → mc_pc c' = mc_pc c →
  tallied (set_mclient i c' w).
Proof.
  intros Hw Hi E1 E2 E3 Hc. specialize (Hw Hc) as (H1 & H2 & H3 & H4 & H5 & H6 & H7 & H8). cbn.
  assert (Ef : finished c' = finished c) by (unfold finished; by rewrite E3).
  assert (Eu : unanswered c' = unanswered c) by (unfold unanswered; by rewrite Ef, E2).
  rewrite !(count_insert _ i c c') by done. rewrite E1, E2, Eu, Ef, length_insert.
  split_and!; try done; try lia; [intros Hn; specialize (H3 Hn); lia| |].
  - apply Forall_insert; [done|]. rewrite E1, E3. by eapply Forall_lookup_1 in H7.
  - intros j d [(<- & <- & _)|[_ Hj]]%list_lookup_insert_Some; [rewrite E3|]; by apply H8.
Qed.

(** A client moves on in its goroutine, and [d] errors are counted. *)
Lemma tallied_go i c p d w :
  tallied w → crashed w = false → mclients w !! i = Some c → mc_pc c ≠ WIdle → mc_pc c ≠ WDone →
  (p = WAccepted → matchDone c = true) →
  (d = 0 ∨ d = 1 ∧ p = WDone) → (p = WDone → d = 1 ∨ acceptDone c = true ∨ mcancelled w = true) →
  ∀ k, errors k = errors (mcollector w) + d → tallied (set_mcollector k (set_mclient i (set_mpc p c) w)).
Proof.
  intros Hw Hc Hi Hidle Hnd Hp Hd Hd' k Hk _. assert (Hf : finished c = false) by (unfold finished; by destruct (mc_pc c)). specialize (Hw Hc) as (H1 & H2 & H3 & H4 & H5 & H6 & H7 & H8). cbn.
  rewrite !(count_insert _ i c (set_mpc p c)) by done. rewrite length_insert, Hk.
  assert (Eu : unanswered c = false) by (unfold unanswered; by rewrite Hf). rewrite Eu, Hf.
  assert (Ef : finished (set_mpc p c) = bool_decide (p = WDone)) by (by destruct p).
  unfold unanswered at 2. rewrite Ef. cbn.
  split_and!; try done; try lia.
  - intros Hn. specialize (H3 Hn). destruct Hd as [->|[-> ->]]; cbn.
    + case_bool_decide as Hx; cbn; [|lia]. destruct (Hd' Hx) as [?|[->|?]]; [lia|cbn; lia|congruence].
    + match goal with |- context [b2n (?b && ?c)] => pose proof (b2n_bounds (b && c)) end. lia.
  - destruct Hd as [->|[-> ->]]; [|rewrite bool_decide_true by done]; cbn; [|lia].
    pose proof (b2n_bounds (bool_decide (p = WDone))). lia.
  - apply Forall_insert; [done|]. cbn. exact Hp.
  - intros j e [(<- & <- & _)|[_ Hj]]%list_lookup_insert_Some Hle; [|by eapply H8]. by destruct (Hidle (H8 _ _ Hi Hle)).
Qed.

Lemma tallied_handle i frame w : tallied w → tallied (mhandle i w frame).
Proof.
  intros Hw. unfold mhandle. destruct (mclients w !! i) as [c|] eqn:Hi; [|done]. destruct frame as [type raw].
  case_bool_decide; [|case_bool_decide; [|done]].
  - unfold on_match_found. set (c1 := match chat_id_of raw with Some id => _ | None => c end).
    assert (E : matchDone c1 = matchDone c ∧ acceptDone c1 = acceptDone c ∧ mc_pc c1 = mc_pc c) by (unfold c1; by case_match).
    destruct E as (E1 & E2 & E3). destruct (matchDone c1) eqn:Em; [done|]. intros Hc.
    specialize (Hw Hc) as (H1 & H2 & H3 & H4 & H5 & H6 & H7 & H8). cbn.
    assert (Ef : finished (close_match c1) = finished c) by (unfold finished; cbn; by rewrite E3).
    assert (Eu : unanswered (close_match c1) = unanswered c) by (unfold unanswered; rewrite Ef; cbn; by rewrite E2).
    rewrite !(count_insert _ i c (close_match c1)) by done. rewrite Eu, Ef, <-E1, length_insert. cbn. rewrite E2.
    split_and!; try done; try lia; [intros Hn; specialize (H3 Hn); lia|by apply Forall_insert|].
    intros j d [(<- & <- & _)|[_ Hj]]%list_lookup_insert_Some; [cbn; rewrite E3|]; by apply H8.
  - unfold on_match_accepted. destruct (acceptDone c) eqn:Ea; [done|]. intros Hc.
    specialize (Hw Hc) as (H1 & H2 & H3 & H4 & H5 & H6 & H7 & H8). cbn.
    assert (Eu : b2n (unanswered (close_accept c)) ≤ b2n (unanswered c)) by (unfold unanswered, finished; cbn; rewrite Ea; by destruct (mc_pc c)).
    rewrite !(count_insert _ i c (close_accept c)) by done. change (finished (close_accept c)) with (finished c). cbn. rewrite Ea, length_insert.
    split_and!; try done; try (cbn; lia).
    + intros Hn. specialize (H3 Hn). lia.
    + apply Forall_insert; [done|]. cbn. by eapply Forall_lookup_1 in H7.
    + intros j d [(<- & <- & _)|[_ Hj]]%list_lookup_insert_Some; [cbn|]; by apply H8.
Qed.

(** No step adds or loses a client. *)
Lemma match_step_length ev w w' : match_step interestTags ev w = Some w' → length (mclients w') = length (mclients w).
Proof.
  unfold match_step. intros H. destruct (crashed w); [done|]. destruct ev as [|i k|i| |i ev|d].
  - unfold main_turn in H. destruct (mclients w !! next w) as [c|]; [|done]. cbn in H.
    repeat case_match; simplify_eq; cbn; by rewrite length_insert.
  - unfold go_turn in H. destruct (mclients w !! i) as [c|]; [|done]. cbn in H.
    repeat case_match; simplify_eq; cbn; by rewrite length_insert.
  - destruct (mclients w !! i) as [c|]; [|done]. cbn in H. repeat case_match; simplify_eq; cbn; by rewrite length_insert.
  - by injection H as <-.
  - destruct (mclients w !! i) as [c|]; [|done]. cbn in H. destruct (peer_read ev (mc_peer c)) as [frames p].
    injection H as <-. transitivity (length (mclients (set_mclient i (set_mpeer p c) w))); [|cbn; by rewrite length_insert].
    generalize (set_mclient i (set_mpeer p c) w). clear. induction frames as [|f frames IH]; intros w; [done|].
    cbn [foldl]. rewrite IH. unfold mhandle, on_match_found, on_match_accepted. repeat case_match; cbn; by rewrite ?length_insert.
  - case_bool_decide; [|done]. by injection H as <-.
Qed.

Lemma tallied_main w w' : tallied w → crashed w = false → main_turn interestTags w = Some w' → tallied w'.
Proof.
  intros Hw Hc H. unfold main_turn in H. destruct (mclients w !! next w) as [c|] eqn:Hi; [|done]. cbn in H.
  pose proof (lookup_lt_Some _ _ _ Hi) as Hlt. destruct (sending w) eqn:Hs.
  - destruct (on_client _ (mc_peer c)) as [err p] eqn:E. injection H as <-.
    pose proof (tallied_set (next w) c (set_mpeer p c) w Hw Hi eq_refl eq_refl eq_refl) as Ht.
    specialize (Ht Hc) as (H1 & H2 & H3 & H4 & H5 & H6 & H7 & H8). cbn in *.
    rewrite length_insert in *. rewrite Hs in H8.
    destruct err; intros _; cbn; rewrite ?length_insert; split_and!; try done; try lia; try (by intros Hn; specialize (H3 Hn); lia);
      intros j d Hj Hle; (eapply H8; [done|lia]).
  - injection H as <-.
    match goal with |- context [set_mpc _ (set_mpeer ?q _)] => set (p := q) end.
    assert (Hp : mc_pc c = WIdle).
    { specialize (Hw Hc) as (_ & _ & _ & _ & _ & _ & _ & H8). apply (H8 _ _ Hi). rewrite Hs. lia. }
    specialize (Hw Hc) as (H1 & H2 & H3 & H4 & H5 & H6 & H7 & H8). intros _. cbn. rewrite Hs in H8.
    set (c' := set_mpc WFound (set_mpeer p c)).
    assert (Ef : finished c = false) by (unfold finished; by rewrite Hp).
    assert (Eu : unanswered c = false) by (unfold unanswered; by rewrite Ef).
    rewrite !(count_insert _ _ c c') by done. rewrite Eu, Ef, length_insert. cbn.
    split_and!; try done; try lia; [intros Hn; specialize (H3 Hn); lia|by apply Forall_insert|].
    intros j e [(<- & <- & _)|[_ Hj]]%list_lookup_insert_Some Hle; [lia|]. eapply H8; [done|lia].
Qed.

Lemma tallied_step ev w w' : tallied w → match_step interestTags ev w = Some w' → tallied w'.
Proof.
  intros Hw H. unfold match_step in H. destruct (crashed w) eqn:Hc; [done|]. destruct ev as [|i k|i| |i ev|d].
  - by eapply tallied_main.
  - unfold go_turn in H. destruct (mclients w !! i) as [c|] eqn:Hi; [|done]. cbn in H.
    assert (Hsame : ∀ c', tallied (set_mcollector (mcollector w) (set_mclient i c' w)) → tallied (set_mclient i c' w)) by done.
    assert (Hacc : mc_pc c = WAccepted → matchDone c = true).
    { specialize (Hw Hc) as (_ & _ & _ & _ & _ & _ & H7 & _). by eapply Forall_lookup_1 in H7. }
    destruct (mc_pc c) eqn:Ep, k; try discriminate H;
      repeat match type of H with context [if ?x then _ else _] => destruct x eqn:? end; simplify_eq;
      match goal with
      | |- tallied (set_mcollector _ _) => eapply (tallied_go i c WDone 1)
      | |- tallied (set_mclient _ (set_mpc ?p _) _) => apply Hsame; eapply (tallied_go i c p 0)
      end; rewrite ?Ep; try done; auto; try lia; cbn; lia.
  - destruct (mclients w !! i) as [c|] eqn:Hi; [|done]. cbn in H.
    destruct (mc_pc c); simplify_eq; by eapply tallied_set.
  - injection H as <-. intros _. specialize (Hw Hc) as (H1 & H2 & H3 & H4 & H5 & H6 & H7 & H8). cbn. destruct H4. split_and!; done.
  - destruct (mclients w !! i) as [c|] eqn:Hi; [|done]. cbn in H.
    destruct (peer_read ev (mc_peer c)) as [frames p]. injection H as <-.
    pose proof (tallied_set i c (set_mpeer p c) w Hw Hi eq_refl eq_refl eq_refl) as Ht.
    revert Ht. generalize (set_mclient i (set_mpeer p c) w). clear -c0.
    induction frames as [|f frames IH]; intros w Ht; [done|]. cbn [foldl]. by apply IH, tallied_handle.
  - case_bool_decide; [|done]. injection H as <-. intros _. exact (Hw Hc).
Qed.

(** The matching phase accounts for every client, however its goroutines, read
    loops and timers interleave, until a handler closes a closed channel: the two
    counters are the numbers of clients that have had match_found and
    match_accepted, so the pairs reported are at most half the clients; at most two
    errors are counted per client; and once every goroutine has returned, unless
    the test was interrupted, each client was accepted or an error was counted for
    it. *)
Theorem match_phase_accounts clients now ctxDone evs :
  let w := match_run interestTags evs (runMatch clients c0 now ctxDone) in
  let n := Z.of_nat (length clients) in
  let failures := errors (mcollector w) - errors c0 in
  crashed w = false →
  matchedCount w = count matchDone (mclients w) ∧ acceptedCount w = count acceptDone (mclients w)
  ∧ 0 ≤ 2 * successfulPairs w ≤ n ∧ 0 ≤ failures ≤ 2 * n
  ∧ (mcancelled w = false → Forall (λ c, mc_pc c = WDone) (mclients w) → n ≤ acceptedCount w + failures).
Proof.
  intros w n failures Hc. assert (Hw : tallied w ∧ length (mclients w) = length clients).
  { unfold w, match_run.
    assert (H0 : tallied (runMatch clients c0 now ctxDone) ∧ length (mclients (runMatch clients c0 now ctxDone)) = length clients).
    { split; [|by cbn; rewrite length_fmap]. intros _. cbn.
      rewrite !count_new by done. cbn. split_and!; try done; try lia.
      - by apply Forall_fmap, Forall_forall.
      - intros j c Hj _. apply list_lookup_fmap_Some in Hj as (p & -> & _). done. }
    revert H0. generalize (runMatch clients c0 now ctxDone). clear. induction evs as [|ev evs IH]; intros w [Hw Hl]; [done|].
    cbn [foldl]. apply IH. destruct (match_step interestTags ev w) as [w'|] eqn:E; [|done].
    split; [by eapply tallied_step|]. cbn. rewrite <-Hl. by eapply match_step_length. }
  destruct Hw as [Hw Hlen]. specialize (Hw Hc) as (H1 & H2 & H3 & H4 & H5 & H6 & H7 & H8).
  pose proof (count_le acceptDone (mclients w)). pose proof (count_le finished (mclients w)). unfold successfulPairs.
  rewrite Z.quot_div_nonneg by lia. pose proof (Z.div_mod (acceptedCount w) 2 ltac:(done)).
  pose proof (Z.mod_pos_bound (acceptedCount w) 2 ltac:(done)). unfold n, failures.
  split_and!; try done; try lia. intros Hn Hdone. specialize (H3 Hn).
  enough (count unanswered (mclients w) + count acceptDone (mclients w) = Z.of_nat (length (mclients w))) by lia.
  clear -Hdone. induction Hdone as [|c l Hc _ IH]; [done|]. unfold count in *. rewrite !filter_cons.
  assert (unanswered c = negb (acceptDone c)) as Hu by (unfold unanswered, finished; by rewrite Hc).
  destruct (acceptDone c) eqn:E; cbn in Hu; repeat case_decide; try congruence; cbn [length] in *; lia.
Qed.
End counts.

(** ** A run on sockets in memory *)

Definition match_frame (type : string) : client_event := EvText (Some (JObj [("chat_id", JStr "chat-1"); ("type", JStr type)])).
Definition match_schedule : list match_event :=
  replicate 4 MMain ++ [MClock 5] ++ concat ((λ i, [MFrame i (match_frame "match_found"); MGo i OnChannel]) <$> [0%nat; 1%nat])
  ++ concat ((λ i, [MFrame i (match_frame "match_accepted"); MGo i OnChannel]) <$> [0%nat; 1%nat]).
Definition two_peers : list (peer (Z * list json)) := [Peer (New (0, []) 5) true; Peer (New (0, []) 6) true].
Definition match_end : mworld (Z * list json) := match_run ["music"] match_schedule (runMatch two_peers (NewCollector 0) 100 false).

Example match_end_counts :
  crashed match_end = false ∧ matchedCount match_end = 2 ∧ acceptedCount match_end = 2 ∧ successfulPairs match_end = 1
  ∧ msgLatencies (mcollector match_end) = [5; 5]
  ∧ (λ c, sent (conn (cl (mc_peer c)))) <$> mclients match_end
      = [[find_match_msg ["music"]; accept_match_msg "chat-1"]; [find_match_msg ["music"]; accept_match_msg "chat-1"]].
Proof. vm_compute. done. Qed.

(** A second match_found closes the channel again, and the test crashes. *)
Example second_match_found :
  crashed (match_run [] [MMain; MMain; MFrame 0 (match_frame "match_found"); MFrame 0 (match_frame "match_found")]
    (runMatch two_peers (NewCollector 0) 100 false)) = true.
Proof. vm_compute. done. Qed.

(** ** The whole test *)

(** How the test ends: it panics on its options, a handler closes a closed channel,
    it is still running, or it has finished, with the clients it has closed. *)
Record match_outcome (NW : Type) : Type := MatchOutcome {
  mo_pairs : Z;
  mo_clients : list (peer NW);
  mo_collector : Collector;
  mo_interrupted : bool;
}.
Arguments MatchOutcome {_}. Arguments mo_pairs {_}. Arguments mo_clients {_}. Arguments mo_collector {_}. Arguments mo_interrupted {_}.
Inductive match_end_kind (NW : Type) : Type := MPanic | MCrash | MUnfinished | MFinished (o : match_outcome NW).
Arguments MPanic {_}. Arguments MCrash {_}. Arguments MUnfinished {_}. Arguments MFinished {_}.

(** The matching phase is over when the main loop is through and every goroutine has
    returned, or the test is interrupted. *)
Definition match_over {NW} (w : mworld NW) : bool :=
  bool_decide (next w = length (mclients w)) &&
  (forallb (λ c, bool_decide (mc_pc c = WDone)) (mclients w) || mcancelled w).

Definition match_test `{!ClientNet NW} (pairs rampUp concurrency : Z) (interests : string) (now : Z)
    (ramp_evs : list (ramp_event NW)) (evs : list match_event) : match_end_kind NW :=
  let totalClients := pairs * 2 in
  if bool_decide (totalClients < 0) then MPanic
  else if bool_decide (ramp_interval rampUp totalClients = None) then MPanic
  else if bool_decide (concurrency < 0) then MPanic
  else
    let r := ramp_run totalClients (Z.to_nat concurrency) ramp_evs (ramp_start (NewCollector now)) in
    match r_pc r with
    | RampDone =>
        if interrupted r then MFinished (MatchOutcome 0 (cleanup (clients r) ++ refused r) (r_collector r) true)
        else
          let w := runMatch (clients r) (r_collector r) now (cancelled r) in
          let w := match_run (interest_tags interests) evs w in
          if crashed w then MCrash
          else if match_over w
          then MFinished (MatchOutcome (successfulPairs w) (cleanup (mc_peer <$> mclients w) ++ refused r) (mcollector w) (mcancelled w))
          else MUnfinished
    | _ => MUnfinished
    end.

(** The matching test, from the command line to its report, accounts for every
    pair under every interleaving: it panics on its options only if they make no
    sense; when it has finished every client it connected is closed and the pairs
    reported are at most those asked for; and unless it was interrupted, the pairs
    asked for are covered by the pairs reported and the errors counted. *)
Theorem match_test_accounts `{!ClientNet NW, !ClientNetLaws NW} pairs rampUp concurrency interests now ramp_evs evs :
  match match_test (NW := NW) pairs rampUp concurrency interests now ramp_evs evs with
  | MPanic => pairs ≤ 0 ∨ concurrency < 0
  | MCrash | MUnfinished => True
  | MFinished o =>
      Forall (λ p, done (cl p) = true) (mo_clients o) ∧ 0 ≤ mo_pairs o ≤ pairs
      ∧ (mo_interrupted o = false → pairs ≤ mo_pairs o + errors (mo_collector o))
  end.
Proof.
  unfold match_test. case_bool_decide as Hneg; [lia|]. case_bool_decide as Hint.
  { left. unfold ramp_interval in Hint. case_bool_decide; [lia|done]. }
  case_bool_decide as Hcon; [lia|].
  set (r := ramp_run _ _ _ _). destruct (ramp_accounted (pairs * 2) (Z.to_nat concurrency) (NewCollector now) ramp_evs ltac:(lia) : accounted _ _ _ r).
  destruct (r_pc r) eqn:Hpc; try done. cbn in rm_outcomes, rm_clients, rm_errors. specialize (rm_done ltac:(done)).
  specialize (rm_exit ltac:(by right)). cbn in rm_attempts. rewrite Z.sub_0_r in *.
  destruct (interrupted r).
  { cbn. split_and!; try done; try lia. apply Forall_app; split; [apply cleanup_done|done]. }
  specialize (rm_attempts ltac:(done)). set (w := match_run _ _ _). destruct (crashed w) eqn:Hcr; [done|].
  destruct (match_over w) eqn:Hov; [|done].
  destruct (match_phase_accounts (interest_tags interests) (r_collector r) (clients r) now (cancelled r) evs Hcr) as (_ & A & H1 & H2 & H3).
  fold w in H3, A, H1, H2. cbn. split_and!; [apply Forall_app; split; [apply cleanup_done|done]|lia|lia|].
  intros Hn. specialize (H3 Hn). unfold match_over in Hov. rewrite Hn, orb_false_r in Hov.
  apply andb_true_iff in Hov as [_ Hd]. assert (Forall (λ c, mc_pc c = WDone) (mclients w)) as Hdone.
  { apply Is_true_eq_left, forallb_True in Hd. eapply Forall_impl; [done|]. intros c. apply bool_decide_unpack. }
  specialize (H3 Hdone). unfold successfulPairs in *.
  pose proof (Z.quot_rem' (acceptedCount w) 2). pose proof (Z.rem_bound_pos (acceptedCount w) 2). lia.
Qed.

Definition session_frame : client_event := EvText (Some (JObj [("session_id", JStr "session-1"); ("type", JStr "session_created")])).
Definition one_pair : list (ramp_event (Z * list json)) :=
  concat ((λ i, [Tick; Acquire; Dialled i (Ok (0, [], 5)); Arrives i session_frame; Turn i WaitTick false]) <$> [0%nat; 1%nat])
  ++ [Exit; Joined].
Abbreviation one_pair_end := (match_test 1 2000000 1 "music, games" 0 one_pair match_schedule).

Example one_pair_finishes :
  match one_pair_end with
  | MFinished o =>
      mo_pairs o = 1 ∧ mo_interrupted o = false ∧ errors (mo_collector o) = 0
      ∧ (λ p, sent (conn (cl p)) !! 1%nat) <$> mo_clients o
        = [Some (find_match_msg ["music"; "games"]); Some (find_match_msg ["music"; "games"])]
  | _ => False
  end.
Proof. vm_compute. done. Qed.

Lemma match_test_accounts_witness :
  match one_pair_end with
  | MFinished o => 0 ≤ mo_pairs o ≤ 1 ∧ 1 ≤ mo_pairs o + errors (mo_collector o)
  | _ => False
  end.
Proof.
  pose proof (match_test_accounts (NW := Z * list json) 1 2000000 1 "music, games" 0 one_pair match_schedule) as H.
  pose proof one_pair_finishes as F. destruct one_pair_end as [| | |o]; [done|done|done|].
  destruct H as (_ & H1 & H2). split; [done|apply H2, F].
Defined.
