(* ===== verification/E2e.v ===== *)
(** * The end-to-end test

    loadtest/cmd/e2etest/main.go: seven scenarios against a running server.  The
    test's world is what it meets: the outcomes of its dials and HTTP requests, and a
    schedule that interleaves the steps of the test with the frames its clients read
    and the deadlines that pass.  A wait with no event left ends at its deadline. *)

From stdpp Require Import base gmap strings numbers list_basics list_relations list.
From S2P Require Import Prelude GoStd Json Env Keys Utf8 Filter Protocol App WsServer LoadClient Harness Stats.
Open Scope Z_scope.

(** ** Results *)

Inductive resultKind : Type := resultPass | resultFail | resultInfo.
#[export] Instance resultKind_eq_dec : EqDecision resultKind.
Proof. solve_decision. Defined.

(** What is printed with a result: a text, or a text with values formatted into it. *)
Inductive detail : Type :=
  | Text (s : string)
  | MatchTime (chat_id : string) (d : Z)
  | Mismatch (expected got : string).

Record scenarioResult : Type := Scenario { name : string; kind : resultKind; detail_of : detail }.

Definition tag (r : scenarioResult) : string :=
  match kind r with resultPass => "PASS" | resultFail => "FAIL" | resultInfo => "INFO" end.

Definition truncateID (id : string) : string :=
  if bool_decide (8 < String.length id)%nat then String.substring 0 8 id else id.

(** ** The world *)

(** What a handler makes of a frame, if it sends anything on its channel. *)
Inductive extract : Type := XChatID | XText | XUnit | XBlocked.
Definition extracted (x : extract) (raw : json) : option string :=
  match x with
  | XChatID => chat_id_of raw
  | XText => unmarshal (get_str "text") raw
  | XUnit => Some ""
  | XBlocked =>
      code ← unmarshal (λ ms, code ← get_str "code" ms; _ ← get_str "message" ms; Some code) raw;
      if bool_decide (code = "message_blocked") then Some code else None
  end.

(** A channel of capacity one, with the client, the type and the extractor of the
    handler that fills it. *)
Record channel : Type := Channel { ch_client : nat; ch_type : string; ch_extract : extract; ch_buf : list string }.

(** A context is the list of the deadlines it depends on, its own first. *)
Abbreviation context := (list nat).

Inductive e2e_event : Type :=
  | Step (pick : nat)
  | Read (i : nat) (ev : client_event)
  | Deadline (k : nat).

(** How a request ends; a body comes with its JSON value, if it is one. *)
Inductive http_outcome : Type :=
  | ReqErr (e : error)
  | DoErr (e : error)
  | Response (status : Z) (body : res (string * option json)).

Record e2e (NW : Type) : Type := E2E {
  peers : list (peer NW);
  chans : list channel;
  on : gmap (nat * string) nat;
  past : list nat;
  deadlines : nat;
  e_sched : list e2e_event;
  dials : list (res (NW * Z));
  gets : list http_outcome;
  e_clock : list Z;
}.
Arguments E2E {_}. Arguments peers {_}. Arguments chans {_}. Arguments on {_}. Arguments past {_}. Arguments deadlines {_}.
Arguments e_sched {_}. Arguments dials {_}. Arguments gets {_}. Arguments e_clock {_}.

Section e2e.
Context `{!ClientNet NW}.
Abbreviation W := (e2e NW).
Implicit Types (w : W).

Definition set_peers x w : W := E2E x (chans w) (on w) (past w) (deadlines w) (e_sched w) (dials w) (gets w) (e_clock w).
Definition set_chans x w : W := E2E (peers w) x (on w) (past w) (deadlines w) (e_sched w) (dials w) (gets w) (e_clock w).
Definition set_on x w : W := E2E (peers w) (chans w) x (past w) (deadlines w) (e_sched w) (dials w) (gets w) (e_clock w).
Definition set_past x w : W := E2E (peers w) (chans w) (on w) x (deadlines w) (e_sched w) (dials w) (gets w) (e_clock w).
Definition set_deadlines x w : W := E2E (peers w) (chans w) (on w) (past w) x (e_sched w) (dials w) (gets w) (e_clock w).
Definition set_sched x w : W := E2E (peers w) (chans w) (on w) (past w) (deadlines w) x (dials w) (gets w) (e_clock w).
Definition set_dials x w : W := E2E (peers w) (chans w) (on w) (past w) (deadlines w) (e_sched w) x (gets w) (e_clock w).
Definition set_gets x w : W := E2E (peers w) (chans w) (on w) (past w) (deadlines w) (e_sched w) (dials w) x (e_clock w).
Definition set_times x w : W := E2E (peers w) (chans w) (on w) (past w) (deadlines w) (e_sched w) (dials w) (gets w) x.

(** *** The read loops and the deadlines *)

Definition push (v : string) (c : channel) : channel :=
  Channel (ch_client c) (ch_type c) (ch_extract c) (try_send 1 v (ch_buf c)).

Definition run_handler (i : nat) (w : W) (frame : string * json) : W :=
  match on w !! (i, frame.1) with
  | None => w
  | Some ch =>
      match chans w !! ch with
      | None => w
      | Some c =>
          match extracted (ch_extract c) frame.2 with
          | None => w
          | Some v => set_chans (<[ch := push v c]> (chans w)) w
          end
      end
  end.

Definition happens (ev : e2e_event) (w : W) : W :=
  match ev with
  | Step _ => w
  | Deadline k => set_past (k :: past w) w
  | Read i ev =>
      match peers w !! i with
      | None => w
      | Some p =>
          let '(frames, p') := peer_read ev p in
          foldl (run_handler i) (set_peers (<[i := p']> (peers w)) w) frames
      end
  end.

Definition ctx_over (ctx : context) (w : W) : bool := existsb (λ k, bool_decide (k ∈ past w)) ctx.

(** The test takes its next step, after whatever happens before it. *)
Fixpoint pump (evs : list e2e_event) (w : W) : W :=
  match evs with
  | [] => set_sched [] w
  | Step _ :: evs => set_sched evs w
  | ev :: evs => pump evs (happens ev w)
  end.
Definition turn : M W unit := λ w, (tt, pump (e_sched w) w).

(** Blocks until the case a step picks is ready; [late] is taken when the schedule
    is over. *)
Fixpoint select_in {A} (evs : list e2e_event) (cases : nat → W → option (A * W)) (late : W → A * W) (w : W) : A * W :=
  match evs with
  | [] => late (set_sched [] w)
  | Step k :: evs' =>
      match cases k w with
      | Some (a, w') => (a, set_sched evs' w')
      | None => select_in evs' cases late w
      end
  | ev :: evs' => select_in evs' cases late (happens ev w)
  end.
Definition select {A} (cases : nat → W → option (A * W)) (late : W → A * W) : M W A :=
  λ w, select_in (e_sched w) cases late w.

(** *** Clients, contexts, channels *)

Definition WithTimeout (parent : context) : M W context :=
  λ w, (deadlines w :: parent, set_deadlines (S (deadlines w)) w).

Definition time_now : M W Z := λ w, match e_clock w with [] => (0, w) | t :: ts => (t, set_times ts w) end.

Definition client_New : M W (res nat) :=
  do! turn in
  λ w, match dials w with
       | [] => (Err "dial: connection refused", w)
       | d :: ds =>
           let w := set_dials ds w in
           match dial d with
           | Err e => (Err e, w)
           | Ok p => (Ok (length (peers w)), set_peers (peers w ++ [p]) w)
           end
       end.

Definition with_peer {A} (i : nat) (dflt : A) (m : M (peer NW) A) : M W A :=
  λ w, match peers w !! i with
       | None => (dflt, w)
       | Some p => let '(a, p) := m p in (a, set_peers (<[i := p]> (peers w)) w)
       end.
Definition client_Send (i : nat) (msg : json) : M W (option error) := do! turn in with_peer i None (on_client (Send msg)).
Definition client_Close (i : nat) : M W unit := do! turn in let! _ := with_peer i None (on_client Close) in ret tt.

(** A channel of capacity one and the handler that fills it. *)
Definition listen (i : nat) (type : string) (x : extract) : M W nat :=
  do! turn in
  do! with_peer i tt (on_client (On type)) in
  λ w, let ch := length (chans w) in
       (ch, set_on (<[(i, type) := ch]> (on w)) (set_chans (chans w ++ [Channel i type x []]) w)).

(** [select { case v := <-ch: case <-ctx.Done(): }] *)
Definition recv_from (ch : nat) (w : W) : option (string * W) :=
  c ← chans w !! ch;
  match ch_buf c with
  | [] => None
  | v :: rest => Some (v, set_chans (<[ch := Channel (ch_client c) (ch_type c) (ch_extract c) rest]> (chans w)) w)
  end.
Definition receive (ch : nat) (ctx : context) : M W (option string) :=
  select
    (λ k w, match k with
            | O => '(v, w) ← recv_from ch w; Some (Some v, w)
            | _ => if ctx_over ctx w then Some (None, w) else None
            end)
    (λ w, match recv_from ch w with Some (v, w) => (Some v, w) | None => (None, w) end).

Definition WaitForSession (i : nat) (ctx : context) : M W (option error) :=
  let turn_of k w :=
    match peers w !! i with
    | None => Some (Some "nil client")
    | Some p => WaitForSession_turn k (ctx_over ctx w) p
    end in
  select
    (λ k w, r ← turn_of (match k with O => WaitDone | S O => WaitClosed | _ => WaitTick end) w; Some (r, w))
    (λ w, (match turn_of WaitTick w with Some r => r | None => Some "context deadline exceeded" end, w)).

Definition SessionID (i : nat) : M W string :=
  λ w, (match peers w !! i with Some p => sessionID (cl p) | None => "" end, w).

(** *** Scenario 1 *)

Definition http_get : M W http_outcome :=
  do! turn in λ w, match gets w with [] => (DoErr "connection refused", w) | r :: rs => (r, set_gets rs w) end.

Definition httpGetExpectOK (url : string) : M W (option error) :=
  let! r := http_get in
  ret (match r with
       | ReqErr e => Some ("create request: " +:+ e)
       | DoErr e => Some ("GET " +:+ url +:+ ": " +:+ e)
       | Response status _ =>
           if bool_decide (status ≠ 200) then Some ("GET " +:+ url +:+ ": status " +:+ itoa status) else None
       end).

Definition httpGetBody (url : string) : M W (res (string * option json)) :=
  let! r := http_get in
  ret (match r with
       | ReqErr e => Err ("create request: " +:+ e)
       | DoErr e => Err ("GET " +:+ url +:+ ": " +:+ e)
       | Response status body =>
           if bool_decide (status ≠ 200) then Err ("GET " +:+ url +:+ ": status " +:+ itoa status)
           else match body with Err e => Err ("read body: " +:+ e) | Ok body => Ok body end
       end).

(** The text of a JSON error is left out of the detail. *)
Definition scenario1HealthCheck (apiBase : string) : M W scenarioResult :=
  let name := "Scenario 1: Health Check" in
  let! err := httpGetExpectOK (apiBase +:+ "/health") in
  match err with
  | Some e => ret (Scenario name resultFail (Text ("/health: " +:+ e)))
  | None =>
      let! body := httpGetBody (apiBase +:+ "/api/online") in
      match body with
      | Err e => ret (Scenario name resultFail (Text ("/api/online: " +:+ e)))
      | Ok (_, data) =>
          match data ≫= unmarshal (get_int "count") with
          | None => ret (Scenario name resultFail (Text "/api/online JSON parse"))
          | Some count =>
              let! body := httpGetBody (apiBase +:+ "/metrics") in
              match body with
              | Err e => ret (Scenario name resultFail (Text ("/metrics: " +:+ e)))
              | Ok (metricsBody, _) =>
                  if negb (Contains metricsBody "whisper_connections_total")
                  then ret (Scenario name resultFail (Text "/metrics: missing whisper_connections_total"))
                  else ret (Scenario name resultPass (Text ("online=" +:+ itoa count)))
              end
          end
      end
  end.

(** *** Scenario 2 *)

(** [defer client.Close()] around the rest of the function. *)
Definition deferClose {A} (i : nat) (rest : M W A) : M W A :=
  let! a := rest in
  do! client_Close i in
  ret a.

Definition scenario2ConnectHandshake (ctx : context) : M W scenarioResult :=
  let name := "Scenario 2: Connect and Handshake" in
  let! connCtx := WithTimeout ctx in
  let! a := client_New in
  match a with
  | Err e => ret (Scenario name resultFail (Text ("client A connect: " +:+ e)))
  | Ok clientA => deferClose clientA (
      let! b := client_New in
      match b with
      | Err e => ret (Scenario name resultFail (Text ("client B connect: " +:+ e)))
      | Ok clientB => deferClose clientB (
          let! err := WaitForSession clientA connCtx in
          match err with
          | Some e => ret (Scenario name resultFail (Text ("client A session: " +:+ e)))
          | None =>
              let! err := WaitForSession clientB connCtx in
              match err with
              | Some e => ret (Scenario name resultFail (Text ("client B session: " +:+ e)))
              | None =>
                  let! sidA := SessionID clientA in
                  let! sidB := SessionID clientB in
                  if bool_decide (sidA = "" ∨ sidB = "")
                  then ret (Scenario name resultFail (Text "empty session ID"))
                  else ret (Scenario name resultPass
                              (Text ("session_a=" +:+ truncateID sidA +:+ ", session_b=" +:+ truncateID sidB)))
              end
          end)
      end)
  end.

(** *** Scenarios 3, 4 and 5 *)

Definition s3Name : string := "Scenario 3: Matching Flow".
Definition s4Name : string := "Scenario 4: Chat Messages".
Definition s5Name : string := "Scenario 5: End Chat".

Definition failAll (reason : string) : scenarioResult * scenarioResult * scenarioResult :=
  (Scenario s3Name resultFail (Text reason), Scenario s4Name resultFail (Text "skipped: matching failed"),
   Scenario s5Name resultFail (Text "skipped: matching failed")).

(** Scenario 5, with the results of 3 and 4. *)
Definition end_chat (ctx : context) (clientA clientB : nat) (chatIDA : string) (s3 s4 : scenarioResult)
    : M W (scenarioResult * scenarioResult * scenarioResult) :=
  let! partnerLeftB := listen clientB TypePartnerLeft XUnit in
  let! endCtx := WithTimeout ctx in
  let! err := client_Send clientA (end_chat_msg chatIDA) in
  match err with
  | Some e => ret (s3, s4, Scenario s5Name resultFail (Text ("client A end_chat: " +:+ e)))
  | None =>
      let! gone := receive partnerLeftB endCtx in
      match gone with
      | None => ret (s3, s4, Scenario s5Name resultFail (Text "timeout: client B did not receive partner_left"))
      | Some _ =>
          do! client_Close clientA in
          do! client_Close clientB in
          ret (s3, s4, Scenario s5Name resultPass (Text "clean disconnect"))
      end
  end.

(** Scenario 4 and what follows it, with the result of 3. *)
Definition chat_messages (ctx : context) (clientA clientB : nat) (chatIDA chatIDB : string) (s3 : scenarioResult)
    : M W (scenarioResult * scenarioResult * scenarioResult) :=
  let failed d := (s3, Scenario s4Name resultFail d, Scenario s5Name resultFail (Text "skipped: chat failed")) in
  let! msgFromB := listen clientA TypeMessage XText in
  let! msgFromA := listen clientB TypeMessage XText in
  let! chatCtx := WithTimeout ctx in
  let textA := "Hello from A" in
  let! err := client_Send clientA (text_msg chatIDA textA) in
  match err with
  | Some e => ret (failed (Text ("client A send message: " +:+ e)))
  | None =>
      let! receivedByB := receive msgFromA chatCtx in
      match receivedByB with
      | None => ret (failed (Text "timeout: client B did not receive message from A"))
      | Some receivedByB =>
          if bool_decide (receivedByB ≠ textA) then ret (failed (Mismatch textA receivedByB))
          else
            let textB := "Hello from B" in
            let! err := client_Send clientB (text_msg chatIDB textB) in
            match err with
            | Some e => ret (failed (Text ("client B send message: " +:+ e)))
            | None =>
                let! receivedByA := receive msgFromB chatCtx in
                match receivedByA with
                | None => ret (failed (Text "timeout: client A did not receive message from B"))
                | Some receivedByA =>
                    if bool_decide (receivedByA ≠ textB) then ret (failed (Mismatch textB receivedByA))
                    else end_chat ctx clientA clientB chatIDA s3 (Scenario s4Name resultPass (Text "2 messages exchanged"))
                end
            end
      end
  end.

(** The exchange that matches two clients, shared by scenario 3 and
    connectAndMatch: the chat ids, or what went wrong. *)
Definition match_clients (ctx : context) (clientA clientB : nat) (interests : list string) : M W (res (string * string)) :=
  let! matchFoundA := listen clientA TypeMatchFound XChatID in
  let! matchFoundB := listen clientB TypeMatchFound XChatID in
  let! matchAcceptedA := listen clientA TypeMatchAccepted XUnit in
  let! matchAcceptedB := listen clientB TypeMatchAccepted XUnit in
  let! err := client_Send clientA (find_match_msg interests) in
  match err with
  | Some e => ret (Err ("client A find_match: " +:+ e))
  | None =>
      let! err := client_Send clientB (find_match_msg interests) in
      match err with
      | Some e => ret (Err ("client B find_match: " +:+ e))
      | None =>
          let! matchCtx := WithTimeout ctx in
          let! a := receive matchFoundA matchCtx in
          match a with
          | None => ret (Err "timeout waiting for match_found on client A")
          | Some chatIDA =>
              let! b := receive matchFoundB matchCtx in
              match b with
              | None => ret (Err "timeout waiting for match_found on client B")
              | Some chatIDB =>
                  let! err := client_Send clientA (accept_match_msg chatIDA) in
                  match err with
                  | Some e => ret (Err ("client A accept_match: " +:+ e))
                  | None =>
                      let! err := client_Send clientB (accept_match_msg chatIDB) in
                      match err with
                      | Some e => ret (Err ("client B accept_match: " +:+ e))
                      | None =>
                          let! acceptCtx := WithTimeout ctx in
                          let! a := receive matchAcceptedA acceptCtx in
                          match a with
                          | None => ret (Err "timeout waiting for match_accepted on client A")
                          | Some _ =>
                              let! b := receive matchAcceptedB acceptCtx in
                              match b with
                              | None => ret (Err "timeout waiting for match_accepted on client B")
                              | Some _ => ret (Ok (chatIDA, chatIDB))
                              end
                          end
                      end
                  end
              end
          end
      end
  end.

Definition scenario345MatchChatEnd (ctx : context) : M W (scenarioResult * scenarioResult * scenarioResult) :=
  let! connCtx := WithTimeout ctx in
  let! a := client_New in
  match a with
  | Err e => ret (failAll ("client A connect: " +:+ e))
  | Ok clientA => deferClose clientA (
      let! b := client_New in
      match b with
      | Err e => ret (failAll ("client B connect: " +:+ e))
      | Ok clientB => deferClose clientB (
          let! err := WaitForSession clientA connCtx in
          match err with
          | Some e => ret (failAll ("client A session: " +:+ e))
          | None =>
              let! err := WaitForSession clientB connCtx in
              match err with
              | Some e => ret (failAll ("client B session: " +:+ e))
              | None =>
                  let! matchStart := time_now in
                  let! r := match_clients ctx clientA clientB ["music"; "gaming"] in
                  match r with
                  | Err e => ret (failAll e)
                  | Ok (chatIDA, chatIDB) =>
                      let! now := time_now in
                      let s3 := Scenario s3Name resultPass (MatchTime (truncateID chatIDA) (Round (now - matchStart) Millisecond)) in
                      chat_messages ctx clientA clientB chatIDA chatIDB s3
                  end
              end
          end)
      end)
  end.

(** *** Scenarios 6 and 7 *)

(** Closes both clients and passes the error on. *)
Definition close_both {A} (clientA clientB : nat) (e : error) : M W (res A) :=
  do! client_Close clientA in
  do! client_Close clientB in
  ret (Err e).

Definition connectAndMatch (ctx : context) : M W (res (nat * nat * string * string)) :=
  let! connCtx := WithTimeout ctx in
  let! a := client_New in
  match a with
  | Err e => ret (Err ("client A connect: " +:+ e))
  | Ok clientA =>
      let! b := client_New in
      match b with
      | Err e => do! client_Close clientA in ret (Err ("client B connect: " +:+ e))
      | Ok clientB =>
          let! err := WaitForSession clientA connCtx in
          match err with
          | Some e => close_both clientA clientB ("client A session: " +:+ e)
          | None =>
              let! err := WaitForSession clientB connCtx in
              match err with
              | Some e => close_both clientA clientB ("client B session: " +:+ e)
              | None =>
                  let! r := match_clients ctx clientA clientB [] in
                  match r with
                  | Err e => close_both clientA clientB e
                  | Ok (chatIDA, chatIDB) => ret (Ok (clientA, clientB, chatIDA, chatIDB))
                  end
              end
          end
      end
  end.

(** The ten messages of scenario 6, [i] sent so far; a failed send stops them. *)
Fixpoint send_rapid (clientA : nat) (chatIDA : string) (todo : nat) (i : Z) : M W Z :=
  match todo with
  | O => ret i
  | S todo =>
      let! err := client_Send clientA (text_msg chatIDA ("rapid message " +:+ itoa (i + 1))) in
      match err with
      | Some _ => ret i
      | None => send_rapid clientA chatIDA todo (i + 1)
      end
  end.

Definition scenario6RateLimiting (ctx : context) : M W scenarioResult :=
  let name := "Scenario 6: Rate Limiting" in
  let! scenarioCtx := WithTimeout ctx in
  let! r := connectAndMatch scenarioCtx in
  match r with
  | Err e => ret (Scenario name resultInfo (Text ("setup failed: " +:+ e)))
  | Ok (clientA, clientB, chatIDA, _) => deferClose clientA (deferClose clientB (
      let! rateLimited := listen clientA TypeRateLimited XUnit in
      let! sentCount := send_rapid clientA chatIDA 10 0 in
      let! rlCtx := WithTimeout scenarioCtx in
      let! got := receive rateLimited rlCtx in
      match got with
      | Some _ => ret (Scenario name resultInfo (Text ("rate_limited received after " +:+ itoa sentCount +:+ " messages")))
      | None => ret (Scenario name resultInfo
                  (Text ("no rate_limited received after " +:+ itoa sentCount +:+ " messages (rate limiting may be relaxed)")))
      end))
  end.

Definition blockedText : string := "hey you should kill yourself".

Definition scenario7ContentFiltering (ctx : context) : M W scenarioResult :=
  let name := "Scenario 7: Content Filtering" in
  let! scenarioCtx := WithTimeout ctx in
  let! r := connectAndMatch scenarioCtx in
  match r with
  | Err e => ret (Scenario name resultInfo (Text ("setup failed: " +:+ e)))
  | Ok (clientA, clientB, chatIDA, _) => deferClose clientA (deferClose clientB (
      let! messageBlocked := listen clientA TypeError XBlocked in
      let! err := client_Send clientA (text_msg chatIDA blockedText) in
      match err with
      | Some e => ret (Scenario name resultInfo (Text ("send failed: " +:+ e)))
      | None =>
          let! filterCtx := WithTimeout scenarioCtx in
          let! code := receive messageBlocked filterCtx in
          match code with
          | Some code => ret (Scenario name resultInfo (Text (code +:+ " for blocked keyword")))
          | None => ret (Scenario name resultInfo (Text "no message_blocked received (content filter may be async only)"))
          end
      end))
  end.

(** *** main *)

Definition count_kind (k : resultKind) (rs : list scenarioResult) : Z :=
  foldl (λ n r, if bool_decide (kind r = k) then n + 1 else n) 0 rs.

(** The exit code. *)
Definition exit_code (rs : list scenarioResult) : Z := if bool_decide (0 < count_kind resultFail rs) then 1 else 0.

Definition e2e_main (apiBase : string) : M W (list scenarioResult * Z) :=
  let! ctx := WithTimeout [] in
  let! s1 := scenario1HealthCheck apiBase in
  let! s2 := scenario2ConnectHandshake ctx in
  let! '(s3, s4, s5) := scenario345MatchChatEnd ctx in
  let! s6 := scenario6RateLimiting ctx in
  let! s7 := scenario7ContentFiltering ctx in
  let results := [s1; s2; s3; s4; s5; s6; s7] in
  ret (results, exit_code results).
End e2e.
