(* ===== verification/E2eProofs.v ===== *)
(** * Theorems about the end-to-end test of E2e.v *)

From stdpp Require Import base gmap strings numbers list_basics list_relations list.
From S2P Require Import Prelude GoStd Json Env Keys Utf8 Filter Protocol App WsServer LoadClient Harness Stats Ramp LoadTests E2e.
Open Scope Z_scope.

(** ** Names, kinds and the exit code *)

Section results.
Context `{!ClientNet NW}.
Abbreviation W := (e2e NW).

(** Whatever the world, the value [m] returns satisfies [P]. *)
Definition returns {A} (m : M W A) (P : A → Prop) : Prop := ∀ w, P (m w).1.

Lemma returns_ret {A} (a : A) (P : A → Prop) : P a → returns (ret a) P.
Proof. intros H w. done. Qed.
Lemma returns_bind {A B} (m : M W A) (f : A → M W B) P : (∀ a, returns (f a) P) → returns (bind m f) P.
Proof. intros H w. unfold bind. destruct (m w) as [a w']. apply H. Qed.
Lemma returns_defer {A} i (m : M W A) P : returns m P → returns (deferClose i m) P.
Proof.
  intros H w. unfold deferClose, bind. specialize (H w). destruct (m w) as [a w']. by destruct (client_Close i w').
Qed.

Definition outcome (n : string) (ks : list resultKind) (r : scenarioResult) : Prop := name r = n ∧ kind r ∈ ks.

Ltac returns_tac :=
  repeat first
    [ apply returns_ret; split; [reflexivity|repeat constructor]
    | apply returns_defer
    | match goal with
      | |- returns (match ?x with _ => _ end) _ => destruct x
      | |- returns (if ?x then _ else _) _ => destruct x
      end
    | apply returns_bind; intros ? ].

Lemma scenario1_outcome api : returns (scenario1HealthCheck api) (outcome "Scenario 1: Health Check" [resultPass; resultFail]).
Proof. unfold scenario1HealthCheck. returns_tac. Qed.
Lemma scenario2_outcome ctx : returns (scenario2ConnectHandshake ctx) (outcome "Scenario 2: Connect and Handshake" [resultPass; resultFail]).
Proof. unfold scenario2ConnectHandshake. returns_tac. Qed.
Lemma scenario6_outcome ctx : returns (scenario6RateLimiting ctx) (outcome "Scenario 6: Rate Limiting" [resultInfo]).
Proof. unfold scenario6RateLimiting. returns_tac. Qed.
Lemma scenario7_outcome ctx : returns (scenario7ContentFiltering ctx) (outcome "Scenario 7: Content Filtering" [resultInfo]).
Proof. unfold scenario7ContentFiltering. returns_tac. Qed.

(** A scenario passes only if the one before it has passed. *)
Definition outcomes (r : scenarioResult * scenarioResult * scenarioResult) : Prop :=
  let '(s3, s4, s5) := r in
  outcome s3Name [resultPass; resultFail] s3 ∧ outcome s4Name [resultPass; resultFail] s4 ∧ outcome s5Name [resultPass; resultFail] s5
  ∧ (kind s5 = resultPass → kind s4 = resultPass) ∧ (kind s4 = resultPass → kind s3 = resultPass).

Ltac outcomes_tac :=
  repeat first
    [ apply returns_ret; split_and!; try done; repeat constructor
    | apply returns_defer
    | match goal with
      | |- returns (match ?x with _ => _ end) _ => destruct x
      | |- returns (if ?x then _ else _) _ => destruct x
      end
    | apply returns_bind; intros ? ].

Lemma scenario345_outcomes ctx : returns (scenario345MatchChatEnd ctx) outcomes.
Proof.
  unfold scenario345MatchChatEnd, chat_messages, end_chat. outcomes_tac.
Qed.

Lemma count_kind_foldl k rs : count_kind k rs = Z.of_nat (length (filter (λ r, kind r = k) rs)).
Proof.
  unfold count_kind.
  enough (∀ n, foldl (λ n r, if bool_decide (kind r = k) then n + 1 else n) n rs = n + Z.of_nat (length (filter (λ r, kind r = k) rs)))
    as H by (rewrite H; lia).
  induction rs as [|r rs IH]; intros n; [cbn; lia|]. cbn [foldl]. rewrite IH, filter_cons. case_bool_decide; case_decide; cbn [length]; done || lia.
Qed.

(** The end-to-end test reports its seven scenarios in order, whatever the
    server, the network and the clock do: the first five pass or fail, the last two
    are informational and never fail, so five results are required; chat messages
    only pass when matching has, and the end of the chat only when the messages
    have; and the test exits with 1 exactly when one of the five has failed. *)
Theorem e2e_exit_code apiBase w :
  let '(results, code) := (e2e_main apiBase w).1 in
  name <$> results =
    ["Scenario 1: Health Check"; "Scenario 2: Connect and Handshake"; "Scenario 3: Matching Flow";
     "Scenario 4: Chat Messages"; "Scenario 5: End Chat"; "Scenario 6: Rate Limiting"; "Scenario 7: Content Filtering"]
  ∧ count_kind resultPass results + count_kind resultFail results = 5 ∧ count_kind resultInfo results = 2
  ∧ (∀ r, (results !! 5%nat = Some r ∨ results !! 6%nat = Some r) → kind r = resultInfo)
  ∧ (kind <$> results !! 4%nat = Some resultPass → kind <$> results !! 3%nat = Some resultPass)
  ∧ (kind <$> results !! 3%nat = Some resultPass → kind <$> results !! 2%nat = Some resultPass)
  ∧ (code = 1 ↔ ∃ r, r ∈ results ∧ kind r = resultFail) ∧ (code = 0 ∨ code = 1).
Proof.
  unfold e2e_main, bind, ret. destruct (WithTimeout [] w) as [ctx w0].
  pose proof (scenario1_outcome apiBase w0) as H1. destruct (scenario1HealthCheck apiBase w0) as [s1 w1].
  pose proof (scenario2_outcome ctx w1) as H2. destruct (scenario2ConnectHandshake ctx w1) as [s2 w2].
  pose proof (scenario345_outcomes ctx w2) as H3. destruct (scenario345MatchChatEnd ctx w2) as [[[s3 s4] s5] w3].
  pose proof (scenario6_outcome ctx w3) as H6. destruct (scenario6RateLimiting ctx w3) as [s6 w4].
  pose proof (scenario7_outcome ctx w4) as H7. destruct (scenario7ContentFiltering ctx w4) as [s7 w5].
  cbn in H1, H2, H3, H6, H7 |- *. destruct H3 as ([N3 K3] & [N4 K4] & [N5 K5] & Hp5 & Hp4).
  destruct H1 as [N1 K1], H2 as [N2 K2], H6 as [N6 K6], H7 as [N7 K7].
  assert (Hcode : exit_code [s1; s2; s3; s4; s5; s6; s7] = 1 ↔ ∃ r, r ∈ [s1; s2; s3; s4; s5; s6; s7] ∧ kind r = resultFail).
  { unfold exit_code. rewrite count_kind_foldl. case_bool_decide as Hc.
    - split; [|done]. intros _. destruct (filter _ _) as [|r l] eqn:E in Hc; [cbn in Hc; lia|].
      assert (Hr : r ∈ filter (λ r, kind r = resultFail) [s1; s2; s3; s4; s5; s6; s7]) by (rewrite E; by left).
      apply list_elem_of_filter in Hr as [? ?]. by exists r.
    - split; [done|]. intros (r & Hr & Hk). exfalso. apply Hc.
      assert (Hin : r ∈ filter (λ r, kind r = resultFail) [s1; s2; s3; s4; s5; s6; s7]) by (apply list_elem_of_filter; done).
      destruct (filter _ _); [by apply elem_of_nil in Hin|cbn; lia]. }
  assert (H01 : exit_code [s1; s2; s3; s4; s5; s6; s7] = 0 ∨ exit_code [s1; s2; s3; s4; s5; s6; s7] = 1)
    by (unfold exit_code; case_bool_decide; auto).
  rewrite N1, N2, N3, N4, N5, N6, N7. unfold count_kind. cbn [foldl]. set_unfold.
  destruct K6 as [K6|[]], K7 as [K7|[]]. rewrite K6, K7.
  split_and!; try done.
  - destruct K1 as [->|[->|[]]], K2 as [->|[->|[]]], K3 as [->|[->|[]]], K4 as [->|[->|[]]], K5 as [->|[->|[]]]; done.
  - destruct K1 as [->|[->|[]]], K2 as [->|[->|[]]], K3 as [->|[->|[]]], K4 as [->|[->|[]]], K5 as [->|[->|[]]]; done.
  - intros r [H|H]; simplify_eq; done.
  - intros [=]. f_equal. auto.
  - intros [=]. f_equal. auto.
Qed.
End results.

(** ** Every client is closed *)

Section closing.
Context `{!ClientNet NW}.
Abbreviation W := (e2e NW).
Implicit Types (w : W) (S : list nat).

(** Every client but those in [S] is closed. *)
Definition closed_but S w : Prop := ∀ i p, peers w !! i = Some p → i ∉ S → done (cl p) = true.

(** From a world where all but [S] are closed, [m] leaves one where all but
    [Q (result)] are. *)
Definition leaves {A} S (m : M W A) (Q : A → list nat) : Prop := ∀ w, closed_but S w → closed_but (Q (m w).1) (m w).2.

Lemma leaves_ret {A} S (a : A) (Q : A → list nat) : Q a = S → leaves S (ret a) Q.
Proof. intros E w Hw. cbn. by rewrite E. Qed.
Lemma leaves_bind {A B} S (m : M W A) (f : A → M W B) Q Q' :
  leaves S m Q → (∀ a, leaves (Q a) (f a) Q') → leaves S (bind m f) Q'.
Proof. intros Hm Hf w Hw. unfold bind. specialize (Hm w Hw). destruct (m w) as [a w']. by apply Hf. Qed.

(** What keeps the clients as they are, but for what a read loop does to them. *)
Definition same_done w w' : Prop :=
  length (peers w') = length (peers w)
  ∧ ∀ i p, peers w !! i = Some p → ∃ p', peers w' !! i = Some p' ∧ (done (cl p) = true → done (cl p') = true).

#[export] Instance same_done_refl : Reflexive same_done.
Proof. intros w. split; [done|]. intros i p Hi. by exists p. Qed.
#[export] Instance same_done_trans : Transitive same_done.
Proof.
  intros w1 w2 w3 [L1 H1] [L2 H2]. split; [congruence|]. intros i p Hi. destruct (H1 i p Hi) as (p' & Hi' & Hd).
  destruct (H2 i p' Hi') as (p'' & Hi'' & Hd'). exists p''. auto.
Qed.

Lemma same_done_eq w w' : peers w' = peers w → same_done w w'.
Proof. intros E. unfold same_done. rewrite E. split; [done|]. intros i p Hi. by exists p. Qed.

Lemma same_done_closed S w w' : same_done w w' → closed_but S w → closed_but S w'.
Proof.
  intros [L H] Hw i p' Hi Hn. destruct (lookup_lt_is_Some_2 (peers w) i) as [p Hp].
  { rewrite <-L. by eapply lookup_lt_Some. }
  destruct (H i p Hp) as (p'' & Hi' & Hd). rewrite Hi in Hi'. injection Hi' as ->. by apply Hd, (Hw i).
Qed.

Lemma same_done_insert i p p' w :
  peers w !! i = Some p → (done (cl p) = true → done (cl p') = true) → same_done w (set_peers (<[i := p']> (peers w)) w).
Proof.
  intros Hi Hd. split; [cbn; by rewrite length_insert|]. intros j q Hj. cbn. destruct (decide (i = j)) as [->|Hne].
  - exists p'. rewrite list_lookup_insert_eq by (by eapply lookup_lt_Some). split; [done|]. rewrite Hi in Hj. by injection Hj as ->.
  - exists q. by rewrite list_lookup_insert_ne.
Qed.

Lemma same_done_handler i w frame : same_done w (run_handler i w frame).
Proof. apply same_done_eq. unfold run_handler. by repeat case_match. Qed.

Lemma same_done_happens ev w : same_done w (happens ev w).
Proof.
  destruct ev as [k|i ev|k]; [done| |by apply same_done_eq]. unfold happens. destruct (peers w !! i) as [p|] eqn:Hi; [|done].
  destruct (peer_read ev p) as [frames p'] eqn:E.
  transitivity (set_peers (<[i := p']> (peers w)) w).
  { apply (same_done_insert i p); [done|]. pose proof (peer_read_done ev p) as Hd. rewrite E in Hd. cbn in Hd. congruence. }
  generalize (set_peers (<[i := p']> (peers w)) w). clear. induction frames as [|f frames IH]; intros w; [done|].
  cbn [foldl]. transitivity (run_handler i w f); [apply same_done_handler|apply IH].
Qed.

Lemma same_done_pump evs w : same_done w (pump evs w).
Proof.
  revert w. induction evs as [|ev evs IH]; intros w; [by apply same_done_eq|]. destruct ev; cbn [pump]; [by apply same_done_eq|..];
    (etransitivity; [apply same_done_happens|apply IH]).
Qed.

Lemma same_done_select {A} evs (cases : nat → W → option (A * W)) late w :
  (∀ k w a w', cases k w = Some (a, w') → same_done w w') → (∀ w, same_done w (late w).2) →
  same_done w (select_in evs cases late w).2.
Proof.
  intros Hc Hl. revert w. induction evs as [|ev evs IH]; intros w; cbn [select_in].
  { etransitivity; [|apply Hl]. by apply same_done_eq. }
  destruct ev as [k|i ev|k].
  - destruct (cases k w) as [[a w']|] eqn:E; [|apply IH]. transitivity w'; [by eapply Hc|by apply same_done_eq].
  - etransitivity; [apply same_done_happens|apply IH].
  - etransitivity; [apply same_done_happens|apply IH].
Qed.

Lemma leaves_same {A} S (m : M W A) : (∀ w, same_done w (m w).2) → leaves S m (λ _, S).
Proof. intros H w Hw. eapply same_done_closed; [apply H|done]. Qed.

Lemma same_done_turn w : same_done w (turn w).2.
Proof. apply same_done_pump. Qed.

Lemma same_done_with_peer {A} i (dflt : A) (m : M (peer NW) A) w :
  (∀ p, done (cl p) = true → done (cl (m p).2) = true) → same_done w (with_peer i dflt m w).2.
Proof.
  intros Hm. unfold with_peer. destruct (peers w !! i) as [p|] eqn:Hi; [|done]. specialize (Hm p).
  destruct (m p) as [a p'] eqn:E. cbn in *. by apply (same_done_insert i p).
Qed.

Lemma same_done_bind {A B} (m : M W A) (f : A → M W B) w :
  same_done w (m w).2 → (∀ a w', same_done w' (f a w').2) → same_done w (bind m f w).2.
Proof. intros H1 H2. unfold bind. destruct (m w) as [a w']. etransitivity; [exact H1|apply H2]. Qed.

Lemma Send_done msg (p : peer NW) : done (cl p) = true → done (cl (on_client (Send msg) p).2) = true.
Proof. unfold on_client, Send, bind, modify, on_socket. cbn. by destruct (WriteClientMessage msg (conn (cl p))). Qed.

(** *** The operations *)

Lemma leaves_Send S i msg : leaves S (client_Send i msg) (λ _, S).
Proof.
  apply leaves_same. intros w. apply same_done_bind; [apply same_done_turn|]. intros _ w'. apply same_done_with_peer.
  intros p. apply Send_done.
Qed.
Lemma leaves_listen S i type x : leaves S (listen i type x) (λ _, S).
Proof.
  apply leaves_same. intros w. apply same_done_bind; [apply same_done_turn|]. intros _ w'.
  apply same_done_bind; [by apply same_done_with_peer|]. intros _ w''. by apply same_done_eq.
Qed.
Lemma recv_from_peers ch w v w' : recv_from ch w = Some (v, w') → peers w' = peers w.
Proof. unfold recv_from. destruct (chans w !! ch) as [c|]; [|done]. cbn. intros H. repeat case_match; by simplify_eq. Qed.
Lemma leaves_receive S ch ctx : leaves S (receive ch ctx) (λ _, S).
Proof.
  apply leaves_same. intros w. apply same_done_select.
  - intros k w1 a w2 H. apply same_done_eq. destruct k; [|by repeat case_match; simplify_eq].
    destruct (recv_from ch w1) as [[v w3]|] eqn:E; [|done]. cbn in H. injection H as _ <-. by eapply recv_from_peers.
  - intros w1. apply same_done_eq. destruct (recv_from ch w1) as [[v w2]|] eqn:E; [by eapply recv_from_peers|done].
Qed.
Lemma leaves_WaitForSession S i ctx : leaves S (WaitForSession i ctx) (λ _, S).
Proof.
  apply leaves_same. intros w. apply same_done_select; [|done]. intros k w1 a w2 H.
  apply bind_Some in H as (r & _ & H). by injection H as _ <-.
Qed.
Lemma leaves_SessionID S i : leaves S (SessionID i) (λ _, S).
Proof. by apply leaves_same. Qed.
Lemma leaves_WithTimeout S ctx : leaves S (WithTimeout ctx) (λ _, S).
Proof. apply leaves_same. intros w. by apply same_done_eq. Qed.
Lemma leaves_time_now S : leaves S time_now (λ _, S).
Proof. apply leaves_same. intros w. apply same_done_eq. unfold time_now. by case_match. Qed.
Lemma leaves_http_get S : leaves S http_get (λ _, S).
Proof.
  apply leaves_same. intros w. apply same_done_bind; [apply same_done_turn|]. intros _ w'. apply same_done_eq. by case_match.
Qed.

(** A client that is opened has to be closed. *)
Lemma leaves_New S : leaves S client_New (λ r, match r with Ok i => i :: S | Err _ => S end).
Proof.
  unfold client_New. apply (leaves_bind S turn _ (λ _, S)); [apply leaves_same, same_done_turn|]. intros _ w Hw.
  destruct (dials w) as [|d ds]; [done|]. destruct (dial d) as [p|e]; [|done]. cbn. intros i q Hi Hn.
  apply lookup_app_Some in Hi as [Hi|[Hle Hi]]; [apply (Hw i); set_solver|].
  apply list_lookup_singleton_Some in Hi as [Hi _]. exfalso. apply Hn. replace i with (length (peers w)) by lia. by left.
Qed.

Lemma leaves_Close S i : leaves (i :: S) (client_Close i) (λ _, S).
Proof.
  unfold client_Close. apply (leaves_bind _ turn _ (λ _, i :: S)); [apply leaves_same, same_done_turn|]. intros _ w Hw.
  unfold bind, with_peer. destruct (peers w !! i) as [p|] eqn:Hi.
  - pose proof (close_peer_done p) as Hd. unfold close_peer in Hd. destruct (on_client Close p) as [e p']. cbn in *.
    intros j q Hj Hn. apply list_lookup_insert_Some in Hj as [(<- & <- & _)|[Hne Hj]]; [done|]. apply (Hw j); set_solver.
  - cbn. intros j q Hj Hn. destruct (decide (i = j)) as [->|Hne]; [congruence|]. apply (Hw j); set_solver.
Qed.

(** A client that is closed already may be closed again. *)
Lemma leaves_Close_again S i : leaves S (client_Close i) (λ _, S).
Proof.
  intros w Hw. apply (leaves_Close S i). intros j p Hj Hn. apply (Hw j p Hj). set_solver.
Qed.

Lemma leaves_defer {A} S i (m : M W A) : leaves (i :: S) m (λ _, i :: S) → leaves (i :: S) (deferClose i m) (λ _, S).
Proof.
  intros Hm. unfold deferClose. eapply leaves_bind; [exact Hm|]. intros a. eapply leaves_bind; [apply leaves_Close|].
  intros []. by apply leaves_ret.
Qed.
End closing.

Create HintDb closing discriminated.
#[export] Hint Resolve leaves_Send leaves_listen leaves_receive leaves_WaitForSession leaves_SessionID leaves_WithTimeout
  leaves_time_now leaves_http_get leaves_Close_again : closing.

(** Walks through a function of the test: leaves keep the open clients, and every
    branch is followed. *)
Ltac closing_tac :=
  repeat first
    [ apply leaves_ret; reflexivity
    | apply leaves_defer
    | progress cbv beta iota
    | match goal with
      | |- leaves _ (match ?x with _ => _ end) _ => destruct x
      | |- leaves _ (if ?x then _ else _) _ => destruct x
      | |- leaves _ (bind client_New _) _ => eapply leaves_bind; [apply leaves_New|intros [?|?]]
      | |- leaves _ (bind _ _) _ => eapply leaves_bind; [by eauto with closing|intros ?]
      end ].

Section scenarios.
Context `{!ClientNet NW}.
Implicit Types (S : list nat).

Lemma leaves_match_clients S ctx a b tags : leaves S (match_clients (NW := NW) ctx a b tags) (λ _, S).
Proof. unfold match_clients. closing_tac. Qed.
Lemma leaves_chat_messages S ctx a b ida idb s3 : leaves S (chat_messages (NW := NW) ctx a b ida idb s3) (λ _, S).
Proof. unfold chat_messages, end_chat. closing_tac. Qed.
#[local] Hint Resolve leaves_match_clients leaves_chat_messages : closing.

Lemma leaves_httpGetExpectOK S url : leaves S (httpGetExpectOK (NW := NW) url) (λ _, S).
Proof. unfold httpGetExpectOK. closing_tac. Qed.
Lemma leaves_httpGetBody S url : leaves S (httpGetBody (NW := NW) url) (λ _, S).
Proof. unfold httpGetBody. closing_tac. Qed.
#[local] Hint Resolve leaves_httpGetExpectOK leaves_httpGetBody : closing.
Lemma leaves_scenario1 S api : leaves S (scenario1HealthCheck (NW := NW) api) (λ _, S).
Proof. unfold scenario1HealthCheck. closing_tac. Qed.
Lemma leaves_scenario2 S ctx : leaves S (scenario2ConnectHandshake (NW := NW) ctx) (λ _, S).
Proof. unfold scenario2ConnectHandshake. closing_tac. Qed.
Lemma leaves_scenario345 S ctx : leaves S (scenario345MatchChatEnd (NW := NW) ctx) (λ _, S).
Proof. unfold scenario345MatchChatEnd. closing_tac; eauto with closing. Qed.

Lemma leaves_close_both {A} S a b e (Q : res A → list nat) :
  Q (Err e) = S → leaves (b :: a :: S) (close_both (NW := NW) a b e) Q.
Proof.
  intros HQ w Hw. assert (Hw' : closed_but (a :: b :: S) w) by (intros i p Hi Hn; apply (Hw i p Hi); set_solver). revert w Hw' Hw.
  enough (leaves (a :: b :: S) (close_both (NW := NW) a b e) Q) as H by (intros; by apply H).
  unfold close_both. eapply leaves_bind; [apply leaves_Close|]. intros []. eapply leaves_bind; [apply leaves_Close|]. intros [].
  by apply leaves_ret.
Qed.

(** The two clients are returned open, or closed on every error. *)
Lemma leaves_connectAndMatch S ctx :
  leaves S (connectAndMatch (NW := NW) ctx) (λ r, match r with Ok (a, b, _, _) => b :: a :: S | Err _ => S end).
Proof.
  unfold connectAndMatch. eapply leaves_bind; [apply leaves_WithTimeout|intros connCtx].
  eapply leaves_bind; [apply leaves_New|intros [a|e]]; [|by apply leaves_ret].
  eapply leaves_bind; [apply leaves_New|intros [b|e]].
  2:{ eapply leaves_bind; [apply leaves_Close|]. intros []. by apply leaves_ret. }
  repeat first [by apply leaves_close_both | match goal with
    | |- leaves _ (match ?x with _ => _ end) _ => destruct x
    | |- leaves _ (bind _ _) _ => eapply leaves_bind; [by eauto with closing|intros ?; cbv beta]
    end]. by apply leaves_ret.
Qed.

Lemma leaves_defers {A} S a b (m : M (e2e NW) A) :
  leaves (b :: a :: S) m (λ _, b :: a :: S) → leaves (b :: a :: S) (deferClose a (deferClose b m)) (λ _, S).
Proof.
  intros Hm. unfold deferClose at 1. eapply leaves_bind; [by apply leaves_defer|]. intros x.
  eapply leaves_bind; [apply leaves_Close|]. intros []. by apply leaves_ret.
Qed.

Lemma leaves_send_rapid S a id n i : leaves S (send_rapid (NW := NW) a id n i) (λ _, S).
Proof. revert i. induction n as [|n IH]; intros i; cbn [send_rapid]; closing_tac. apply IH. Qed.
#[local] Hint Resolve leaves_send_rapid : closing.

Lemma leaves_scenario6 S ctx : leaves S (scenario6RateLimiting (NW := NW) ctx) (λ _, S).
Proof.
  unfold scenario6RateLimiting. eapply leaves_bind; [apply leaves_WithTimeout|intros sctx].
  eapply leaves_bind; [apply leaves_connectAndMatch|intros [[[[a b] ida] idb]|e]]; cbv beta iota; [|by apply leaves_ret].
  apply leaves_defers. closing_tac.
Qed.
Lemma leaves_scenario7 S ctx : leaves S (scenario7ContentFiltering (NW := NW) ctx) (λ _, S).
Proof.
  unfold scenario7ContentFiltering. eapply leaves_bind; [apply leaves_WithTimeout|intros sctx].
  eapply leaves_bind; [apply leaves_connectAndMatch|intros [[[[a b] ida] idb]|e]]; cbv beta iota; [|by apply leaves_ret].
  apply leaves_defers. closing_tac.
Qed.

(** The end-to-end test leaks no connection: whatever the outcomes of its dials
    and requests and however frames and deadlines interleave with it, every client it
    has opened is closed when it ends, on the paths that fail as on those that pass. *)
Theorem e2e_closes_clients apiBase (w : e2e NW) :
  peers w = [] → Forall (λ p, done (cl p) = true) (peers (e2e_main apiBase w).2).
Proof.
  intros Hw.
  assert (H : leaves [] (e2e_main (NW := NW) apiBase) (λ _, [])).
  { unfold e2e_main. eapply leaves_bind; [apply leaves_WithTimeout|intros ctx].
    eapply leaves_bind; [apply leaves_scenario1|intros s1]. eapply leaves_bind; [apply leaves_scenario2|intros s2].
    eapply leaves_bind; [apply leaves_scenario345|intros [[s3 s4] s5]].
    eapply leaves_bind; [apply leaves_scenario6|intros s6]. eapply leaves_bind; [apply leaves_scenario7|intros s7].
    by apply leaves_ret. }
  apply Forall_lookup. intros i p Hi. apply (H w) with i; [|done|apply not_elem_of_nil].
  intros j q Hj. by rewrite Hw in Hj.
Qed.
End scenarios.
