(* ===== verification/E2eEvidence.v ===== *)
(** * What a pass of the end-to-end test is evidence of

    A scenario of E2e.v only passes on frames its clients have really been handed. *)

From stdpp Require Import base gmap strings numbers list_basics list_relations list.
From S2P Require Import Prelude GoStd Json Env Keys Utf8 Filter Protocol App WsServer LoadClient Harness Stats LoadChat Ramp LoadTests E2e E2eProofs Blocklist.
Open Scope Z_scope.

Section evidence.
Context `{!ClientNet NW, !ClientNetLaws NW}.
Abbreviation W := (e2e NW).
Implicit Types (w : W).

(** Client [i] was handed a frame of type [t] from which [x] takes [v]. *)
Definition heard w (i : nat) (t : string) (x : extract) (v : string) : Prop :=
  ∃ p raw, peers w !! i = Some p ∧ (t, raw) ∈ dispatched (cl p) ∧ extracted x raw = Some v.

(** Channel [ch] belongs to the handler of client [i] for type [t]. *)
Definition owner w (ch i : nat) (t : string) (x : extract) : Prop :=
  ∃ c, chans w !! ch = Some c ∧ ch_client c = i ∧ ch_type c = t ∧ ch_extract c = x.

(** What is in a channel was heard by its owner. *)
Record sound w : Prop := {
  sd_on : ∀ i t ch, on w !! (i, t) = Some ch → ∃ x, owner w ch i t x;
  sd_buf : ∀ ch c v, chans w !! ch = Some c → v ∈ ch_buf c → heard w (ch_client c) (ch_type c) (ch_extract c) v;
}.

(** Clients are handed more frames, channels keep their owners. *)
Record grows w w' : Prop := {
  gr_peers : ∀ i p, peers w !! i = Some p →
    ∃ p' l, peers w' !! i = Some p' ∧ dispatched (cl p') = dispatched (cl p) ++ l;
  gr_chans : ∀ ch i t x, owner w ch i t x → owner w' ch i t x;
}.

#[export] Instance grows_refl : Reflexive grows.
Proof. intros w. split; [|done]. intros i p Hi. exists p, []. by rewrite app_nil_r. Qed.
#[export] Instance grows_trans : Transitive grows.
Proof.
  intros w1 w2 w3 [P1 C1] [P2 C2]. split; [|auto]. intros i p Hi. destruct (P1 i p Hi) as (p' & l & Hi' & Hd).
  destruct (P2 i p' Hi') as (p'' & l' & Hi'' & Hd'). exists p'', (l ++ l'). by rewrite Hd', Hd, app_assoc.
Qed.

Lemma heard_mono w w' i t x v : grows w w' → heard w i t x v → heard w' i t x v.
Proof.
  intros [P _] (p & raw & Hi & Hin & Hx). destruct (P i p Hi) as (p' & l & Hi' & Hd). exists p', raw.
  rewrite Hd, elem_of_app. auto.
Qed.

(** [m] keeps channels sound, and its result satisfies [Q]. *)
Definition good {A} (m : M W A) (Q : W → A → W → Prop) : Prop :=
  ∀ w, sound w → wp m (λ a w', sound w' ∧ grows w w' ∧ Q w a w') w.

Lemma sound_same w w' : sound w → peers w' = peers w → chans w' = chans w → on w' = on w → sound w' ∧ grows w w'.
Proof.
  intros [S1 S2] E1 E2 E3. unfold owner, heard in *. split; split; unfold owner, heard; rewrite ?E1, ?E2, ?E3; try done.
  intros i p Hi. exists p, []. by rewrite app_nil_r.
Qed.

(** A client changes, but forgets no frame. *)
Lemma sound_peer w i p p' l :
  sound w → peers w !! i = Some p → dispatched (cl p') = dispatched (cl p) ++ l →
  sound (set_peers (<[i := p']> (peers w)) w) ∧ grows w (set_peers (<[i := p']> (peers w)) w).
Proof.
  intros [S1 S2] Hi Hd. assert (Hg : grows w (set_peers (<[i := p']> (peers w)) w)).
  { split; [|done]. intros j q Hj. cbn. destruct (decide (i = j)) as [->|Hne].
    - exists p', l. rewrite list_lookup_insert_eq by (by eapply lookup_lt_Some). split; [done|]. congruence.
    - exists q, []. by rewrite list_lookup_insert_ne, app_nil_r. }
  split; [|done]. split; [done|]. intros ch c v Hc Hv. eapply heard_mono; [exact Hg|]. by apply (S2 ch).
Qed.

(** A handler puts what it takes from a frame of its client on its channel. *)
Lemma sound_handler i w frame :
  sound w → (∃ p, peers w !! i = Some p ∧ frame ∈ dispatched (cl p)) →
  sound (run_handler i w frame) ∧ grows w (run_handler i w frame) ∧ peers (run_handler i w frame) = peers w.
Proof.
  intros Hs (p & Hp & Hin). destruct frame as [t raw]. unfold run_handler. cbn [fst snd].
  destruct (on w !! (i, t)) as [ch|] eqn:Hon; [|done]. destruct (chans w !! ch) as [c|] eqn:Hc; [|done].
  destruct (extracted (ch_extract c) raw) as [v|] eqn:Hx; [|done]. pose proof Hs as [S1 S2].
  destruct (S1 i t ch Hon) as (x & c' & Hc' & E1 & E2 & _). rewrite Hc in Hc'. injection Hc' as <-.
  assert (Hg : grows w (set_chans (<[ch := push v c]> (chans w)) w)).
  { split; [intros j q Hj; exists q, []; by rewrite app_nil_r|]. intros ch' j t' x' (c' & Hc' & E).
    destruct (decide (ch = ch')) as [->|Hne]; unfold owner; cbn.
    - exists (push v c). rewrite list_lookup_insert_eq by (by eapply lookup_lt_Some). rewrite Hc in Hc'. injection Hc' as <-. done.
    - exists c'. by rewrite list_lookup_insert_ne. }
  split_and!; [|done|done]. split.
  - intros j t' ch' Hon'. destruct (S1 j t' ch' Hon') as (x' & Ho). exists x'. by apply Hg.
  - intros ch' c' v' Hc' Hv'. eapply heard_mono; [exact Hg|]. cbn in Hc'.
    apply list_lookup_insert_Some in Hc' as [(<- & <- & _)|[_ Hc']]; [|by apply (S2 ch')]. cbn in *.
    apply elem_of_try_send in Hv' as [Hv'| ->]; [by apply (S2 ch)|]. rewrite E1, E2. exists p, raw. done.
Qed.

Lemma sound_happens ev w : sound w → sound (happens ev w) ∧ grows w (happens ev w).
Proof.
  intros Hs. destruct ev as [k|i ev|k]; [by split| |by apply sound_same]. unfold happens.
  destruct (peers w !! i) as [p|] eqn:Hi; [|by split]. destruct (peer_read ev p) as [frames p'] eqn:E.
  apply peer_read_frames in E as [_ Hd].
  destruct (sound_peer w i p p' frames Hs Hi Hd) as [Hs' Hg]. revert Hs' Hg.
  assert (Hp : peers (set_peers (<[i := p']> (peers w)) w) !! i = Some p') by (cbn; rewrite list_lookup_insert_eq; [done|by eapply lookup_lt_Some]).
  assert (Hin : ∀ f, f ∈ frames → f ∈ dispatched (cl p')) by (intros f Hf; rewrite Hd, elem_of_app; by right).
  revert Hp. generalize (set_peers (<[i := p']> (peers w)) w). clear Hi Hd Hs.
  induction frames as [|f frames IH]; intros w' Hp Hs' Hg; [done|]. cbn [foldl].
  destruct (sound_handler i w' f Hs') as (H1 & H2 & H3); [exists p'; split; [done|apply Hin; by left]|].
  apply IH; [intros g Hg'; apply Hin; by right|by rewrite H3|done|(etransitivity; eassumption)].
Qed.

Lemma sound_pump evs w : sound w → sound (pump evs w) ∧ grows w (pump evs w).
Proof.
  revert w. induction evs as [|ev evs IH]; intros w Hs; [by apply sound_same|].
  assert (Hev : ∀ ev, sound (pump evs (happens ev w)) ∧ grows w (pump evs (happens ev w))).
  { intros ev'. destruct (sound_happens ev' w Hs) as [H1 H2], (IH (happens ev' w) ltac:(by apply sound_happens)) as [H3 H4].
    split; [done|(etransitivity; eassumption)]. }
  destruct ev as [k|i ev|k]; [by apply sound_same|exact (Hev (Read i ev))|exact (Hev (Deadline k))].
Qed.

Lemma sound_select {A} evs (cases : nat → W → option (A * W)) late (P : A → W → Prop) w :
  sound w →
  (∀ k w1 a w2, sound w1 → grows w w1 → cases k w1 = Some (a, w2) → sound w2 ∧ grows w1 w2 ∧ P a w2) →
  (∀ w1, sound w1 → grows w w1 → sound (late w1).2 ∧ grows w1 (late w1).2 ∧ P (late w1).1 (late w1).2) →
  (∀ a w1 w2, peers w2 = peers w1 → chans w2 = chans w1 → P a w1 → P a w2) →
  let '(a, w') := select_in evs cases late w in sound w' ∧ grows w w' ∧ P a w'.
Proof.
  intros Hs Hc Hl HP.
  enough (∀ w1, sound w1 → grows w w1 → let '(a, w') := select_in evs cases late w1 in sound w' ∧ grows w1 w' ∧ P a w') as H
    by (by apply H).
  induction evs as [|ev evs IH]; intros w1 Hs1 Hg1; cbn [select_in].
  - destruct (sound_same w1 (set_sched [] w1)) as [H1 H2]; [done..|].
    destruct (Hl (set_sched [] w1) H1) as (H3 & H4 & H5); [(etransitivity; eassumption)|].
    destruct (late (set_sched [] w1)) as [a w2]. cbn in *. split_and!; [done|(etransitivity; eassumption)|done].
  - assert (Hev : ∀ ev, let '(a, w') := select_in evs cases late (happens ev w1) in sound w' ∧ grows w1 w' ∧ P a w').
    { intros ev'. destruct (sound_happens ev' w1 Hs1) as [H1 H2]. specialize (IH _ H1 ltac:(etransitivity; eassumption)).
      destruct (select_in evs cases late (happens ev' w1)) as [a w2]. destruct IH as (H3 & H4 & H5). split_and!; [done|(etransitivity; eassumption)|done]. }
    destruct ev as [k|i ev|k]; [|exact (Hev (Read i ev))|exact (Hev (Deadline k))].
    destruct (cases k w1) as [[a w2]|] eqn:E; [|by apply IH].
    destruct (Hc k w1 a w2 Hs1 Hg1 E) as (H1 & H2 & H3).
    destruct (sound_same w2 (set_sched evs w2)) as [H4 H5]; [done..|]. split_and!; [done|(etransitivity; eassumption)|]. by apply (HP _ w2).
Qed.

Lemma wp_turn w (Q : unit → W → Prop) : sound w → (∀ w', sound w' → grows w w' → Q tt w') → wp turn Q w.
Proof. intros Hs HQ. destruct (sound_pump (e_sched w) w Hs) as [H1 H2]. exact (HQ _ H1 H2). Qed.

Lemma good_with_peer {A} i (dflt : A) (m : M (peer NW) A) :
  (∀ p, dispatched (cl (m p).2) = dispatched (cl p)) → good (with_peer i dflt m) (λ _ _ _, True).
Proof.
  intros Hm w Hs. unfold wp, with_peer. destruct (peers w !! i) as [p|] eqn:Hi; [|done].
  specialize (Hm p). destruct (m p) as [a p'] eqn:E. cbn in *.
  destruct (sound_peer w i p p' [] Hs Hi) as [H1 H2]; [by rewrite app_nil_r|done].
Qed.

(** *** The operations *)

Lemma good_Send i msg : good (client_Send i msg) (λ _ _ _, True).
Proof.
  intros w Hs. unfold client_Send. wp_pure. apply wp_turn; [done|]. intros w1 Hs1 Hg1.
  eapply wp_mono; [apply good_with_peer; [|done]|].
  - intros p. unfold on_client. destruct (Send msg (cl p)) as [e c] eqn:E. by apply Send_spec in E as (_ & _ & E & _).
  - intros a w2 (H1 & H2 & _). split_and!; [done|(etransitivity; eassumption)|done].
Qed.

Lemma good_Close i : good (client_Close i) (λ _ _ _, True).
Proof.
  intros w Hs. unfold client_Close. wp_pure. apply wp_turn; [done|]. intros w1 Hs1 Hg1. wp_pure.
  eapply wp_mono; [apply good_with_peer; [|done]|].
  - intros p. unfold on_client. destruct (Close (cl p)) as [e c] eqn:E.
    assert (Hw : wp Close (λ _ c', dispatched c' = dispatched (cl p)) (cl p)) by (apply wp_client_Close; done).
    by apply (wp_run _ _ _ _ _ Hw) in E.
  - intros a w2 (H1 & H2 & _). wp_pure. split_and!; [done|(etransitivity; eassumption)|done].
Qed.

(** A new client is none of those there were. *)
Lemma good_New : good client_New (λ w r w', match r with
  | Ok i => is_Some (peers w' !! i) ∧ ∀ j, is_Some (peers w !! j) → j ≠ i
  | Err _ => True end).
Proof.
  intros w Hs. unfold client_New. wp_pure. apply wp_turn; [done|]. intros w1 Hs1 Hg1. unfold wp.
  destruct (dials w1) as [|d ds]; [done|]. destruct (sound_same w1 (set_dials ds w1)) as [H1 H2]; [done..|].
  destruct (dial d) as [p|e]; cbn; [|split_and!; [done|(etransitivity; eassumption)|done]].
  assert (Hg : grows (set_dials ds w1) (set_peers (peers w1 ++ [p]) (set_dials ds w1))).
  { split; [|done]. intros i q Hi. exists q, []. rewrite app_nil_r. split; [|done]. cbn. by apply lookup_app_l_Some. }
  split_and!; [|(etransitivity; [eassumption|]; etransitivity; eassumption)|..].
  - split; [apply H1|]. intros ch c v Hc Hv. eapply heard_mono; [exact Hg|]. by apply (sd_buf _ H1 ch).
  - rewrite lookup_app_r, Nat.sub_diag by done. by eexists.
  - intros j [q Hj] ->. destruct Hg1 as [P _]. destruct (P _ q Hj) as (q' & _ & Hq & _). apply lookup_lt_Some in Hq. lia.
Qed.

Lemma good_WithTimeout ctx : good (WithTimeout ctx) (λ _ _ _, True).
Proof. intros w Hs. unfold wp, WithTimeout. destruct (sound_same w (set_deadlines (S (deadlines w)) w)); done. Qed.
Lemma good_time_now : good time_now (λ _ _ _, True).
Proof. intros w Hs. unfold wp, time_now. destruct (e_clock w) as [|t ts]; [done|]. destruct (sound_same w (set_times ts w)); done. Qed.

Lemma good_listen i t x : good (listen i t x) (λ _ ch w', owner w' ch i t x).
Proof.
  intros w Hs. unfold listen. wp_pure. apply wp_turn; [done|]. intros w1 Hs1 Hg1. wp_pure.
  eapply wp_mono; [by apply good_with_peer; [|done]|]. intros [] w2 ([S1 S2] & Hg2 & _). unfold wp. cbn.
  set (w3 := set_on _ _).
  assert (Hown : owner w3 (length (chans w2)) i t x).
  { exists (Channel i t x []). cbn. by rewrite lookup_app_r, Nat.sub_diag. }
  assert (Hg : grows w2 w3).
  { split; [intros j q Hj; exists q, []; by rewrite app_nil_r|]. intros ch j t' x' (c & Hc & E). exists c. split; [|done].
    cbn. by apply lookup_app_l_Some. }
  split_and!; [|(etransitivity; [eassumption|]; etransitivity; eassumption)|done]. split.
  - intros j t' ch Hon. cbn in Hon. apply lookup_insert_Some in Hon as [[E <-]|[_ Hon]].
    + injection E as <- <-. by exists x.
    + destruct (S1 j t' ch Hon) as (x' & Ho). exists x'. by apply Hg.
  - intros ch c v Hc Hv. eapply heard_mono; [exact Hg|]. cbn in Hc. apply lookup_app_Some in Hc as [Hc|[_ Hc]]; [by apply (S2 ch)|].
    apply list_lookup_singleton_Some in Hc as [_ <-]. by apply elem_of_nil in Hv.
Qed.

Lemma recv_from_sound ch i t x w v w' :
  sound w → owner w ch i t x → recv_from ch w = Some (v, w') → sound w' ∧ grows w w' ∧ heard w' i t x v.
Proof.
  intros Hs (c & Hc & <- & <- & <-). unfold recv_from. rewrite Hc. cbn. destruct (ch_buf c) as [|v' rest] eqn:Eb; [done|].
  intros [= <- <-]. pose proof Hs as [S1 S2]. set (c' := Channel _ _ _ rest).
  assert (Hlt : (ch < length (chans w))%nat) by (by eapply lookup_lt_Some).
  assert (Hg : grows w (set_chans (<[ch := c']> (chans w)) w)).
  { split; [intros j q Hj; exists q, []; by rewrite app_nil_r|]. intros ch' j t' x' (d & Hd & E).
    destruct (decide (ch = ch')) as [->|Hne]; unfold owner; cbn.
    - exists c'. rewrite list_lookup_insert_eq by done. rewrite Hc in Hd. injection Hd as <-. done.
    - exists d. by rewrite list_lookup_insert_ne. }
  split_and!; [|done|].
  - split.
    + intros j t' ch' Hon. destruct (S1 j t' ch' Hon) as (x' & Ho). exists x'. by apply Hg.
    + intros ch' d v'' Hd Hv. eapply heard_mono; [exact Hg|]. cbn in Hd.
      apply list_lookup_insert_Some in Hd as [(<- & <- & _)|[_ Hd]]; [|by apply (S2 ch')]. cbn in *. apply (S2 ch); [done|].
      rewrite Eb. by right.
  - eapply heard_mono; [exact Hg|]. apply (S2 ch); [done|]. rewrite Eb. by left.
Qed.

Lemma wp_receive ch ctx i t x w :
  sound w → owner w ch i t x →
  wp (receive ch ctx) (λ r w', sound w' ∧ grows w w' ∧ match r with Some v => heard w' i t x v | None => True end) w.
Proof.
  intros Hs Ho. unfold wp, receive, select.
  pose proof (sound_select (e_sched w)
    (λ k w, match k with
            | O => '(v, w) ← recv_from ch w; Some (Some v, w)
            | _ => if ctx_over ctx w then Some (None, w) else None
            end)
    (λ w, match recv_from ch w with Some (v, w) => (Some v, w) | None => (None, w) end)
    (λ r w', match r with Some v => heard w' i t x v | None => True end) w Hs) as H.
  destruct (select_in _ _ _ w) as [r w']. apply H; clear H.
  - intros k w1 a w2 Hs1 Hg1 E. destruct k.
    + destruct (recv_from ch w1) as [[v w3]|] eqn:Er; [|done]. cbn in E. injection E as <- <-.
      eapply recv_from_sound; [done| |done]. by apply Hg1.
    + destruct (ctx_over ctx w1); [|done]. by injection E as <- <-.
  - intros w1 Hs1 Hg1. destruct (recv_from ch w1) as [[v w3]|] eqn:Er; [|done]. cbn.
    eapply recv_from_sound; [done| |done]. by apply Hg1.
  - intros [v|] w1 w2 E1 E2; [|done]. unfold heard. by rewrite E1.
Qed.

Lemma good_WaitForSession i ctx : good (WaitForSession i ctx) (λ _ _ _, True).
Proof.
  intros w Hs. unfold wp, WaitForSession, select. match goal with |- context [select_in _ ?c ?l _] => 
    pose proof (sound_select (e_sched w) c l (λ _ _, True) w Hs) as H; destruct (select_in (e_sched w) c l w) as [r w'] end.
  apply H; clear H; [|done|done]. intros k w1 a w2 Hs1 Hg1 E. apply bind_Some in E as (r' & _ & E). by injection E as <- <-.
Qed.
End evidence.

(** Moves what is known of earlier worlds to the latest. *)
Ltac lift_facts :=
  repeat match goal with
  | G : grows ?w ?w', H : heard ?w _ _ _ _ |- _ => apply (heard_mono _ _ _ _ _ _ G) in H
  | G : grows ?w ?w', H : owner ?w _ _ _ _ |- _ => apply (gr_chans _ _ G) in H
  end.
Ltac grows_tac := repeat first [eassumption | reflexivity | etransitivity; [eassumption|]].
(** One operation of the test. *)
Ltac op lem :=
  wp_pure; eapply wp_mono; [first [apply lem; assumption | eapply lem; eassumption]|];
  let a := fresh "a" in let w := fresh "w" in let Hs := fresh "Hs" in let G := fresh "G" in let Q := fresh "Q" in
  intros a w (Hs & G & Q); lift_facts; cbv beta in Q.
Ltac next_op :=
  match goal with
  | |- wp (bind (client_Send _ _) _) _ _ => op good_Send
  | |- wp (bind (client_Close _) _) _ _ => op good_Close
  | |- wp (bind client_New _) _ _ => op good_New
  | |- wp (bind (WithTimeout _) _) _ _ => op good_WithTimeout
  | |- wp (bind time_now _) _ _ => op good_time_now
  | |- wp (bind (listen _ _ _) _) _ _ => op good_listen
  | |- wp (bind (WaitForSession _ _) _) _ _ => op good_WaitForSession
  | |- wp (bind (receive _ _) _) _ _ => op wp_receive
  | |- wp (match ?x with _ => _ end) _ _ => destruct x eqn:?
  | |- wp (ret _) _ _ => apply wp_ret
  end.

Section scenario345.
Context `{!ClientNet NW, !ClientNetLaws NW}.
Implicit Types (w : e2e NW).

Lemma heard_unit w i t v : heard w i t XUnit v → heard w i t XUnit "".
Proof. intros (p & raw & Hp & Hin & _). by exists p, raw. Qed.

Lemma good_match_clients ctx a b tags :
  good (NW := NW) (match_clients ctx a b tags) (λ _ r w', match r with
    | Ok (ida, idb) => heard w' a TypeMatchFound XChatID ida ∧ heard w' b TypeMatchFound XChatID idb
        ∧ heard w' a TypeMatchAccepted XUnit "" ∧ heard w' b TypeMatchAccepted XUnit ""
    | Err _ => True
    end).
Proof.
  intros w Hs. unfold match_clients. repeat next_op; (split; [assumption|split; [grows_tac|]]); try exact I.
  split_and!; try assumption; by eapply heard_unit.
Qed.

Lemma good_chat_messages ctx a b ida idb s3 :
  good (NW := NW) (chat_messages ctx a b ida idb s3) (λ _ r w', let '(s3', s4, s5) := r in s3' = s3
    ∧ (kind s4 = resultPass → heard w' b TypeMessage XText "Hello from A" ∧ heard w' a TypeMessage XText "Hello from B")
    ∧ (kind s5 = resultPass → heard w' b TypePartnerLeft XUnit "")).
Proof.
  intros w Hs. unfold chat_messages, end_chat.
  repeat next_op; (split; [assumption|split; [grows_tac|split; [done|]]]).
  all: repeat match goal with H : bool_decide (_ ≠ _) = false |- _ => apply bool_decide_eq_false, dec_stable in H; subst end.
  all: split; intros Hk; try discriminate Hk; try split; try assumption; by eapply heard_unit.
Qed.

Lemma good_defer {A} i (m : M (e2e NW) A) (Q : A → e2e NW → Prop) w :
  (∀ a w1 w2, grows w1 w2 → Q a w1 → Q a w2) →
  wp m (λ a w', sound w' ∧ grows w w' ∧ Q a w') w →
  wp (deferClose i m) (λ a w', sound w' ∧ grows w w' ∧ Q a w') w.
Proof.
  intros HQ Hm. unfold deferClose. wp_pure. eapply wp_mono; [exact Hm|]. intros a w1 (Hs1 & Hg1 & H1).
  op good_Close. wp_pure. split; [done|split; [grows_tac|]]. by eapply HQ.
Qed.

(** C39: A pass of the end-to-end test is evidence: if the matching scenario passes,
    two different clients were each handed a match_found frame with a chat id and a
    match_accepted frame; if the chat scenario passes as well, the second client was
    handed the message "Hello from A" and the first "Hello from B"; and if the last
    one passes, the second client was handed partner_left.  No interleaving of
    frames, deadlines and handlers makes a scenario pass without them. *)
Theorem e2e_pass_is_evidence ctx w :
  sound w →
  let '((s3, s4, s5), w') := scenario345MatchChatEnd ctx w in
  kind s3 = resultPass →
  ∃ a b ida idb, a ≠ b
    ∧ heard w' a TypeMatchFound XChatID ida ∧ heard w' b TypeMatchFound XChatID idb
    ∧ heard w' a TypeMatchAccepted XUnit "" ∧ heard w' b TypeMatchAccepted XUnit ""
    ∧ (kind s4 = resultPass → heard w' b TypeMessage XText "Hello from A" ∧ heard w' a TypeMessage XText "Hello from B")
    ∧ (kind s5 = resultPass → heard w' b TypePartnerLeft XUnit "").
Proof.
  intros Hs.
  set (P := λ (r : scenarioResult * scenarioResult * scenarioResult) (w' : e2e NW), let '(s3, s4, s5) := r in
    kind s3 = resultPass →
    ∃ a b ida idb, a ≠ b
      ∧ heard w' a TypeMatchFound XChatID ida ∧ heard w' b TypeMatchFound XChatID idb
      ∧ heard w' a TypeMatchAccepted XUnit "" ∧ heard w' b TypeMatchAccepted XUnit ""
      ∧ (kind s4 = resultPass → heard w' b TypeMessage XText "Hello from A" ∧ heard w' a TypeMessage XText "Hello from B")
      ∧ (kind s5 = resultPass → heard w' b TypePartnerLeft XUnit "")).
  assert (HP : ∀ r w1 w2, grows w1 w2 → P r w1 → P r w2).
  { intros [[s3 s4] s5] w1 w2 Hg H Hk. destruct (H Hk) as (a & b & ida & idb & Hab & H1 & H2 & H3 & H4 & H5 & H6).
    exists a, b, ida, idb. split_and!; try done; try (by eapply heard_mono).
    - intros Hk4. destruct (H5 Hk4). split; by eapply heard_mono.
    - intros Hk5. eapply heard_mono; [done|auto]. }
  enough (wp (scenario345MatchChatEnd ctx) (λ r w', sound w' ∧ grows w w' ∧ P r w') w) as H.
  { unfold wp in H. destruct (scenario345MatchChatEnd ctx w) as [[[s3 s4] s5] w']. apply H. }
  unfold scenario345MatchChatEnd. next_op. next_op.
  destruct a0 as [cA|e]; [|apply wp_ret; split; [done|split; [grows_tac|by intros [=]]]].
  destruct Q0 as [Ha _]. eapply wp_mono with (Q := λ r w', sound w' ∧ grows w1 w' ∧ P r w');
    [|intros r w' (? & ? & ?); split; [done|split; [grows_tac|done]]].
  apply good_defer; [done|]. next_op.
  destruct a0 as [cB|e]; [|apply wp_ret; split; [done|split; [grows_tac|by intros [=]]]].
  destruct Q0 as [_ Hab]. specialize (Hab cA Ha).
  eapply wp_mono with (Q := λ r w', sound w' ∧ grows w2 w' ∧ P r w');
    [|intros r w' (? & ? & ?); split; [done|split; [grows_tac|done]]].
  apply good_defer; [done|].
  repeat next_op; try (apply wp_ret; split; [done|split; [grows_tac|by intros [=]]]).
  op good_match_clients. destruct a3 as [[ida idb]|e]; [|apply wp_ret; split; [done|split; [grows_tac|by intros [=]]]].
  destruct Q3 as (F1 & F2 & F3 & F4). next_op. wp_pure. eapply wp_mono; [by apply good_chat_messages|].
  intros [[s3 s4] s5] w' (Hs' & Hg' & -> & H4 & H5). lift_facts. split; [done|split; [grows_tac|]].
  intros _. exists cA, cB, ida, idb. done.
Qed.
End scenario345.

(** ** A run on sockets in memory *)

Definition e2e_frame (type : string) (fields : list (string * json)) : client_event := EvText (Some (JObj (("type", JStr type) :: fields))).
Definition e2e_session (i : nat) : e2e_event := Read i (EvText (Some (session_created_msg "0b5cf5e1-2d0c"))).
Definition e2e_both (a b : nat) (type : string) (fields : list (string * json)) : list e2e_event :=
  [Read a (e2e_frame type fields); Read b (e2e_frame type fields)].
Definition chat_field : list (string * json) := [("chat_id", JStr "chat-0123456789")].

(** Two clients open and get their sessions. *)
Definition e2e_connect (a b : nat) : list e2e_event := [Step 0; Step 0; e2e_session a; e2e_session b; Step 2; Step 2].
(** They are matched. *)
Definition e2e_match (a b : nat) : list e2e_event :=
  replicate 6 (Step 0) ++ e2e_both a b "match_found" chat_field ++ replicate 4 (Step 0)
  ++ e2e_both a b "match_accepted" chat_field ++ [Step 0; Step 0].
Definition e2e_text (text : string) : list (string * json) := [("text", JStr text)].

(** They chat and part. *)
Definition e2e_chat (a b : nat) : list e2e_event :=
  e2e_connect a b ++ e2e_match a b
  ++ replicate 3 (Step 0) ++ [Read b (e2e_frame "message" (e2e_text "Hello from A")); Step 0; Step 0;
       Read a (e2e_frame "message" (e2e_text "Hello from B")); Step 0]
  ++ [Step 0; Step 0; Read b (e2e_frame "partner_left" []); Step 0; Step 0; Step 0; Step 0; Step 0].

Definition e2e_schedule : list e2e_event :=
  replicate 3 (Step 0) ++ e2e_connect 0 1 ++ [Step 0; Step 0] ++ e2e_chat 2 3
  ++ e2e_connect 4 5 ++ e2e_match 4 5 ++ replicate 11 (Step 0) ++ [Read 4 (e2e_frame "rate_limited" []); Step 0; Step 0; Step 0]
  ++ e2e_connect 6 7 ++ e2e_match 6 7 ++ replicate 2 (Step 0) ++ [Read 6 (e2e_frame "error" [("code", JStr "message_blocked")])].

Definition e2e_world (sched : list e2e_event) : e2e (Z * list json) :=
  E2E [] [] ∅ [] 0 sched (replicate 8 (Ok ((0, []), 5)))
    [Response 200 (Ok ("ok", None)); Response 200 (Ok ("", Some (JObj [("count", JNum 3)])));
     Response 200 (Ok ("# HELP x whisper_connections_total 3", None))] [0; 2500000].

(** Against a server that answers, every required scenario passes. *)
Example e2e_passes :
  let '(results, code) := (e2e_main "http://localhost" (e2e_world e2e_schedule)).1 in
  tag <$> results = ["PASS"; "PASS"; "PASS"; "PASS"; "PASS"; "INFO"; "INFO"] ∧ code = 0
  ∧ detail_of <$> drop 2 results =
      [MatchTime "chat-012" 3000000; Text "2 messages exchanged"; Text "clean disconnect";
       Text "rate_limited received after 10 messages"; Text "message_blocked for blocked keyword"].
Proof. vm_compute. done. Qed.

(** The text of scenario 7 is blocked by the server's filter; the texts of
    scenarios 4 and 6 and the default payload of the chat test are not. *)
Example e2e_texts :
  Blocked (Check NewFilter blockedText) = true ∧ Term (Check NewFilter blockedText) = "kill yourself"
  ∧ Forall (λ t, Blocked (Check NewFilter t) = false)
      (["Hello from A"; "Hello from B"] ++ ((λ i, "rapid message " +:+ itoa i) <$> [1; 2; 3; 4; 5; 6; 7; 8; 9; 10])
       ++ [default "" (msg_payload 128)]).
Proof. split; [vm_compute; done|split; [vm_compute; done|]]. repeat (apply Forall_cons_2; [vm_compute; done|]). apply Forall_nil_2. Qed.

(** Against one that stays silent after the handshake, the test fails. *)
Example e2e_fails : (e2e_main "http://localhost" (e2e_world (replicate 3 (Step 0) ++ e2e_connect 0 1))).1.2 = 1.
Proof. vm_compute. done. Qed.

Example e2e_chat_passes :
  let '(s3, s4, s5) := (scenario345MatchChatEnd [0%nat] (e2e_world (e2e_chat 0 1))).1 in kind <$> [s3; s4; s5] = [resultPass; resultPass; resultPass].
Proof. vm_compute. done. Qed.

Lemma e2e_closes_clients_witness :
  Forall (λ p, done (cl p) = true) (peers (e2e_main "http://localhost" (e2e_world e2e_schedule)).2).
Proof. apply e2e_closes_clients. reflexivity. Defined.

Lemma e2e_pass_is_evidence_witness :
  let '((s3, s4, s5), w') := scenario345MatchChatEnd [0%nat] (e2e_world (e2e_chat 0 1)) in
  kind s3 = resultPass →
  ∃ a b ida idb, a ≠ b
    ∧ heard w' a TypeMatchFound XChatID ida ∧ heard w' b TypeMatchFound XChatID idb
    ∧ heard w' a TypeMatchAccepted XUnit "" ∧ heard w' b TypeMatchAccepted XUnit ""
    ∧ (kind s4 = resultPass → heard w' b TypeMessage XText "Hello from A" ∧ heard w' a TypeMessage XText "Hello from B")
    ∧ (kind s5 = resultPass → heard w' b TypePartnerLeft XUnit "").
Proof.
  apply e2e_pass_is_evidence. split; [|done]. intros i t ch H. cbn in H. by rewrite lookup_empty in H.
Defined.
