(* ===== verification/Workers.v ===== *)
(** * The worker pool of the event loop

    The event loop of internal/ws/server.go hands every ready socket to a
    goroutine of a bounded pool.  Here the goroutines run interleaved: a worker
    looks its connection up, claims it by compare-and-swap on the processing
    flag, reads one frame, and releases it, and any other step of the process
    may come in between. *)

From stdpp Require Import base gmap strings numbers relations list_basics list_relations list.
From S2P Require Import Prelude GoStd Json Env Keys MemEnv ChatBuffer Report Filter Protocol Subscriptions Connection App WsServer Handlers HandlerProofs LifeCycle Moves ServerInv.
Open Scope Z_scope.

(** ** The flags *)

Definition flag {NW} (h : hub NW) (l : loc) : option bool := processing <$> heap h !! l.

(** New objects start unclaimed, the flags of old ones stay. *)
Definition flags_hub {NW} (h h' : hub NW) : Prop :=
  ∀ l, flag h' l = flag h l ∨ heap h !! l = None ∧ flag h' l = Some false.

Lemma flags_same {NW} (h h' : hub NW) : heap h' = heap h → flags_hub h h'.
Proof. intros E l. left. unfold flag. by rewrite E. Qed.

Lemma flag_None {NW} (h : hub NW) l : flag h l = None ↔ heap h !! l = None.
Proof. unfold flag. apply fmap_None. Qed.

#[export] Instance flags_preorder {NW} : PreOrder (flags_hub (NW := NW)).
Proof.
  split; [intros h l; by left|]. intros h1 h2 h3 H12 H23 l.
  destruct (H23 l) as [->|[Hn ->]]; [apply H12|]. right. split; [|done].
  apply flag_None in Hn. destruct (H12 l) as [E|[? _]]; [|done]. apply flag_None. congruence.
Qed.

Lemma flags_on_net {NW X} (m : M NW X) : moves flags_hub (on_net m).
Proof. intros h. apply flags_same. unfold on_net. by destruct (m (net h)). Qed.

(** A field other than the flag. *)
Lemma flags_update {NW} l f : (∀ c, processing (f c) = processing c) → moves flags_hub (update_conn l f : M (hub NW) unit).
Proof.
  intros Hf h l'. left. unfold flag. cbn. destruct (decide (l' = l)) as [->|Hne].
  - rewrite lookup_alter_eq. destruct (heap h !! l); cbn; [by rewrite Hf|done].
  - by rewrite lookup_alter_ne.
Qed.

#[export] Instance flags_hub_rel `{NetLaws NW} : HubRel (flags_hub (NW := NW)).
Proof.
  split; [apply _|by intros; apply flags_same|by intros; intros h; apply flags_same|by intros; apply flags_update|].
  intros id. unfold Connection.Remove, Close.
  apply moves_bind; [apply _|intros h; reflexivity|]. intros h.
  destruct (byID h !! id); [|apply moves_ret, _].
  apply moves_bind; [apply _|by intros h'; apply flags_same|]. intros _.
  apply moves_bind; [apply _| |intros _; apply moves_ret, _].
  apply moves_bind; [apply _|intros h'; reflexivity|]. intros h'. apply flags_on_net.
Qed.

Section workers.
Context {W NW B D : Type}.
Context `{!Env W, !EnvLaws W, !Net NW, !NetLaws NW, !Broker callback B, !ReportDB D, !Unicode}.
Context (config : ServerConfig) (serverName : string) (hc : HeartbeatConfig) (f : Filter).
Abbreviation A := (app W NW B D).
Implicit Types (s : A).

Definition flags_app (s s' : A) : Prop := flags_hub (conns s) (conns s').

#[export] Instance flags_app_rel : AppRel flags_hub flags_app.
Proof.
  split; try apply _; try (intros; intros ?; by left).
  - split; [intros s; unfold flags_app; reflexivity|]. intros s1 s2 s3. unfold flags_app. apply transitivity.
  - by intros s h Hh.
  - intros c msg s l. left. unfold buffer_Add. by destruct (ChatBuffer.Add _ _ _).
  - intros c s l. left. unfold buffer_Get. by destruct (ChatBuffer.Get _ _).
Qed.

(** ** The pool *)

(** Where a worker is: dispatched, after the lookup, after the swap, after the
    frame. *)
Inductive pc : Type := Spawned | Found (c : loc) | Inside (c : loc) | Leaving (c : loc).

(** The process and its running workers, each with a slot of the pool. *)
Abbreviation pool := (A * gmap nat (sock * pc))%type.

Inductive pool_step : pool → pool → Prop :=
  (** the event loop takes a slot and starts a goroutine *)
  | w_spawn s ws i x :
      ws !! i = None → Z.of_nat (size ws) < WorkerPoolSize config →
      pool_step (s, ws) (s, <[i := (x, Spawned)]> ws)
  (** GetByConn *)
  | w_lookup s ws i x c s' :
      ws !! i = Some (x, Spawned) → on_conns (GetByConn x) s = (Some c, s') →
      pool_step (s, ws) (s', <[i := (x, Found c)]> ws)
  | w_unknown s ws i x s' :
      ws !! i = Some (x, Spawned) → on_conns (GetByConn x) s = (None, s') →
      pool_step (s, ws) (s', delete i ws)
  (** CompareAndSwap *)
  | w_claim s ws i x c :
      ws !! i = Some (x, Found c) → processing (deref (conns s) c) = false →
      pool_step (s, ws) ((on_conns (update_conn c (set_processing true)) s).2, <[i := (x, Inside c)]> ws)
  | w_busy s ws i x c :
      ws !! i = Some (x, Found c) → processing (deref (conns s) c) = true →
      pool_step (s, ws) (s, delete i ws)
  (** the frame *)
  | w_read s ws i x c :
      ws !! i = Some (x, Inside c) →
      pool_step (s, ws) ((read_frame config onDisconnect (onMessage f) x c s).2, <[i := (x, Leaving c)]> ws)
  (** the deferred store and the release of the slot *)
  | w_leave s ws i x c :
      ws !! i = Some (x, Leaving c) →
      pool_step (s, ws) ((on_conns (update_conn c (set_processing false)) s).2, delete i ws)
  (** anything else the process does *)
  | w_other s s' ws :
      server_step config serverName hc f s s' → pool_step (s, ws) (s', ws).

(** A worker that holds a connection. *)
Definition holds_conn (p : sock * pc) (c : loc) : Prop := p.2 = Inside c ∨ p.2 = Leaving c.
(** A worker that knows a connection. *)
Definition knows (p : sock * pc) (c : loc) : Prop := p.2 = Found c ∨ holds_conn p c.

Record pool_ok (s : A) (ws : gmap nat (sock * pc)) : Prop := {
  po_srv : srv_ok config s;
  po_size : Z.of_nat (size ws) ≤ WorkerPoolSize config;
  po_known : ∀ i p c, ws !! i = Some p → knows p c → is_Some (heap (conns s) !! c);
  po_flag : ∀ c, flag (conns s) c = Some true → ∃ i p, ws !! i = Some p ∧ holds_conn p c;
  po_held : ∀ i p c, ws !! i = Some p → holds_conn p c → flag (conns s) c = Some true;
  po_unique : ∀ i j p q c, ws !! i = Some p → ws !! j = Some q → holds_conn p c → holds_conn q c → i = j;
}.

(** ** Steps of the process keep the flags *)

Lemma flags_handleUpgrade : moves flags_app (handleUpgrade config serverName).
Proof.
  assert (Hc : ∀ X (m : M (hub NW) X), moves flags_hub m → moves flags_app (on_conns m))
    by (intros; by apply (mv_conns flags_hub flags_app)).
  unfold handleUpgrade. apply moves_bind; [apply _|apply (mv_get flags_hub flags_app)|]. intros s.
  destruct (draining s); [apply moves_ret, _|].
  apply moves_bind; [apply _|apply Hc; auto with mv|]. intros n. destruct (bool_decide _); [apply moves_ret, _|].
  apply moves_bind; [apply _|apply Hc, flags_on_net|]. intros [x|e]; [|apply moves_ret, _].
  apply moves_bind; [apply _|apply Hc; auto with mv|]. intros fd.
  apply moves_bind; [apply _|apply (mv_world flags_hub flags_app)|]. intros id.
  apply moves_bind; [apply _|apply (mv_now flags_hub flags_app)|]. intros created.
  apply moves_bind; [apply _|apply (mv_now flags_hub flags_app)|]. intros last.
  apply moves_bind; [apply _| |].
  { apply Hc. unfold register. apply moves_bind; [apply _| |].
    - intros h l. unfold flag. cbn. destruct (decide (l = fresh (dom (heap h)))) as [->|Hne].
      + right. rewrite lookup_insert_eq. split; [|done]. apply not_elem_of_dom, is_fresh.
      + left. by rewrite lookup_insert_ne.
    - intros l. apply moves_bind; [apply _|by intros h; apply flags_same|]. intros _. apply moves_ret, _. }
  intros c. apply moves_bind; [apply _|apply Hc; auto with mv|]. intros n'.
  apply moves_bind; [apply _|apply (mv_metric flags_hub flags_app)|]. intros _.
  apply moves_bind; [apply _|apply Hc; auto with mv|]. intros [e|].
  - apply moves_bind; [apply _|apply Hc; auto with mv|]. intros _. apply moves_ret, _.
  - apply moves_bind; [apply _|apply (mv_world flags_hub flags_app)|]. intros _.
    apply moves_bind; [apply _|apply (mv_reply flags_hub flags_app)|]. intros _. apply moves_ret, _.
Qed.

Lemma flag_update (h : hub NW) c b l :
  flag (update_conn c (set_processing b) h).2 l =
    if decide (l = c) then (λ _, b) <$> flag h l else flag h l.
Proof.
  unfold flag. cbn. destruct (decide (l = c)) as [->|Hne].
  - rewrite lookup_alter_eq. by destruct (heap h !! c).
  - by rewrite lookup_alter_ne.
Qed.

Lemma flags_handleConn x : moves flags_app (handleConn config onDisconnect (onMessage f) x).
Proof.
  unfold handleConn. apply moves_bind; [apply _|apply (mv_conns flags_hub flags_app); auto with mv|].
  intros [c|]; [|apply moves_ret, _]. intros s. unfold bind at 1, get_app. cbn.
  destruct (processing (deref (conns s) c)) eqn:Ep; [cbn; reflexivity|].
  unfold bind at 1, on_conns at 1. cbn. set (s1 := set_conns _ s). unfold bind.
  pose proof (mv_read_frame flags_hub flags_app f config x c s1) as Hr.
  destruct (read_frame _ _ _ x c s1) as [[] s2]. cbn in Hr |- *. unfold flags_app, on_conns. cbn. intros l.
  change (flag (update_conn c (set_processing false) (conns s2)).2 l = flag (conns s) l
    ∨ heap (conns s) !! l = None ∧ flag (update_conn c (set_processing false) (conns s2)).2 l = Some false).
  rewrite flag_update. specialize (Hr l).
  change (flag (conns s2) l = flag (update_conn c (set_processing true) (conns s)).2 l ∨
    heap (update_conn c (set_processing true) (conns s)).2 !! l = None ∧ flag (conns s2) l = Some false) in Hr.
  rewrite flag_update in Hr. rewrite <-flag_None, flag_update in Hr. rewrite <-flag_None.
  unfold deref in Ep. destruct (decide (l = c)) as [->|Hne]; [|exact Hr].
  unfold flag in *. destruct (heap (conns s) !! c) as [co|]; cbn in *.
  - left. destruct Hr as [->|[? _]]; [cbn; by rewrite Ep|done].
  - destruct Hr as [->|[_ ->]]; cbn; [by left|by right].
Qed.

Lemma flags_step s s' : server_step config serverName hc f s s' → flags_app s s'.
Proof.
  intros [s1 _|s1 x|s1 id subj cb data _|s1|s1 w|s1 b|s1 d|s1 n _].
  - apply flags_handleUpgrade.
  - apply flags_handleConn.
  - apply (mv_deliver flags_hub flags_app).
  - apply (mv_checkConnections flags_hub flags_app).
  - by apply flags_same.
  - by apply flags_same.
  - by apply flags_same.
  - by apply flags_same.
Qed.

(** ** The invariant of the pool *)

(** Steps of the process, workers unchanged. *)
Lemma pool_app s s' ws : pool_ok s ws → srv_ok config s' → flags_app s s' → pool_ok s' ws.
Proof.
  intros [P1 P2 P3 P4 P5 P6] Hs Hf.
  assert (Hh : ∀ c, is_Some (heap (conns s) !! c) → flag (conns s') c = flag (conns s) c).
  { intros c Hc. destruct (Hf c) as [E|[E _]]; [done|]. rewrite E in Hc. by destruct Hc. }
  split; try done.
  - intros i p c Hi Hk. pose proof (P3 i p c Hi Hk) as Hc. specialize (Hh c Hc). destruct Hc as [co Hc].
    unfold flag in Hh. rewrite Hc in Hh. by destruct (heap (conns s') !! c).
  - intros c Hc. apply P4. destruct (Hf c) as [E|[_ E]]; congruence.
  - intros i p c Hi Hk. rewrite Hh; [by eapply P5|]. eapply P3; [done|]. by right.
Qed.

(** A worker moves on without holding anything. *)
Lemma pool_insert s ws i p :
  pool_ok s ws → (∀ q c, ws !! i = Some q → ¬ holds_conn q c) → (∀ c, ¬ holds_conn p c) →
  (∀ c, knows p c → is_Some (heap (conns s) !! c)) →
  Z.of_nat (size (<[i := p]> ws)) ≤ WorkerPoolSize config → pool_ok s (<[i := p]> ws).
Proof.
  intros [P1 P2 P3 P4 P5 P6] Hold Hnew Hk Hsz.
  assert (Hin : ∀ j q c, <[i := p]> ws !! j = Some q → holds_conn q c → ws !! j = Some q).
  { intros j q c [[<- <-]|[_ Hj]]%lookup_insert_Some Hc; [by apply Hnew in Hc|done]. }
  split; try done.
  - intros j q c [[<- <-]|[_ Hj]]%lookup_insert_Some Hc; eauto.
  - intros c Hc. destruct (P4 c Hc) as (j & q & Hj & Hq). exists j, q. split; [|done].
    rewrite lookup_insert_ne; [done|]. intros <-. by apply (Hold q c).
  - intros j q c Hj Hc. eauto.
  - intros j k q r c Hj Hk' Hq Hr. eauto.
Qed.

Lemma pool_delete s ws i p :
  pool_ok s ws → ws !! i = Some p → (∀ c, ¬ holds_conn p c) → pool_ok s (delete i ws).
Proof.
  intros [P1 P2 P3 P4 P5 P6] Hi Hp. split; try done.
  - rewrite map_size_delete, Hi. lia.
  - intros j q c [_ Hj]%lookup_delete_Some. eauto.
  - intros c Hc. destruct (P4 c Hc) as (j & q & Hj & Hq). exists j, q. split; [|done].
    rewrite lookup_delete_ne; [done|]. intros <-. simplify_eq. by apply (Hp c).
  - intros j q c [_ Hj]%lookup_delete_Some. eauto.
  - intros j k q r c [_ Hj]%lookup_delete_Some [_ Hk]%lookup_delete_Some. eauto.
Qed.

Lemma size_replace (ws : gmap nat (sock * pc)) i (p q : sock * pc) : ws !! i = Some q → size (<[i := p]> ws) = size ws.
Proof. intros Hi. by rewrite map_size_insert, Hi. Qed.

Lemma srv_processing (s : A) c b : srv_ok config s → srv_ok config (on_conns (update_conn c (set_processing b)) s).2.
Proof. apply (mv_conns srv_hub (srv_rel config)). by apply srv_hub_update. Qed.

Lemma flag_of_claim (s : A) c b l :
  flag (conns (on_conns (update_conn c (set_processing b)) s : unit * A).2) l =
    if decide (l = c) then (λ _, b) <$> flag (conns s) l else flag (conns s) l.
Proof. apply flag_update. Qed.

Lemma heap_of_claim (s : A) c b l :
  is_Some (heap (conns s) !! l) → is_Some (heap (conns (on_conns (update_conn c (set_processing b)) s : unit * A).2) !! l).
Proof. unfold on_conns. cbn. intros Hl. by rewrite lookup_alter_is_Some. Qed.

(** The swap succeeds. *)
Lemma pool_claim s ws i x c :
  pool_ok s ws → ws !! i = Some (x, Found c) → processing (deref (conns s) c) = false →
  pool_ok (on_conns (update_conn c (set_processing true)) s).2 (<[i := (x, Inside c)]> ws).
Proof.
  intros [P1 P2 P3 P4 P5 P6] Hi Hp.
  assert (Hc : flag (conns s) c = Some false).
  { destruct (P3 i _ c Hi ltac:(by left)) as [co Hco]. unfold flag, deref in *. rewrite Hco in *. cbn in *. by rewrite Hp. }
  assert (Hfree : ∀ j q, ws !! j = Some q → ¬ holds_conn q c).
  { intros j q Hj Hq. rewrite (P5 j q c Hj Hq) in Hc. done. }
  split.
  - by apply srv_processing.
  - by rewrite (size_replace _ _ _ _ Hi).
  - intros j q d Hj Hk. apply heap_of_claim. apply lookup_insert_Some in Hj as [[<- <-]|[_ Hj]]; [|eauto].
    eapply P3; [exact Hi|]. left. destruct Hk as [Hk|[Hk|Hk]]; by simplify_eq/=.
  - intros d. rewrite flag_of_claim. destruct (decide (d = c)) as [->|Hne].
    + intros _. exists i, (x, Inside c). split; [apply lookup_insert_eq|by left].
    + intros Hd. destruct (P4 d Hd) as (j & q & Hj & Hq). exists j, q. split; [|done].
      rewrite lookup_insert_ne; [done|]. intros <-. simplify_eq. by destruct Hq.
  - intros j q d [[<- <-]|[_ Hj]]%lookup_insert_Some Hq; rewrite flag_of_claim.
    + destruct Hq; simplify_eq/=. by rewrite decide_True, Hc.
    + rewrite decide_False; [eauto|]. intros ->. by apply (Hfree j q).
  - intros j k q r d [[<- <-]|[Hne Hj]]%lookup_insert_Some [[<- <-]|[Hne' Hk]]%lookup_insert_Some Hq Hr; [done| | |eauto].
    + destruct Hq; simplify_eq/=. by apply (Hfree _ _ Hk) in Hr.
    + destruct Hr; simplify_eq/=. by apply (Hfree _ _ Hj) in Hq.
Qed.

(** A worker that holds its connection reads its frame. *)
Lemma pool_read s ws i x c :
  pool_ok s ws → ws !! i = Some (x, Inside c) → pool_ok s (<[i := (x, Leaving c)]> ws).
Proof.
  intros [P1 P2 P3 P4 P5 P6] Hi.
  assert (Hin : ∀ j q d, <[i := (x, Leaving c)]> ws !! j = Some q → (knows q d → ∃ q', ws !! j = Some q' ∧ knows q' d)
    ∧ (holds_conn q d → ∃ q', ws !! j = Some q' ∧ holds_conn q' d)).
  { intros j q d [[<- <-]|[_ Hj]]%lookup_insert_Some; [|split; eauto].
    unfold knows, holds_conn. split; intros Hq; exists (x, Inside c); (split; [done|]); naive_solver. }
  split; try done.
  - by rewrite (size_replace _ _ _ _ Hi).
  - intros j q d Hj Hk. destruct (Hin j q d Hj) as [H1 _]. destruct (H1 Hk) as (q' & ? & ?). eauto.
  - intros d Hd. destruct (P4 d Hd) as (j & q & Hj & Hq). destruct (decide (i = j)) as [<-|Hne].
    + simplify_eq. exists i, (x, Leaving c). split; [apply lookup_insert_eq|]. destruct Hq; simplify_eq/=. by right.
    + exists j, q. by rewrite lookup_insert_ne.
  - intros j q d Hj Hk. destruct (Hin j q d Hj) as [_ H1]. destruct (H1 Hk) as (q' & ? & ?). eauto.
  - intros j k q r d Hj Hk Hq Hr. destruct (Hin j q d Hj) as [_ H1]. destruct (Hin k r d Hk) as [_ H2].
    destruct (H1 Hq) as (q' & ? & ?). destruct (H2 Hr) as (r' & ? & ?). eauto.
Qed.

(** The deferred store. *)
Lemma pool_leave s ws i x c :
  pool_ok s ws → ws !! i = Some (x, Leaving c) →
  pool_ok (on_conns (update_conn c (set_processing false)) s).2 (delete i ws).
Proof.
  intros [P1 P2 P3 P4 P5 P6] Hi.
  assert (Hnot : ∀ j q, delete i ws !! j = Some q → ¬ holds_conn q c).
  { intros j q [Hne Hj]%lookup_delete_Some Hq. apply Hne. eapply P6; [exact Hi|exact Hj| |exact Hq]. by right. }
  split.
  - by apply srv_processing.
  - rewrite map_size_delete, Hi. lia.
  - intros j q d [_ Hj]%lookup_delete_Some Hk. apply heap_of_claim. eauto.
  - intros d. rewrite flag_of_claim. destruct (decide (d = c)) as [->|Hne]; [by destruct (flag _ c)|].
    intros Hd. destruct (P4 d Hd) as (j & q & Hj & Hq). exists j, q. split; [|done].
    rewrite lookup_delete_ne; [done|]. intros <-. simplify_eq. by destruct Hq; simplify_eq/=.
  - intros j q d Hj Hq. rewrite flag_of_claim. rewrite decide_False; [|intros ->; by apply (Hnot j q)].
    apply lookup_delete_Some in Hj as [_ Hj]. eauto.
  - intros j k q r d [_ Hj]%lookup_delete_Some [_ Hk]%lookup_delete_Some. eauto.
Qed.

(** The lookup finds allocated objects only. *)
Lemma lookup_alloc x s c s' :
  srv_ok config s → on_conns (GetByConn x) s = (Some c, s') → is_Some (heap (conns s') !! c).
Proof.
  intros [Hok _ _ _] E.
  assert (wp (GetByConn x) (λ r h, ∀ l, r = Some l → is_Some (heap h !! l)) (conns s)) as Hw.
  { unfold GetByConn. wp_pure. apply wp_socketFD_any. intros fd n _ _. unfold GetByFd. wp_pure.
    apply wp_get_hub. wp_pure. cbn. intros l Hl. destruct (ok_fd _ Hok _ _ Hl) as (co & Hco & _). by exists co. }
  unfold wp in Hw. unfold on_conns in E. destruct (GetByConn x (conns s)) as [r h]. simplify_eq. cbn in *. eauto.
Qed.

Lemma pool_ok_step p p' : pool_step p p' → pool_ok p.1 p.2 → pool_ok p'.1 p'.2.
Proof.
  intros Hstep Hok. pose proof Hok as [P1 P2 _ _ _ _].
  destruct Hstep as [s ws i x Hi Hsz|s ws i x c s' Hi E|s ws i x s' Hi E|s ws i x c Hi Hp|s ws i x c Hi Hp|s ws i x c Hi
    |s ws i x c Hi|s s' ws Hs]; cbn [fst snd] in *.
  - apply pool_insert; [done|by rewrite Hi|by intros c []|by intros c [|[]]|].
    rewrite map_size_insert_None by done. lia.
  - pose proof (mv_conns srv_hub (srv_rel config) (GetByConn x) ltac:(auto with mv) s) as Hs1.
    pose proof (mv_conns flags_hub flags_app (GetByConn x) ltac:(auto with mv) s) as Hf1. rewrite E in Hs1, Hf1.
    apply pool_insert; [by eapply pool_app; [|apply Hs1|]| | | |].
    + intros q d Hq. rewrite Hi in Hq. injection Hq as <-. by intros [].
    + by intros d [].
    + intros d [Hd|[]]; [|done..]. simplify_eq/=. by eapply lookup_alloc.
    + by rewrite (size_replace _ _ _ _ Hi).
  - pose proof (mv_conns srv_hub (srv_rel config) (GetByConn x) ltac:(auto with mv) s) as Hs1.
    pose proof (mv_conns flags_hub flags_app (GetByConn x) ltac:(auto with mv) s) as Hf1. rewrite E in Hs1, Hf1.
    eapply pool_delete; [by eapply pool_app; [|apply Hs1|]|exact Hi|by intros d []].
  - by apply pool_claim.
  - eapply pool_delete; [done|exact Hi|by intros d []].
  - apply (pool_read _ _ i x c); [|done]. eapply pool_app; [done| |].
    + by apply (mv_read_frame srv_hub (srv_rel config)).
    + apply (mv_read_frame flags_hub flags_app).
  - by apply (pool_leave s ws i x c).
  - eapply pool_app; [done|by eapply step_ok|by apply flags_step].
Qed.

Lemma pool_reach s0 s ws :
  0 ≤ MaxConnections config → 0 ≤ WorkerPoolSize config → initial s0 → rtc pool_step (s0, ∅) (s, ws) → pool_ok s ws.
Proof.
  intros Hmax Hpool Hi Hr.
  assert (∀ p p', rtc pool_step p p' → pool_ok p.1 p.2 → pool_ok p'.1 p'.2) as Hgen.
  { intros p p'. induction 1 as [|p1 p2 p3 H12 _ IH]; [done|]. intros Hok. by eapply IH, pool_ok_step. }
  apply (Hgen _ _ Hr). pose proof (initial_ok config s0 Hmax Hi) as Hs0.
  destruct Hi as (n & _ & Hc & _). split; cbn; try done.
  intros c. rewrite Hc. unfold flag. cbn. by rewrite lookup_empty.
Qed.

(** The worker pool is safe under interleaving: however the goroutines of
    the event loop, the upgrades, the NATS callbacks and the heartbeat are
    interleaved, no more than WorkerPoolSize workers run, no two of them read
    from one connection at the same time, a connection is marked as processing
    exactly while a worker holds it, so that a released one is served again, and
    the registries stay within the limit and no goroutine panics. *)
Theorem workers_exclusive s0 s ws :
  0 ≤ MaxConnections config → 0 ≤ WorkerPoolSize config → initial s0 → rtc pool_step (s0, ∅) (s, ws) →
  Z.of_nat (size ws) ≤ WorkerPoolSize config
  ∧ (∀ i j p q c, ws !! i = Some p → ws !! j = Some q → holds_conn p c → holds_conn q c → i = j)
  ∧ (∀ c co, heap (conns s) !! c = Some co →
       processing co = true ↔ ∃ i p, ws !! i = Some p ∧ holds_conn p c)
  ∧ Z.of_nat (size (byID (conns s))) ≤ MaxConnections config ∧ panicked s = false.
Proof.
  intros Hmax Hpool Hi Hr.
  destruct (pool_reach s0 s ws Hmax Hpool Hi Hr) as [[_ Hl _ Hp] P2 P3 P4 P5 P6].
  split_and!; try done. intros c co Hco.
  assert (Hf : flag (conns s) c = Some (processing co)) by (unfold flag; by rewrite Hco). split.
  - intros Hc. apply P4. by rewrite Hf, Hc.
  - intros (i & p & Hip & Hh). rewrite (P5 i p c Hip Hh) in Hf. by injection Hf.
Qed.
End workers.

(** ** Witness: two workers for one ready socket *)

Definition looked_up : app mem mem_net (mem_broker callback) table := (on_conns (GetByConn 0%nat) one_client).2.
Definition claimed : app mem mem_net (mem_broker callback) table :=
  (on_conns (update_conn 0%nat (set_processing true)) looked_up).2.
Definition two_workers : gmap nat (sock * pc) :=
  <[0%nat := (0%nat, Inside 0%nat)]> (<[0%nat := (0%nat, Found 0%nat)]>
    (<[1%nat := (0%nat, Spawned)]> (<[0%nat := (0%nat, Spawned)]> ∅))).

Lemma workers_exclusive_witness :
  Z.of_nat (size two_workers) ≤ WorkerPoolSize DefaultServerConfig
  ∧ (∀ i j p q c, two_workers !! i = Some p → two_workers !! j = Some q → holds_conn p c → holds_conn q c → i = j)
  ∧ (∀ c co, heap (conns claimed) !! c = Some co →
       processing co = true ↔ ∃ i p, two_workers !! i = Some p ∧ holds_conn p c)
  ∧ Z.of_nat (size (byID (conns claimed))) ≤ MaxConnections DefaultServerConfig ∧ panicked claimed = false.
Proof.
  apply (workers_exclusive DefaultServerConfig "ws-1" DefaultHeartbeatConfig sample_filter empty_app claimed two_workers).
  - done.
  - done.
  - exists (MemNet ∅ [] []). split_and!; [|reflexivity..]. apply map_eq. intros x. by rewrite lookup_empty.
  - eapply rtc_l; [apply w_other, step_upgrade; vm_compute; reflexivity|].
    eapply rtc_l; [apply (w_spawn _ _ _ _ _ _ 0%nat 0%nat); [reflexivity|vm_compute; reflexivity]|].
    eapply rtc_l; [apply (w_spawn _ _ _ _ _ _ 1%nat 0%nat); [reflexivity|vm_compute; reflexivity]|].
    eapply rtc_l; [apply (w_lookup _ _ _ _ _ _ 0%nat 0%nat 0%nat looked_up); [reflexivity|vm_compute; reflexivity]|].
    apply rtc_once. apply w_claim; [reflexivity|vm_compute; reflexivity].
Defined.
