(* ===== verification/EpollOther.v ===== *)
(** * internal/ws/epoll_other.go: readiness without epoll

    The fallback of the platforms other than Linux: a goroutine per connection
    reads one byte to learn that there is data and puts the connection on a
    channel, from which Wait collects.  The monitors, the calls of the server
    and the peers run interleaved; a step is one channel or socket operation. *)

From stdpp Require Import base gmap strings numbers relations sorting list_basics list_relations list fin_maps.
From S2P Require Import Prelude GoStd Connection.
Open Scope Z_scope.

(** ** State *)

(** [conns] is a nil map after Close; nobody closes [readyCh]. *)
Record Epoll : Type := MkEpoll {
  ep_conns : option (gset sock);
  readyCh : list sock;
  readyClosed : bool;
  done : bool;
}.

Definition readyCap : nat := 128.

Definition NewEpoll : Epoll := MkEpoll (Some ∅) [] false false.

(** Where a monitor is: in Read, or in the select that follows it, the last one
    if the read failed. *)
Inductive mon_pc : Type := Reading | Sending (final : bool).

(** The instance, the bytes the sockets hold, the broken sockets, the monitors
    and the call of Wait in progress with what it has collected. *)
Record fallback : Type := Fallback {
  fb_ep : Epoll;
  inbox : gmap sock (list Z);
  broken : gset sock;
  monitors : gmap nat (sock * mon_pc);
  waiting : option (list sock);
}.

Definition start : fallback := Fallback NewEpoll ∅ ∅ ∅ None.

Definition bytes_at (w : fallback) (c : sock) : list Z := default [] (inbox w !! c).

Definition set_fb_ep (e : Epoll) (w : fallback) : fallback := Fallback e (inbox w) (broken w) (monitors w) (waiting w).
Definition set_ready (q : list sock) (w : fallback) : fallback :=
  set_fb_ep (MkEpoll (ep_conns (fb_ep w)) q (readyClosed (fb_ep w)) (done (fb_ep w))) w.
Definition set_inbox (c : sock) (bs : list Z) (w : fallback) : fallback :=
  Fallback (fb_ep w) (<[c := bs]> (inbox w)) (broken w) (monitors w) (waiting w).
Definition set_monitors (m : gmap nat (sock * mon_pc)) (w : fallback) : fallback :=
  Fallback (fb_ep w) (inbox w) (broken w) m (waiting w).
Definition set_waiting (a : option (list sock)) (w : fallback) : fallback :=
  Fallback (fb_ep w) (inbox w) (broken w) (monitors w) a.

(** ** Steps *)

(** What can be seen of a step. *)
Inductive obs : Type :=
  | Arrived (c : sock) (b : Z)
  | Peeked (c : sock) (b : Z)
  | Taken (c : sock) (b : Z)
  | Signalled (c : sock)
  | Returned (cs : list sock)
  | ReturnedClosed.

Inductive outcome : Type :=
  | Next (w : fallback) (os : list obs)
  | Blocks
  | Panics.

Inductive action : Type :=
  (** the peers *)
  | Arrive (c : sock) (b : Z)
  | Break (c : sock)
  (** the server *)
  | CallAdd (c : sock)
  | CallRemove (c : sock)
  | CallClose
  | ReadByte (c : sock)
  | WaitFirst
  | WaitMore
  | WaitReturn
  (** the monitors, the two branches of their select apart *)
  | MonRead (i : nat)
  | MonSend (i : nat)
  | MonDone (i : nat).

(** [e.conns[conn] = struct{}{}] on a nil map panics; then the goroutine. *)
Definition fb_Add (c : sock) (w : fallback) : outcome :=
  match ep_conns (fb_ep w) with
  | None => Panics
  | Some cs =>
      let e := fb_ep w in
      let i := fresh (dom (monitors w)) in
      Next (set_monitors (<[i := (c, Reading)]> (monitors w))
              (set_fb_ep (MkEpoll (Some ({[c]} ∪ cs)) (readyCh e) (readyClosed e) (done e)) w)) []
  end.

(** [delete] on a nil map does nothing. *)
Definition fb_Remove (c : sock) (w : fallback) : outcome :=
  let e := fb_ep w in
  Next (set_fb_ep (MkEpoll ((λ cs, cs ∖ {[c]}) <$> ep_conns e) (readyCh e) (readyClosed e) (done e)) w) [].

(** [close] of a closed channel panics. *)
Definition fb_Close (w : fallback) : outcome :=
  let e := fb_ep w in
  if done e then Panics else Next (set_fb_ep (MkEpoll None (readyCh e) (readyClosed e) true) w) [].

(** Wait, from its first receive to its return; the default branch is taken only
    when the channel has nothing. *)
Definition fb_Wait_first (w : fallback) : outcome :=
  match waiting w, readyCh (fb_ep w) with
  | None, c :: q => Next (set_waiting (Some [c]) (set_ready q w)) []
  | None, [] => if readyClosed (fb_ep w) then Next w [ReturnedClosed] else Blocks
  | Some _, _ => Blocks
  end.
Definition fb_Wait_more (w : fallback) : outcome :=
  match waiting w, readyCh (fb_ep w) with
  | Some cs, c :: q => Next (set_waiting (Some (cs ++ [c])) (set_ready q w)) []
  | _, _ => Blocks
  end.
Definition fb_Wait_return (w : fallback) : outcome :=
  match waiting w, readyCh (fb_ep w) with
  | Some cs, [] => Next (set_waiting None w) [Returned cs]
  | _, _ => Blocks
  end.

(** The steps of a monitor: the one-byte Read, which gives the error of a broken
    socket after its bytes, the send and the done branch. *)
Definition monitor_read (i : nat) (w : fallback) : outcome :=
  match monitors w !! i with
  | Some (c, Reading) =>
      match bytes_at w c with
      | b :: bs => Next (set_monitors (<[i := (c, Sending false)]> (monitors w)) (set_inbox c bs w)) [Peeked c b]
      | [] => if bool_decide (c ∈ broken w)
              then Next (set_monitors (<[i := (c, Sending true)]> (monitors w)) w) []
              else Blocks
      end
  | _ => Blocks
  end.
Definition monitor_send (i : nat) (w : fallback) : outcome :=
  match monitors w !! i with
  | Some (c, Sending final) =>
      if bool_decide (length (readyCh (fb_ep w)) < readyCap)%nat then
        let m := if final then delete i (monitors w) else <[i := (c, Reading)]> (monitors w) in
        Next (set_monitors m (set_ready (readyCh (fb_ep w) ++ [c]) w)) [Signalled c]
      else Blocks
  | _ => Blocks
  end.
Definition monitor_done (i : nat) (w : fallback) : outcome :=
  match monitors w !! i with
  | Some (c, Sending _) => if done (fb_ep w) then Next (set_monitors (delete i (monitors w)) w) [] else Blocks
  | _ => Blocks
  end.

(** [socketFD]: there are no descriptors. *)
Definition socketFD_other (c : sock) : Z := -1.

Definition act (a : action) (w : fallback) : outcome :=
  match a with
  | Arrive c b =>
      if bool_decide (c ∈ broken w) then Blocks else Next (set_inbox c (bytes_at w c ++ [b]) w) [Arrived c b]
  | Break c => Next (Fallback (fb_ep w) (inbox w) ({[c]} ∪ broken w) (monitors w) (waiting w)) []
  | CallAdd c => fb_Add c w
  | CallRemove c => fb_Remove c w
  | CallClose => fb_Close w
  | ReadByte c => match bytes_at w c with b :: bs => Next (set_inbox c bs w) [Taken c b] | [] => Blocks end
  | WaitFirst => fb_Wait_first w
  | WaitMore => fb_Wait_more w
  | WaitReturn => fb_Wait_return w
  | MonRead i => monitor_read i w
  | MonSend i => monitor_send i w
  | MonDone i => monitor_done i w
  end.

(** A run; [None] when an action blocks or panics. *)
Fixpoint run (actions : list action) (w : fallback) : option (fallback * list obs) :=
  match actions with
  | [] => Some (w, [])
  | a :: actions =>
      match act a w with
      | Next w1 os => '(w2, os') ← run actions w1; Some (w2, os ++ os')
      | Blocks | Panics => None
      end
  end.

(** What has been observed on the way to a state. *)
Inductive reach : list obs → fallback → Prop :=
  | reach_start : reach [] start
  | reach_act E w a w' os : reach E w → act a w = Next w' os → reach (E ++ os) w'.

Lemma run_reach actions E w w' os : run actions w = Some (w', os) → reach E w → reach (E ++ os) w'.
Proof.
  revert E w w' os. induction actions as [|a actions IH]; intros E w w' os; cbn.
  { intros [= -> <-]. by rewrite app_nil_r. }
  destruct (act a w) as [w1 o| |] eqn:Ha; [|done..].
  intros ([w2 o'] & Hr & [= -> <-])%bind_Some Hw. rewrite app_assoc. eapply IH; [done|]. by eapply reach_act.
Qed.

(** Takes a step apart: which monitor, which bytes, which branch. *)
Ltac inv_act H :=
  unfold act, fb_Add, fb_Remove, fb_Close, fb_Wait_first, fb_Wait_more, fb_Wait_return, monitor_read, monitor_send,
    monitor_done in H;
  repeat match type of H with
  | context [match ?x with _ => _ end] => destruct x eqn:?
  end; try discriminate H; injection H as <- <-;
  repeat match goal with
  | E : bool_decide _ = true |- _ => apply bool_decide_eq_true_1 in E
  | E : bool_decide _ = false |- _ => apply bool_decide_eq_false_1 in E
  end.

(** ** The channel *)

Definition signal_of (o : obs) : option sock := match o with Signalled c => Some c | _ => None end.
Definition batch_of (o : obs) : option (list sock) := match o with Returned cs => Some cs | _ => None end.
(** The connections signalled, and the answers of Wait. *)
Definition signals (E : list obs) : list sock := omap signal_of E.
Definition batches (E : list obs) : list (list sock) := omap batch_of E.

Record channel_ok (E : list obs) (w : fallback) : Prop := {
  co_fifo : signals E = concat (batches E) ++ default [] (waiting w) ++ readyCh (fb_ep w);
  co_cap : (length (readyCh (fb_ep w)) ≤ readyCap)%nat;
  co_open : readyClosed (fb_ep w) = false;
  co_batches : Forall (λ cs, cs ≠ []) (batches E);
  co_waiting : waiting w ≠ Some [];
  co_never_closed : ReturnedClosed ∉ E;
}.

Lemma channel_reach E w : reach E w → channel_ok E w.
Proof.
  induction 1 as [|E w a w' os _ [H1 H2 H3 H4 H5 H6] Ha].
  { split; cbn; try done; [lia|apply not_elem_of_nil]. }
  destruct a; inv_act Ha; rewrite ?app_nil_r;
    (split; cbn; unfold signals, batches; rewrite ?omap_app; cbn; rewrite ?app_nil_r; try done);
    fold (signals E) (batches E); rewrite ?H1.
  all: repeat match goal with
    | E : waiting _ = _ |- _ => rewrite E in *
    | E : readyCh _ = _ |- _ => rewrite E in *
    end; cbn in *; rewrite <-?app_assoc, ?app_nil_r; try done; try congruence; try lia.
  all: try (apply not_elem_of_app; split; [done|]; rewrite ?list_elem_of_singleton; try done; apply not_elem_of_nil).
  all: rewrite ?length_app; cbn; try lia.
  - by intros [= ?%app_nil]; naive_solver.
  - rewrite concat_app. cbn. by rewrite app_nil_r.
  - apply Forall_app. split; [done|]. constructor; [congruence|constructor].
Qed.

(** ** The bytes *)

(** The bytes that arrived on a connection; those read from it, each with whether
    a monitor took it; those the server got. *)
Definition arrival_of (c : sock) (o : obs) : option Z :=
  match o with Arrived d b => if bool_decide (d = c) then Some b else None | _ => None end.
Definition read_of (c : sock) (o : obs) : option (bool * Z) :=
  match o with
  | Peeked d b => if bool_decide (d = c) then Some (true, b) else None
  | Taken d b => if bool_decide (d = c) then Some (false, b) else None
  | _ => None
  end.
Definition arrivals (c : sock) (E : list obs) : list Z := omap (arrival_of c) E.
Definition reads (c : sock) (E : list obs) : list (bool * Z) := omap (read_of c) E.
Definition taken (c : sock) (E : list obs) : list Z :=
  omap (λ p : bool * Z, if p.1 then None else Some p.2) (reads c E).

Lemma bytes_at_inbox c d bs w : bytes_at (set_inbox c bs w) d = if decide (c = d) then bs else bytes_at w d.
Proof.
  unfold bytes_at. cbn. destruct (decide (c = d)) as [->|].
  - by rewrite lookup_insert_eq.
  - by rewrite lookup_insert_ne.
Qed.

Lemma bytes_monitors m w d : bytes_at (set_monitors m w) d = bytes_at w d.
Proof. done. Qed.

(** Bytes are read in the order of their arrival. *)
Lemma bytes_reach E w c : reach E w → arrivals c E = (reads c E).*2 ++ bytes_at w c.
Proof.
  induction 1 as [|E w a w' os _ IH Ha]; [done|].
  unfold arrivals, reads in *. rewrite !omap_app, IH, fmap_app, <-!app_assoc. f_equal.
  destruct a; inv_act Ha; cbn; rewrite ?app_nil_r, ?bytes_monitors; try done; rewrite ?bytes_at_inbox; try done;
    unfold arrival_of, read_of; cbn; case_bool_decide; subst; rewrite ?decide_True by done; rewrite ?decide_False by done;
    rewrite ?app_nil_r; by try congruence.
Qed.

(** A monitor past a successful read has taken a byte; one past a failed read too,
    unless the connection broke before sending any. *)
Definition spent (E : list obs) (w : fallback) (c : sock) : Prop :=
  (∃ b, Peeked c b ∈ E) ∨ c ∈ broken w ∧ bytes_at w c = [].

Lemma spent_step E w a w' os c : act a w = Next w' os → spent E w c → spent (E ++ os) w' c.
Proof.
  intros Ha [[b Hb]|[Hb Hi]]; [left; exists b; set_solver|].
  assert (broken w ⊆ broken w' ∧ (∀ d, d ∈ broken w → bytes_at w d = [] → bytes_at w' d = [])) as [H1 H2].
  { destruct a; inv_act Ha; cbn; (split; [try done; set_solver|]); intros d Hd Hz; try done;
      rewrite ?bytes_monitors, ?bytes_at_inbox; try done; destruct (decide _); by subst; congruence. }
  right. split; [set_solver|auto].
Qed.

Record peek_ok (E : list obs) (w : fallback) : Prop := {
  pk_mon : ∀ i c final, monitors w !! i = Some (c, Sending final) → spent E w c;
  pk_signal : ∀ c, Signalled c ∈ E → spent E w c;
}.

Lemma peek_reach E w : reach E w → peek_ok E w.
Proof.
  induction 1 as [|E w a w' os _ [H1 H2] Ha]; [split; [done|by intros c ?%elem_of_nil]|].
  assert (∀ c, spent E w c → spent (E ++ os) w' c) as Hs by (intros c; by apply (spent_step E w a)).
  split.
  - intros i c final Hi. destruct a; inv_act Ha; cbn in Hi;
      try match type of Hi with
      | <[_ := _]> _ !! _ = _ => apply lookup_insert_Some in Hi as [[<- Hi]|[_ Hi]]
      | delete _ _ !! _ = _ => apply lookup_delete_Some in Hi as [_ Hi]
      end; try by eauto.
    + simplify_eq. by right.
    + simplify_eq. left. exists z. set_solver.
  - intros c [Hc|Hc]%elem_of_app; [by auto|].
    destruct a; inv_act Ha; rewrite ?list_elem_of_singleton in Hc; try by apply elem_of_nil in Hc.
    all: simplify_eq; by eauto.
Qed.

(** The server reads from a connection only what Wait has returned. *)
Definition polite (E : list obs) : Prop :=
  ∀ E1 c b E2, E = E1 ++ Taken c b :: E2 → c ∈ concat (batches E1).

Lemma polite_prefix E os : polite (E ++ os) → polite E.
Proof. intros HP E1 c b E2 ->. apply (HP E1 c b (E2 ++ os)). by rewrite <-app_assoc. Qed.

Lemma batch_signalled E w c : reach E w → c ∈ concat (batches E) → Signalled c ∈ E.
Proof.
  intros Hr Hc. destruct (channel_reach _ _ Hr) as [H1 _ _ _ _ _].
  assert (c ∈ signals E) as (o & Ho & Hs)%list_elem_of_omap by (rewrite H1; set_solver). by destruct o; simplify_eq/=.
Qed.

(** The first read of a connection is the one of its monitor. *)
Lemma first_read_peek E w c : reach E w → polite E → reads c E = [] ∨ ∃ b l, reads c E = (true, b) :: l.
Proof.
  induction 1 as [|E w a w' os Hr IH Ha]; intros HP; [by left|].
  specialize (IH (polite_prefix _ _ HP)). unfold reads in *. rewrite omap_app. fold (reads c E) in *.
  destruct IH as [IH|(b & l & IH)]; rewrite IH; [|right; by eauto]. cbn.
  destruct a; inv_act Ha; cbn; try (by left); (case_bool_decide; [|by left]); subst.
  2: right; by eauto.
  destruct (pk_signal _ _ (peek_reach _ _ Hr) c) as [[b Hb]|[_ Hb]].
  - eapply batch_signalled; [done|]. by eapply HP.
  - exfalso. assert ((true, b) ∈ reads c E) as Hin; [|rewrite IH in Hin; by apply elem_of_nil in Hin].
    apply list_elem_of_omap. exists (Peeked c b). split; [done|]. cbn. by rewrite bool_decide_true.
  - congruence.
Qed.

Lemma taken_sublist (l : list (bool * Z)) :
  omap (λ p : bool * Z, if p.1 then None else Some p.2) l `sublist_of` l.*2.
Proof. induction l as [|[[] b] l IH]; cbn; by constructor. Qed.

(** ** What Wait promises *)

(** C38: However the monitors, the peers and the calls of the server are
    interleaved, the answers of Wait so far, what the call in progress has
    collected and what is in the channel make up the connections the monitors
    signalled, each once and in their order.  No answer is empty, the channel
    never holds more than 128 entries, and Wait never reports a closed channel,
    as nothing closes it.  The server loses bytes, though: of the bytes that
    arrived on a connection it gets, in their order, some of those after the
    first. *)
Theorem fallback_wait actions w E :
  run actions start = Some (w, E) →
  signals E = concat (batches E) ++ default [] (waiting w) ++ readyCh (fb_ep w)
  ∧ Forall (λ cs, cs ≠ []) (batches E) ∧ (length (readyCh (fb_ep w)) ≤ readyCap)%nat ∧ ReturnedClosed ∉ E
  ∧ (polite E → ∀ c, taken c E `sublist_of` tail (arrivals c E)).
Proof.
  intros Hr. apply (run_reach _ []) in Hr; [|constructor]. cbn in Hr.
  destruct (channel_reach _ _ Hr) as [H1 H2 H3 H4 H5 H6]. split_and!; try done.
  intros HP c. rewrite (bytes_reach _ _ c Hr). unfold taken.
  destruct (first_read_peek _ _ c Hr HP) as [->|(b & l & ->)]; cbn; [apply sublist_nil_l|].
  apply sublist_inserts_r, taken_sublist.
Qed.

(** ** The end of the monitors *)

Definition is_monitor (a : action) : bool :=
  match a with MonRead _ | MonSend _ | MonDone _ => true | _ => false end.

(** Every byte costs a read and a send, every monitor a read that fails and the
    select after it. *)
Definition mon_work (p : sock * mon_pc) : nat :=
  match p.2 with Reading => 2 | Sending false => 3 | Sending true => 1 end.
Definition work (w : fallback) : nat := (2 * map_total length (inbox w) + map_total mon_work (monitors w))%nat.

Lemma monitor_works a w w' os : is_monitor a = true → act a w = Next w' os → (S (work w') ≤ work w)%nat.
Proof.
  intros Hm Ha. destruct a; try discriminate Hm; unfold work.
  all: inv_act Ha; cbn.
  all: rewrite ?map_total_insert.
  all: match goal with Hi : monitors _ !! _ = Some _ |- _ => rewrite (map_total_delete mon_work _ _ _ Hi) end; cbn; try lia.
  - unfold bytes_at in *. destruct (inbox w !! n) as [bs|] eqn:Hb; [|done]. cbn in *. subst.
    rewrite (map_total_delete length _ _ _ Hb). cbn. lia.
  - destruct final; cbn; lia.
Qed.

Lemma monitors_run actions w w' E :
  forallb is_monitor actions = true → run actions w = Some (w', E) → (length actions + work w' ≤ work w)%nat.
Proof.
  revert w w' E. induction actions as [|a actions IH]; intros w w' E; cbn; [intros _ [= -> _]; lia|].
  intros [Ha Has]%andb_true_iff. destruct (act a w) as [w1 os| |] eqn:H1; [|done..].
  intros ([w2 o'] & Hr & [= -> <-])%bind_Some. apply monitor_works in H1; [|done]. apply IH in Hr; [unfold work in *; lia|done].
Qed.

(** A monitor of a broken connection can go on once the instance is closed. *)
Lemma monitor_enabled w i c pc :
  done (fb_ep w) = true → monitors w !! i = Some (c, pc) → c ∈ broken w →
  ∃ a w' os, is_monitor a = true ∧ act a w = Next w' os.
Proof.
  intros Hd Hi Hc. destruct pc as [|final].
  - exists (MonRead i). cbn. unfold monitor_read. rewrite Hi.
    destruct (bytes_at w c); [rewrite bool_decide_true by done|]; by eauto.
  - exists (MonDone i). cbn. unfold monitor_done. rewrite Hi, Hd. by eauto.
Qed.

(** After Close, when the connections are broken, the monitors end: no schedule
    lets them take more steps than [work] counts, and as long as one is left it
    can step. *)
Theorem fallback_monitors_end w :
  done (fb_ep w) = true → (∀ i c pc, monitors w !! i = Some (c, pc) → c ∈ broken w) →
  ∀ actions w' E, forallb is_monitor actions = true → run actions w = Some (w', E) →
    (length actions ≤ work w)%nat
    ∧ (monitors w' = ∅ ∨ ∃ a w'' os, is_monitor a = true ∧ act a w' = Next w'' os).
Proof.
  intros Hd Hb actions w' E Hm Hr. split; [apply monitors_run in Hr; [lia|done]|].
  assert (done (fb_ep w') = true ∧ ∀ i c pc, monitors w' !! i = Some (c, pc) → c ∈ broken w') as [Hd' Hb'].
  { clear -Hd Hb Hm Hr. revert w E Hd Hb Hr. induction actions as [|a actions IH]; intros w E Hd Hb; cbn in *;
      [by intros [= <- _]|].
    apply andb_true_iff in Hm as [Ha Has]. destruct (act a w) as [w1 os| |] eqn:H1; [|done..].
    intros ([w2 o'] & Hr & [= -> <-])%bind_Some. eapply (IH Has w1 _); [..|exact Hr].
    - destruct a; try discriminate Ha; by inv_act H1.
    - intros i c pc Hi. destruct a; try discriminate Ha; inv_act H1; cbn in *;
        first [apply lookup_insert_Some in Hi as [[<- ?]|[_ Hi]]|apply lookup_delete_Some in Hi as [_ Hi]];
        simplify_eq; by eauto. }
  destruct (decide (monitors w' = ∅)) as [?|Hne]; [by left|right].
  apply map_choose in Hne as (i & [c pc] & Hi). eapply monitor_enabled; eauto.
Qed.

(** A closed instance without monitors whose channel is empty. *)
Record drained (w : fallback) : Prop := {
  dr_done : done (fb_ep w) = true;
  dr_conns : ep_conns (fb_ep w) = None;
  dr_ready : readyCh (fb_ep w) = [];
  dr_open : readyClosed (fb_ep w) = false;
  dr_mon : monitors w = ∅;
}.

Lemma drained_step a w w' os : drained w → act a w = Next w' os → drained w'.
Proof.
  intros [H1 H2 H3 H4 H5] Ha. destruct a; inv_act Ha; try congruence; try (by split).
  all: try by (split; cbn; rewrite ?H2).
  all: by rewrite H5 in *.
Qed.

(** Once the instance is closed and its monitors have ended, Wait never returns
    again, whatever the peers and the server do: an event loop that calls it
    after Shutdown stays blocked.  A connection cannot be added any more, as
    the assignment to the nil map panics, and neither can it be closed twice. *)
Theorem fallback_closed w actions w' E :
  drained w → run actions w = Some (w', E) →
  act WaitFirst w' = Blocks ∧ act WaitMore w' = Blocks ∧ (∀ c, act (CallAdd c) w' = Panics)
  ∧ act CallClose w' = Panics.
Proof.
  intros Hw Hr. assert (drained w') as [H1 H2 H3 H4 H5].
  { revert w E Hw Hr. induction actions as [|a actions IH]; intros w E Hw; cbn; [by intros [= <- _]|].
    destruct (act a w) as [w1 os| |] eqn:Ha; [|done..]. intros ([w2 o'] & Hr & [= -> <-])%bind_Some.
    eapply IH; [|exact Hr]. by eapply drained_step. }
  cbn. unfold fb_Wait_first, fb_Wait_more, fb_Add, fb_Close. rewrite H1, H2, H3, H4.
  split_and!; [by destruct (waiting w')|by destruct (waiting w')|done|done].
Qed.

(** ** Runs *)

(** A text frame of one character arrives on a connection, masked as RFC 6455
    wants it.  The monitor takes its first byte, so that the server finds the
    length where it looks for the opcode. *)
Example frame_loses_its_head :
  run ([CallAdd 7%nat] ++ (Arrive 7%nat <$> [129; 129; 1; 2; 3; 4; 105]) ++
       [MonRead 0%nat; MonSend 0%nat; WaitFirst; WaitReturn; ReadByte 7%nat; ReadByte 7%nat]) start
  ≫= (λ p, Some (batches p.2, taken 7%nat p.2, bytes_at p.1 7%nat)) = Some ([[7%nat]], [129; 1], [2; 3; 4; 105]).
Proof. vm_compute. reflexivity. Qed.

(** Remove does not stop the monitor. *)
Example removed_still_signalled :
  run [CallAdd 7%nat; CallRemove 7%nat; Arrive 7%nat 129; MonRead 0%nat; MonSend 0%nat; WaitFirst; WaitReturn] start
  ≫= (λ p, Some (batches p.2, ep_conns (fb_ep p.1))) = Some ([[7%nat]], Some ∅).
Proof. vm_compute. reflexivity. Qed.

Abbreviation frame_actions := ([CallAdd 7%nat] ++ (Arrive 7%nat <$> [129; 129; 1]) ++
  [MonRead 0%nat; MonSend 0%nat; WaitFirst; MonRead 0%nat; MonSend 0%nat; WaitMore; WaitReturn; ReadByte 7%nat]).
Abbreviation frame_run := (default (start, []) (run frame_actions start)).

Lemma fallback_wait_witness :
  signals frame_run.2 = [7; 7]%nat ∧ batches frame_run.2 = [[7; 7]]%nat
  ∧ (polite frame_run.2 → ∀ c, taken c frame_run.2 `sublist_of` tail (arrivals c frame_run.2)).
Proof.
  split; [vm_compute; reflexivity|]. split; [vm_compute; reflexivity|].
  destruct (fallback_wait frame_actions frame_run.1 frame_run.2) as (_ & _ & _ & _ & H); [vm_compute; reflexivity|exact H].
Defined.

(** Shutdown: the instance is closed, the connection broken, and its monitor
    ends. *)
Abbreviation closing := (default (start, []) (run [CallAdd 7%nat; Arrive 7%nat 1; CallClose; Break 7%nat] start)).1.
Abbreviation ended := (default (start, []) (run [MonRead 0%nat; MonDone 0%nat] closing)).1.

Lemma fallback_monitors_end_witness :
  (2 ≤ work closing)%nat ∧ (monitors ended = ∅ ∨ ∃ a w'' os, is_monitor a = true ∧ act a ended = Next w'' os).
Proof.
  apply (fallback_monitors_end closing) with (actions := [MonRead 0%nat; MonDone 0%nat])
    (E := [Peeked 7%nat 1]).
  - vm_compute. reflexivity.
  - intros i c pc Hi. assert (monitors closing = {[0%nat := (7%nat, Reading)]}) as Hm by (vm_compute; reflexivity).
    rewrite Hm in Hi. apply lookup_singleton_Some in Hi as [_ [= <- _]]. apply (bool_decide_unpack _). vm_compute. exact I.
  - reflexivity.
  - vm_compute. reflexivity.
Defined.

Lemma fallback_closed_witness :
  act WaitFirst ended = Blocks ∧ act WaitMore ended = Blocks ∧ (∀ c, act (CallAdd c) ended = Panics)
  ∧ act CallClose ended = Panics.
Proof. apply (fallback_closed ended [] ended []); [|reflexivity]. split; vm_compute; reflexivity. Defined.

(** ** The registry on these platforms *)

Section registry.
Context `{Net NW}.
(** No socket has a raw connection to ask. *)
Context (no_raw : ∀ c (n : NW), (raw_control c n).1 = None).

Lemma socketFD_agrees c (h : hub NW) : (Connection.socketFD c h).1 = socketFD_other c.
Proof.
  unfold Connection.socketFD, on_net, bind, ret. specialize (no_raw c (net h)).
  destruct (raw_control c (net h)) as [r n]. cbn in *. by subst.
Qed.

(** Every connection is registered under the same descriptor: a ready socket,
    whichever it is, is taken for the connection registered last. *)
Theorem lookup_takes_last x id created last (h : hub NW) y :
  let r := register x (socketFD_other x) id created last h in (GetByConn y r.2).1 = Some r.1.
Proof.
  cbn zeta. unfold register, new_conn, Add, get_hub, set_maps, bind, ret, deref. cbn. rewrite lookup_insert_eq. cbn.
  set (h' := Hub _ _ _ _ _). unfold GetByConn, bind.
  pose proof (socketFD_agrees y h') as Hs.
  assert (byFd (Connection.socketFD y h').2 = byFd h') as Hb.
  { unfold Connection.socketFD, on_net, bind, ret. by destruct (raw_control y (net h')). }
  destruct (Connection.socketFD y h') as [fd h'']. cbn in *. subst fd. unfold GetByFd, get_hub, bind, ret. cbn.
  rewrite Hb. cbn. by rewrite lookup_insert_eq.
Qed.
End registry.
