(* ===== verification/EventLoop.v ===== *)
(** * The event loop of the server

    startEventLoop of internal/ws/server.go, statement by statement: the look at
    the done channel, the call of Wait and its errors, and the dispatch of every
    ready connection to a worker, which blocks while the pool is full.  The loop
    runs interleaved with its workers, which Workers.v models one operation at a
    time, with the rest of the process, and with Shutdown, which closes the done
    channel.  handleConn clears the read deadline once it has the header of a
    frame, so the read of the payload can block: [stalled] says that the peer has
    sent a header and holds back the payload. *)

From stdpp Require Import base gmap strings numbers relations list_basics list_relations list.
From S2P Require Import Prelude GoStd Json Env Keys MemEnv ChatBuffer Report Filter Protocol Subscriptions Connection App WsServer Handlers HandlerProofs LifeCycle Moves ServerInv Workers.
Open Scope Z_scope.

(** [isEINTR]: an error is its text, [None] is nil. *)
Definition isEINTR (err : option error) : bool :=
  match err with
  | None => false
  | Some e => bool_decide (e = "interrupted system call") || bool_decide (e = "errno 4")
  end.

(** ** The epoll instance of epoll.go *)

Section instance.
Context `{Net NW}.
(** The system calls on the instance itself: its creation gives a descriptor. *)
Context (EpollCreate1 : M NW (res Z)) (unix_Close : Z → M NW (option error)).

Definition epoll_NewEpoll : M (hub NW) (res Z) :=
  let! r := on_net EpollCreate1 in
  match r with
  | Err err => ret (Err err)
  | Ok fd => do! set_ep ∅ in ret (Ok fd)
  end.

(** A nil map reads like an empty one. *)
Definition epoll_Close (fd : Z) : M (hub NW) (option error) :=
  do! set_ep ∅ in on_net (unix_Close fd).

(** After Close, Wait has no connection to return, whatever the kernel reports. *)
Lemma wait_after_close fd h ready h' :
  epoll_Wait (epoll_Close fd h).2 = (Ok ready, h') → ready = [].
Proof.
  unfold epoll_Close, set_ep, on_net, bind. cbn. destruct (unix_Close fd (net h)) as [e n]. unfold epoll_Wait, on_net, bind. cbn.
  destruct (epoll_wait n) as [[events|err] n']; cbn; [|done]. intros [= <- _].
  induction events as [|x xs IH]; [done|]. cbn. by rewrite lookup_empty.
Qed.
End instance.

Section loop.
Context {W NW B D : Type}.
Context `{!Env W, !EnvLaws W, !Net NW, !NetLaws NW, !Broker callback B, !ReportDB D, !Unicode}.
Context (config : ServerConfig) (serverName : string) (hc : HeartbeatConfig) (f : Filter).
(** The read of this socket blocks. *)
Context (stalled : NW → sock → bool).
Abbreviation A := (app W NW B D).
Implicit Types (s : A).

(** ** The machine *)

(** No worker gets through a read that blocks. *)
Definition reads_return (s : A) (ws ws' : gmap nat (sock * pc)) : Prop :=
  ∀ i x c, ws !! i = Some (x, Inside c) → ws' !! i = Some (x, Leaving c) → stalled (net (conns s)) x = false.

(** Where the loop is: at the first select, in Wait, in the range over the ready
    connections, returned. *)
Inductive loop_pc : Type := LoopTop | InWait | Dispatching (ready : list sock) | LoopReturned.
#[export] Instance loop_pc_eq_dec : EqDecision loop_pc.
Proof. solve_decision. Defined.

(** The server: the process, the workers that hold a slot of workerPool, the done
    channel and the loop. *)
Record Server : Type := MkServer {
  sv_app : A;
  workerPool : gmap nat (sock * pc);
  sv_done : bool;
  sv_loop : loop_pc;
}.

(** NewServer, for the process it is created in: the pool is empty, done is open. *)
Definition NewServer (s : A) : Server := MkServer s ∅ false LoopTop.

(** What can be seen of the loop: an answer of Wait, a worker started, an error
    logged. *)
Inductive loop_obs : Type :=
  | GotReady (ready : list sock)
  | Dispatched (x : sock)
  | LoggedError (e : error).

Inductive loop_step : Server → list loop_obs → Server → Prop :=
  (** the first select *)
  | l_done s ws : loop_step (MkServer s ws true LoopTop) [] (MkServer s ws true LoopReturned)
  | l_default s ws : loop_step (MkServer s ws false LoopTop) [] (MkServer s ws false InWait)
  (** Wait *)
  | l_ready s ws d ready s' :
      on_conns epoll_Wait s = (Ok ready, s') →
      loop_step (MkServer s ws d InWait) [GotReady ready] (MkServer s' ws d (Dispatching ready))
  | l_err_done s ws e s' :
      on_conns epoll_Wait s = (Err e, s') →
      loop_step (MkServer s ws true InWait) [] (MkServer s' ws true LoopReturned)
  | l_err s ws e s' :
      on_conns epoll_Wait s = (Err e, s') →
      loop_step (MkServer s ws false InWait) (if isEINTR (Some e) then [] else [LoggedError e])
        (MkServer s' ws false LoopTop)
  (** the range: the send on workerPool blocks while the pool is full *)
  | l_dispatch s ws d x ready i :
      ws !! i = None → Z.of_nat (size ws) < WorkerPoolSize config →
      loop_step (MkServer s ws d (Dispatching (x :: ready))) [Dispatched x]
        (MkServer s (<[i := (x, Spawned)]> ws) d (Dispatching ready))
  | l_next s ws d : loop_step (MkServer s ws d (Dispatching [])) [] (MkServer s ws d LoopTop)
  (** the workers and the rest of the process: no worker is started *)
  | l_other s ws s' ws' d l :
      pool_step config serverName hc f (s, ws) (s', ws') → (size ws' ≤ size ws)%nat → reads_return s ws ws' →
      loop_step (MkServer s ws d l) [] (MkServer s' ws' d l)
  (** Shutdown closes done *)
  | l_close s ws l : loop_step (MkServer s ws false l) [] (MkServer s ws true l).

Inductive loop_run : Server → list loop_obs → Server → Prop :=
  | lr_nil v : loop_run v [] v
  | lr_step v E v1 os v2 : loop_run v E v1 → loop_step v1 os v2 → loop_run v (E ++ os) v2.

Lemma loop_run_trans v E v1 E' v2 : loop_run v E v1 → loop_run v1 E' v2 → loop_run v (E ++ E') v2.
Proof.
  intros H1. induction 1 as [|v1 E' v3 os v4 _ IH Hs]; [by rewrite app_nil_r|]. rewrite app_assoc. by eapply lr_step; [apply IH|].
Qed.
Lemma loop_run_one v os v' : loop_step v os v' → loop_run v os v'.
Proof. intros Hs. apply (lr_step v [] v os v'); [constructor|done]. Qed.

(** ** The loop is one of the schedules of the pool *)

Lemma wait_quiet s r s' : on_conns epoll_Wait s = (r, s') → server_step config serverName hc f s s'.
Proof.
  unfold on_conns, epoll_Wait, on_net, bind. pose proof (quiet_wait (net (conns s))) as [_ Ho].
  destruct (epoll_wait (net (conns s))) as [[events|e] n]; cbn in *; intros [= _ <-]; by apply step_peers.
Qed.

Lemma loop_simulates v os v' :
  loop_step v os v' → rtc (pool_step config serverName hc f) (sv_app v, workerPool v) (sv_app v', workerPool v').
Proof.
  intros [s ws|s ws|s ws d ready s' Hw|s ws e s' Hw|s ws e s' Hw|s ws d x ready i Hi Hsz|s ws d|s ws s' ws' d l Hp _ _|s ws l]; cbn;
    try apply rtc_refl; apply rtc_once.
  - by eapply w_other, wait_quiet.
  - by eapply w_other, wait_quiet.
  - by eapply w_other, wait_quiet.
  - by apply w_spawn.
  - done.
Qed.

Lemma loop_run_pool v E v' :
  loop_run v E v' → rtc (pool_step config serverName hc f) (sv_app v, workerPool v) (sv_app v', workerPool v').
Proof. induction 1 as [|v E v1 os v2 _ IH Hs]; [apply rtc_refl|]. etrans; [exact IH|by eapply loop_simulates]. Qed.

(** ** Every ready connection is dispatched, once and in order *)

Definition ready_of (o : loop_obs) : option (list sock) := match o with GotReady cs => Some cs | _ => None end.
Definition dispatched_of (o : loop_obs) : option sock := match o with Dispatched x => Some x | _ => None end.
Definition readies (E : list loop_obs) : list (list sock) := omap ready_of E.
Definition dispatched (E : list loop_obs) : list sock := omap dispatched_of E.
Definition pending (l : loop_pc) : list sock := match l with Dispatching ready => ready | _ => [] end.

Lemma dispatch_fifo v E v' :
  loop_run v E v' → pending (sv_loop v) = [] → concat (readies E) = dispatched E ++ pending (sv_loop v').
Proof.
  intros Hr Hv. induction Hr as [|v E v1 os v2 _ IH Hs]; [by rewrite Hv|].
  unfold readies, dispatched in *. rewrite !omap_app, concat_app, IH by done. rewrite <-!app_assoc. f_equal.
  destruct Hs; cbn; rewrite ?app_nil_r; try done. by destruct (_ || _).
Qed.

(** ** After done *)

(** Once done is closed the loop takes at most the answer of the call of Wait it
    is in. *)
Lemma done_no_more v E v' :
  loop_run v E v' → sv_done v = true →
  sv_done v' = true ∧ (length (readies E) ≤ (if decide (sv_loop v = InWait) then 1 else 0))%nat
  ∧ (sv_loop v' = InWait → sv_loop v = InWait ∧ readies E = []).
Proof.
  intros Hr Hd. induction Hr as [|v E v1 os v2 _ IH Hs].
  { cbn. split_and!; [done|destruct (decide _); lia|done]. }
  destruct (IH Hd) as (Hd1 & Hl & Hi). unfold readies in *. rewrite omap_app, length_app.
  destruct Hs; cbn in *; try discriminate Hd1; rewrite ?Nat.add_0_r, ?app_nil_r in *; (split_and!; [done|try done|try done]).
  destruct (Hi eq_refl) as [Hv HE]. rewrite HE, decide_True by done. cbn. lia.
Qed.

(** ** A full pool *)

(** What is left of a worker. *)
Definition steps_left (p : sock * pc) : nat :=
  match p.2 with Spawned => 4 | Found _ => 3 | Inside _ => 2 | Leaving _ => 1 end.

Section returning.
(** No peer holds a payload back. *)
Context (no_stall : ∀ n x, stalled n x = false).

(** A worker can take its next step, which frees its slot or brings it nearer to
    that. *)
Lemma worker_steps s ws i p :
  ws !! i = Some p →
  ∃ s' ws', pool_step config serverName hc f (s, ws) (s', ws') ∧
    (ws' = delete i ws ∨ ∃ q, ws' = <[i := q]> ws ∧ (steps_left q < steps_left p)%nat).
Proof.
  intros Hi. destruct p as [x [|c|c|c]].
  - destruct (on_conns (GetByConn x) s) as [[c|] s'] eqn:E.
    + eexists _, _. split; [by eapply w_lookup|]. right. eexists. split; [done|]. cbn. lia.
    + eexists _, _. split; [by eapply w_unknown|]. by left.
  - destruct (processing (deref (conns s) c)) eqn:E.
    + eexists _, _. split; [by eapply w_busy|]. by left.
    + eexists _, _. split; [by eapply w_claim|]. right. eexists. split; [done|]. cbn. lia.
  - eexists _, _. split; [by eapply w_read|]. right. eexists. split; [done|]. cbn. lia.
  - eexists _, _. split; [by eapply w_leave|]. by left.
Qed.

(** So a slot comes free while the loop waits for one. *)
Lemma slot_freed n s ws d l i p :
  ws !! i = Some p → (steps_left p ≤ n)%nat →
  ∃ s' ws', loop_run (MkServer s ws d l) [] (MkServer s' ws' d l) ∧ (S (size ws') = size ws)%nat.
Proof.
  assert (∀ s ws ws', reads_return s ws ws') as Hret by (intros ? ? ? ? ? ? ? ?; apply no_stall).
  revert s ws p. induction n as [|n IH]; intros s ws p Hi Hn; [destruct p as [? []]; cbn in Hn; lia|].
  destruct (worker_steps s ws i p Hi) as (s1 & ws1 & Hs & [->|(q & -> & Hq)]).
  - exists s1, (delete i ws). assert (size (delete i ws) = (size ws - 1)%nat) as Hsz by (rewrite map_size_delete, Hi; lia).
    assert (size ws ≠ 0%nat) by (intros H0%map_size_empty_inv; subst; done).
    split; [|lia]. apply loop_run_one, l_other; [done|lia|done].
  - pose proof (size_replace ws i q p Hi) as Hsz.
    destruct (IH s1 (<[i := q]> ws) q) as (s2 & ws2 & Hr & H2); [apply lookup_insert_eq|lia|].
    exists s2, ws2. split; [|congruence].
    apply (loop_run_trans _ [] _ [] _ (loop_run_one _ [] _ (l_other s ws s1 (<[i:=q]> ws) d l Hs ltac:(lia) (Hret _ _ _))) Hr).
Qed.

(** The rest of the batch is dispatched. *)
Lemma batch_dispatched s ws d ready :
  0 < WorkerPoolSize config → Z.of_nat (size ws) ≤ WorkerPoolSize config →
  ∃ s' ws', loop_run (MkServer s ws d (Dispatching ready)) (Dispatched <$> ready) (MkServer s' ws' d LoopTop)
    ∧ Z.of_nat (size ws') ≤ WorkerPoolSize config.
Proof.
  intros Hpos. revert s ws. induction ready as [|x ready IH]; intros s ws Hsz.
  { exists s, ws. split; [apply loop_run_one, l_next|done]. }
  assert (∃ s1 ws1, loop_run (MkServer s ws d (Dispatching (x :: ready))) [] (MkServer s1 ws1 d (Dispatching (x :: ready)))
    ∧ Z.of_nat (size ws1) < WorkerPoolSize config) as (s1 & ws1 & Hr1 & Hsz1).
  { destruct (decide (Z.of_nat (size ws) < WorkerPoolSize config)) as [Hlt|Hge]; [exists s, ws; split; [constructor|done]|].
    destruct (decide (ws = ∅)) as [->|(i & p & Hi)%map_choose]; [rewrite map_size_empty in Hge; lia|].
    destruct (slot_freed 4 s ws d (Dispatching (x :: ready)) i p Hi) as (s1 & ws1 & Hr & Hs1).
    - destruct p as [? []]; cbn; lia.
    - exists s1, ws1. split; [done|lia]. }
  set (i := fresh (dom ws1)). assert (ws1 !! i = None) as Hi by (apply not_elem_of_dom, is_fresh).
  destruct (IH s1 (<[i := (x, Spawned)]> ws1)) as (s2 & ws2 & Hr2 & Hsz2).
  { rewrite map_size_insert_None by done. lia. }
  exists s2, ws2. split; [|done].
  apply (loop_run_trans _ [] _ _ _ Hr1). cbn.
  apply (loop_run_trans _ [Dispatched x] _ _ _ (loop_run_one _ _ _ (l_dispatch s1 ws1 d x ready i Hi Hsz1)) Hr2).
Qed.

(** A closed server's loop can always get to its return. *)
Lemma loop_returns s ws l :
  0 < WorkerPoolSize config → Z.of_nat (size ws) ≤ WorkerPoolSize config →
  ∃ E s' ws', loop_run (MkServer s ws true l) E (MkServer s' ws' true LoopReturned).
Proof.
  intros Hpos Hsz.
  assert (∀ s ws, ∃ E s' ws', loop_run (MkServer s ws true LoopTop) E (MkServer s' ws' true LoopReturned)) as Htop
    by (intros s1 ws1; eexists _, _, _; apply loop_run_one, l_done).
  assert (∀ s ready, ∃ E s' ws', loop_run (MkServer s ws true (Dispatching ready)) E (MkServer s' ws' true LoopReturned)) as Hdis.
  { intros s1 ready. destruct (batch_dispatched s1 ws true ready Hpos Hsz) as (s2 & ws2 & H2 & _).
    destruct (Htop s2 ws2) as (E & s3 & ws3 & H3). eexists _, _, _. by eapply loop_run_trans. }
  destruct l as [| |ready|]; [apply Htop| |apply Hdis|eexists _, _, _; constructor].
  destruct (on_conns epoll_Wait s) as [[ready|e] s1] eqn:Hw.
  - destruct (Hdis s1 ready) as (E & s2 & ws2 & H2). eexists _, _, _.
    eapply loop_run_trans; [by apply loop_run_one, l_ready|exact H2].
  - eexists _, _, _. by eapply loop_run_one, l_err_done.
Qed.
End returning.

(** The loop waits for a slot, and every slot is held by a worker in a read. *)
Definition wedged (ws : gmap nat (sock * pc)) (v : Server) : Prop :=
  workerPool v = ws ∧ pending (sv_loop v) ≠ [] ∧ WorkerPoolSize config ≤ Z.of_nat (size ws)
  ∧ ∀ i p, ws !! i = Some p → ∃ x c, p = (x, Inside c).

(** A step while the peers of all these workers hold their payloads back. *)
Definition stalled_step (ws : gmap nat (sock * pc)) (v v' : Server) : Prop :=
  (∃ os, loop_step v os v') ∧ ∀ i x c, ws !! i = Some (x, Inside c) → stalled (net (conns (sv_app v))) x = true.

Lemma wedged_step ws v v' : wedged ws v → stalled_step ws v v' → wedged ws v' ∧ sv_loop v' = sv_loop v.
Proof.
  intros (Hws & Hp & Hfull & Hin) [[os Hs] Hst].
  destruct Hs as [s ws0|s ws0|s ws0 d ready s' Hw|s ws0 e s' Hw|s ws0 e s' Hw|s ws0 d x ready i Hi Hsz|s ws0 d|s ws0 s' ws' d l Hpool Hle Hret|s ws0 l];
    cbn in *; subst ws0; try done; [lia|].
  assert (ws' = ws) as ->; [|done].
  assert (∀ i x p, ws !! i = Some (x, p) → ∃ c, p = Inside c) as Hpc
    by (intros i x p Hi; destruct (Hin _ _ Hi) as (? & c & ?); simplify_eq; by exists c).
  inversion Hpool; subst; try done;
    try match goal with Hi : ws !! _ = Some (_, _) |- _ => pose proof (Hpc _ _ _ Hi) as [? ?]; try discriminate end.
  - rewrite map_size_insert_None in Hle by done. lia.
  - match goal with Hi : ws !! ?i = Some (?x, Inside ?c) |- _ =>
      pose proof (Hst _ _ _ Hi); pose proof (Hret i x c Hi (lookup_insert_eq _ _ _)) end. congruence.
Qed.

(** Nothing bounds the read of a payload: while as many peers as there are
    workers have sent the header of a frame and hold its payload back, the loop
    waits for a slot and no other connection is served, whatever else happens in
    the process, the closing of done included. *)
Theorem withheld_payloads_wedge ws v v' :
  wedged ws v → rtc (stalled_step ws) v v' → workerPool v' = ws ∧ sv_loop v' = sv_loop v.
Proof.
  intros Hw Hr. assert (wedged ws v' ∧ sv_loop v' = sv_loop v) as [[? _] ?]; [|done].
  induction Hr as [v|v v1 v2 Hs _ IH]; [done|]. destruct (wedged_step _ _ _ Hw Hs) as [Hw1 E1].
  destruct (IH Hw1) as [? ?]. split; [done|congruence].
Qed.

End loop.

(** ** Runs *)

(** A client connects and sends, Wait reports its socket, a worker is started and
    Shutdown begins. *)
Definition client_sends : app mem mem_net (mem_broker callback) table :=
  set_conns (Hub (heap (conns one_client)) (byID (conns one_client)) (byFd (conns one_client))
               (ep_connections (conns one_client)) (MemNet (mn_open (net (conns one_client))) [] [None])) one_client.

Definition dispatched_one : Server (W := mem) (NW := mem_net) (B := mem_broker callback) (D := table) :=
  MkServer client_sends {[0%nat := (0%nat, Spawned)]} true (Dispatching []).


(** A pool of one worker, which reads from a peer that has sent a header only,
    while another connection is ready. *)
Definition one_worker : ServerConfig :=
  {| ListenAddr := ":8080"; WorkerPoolSize := 1; MaxConnections := 100; ReadTimeout := 10 * Second; WriteTimeout := 0; MaxFrameSize := 4096 |}.
Definition reading_first : Server (W := mem) (NW := mem_net) (B := mem_broker callback) (D := table) :=
  MkServer one_client {[0%nat := (0%nat, Inside 0%nat)]} false (Dispatching [1%nat]).
Definition closed_meanwhile : Server (W := mem) (NW := mem_net) (B := mem_broker callback) (D := table) :=
  MkServer one_client {[0%nat := (0%nat, Inside 0%nat)]} true (Dispatching [1%nat]).

Lemma withheld_payloads_wedge_witness :
  workerPool closed_meanwhile = {[0%nat := (0%nat, Inside 0%nat)]} ∧ sv_loop closed_meanwhile = sv_loop reading_first.
Proof.
  apply (withheld_payloads_wedge one_worker "ws-1" DefaultHeartbeatConfig sample_filter (λ _ x, bool_decide (x = 0%nat))
           {[0%nat := (0%nat, Inside 0%nat)]} reading_first closed_meanwhile).
  - split; [done|]. split; [done|]. split; [vm_compute; done|].
    intros i p [_ <-]%lookup_singleton_Some. by eexists _, _.
  - apply rtc_once. split; [eexists; apply l_close|]. intros i x c [_ [= <- _]]%lookup_singleton_Some. done.
Defined.
