(* ===== verification/Upgrades.v ===== *)
(** * Concurrent upgrades

    net/http runs handleUpgrade of internal/ws/server.go in a goroutine per
    request.  Here its operations are single steps, interleaved with those of
    other upgrades and with the rest of the process, so that what holds between
    them shows: the check of the limit and the registration are not one step, and
    neither are the count and the gauge it is written to. *)

From stdpp Require Import base gmap strings numbers relations list_basics list_relations list fin_maps.
From S2P Require Import Prelude GoStd Json Env Keys MemEnv ChatBuffer SessionStore Report Filter Protocol Subscriptions Connection App WsServer Handlers HandlerProofs LifeCycle Moves ServerInv.
Open Scope Z_scope.

(** ** The registries while upgrades are on their way *)

(** As [conns_ok], but for the open sockets in [P], which are not registered yet. *)
Record conns_but `{Net NW} (P : sock → Prop) (h : hub NW) : Prop := {
  cb_id : ∀ id l, byID h !! id = Some l →
    ∃ c, heap h !! l = Some c ∧ Connection.ID c = id ∧ byFd h !! Fd c = Some l
         ∧ opened (net h) !! Conn c = Some (Fd c);
  cb_fd : ∀ fd l, byFd h !! fd = Some l →
    ∃ c, heap h !! l = Some c ∧ Fd c = fd ∧ byID h !! Connection.ID c = Some l;
  cb_open : ∀ x, is_Some (opened (net h) !! x) →
    P x ∨ ∃ id l c, byID h !! id = Some l ∧ heap h !! l = Some c ∧ Conn c = x;
  cb_pending : ∀ x, P x → is_Some (opened (net h) !! x) ∧
    ∀ id l c, byID h !! id = Some l → heap h !! l = Some c → Conn c ≠ x;
}.

Definition but_hub `{Net NW} (P : sock → Prop) (h h' : hub NW) : Prop :=
  conns_but P h → conns_but P h' ∧ (size (byID h') ≤ size (byID h))%nat.

Section registries.
Context `{NetLaws NW}.
Implicit Types (h : hub NW) (P : sock → Prop).

Lemma conns_but_ext P P' h : (∀ x, P x ↔ P' x) → conns_but P h → conns_but P' h.
Proof. intros HP [H1 H2 H3 H4]. split; [done|done| |]; intros x; rewrite <-HP; auto. Qed.

Lemma conns_but_quiet P h n : opened n = opened (net h) → conns_but P h → conns_but P (with_net n h).
Proof. intros Hn [H1 H2 H3 H4]. split; cbn; rewrite ?Hn; auto. Qed.

Lemma conns_but_update P l f h :
  (∀ c, Connection.ID (f c) = Connection.ID c ∧ Conn (f c) = Conn c ∧ Fd (f c) = Fd c) →
  conns_but P h → conns_but P (update_conn l f h).2.
Proof.
  intros Hf [H1 H2 H3 H4].
  assert (Hal : ∀ l' c, heap h !! l' = Some c → ∃ c', alter f l (heap h) !! l' = Some c'
    ∧ Connection.ID c' = Connection.ID c ∧ Conn c' = Conn c ∧ Fd c' = Fd c).
  { intros l' c Hc. destruct (decide (l' = l)) as [->|].
    - exists (f c). by rewrite lookup_alter_eq, Hc.
    - exists c. by rewrite lookup_alter_ne. }
  split; cbn.
  - intros id l' Hl. destruct (H1 _ _ Hl) as (c & Hc & <- & Hd & Ho).
    destruct (Hal _ _ Hc) as (c' & ? & E1 & E2 & E3). exists c'. by rewrite E1, E2, E3.
  - intros fd l' Hl. destruct (H2 _ _ Hl) as (c & Hc & <- & Hd).
    destruct (Hal _ _ Hc) as (c' & ? & E1 & E2 & E3). exists c'. by rewrite E1, E3.
  - intros x Hx. destruct (H3 _ Hx) as [?|(id & l' & c & Hid & Hc & <-)]; [by left|right].
    destruct (Hal _ _ Hc) as (c' & ? & E1 & E2 & E3). exists id, l', c'. by rewrite E2.
  - intros x Hx. destruct (H4 x Hx) as [Ho Hn]. split; [done|]. intros id l' c' Hl Hc'.
    destruct (H1 _ _ Hl) as (c & Hc & _). destruct (Hal _ _ Hc) as (c2 & Hc2 & _ & E2 & _). simplify_eq.
    rewrite E2. by eapply Hn.
Qed.

(** A registered connection dropped and its socket closed. *)
Lemma conns_but_drop P h l c n' :
  conns_but P h → byID h !! Connection.ID c = Some l → heap h !! l = Some c →
  opened n' = delete (Conn c) (opened (net h)) → conns_but P (drop_conn h c n').
Proof.
  intros [H1 H2 H3 H4] Hid Hc Ho. unfold drop_conn.
  destruct (H1 _ _ Hid) as (c0 & Hc0 & _ & Hfd & Hop). simplify_eq.
  split; cbn.
  - intros id' l' [Hne Hl']%lookup_delete_Some. destruct (H1 _ _ Hl') as (c' & Hc' & Hid' & Hf' & Hop').
    assert (Fd c' ≠ Fd c) by congruence.
    exists c'. rewrite lookup_delete_ne by congruence. rewrite Ho, lookup_delete_ne by congruence. done.
  - intros fd' l' [Hne Hl']%lookup_delete_Some. destruct (H2 _ _ Hl') as (c' & Hc' & Hf' & Hid').
    exists c'. split; [done|]. split; [done|]. rewrite lookup_delete_ne by congruence. done.
  - intros x [fd' Hs']. rewrite Ho in Hs'. apply lookup_delete_Some in Hs' as [Hne Hs'].
    destruct (H3 x) as [?|(id' & l' & c' & Hid' & Hc' & Hs'')]; [by eexists|by left|right]. exists id', l', c'.
    destruct (H1 _ _ Hid') as (c'' & ? & ? & ? & ?). simplify_eq.
    rewrite lookup_delete_ne; [done|]. intros E. rewrite E in Hid. congruence.
  - intros x Hx. destruct (H4 x Hx) as [Hox Hn]. split.
    + rewrite Ho, lookup_delete_ne; [done|]. by eapply Hn.
    + intros id' l' c' [_ Hl']%lookup_delete_Some. eauto.
Qed.

(** Remove, by cases. *)
Lemma Remove_cases P id h :
  conns_but P h → (Connection.Remove id h).2 = h ∨
    ∃ l c n', byID h !! Connection.ID c = Some l ∧ heap h !! l = Some c ∧
      opened n' = delete (Conn c) (opened (net h)) ∧ (Connection.Remove id h).2 = drop_conn h c n'.
Proof.
  intros Hok. unfold Connection.Remove, bind at 1, get_hub.
  destruct (byID h !! id) as [l|] eqn:E; [|by left]. right.
  destruct (cb_id _ _ Hok _ _ E) as (c & Hc & <- & _ & _).
  exists l, c. unfold bind, set_maps, Close, get_hub, on_net, bind, deref. cbn. rewrite E. cbn. rewrite !Hc. cbn.
  pose proof (close_spec (Conn c) (net h)) as [_ Ho]. destruct (close_sock (Conn c) (net h)) as [e n'].
  by exists n'.
Qed.

#[export] Instance but_hub_rel P : HubRel (but_hub (NW := NW) P).
Proof.
  split.
  - split; [by intros h Hok|]. intros h1 h2 h3 H12 H23 Hok. destruct (H12 Hok) as [Hok2 ?].
    destruct (H23 Hok2) as [? ?]. split; [done|lia].
  - intros h n Ho Hok. split; [by apply conns_but_quiet|done].
  - intros m h [H1 H2 H3 H4]. by split.
  - intros l t h Hok. split; [by apply conns_but_update|done].
  - intros id h Hok. destruct (Remove_cases P id h Hok) as [->|(l & c & n' & Hl & Hc & Ho & ->)]; [done|].
    split; [by apply (conns_but_drop P h l c n')|]. apply map_subseteq_size, delete_subseteq.
Qed.

(** A pending socket gets registered under a free ID. *)
Lemma conns_but_register P P' h x fd id created last n :
  conns_but P h → byID h !! id = None → P x → (∀ y, P' y ↔ P y ∧ y ≠ x) →
  opened (net h) !! x = Some fd → opened n = opened (net h) →
  let r := register x fd id created last (with_net n h) in
  conns_but P' r.2 ∧ byID r.2 = <[id := r.1]> (byID h).
Proof.
  intros [H1 H2 H3 H4] Hid Hx HP Hfd Ho. cbn zeta.
  unfold register, new_conn, Add, get_hub, set_maps, bind, ret, deref. cbn.
  set (l := fresh (dom (heap h))). set (c := {| Connection.ID := id |}).
  assert (Hl : heap h !! l = None) by (apply not_elem_of_dom, is_fresh).
  destruct (H4 x Hx) as [_ Hn].
  assert (Hfree : byFd h !! fd = None).
  { destruct (byFd h !! fd) as [l'|] eqn:E; [|done]. exfalso.
    destruct (H2 _ _ E) as (c' & Hc' & Hfd' & Hid'). destruct (H1 _ _ Hid') as (c'' & Hc'' & _ & _ & Hop).
    simplify_eq. eapply Hn; [done..|]. by eapply (opened_inj (net h)). }
  rewrite lookup_insert_eq. cbn. split; [|done]. split; cbn.
  - intros id' l' [[<- <-]|[Hne Hl']]%lookup_insert_Some.
    + exists c. rewrite !lookup_insert_eq. by rewrite Ho.
    + destruct (H1 _ _ Hl') as (c' & Hc' & Hid' & Hf' & Hop). exists c'.
      rewrite lookup_insert_ne by congruence. rewrite lookup_insert_ne by congruence. by rewrite Ho.
  - intros fd' l' [[<- <-]|[Hne Hl']]%lookup_insert_Some.
    + exists c. by rewrite !lookup_insert_eq.
    + destruct (H2 _ _ Hl') as (c' & Hc' & Hf' & Hid'). exists c'.
      rewrite lookup_insert_ne by congruence. rewrite lookup_insert_ne by congruence. done.
  - intros y Hy. rewrite Ho in Hy. destruct (decide (y = x)) as [->|Hne].
    { right. exists id, l, c. by rewrite !lookup_insert_eq. }
    destruct (H3 y Hy) as [?|(id' & l' & c' & Hid' & Hc' & <-)]; [left; by apply HP|right]. exists id', l', c'.
    rewrite lookup_insert_ne by congruence. rewrite lookup_insert_ne by congruence. done.
  - intros y [Hy Hne]%HP. destruct (H4 y Hy) as [Hoy Hny]. split; [by rewrite Ho|].
    intros id' l' c' [[<- <-]|[Hne' Hl']]%lookup_insert_Some Hc'.
    + rewrite lookup_insert_eq in Hc'. by simplify_eq.
    + rewrite lookup_insert_ne in Hc'; [by eapply Hny|]. intros <-. destruct (H1 _ _ Hl') as (? & ? & _). congruence.
Qed.
End registries.

Section upgrades.
Context {W NW B D : Type}.
Context `{!Env W, !EnvLaws W, !Net NW, !NetLaws NW, !Broker callback B, !ReportDB D, !Unicode}.
Context (config : ServerConfig) (serverName : string) (hc : HeartbeatConfig) (f : Filter).
Abbreviation A := (app W NW B D).
Implicit Types (s : A).

(** ** handleUpgrade, one operation at a time *)

(** Where a request is: past the look at the draining flag, past the check of the
    limit, upgraded, registered, with the new count read, with the gauge set,
    refused by epoll, watched by epoll, with its session stored. *)
Inductive up_pc : Type :=
  | Entered
  | Checked
  | Hijacked (x : sock)
  | Registered (x : sock) (id : string) (c : loc)
  | Counted (x : sock) (id : string) (c : loc) (n : Z)
  | Metered (x : sock) (id : string) (c : loc)
  | EpollFailed (id : string)
  | Watched (id : string) (c : loc)
  | Stored (id : string) (c : loc).

(** From socketFD to conns.Add. *)
Definition up_register (conn : sock) : M A (string * loc) :=
  let! fd := on_conns (socketFD conn) in
  let! sessionID := on_world uuid_new in
  let! created := now_ in
  let! last := now_ in
  let! c := on_conns (register conn fd sessionID created last) in
  ret (sessionID, c).

(** The requests between the check of the limit and their registration. *)
Definition in_between (p : up_pc) : nat := match p with Checked | Hijacked _ => 1 | _ => 0 end.
Abbreviation requests := (gmap nat up_pc).
Definition crowd (us : requests) : nat := map_total in_between us.

(** What the process does apart from accepting connections. *)
Inductive rest_step : A → A → Prop :=
  | rest_ready s x : rest_step s (handleConn config onDisconnect (onMessage f) x s).2
  | rest_deliver s id subj cb data :
      active (conn (nats s)) !! id = Some (subj, cb) → rest_step s (deliver cb data s).2
  | rest_heartbeat s : rest_step s (checkConnections onDisconnect hc s).2
  | rest_world s w : rest_step s (set_world w s)
  | rest_nats s b : rest_step s (set_nats (Client (subs (nats s)) b) s)
  | rest_db s d : rest_step s (set_db d s)
  | rest_drain s : rest_step s (set_draining true s)
  | rest_peers s n :
      opened n = opened (net (conns s)) → rest_step s (set_conns (with_net n (conns s)) s).

(** [K]: how many requests are at most between the check and the registration at
    a time. *)
Inductive up_step (K : nat) : A * requests → A * requests → Prop :=
  | u_enter s us i :
      us !! i = None → draining s = false → up_step K (s, us) (s, <[i := Entered]> us)
  | u_check s us i s' n :
      us !! i = Some Entered → on_conns Count s = (n, s') → n < MaxConnections config → (crowd us < K)%nat →
      up_step K (s, us) (s', <[i := Checked]> us)
  | u_full s us i s' n :
      us !! i = Some Entered → on_conns Count s = (n, s') → MaxConnections config ≤ n →
      up_step K (s, us) (s', delete i us)
  | u_upgrade s us i x s' :
      us !! i = Some Checked → on_conns (on_net upgrade_http) s = (Ok x, s') →
      up_step K (s, us) (s', <[i := Hijacked x]> us)
  | u_failed s us i e s' :
      us !! i = Some Checked → on_conns (on_net upgrade_http) s = (Err e, s') →
      up_step K (s, us) (s', delete i us)
  (** UUIDs do not repeat *)
  | u_register s us i x id c s' :
      us !! i = Some (Hijacked x) → byID (conns s) !! (uuid_new (world s)).1 = None →
      up_register x s = ((id, c), s') → up_step K (s, us) (s', <[i := Registered x id c]> us)
  | u_count s us i x id c n s' :
      us !! i = Some (Registered x id c) → on_conns Count s = (n, s') →
      up_step K (s, us) (s', <[i := Counted x id c n]> us)
  | u_gauge s us i x id c n :
      us !! i = Some (Counted x id c n) →
      up_step K (s, us) ((metric (set_ConnectionsTotal n) s).2, <[i := Metered x id c]> us)
  | u_watch s us i x id c s' :
      us !! i = Some (Metered x id c) → on_conns (epoll_Add x) s = (None, s') →
      up_step K (s, us) (s', <[i := Watched id c]> us)
  | u_unwatched s us i x id c e s' :
      us !! i = Some (Metered x id c) → on_conns (epoll_Add x) s = (Some e, s') →
      up_step K (s, us) (s', <[i := EpollFailed id]> us)
  | u_remove s us i id :
      us !! i = Some (EpollFailed id) →
      up_step K (s, us) ((on_conns (Connection.Remove id) s).2, delete i us)
  | u_session s us i id c :
      us !! i = Some (Watched id c) →
      up_step K (s, us) ((on_world (SessionStore.Create serverName id) s).2, <[i := Stored id c]> us)
  | u_reply s us i id c :
      us !! i = Some (Stored id c) →
      up_step K (s, us) ((reply c (session_created_msg id) s).2, delete i us)
  | u_rest s s' us : rest_step s s' → up_step K (s, us) (s', us).

(** ** The steps are handleUpgrade *)

Section alone.
Context (K i : nat) (us : requests) (Hi : us !! i = None).

Lemma alone_go s p s' q r :
  up_step K (s, <[i := p]> us) (s', <[i := q]> (<[i := p]> us)) →
  rtc (up_step K) (s', <[i := q]> us) r → rtc (up_step K) (s, <[i := p]> us) r.
Proof. rewrite insert_insert_eq. apply rtc_l. Qed.
Lemma alone_end s p s' :
  up_step K (s, <[i := p]> us) (s', delete i (<[i := p]> us)) → rtc (up_step K) (s, <[i := p]> us) (s', us).
Proof. rewrite delete_insert_id by done. apply rtc_once. Qed.

Lemma crowd_insert p : crowd (<[i := p]> us) = (in_between p + crowd us)%nat.
Proof. unfold crowd. by rewrite map_total_insert, delete_id. Qed.

(** A request that is not disturbed does what handleUpgrade does. *)
Lemma steps_are_handleUpgrade s :
  (crowd us < K)%nat → byID (conns s) !! (uuid_new (world s)).1 = None →
  rtc (up_step K) (s, us) ((handleUpgrade config serverName s).2, us).
Proof.
  intros HK Hid. unfold handleUpgrade. unfold bind at 1, get_app. destruct (draining s) eqn:Hd; [apply rtc_refl|].
  eapply rtc_l; [by apply (u_enter _ _ _ i)|]. unfold bind at 1. destruct (on_conns Count s) as [n s1] eqn:E1.
  assert (s1 = s) as -> by (unfold on_conns, Count, get_hub, bind, ret in E1; cbn in E1; injection E1 as _ <-; by destruct s).
  case_bool_decide as Hn; [apply alone_end; eapply u_full; [apply lookup_insert_eq|done..]|].
  eapply alone_go; [eapply u_check; [apply lookup_insert_eq|exact E1|lia|by rewrite crowd_insert]|].
  unfold bind at 1. destruct (on_conns (on_net upgrade_http) s) as [[x|e] s2] eqn:E2.
  2: { apply alone_end. eapply u_failed; [apply lookup_insert_eq|done]. }
  eapply alone_go; [eapply u_upgrade; [apply lookup_insert_eq|done]|].
  assert (byID (conns s2) = byID (conns s) ∧ world s2 = world s) as [Hb Hw].
  { unfold on_conns, on_net in E2. destruct (upgrade_http (net (conns s))) as [r n2]. by injection E2 as _ <-. }
  rewrite <-Hb, <-Hw in Hid. destruct (up_register x s2) as [[id c] s3] eqn:E3.
  eapply alone_go; [eapply u_register; [apply lookup_insert_eq|done|exact E3]|]. revert E3. unfold up_register, bind, ret.
  destruct (on_conns (socketFD x) s2) as [fd t1]. destruct (on_world uuid_new t1) as [id' t2].
  destruct (now_ t2) as [cr t3]. destruct (now_ t3) as [la t4].
  destruct (on_conns (register x fd id' cr la) t4) as [c' t5]. intros [= -> -> ->].
  destruct (on_conns Count s3) as [m s4] eqn:E4. eapply alone_go; [eapply u_count; [apply lookup_insert_eq|done]|].
  eapply alone_go; [eapply u_gauge; apply lookup_insert_eq|].
  destruct (metric (set_ConnectionsTotal m) s4) as [[] s5] eqn:E5. cbn [snd].
  destruct (on_conns (epoll_Add x) s5) as [[e|] s6] eqn:E6.
  - eapply alone_go; [eapply u_unwatched; [apply lookup_insert_eq|done]|].
    pose proof (u_remove K s6 (<[i := EpollFailed id]> us) i id (lookup_insert_eq _ _ _)) as Hr.
    destruct (on_conns (Connection.Remove id) s6). by apply alone_end.
  - eapply alone_go; [eapply u_watch; [apply lookup_insert_eq|done]|].
    eapply alone_go; [eapply u_session; apply lookup_insert_eq|].
    destruct (on_world (SessionStore.Create serverName id) s6) as [r s7]. cbn [snd].
    pose proof (u_reply K s7 (<[i := Stored id c]> us) i id c (lookup_insert_eq _ _ _)) as Hr.
    destruct (reply c (session_created_msg id) s7). by apply alone_end.
Qed.
End alone.

(** ** The invariant *)

(** The socket of a request that is not registered yet. *)
Definition hijacked (us : requests) (x : sock) : Prop := ∃ i, us !! i = Some (Hijacked x).

Record up_ok (K : nat) (s : A) (us : requests) : Prop := {
  uo_conns : conns_but (hijacked us) (conns s);
  uo_inj : ∀ i j x, us !! i = Some (Hijacked x) → us !! j = Some (Hijacked x) → i = j;
  uo_crowd : (crowd us ≤ K)%nat;
  uo_limit : Z.of_nat (size (byID (conns s)) + crowd us) ≤ MaxConnections config + Z.of_nat K - 1;
}.

Definition but_app (P : sock → Prop) (s s' : A) : Prop := but_hub P (conns s) (conns s').

#[export] Instance but_app_rel P : AppRel (but_hub P) (but_app P).
Proof.
  split; try apply _; try (intros; by intros ?).
  - split; [by intros s ?|]. intros s1 s2 s3 H12 H23. unfold but_app in *. by etrans.
  - by intros s h Hh.
  - intros c msg s Hs. unfold buffer_Add. by destruct (ChatBuffer.Add _ _ _).
  - intros c s Hs. unfold buffer_Get. by destruct (ChatBuffer.Get _ _).
Qed.

(** Assigning the processing flag moves no registry. *)
Lemma but_processing P c b : moves (but_hub P) (update_conn c (set_processing b) : M (hub NW) unit).
Proof. intros h Hok. split; [by apply conns_but_update|done]. Qed.

Lemma rest_moves P s s' : rest_step s s' → but_app P s s'.
Proof.
  intros [s1 x|s1 id subj cb data _|s1|s1 w|s1 b|s1 d|s1|s1 n Ho]; try by intros ?.
  - revert s1. change (moves (but_app P) (handleConn config onDisconnect (onMessage f) x)). unfold handleConn.
    apply moves_bind; [apply _|apply (mv_conns (but_hub P) (but_app P)); auto with mv|]. intros [c|]; [|apply moves_ret, _].
    apply moves_bind; [apply _|apply (mv_get (but_hub P) (but_app P))|]. intros t. destruct (processing _); [apply moves_ret, _|].
    apply moves_bind; [apply _|apply (mv_conns (but_hub P) (but_app P)), but_processing|]. intros _.
    apply moves_bind; [apply _|apply (mv_read_frame (but_hub P) (but_app P))|]. intros _.
    apply (mv_conns (but_hub P) (but_app P)), but_processing.
  - apply (mv_deliver (but_hub P) (but_app P)).
  - apply (mv_checkConnections (but_hub P) (but_app P)).
  - by apply (hr_net (R := but_hub P)).
Qed.

(** The requests stay where they are. *)
Lemma up_app K s s' us : up_ok K s us → but_app (hijacked us) s s' → up_ok K s' us.
Proof. intros [H1 H2 H3 H4] Hm. destruct (Hm H1) as [? ?]. split; [done|done|done|lia]. Qed.

(** The requests change, and the pending sockets do not. *)
Lemma up_requests K s us us' :
  up_ok K s us → (∀ j x, us' !! j = Some (Hijacked x) ↔ us !! j = Some (Hijacked x)) → (crowd us' ≤ K)%nat →
  Z.of_nat (size (byID (conns s)) + crowd us') ≤ MaxConnections config + Z.of_nat K - 1 → up_ok K s us'.
Proof.
  intros [H1 H2 H3 H4] Hj Hc Hl. split; [|intros j k x; rewrite !Hj; apply H2|done|done].
  eapply conns_but_ext; [|exact H1]. intros x. unfold hijacked. by setoid_rewrite Hj.
Qed.

Lemma hijacked_insert (us : requests) i p q :
  us !! i = p → (∀ x, p ≠ Some (Hijacked x)) → (∀ x, q ≠ Hijacked x) →
  ∀ j x, <[i := q]> us !! j = Some (Hijacked x) ↔ us !! j = Some (Hijacked x).
Proof.
  intros Hi Hp Hq j x. destruct (decide (j = i)) as [->|]; [|by rewrite lookup_insert_ne].
  rewrite lookup_insert_eq, Hi. split; intros E; exfalso; [apply (Hq x); congruence|by apply (Hp x)].
Qed.

(** A request moves on, not towards a socket of its own. *)
Lemma up_moves_on K s us i p q :
  up_ok K s us → us !! i = Some p → (∀ x, p ≠ Hijacked x) → (∀ x, q ≠ Hijacked x) →
  (in_between q ≤ in_between p)%nat → up_ok K s (<[i := q]> us).
Proof.
  intros Hok Hi Hp Hq Hle. pose proof Hok as [_ _ H3 H4].
  assert (crowd (<[i := q]> us) ≤ crowd us)%nat as Hc.
  { unfold crowd. rewrite map_total_insert, (map_total_delete _ us i p Hi). lia. }
  eapply up_requests; [done|eapply hijacked_insert; [done|congruence|done]|lia|lia].
Qed.

(** A request is over. *)
Lemma up_delete K s us i p : up_ok K s us → us !! i = Some p → (∀ x, p ≠ Hijacked x) → up_ok K s (delete i us).
Proof.
  intros Hok Hi Hp. pose proof Hok as [_ _ H3 H4].
  assert (crowd (delete i us) ≤ crowd us)%nat as Hc by (unfold crowd; rewrite (map_total_delete _ us i p Hi); lia).
  eapply up_requests; [done| |lia|lia].
  intros j x. rewrite lookup_delete_Some. split; [by intros []|]. intros Hx. split; [|done].
  intros <-. rewrite Hi in Hx. injection Hx as ?. by eapply Hp.
Qed.

Lemma conns_moves P s X (m : M (hub NW) X) x s' : moves (but_hub P) m → on_conns m s = (x, s') → but_app P s s'.
Proof. intros Hm E. pose proof (mv_conns (but_hub P) (but_app P) m Hm s) as Hs. by rewrite E in Hs. Qed.

(** A request gets its socket. *)
Lemma up_upgrade K s us i x s' :
  up_ok K s us → us !! i = Some Checked → on_conns (on_net upgrade_http) s = (Ok x, s') →
  up_ok K s' (<[i := Hijacked x]> us).
Proof.
  intros [[H1 H2 H3 H4] Hj Hc Hl] Hi E. unfold on_conns, on_net in E.
  destruct (upgrade_http (net (conns s))) as [r n] eqn:Eu. injection E as -> <-.
  apply upgrade_ok in Eu as (Hx & _ & fd & Ho).
  assert (∀ j, us !! j ≠ Some (Hijacked x)) as Hnx.
  { intros j Hjx. destruct (H4 x) as [[? ?] _]; [by exists j|congruence]. }
  assert (crowd (<[i := Hijacked x]> us) = crowd us) as Hcr.
  { unfold crowd. by rewrite map_total_insert, (map_total_delete _ us i _ Hi). }
  assert (∀ y, hijacked (<[i := Hijacked x]> us) y ↔ y = x ∨ hijacked us y) as Hh.
  { intros y. split.
    - intros [j [[_ [= ->]]|[_ ?]]%lookup_insert_Some]; [by left|right; by exists j].
    - intros [->|[j Hjy]]; [exists i; apply lookup_insert_eq|]. exists j. rewrite lookup_insert_ne; congruence. }
  split; [| |lia|cbn; lia].
  2: { intros j k y [[<- E]|[? ?]]%lookup_insert_Some [[<- E']|[? ?]]%lookup_insert_Some; simplify_eq; naive_solver. }
  split; cbn.
  - intros id l Hid. destruct (H1 _ _ Hid) as (c & Hcl & ? & ? & Hop). exists c.
    rewrite Ho, lookup_insert_ne by congruence. done.
  - done.
  - intros y Hy. rewrite Hh. destruct (decide (y = x)) as [->|Hne]; [by left; left|].
    rewrite Ho, lookup_insert_ne in Hy by done. destruct (H3 y Hy); [by left; right|by right].
  - intros y [->|Hy]%Hh; rewrite Ho.
    + rewrite lookup_insert_eq. split; [done|]. intros id l c Hid Hcl. destruct (H1 _ _ Hid) as (c' & ? & _ & _ & Hop).
      simplify_eq. congruence.
    + destruct (H4 y Hy) as [Hoy Hny]. split; [|done]. by apply lookup_insert_is_Some'; right.
Qed.

(** A request gets registered. *)
Lemma up_registers K s us i x id c s' :
  up_ok K s us → us !! i = Some (Hijacked x) → byID (conns s) !! (uuid_new (world s)).1 = None →
  up_register x s = ((id, c), s') → up_ok K s' (<[i := Registered x id c]> us).
Proof.
  intros [H1 Hj Hc Hl] Hi Hid E. destruct (cb_pending _ _ H1 x) as [[fd Hfd] _]; [by exists i|].
  assert (∀ y, hijacked (<[i := Registered x id c]> us) y ↔ hijacked us y ∧ y ≠ x) as Hh.
  { intros y. split.
    - intros [j [[_ [=]]|[Hne Hy]]%lookup_insert_Some]. split; [by exists j|]. intros ->. by apply Hne, (Hj i j x).
    - intros [[j Hy] Hne]. exists j. rewrite lookup_insert_ne; [done|]. congruence. }
  assert (wp (up_register x) (λ r s', conns_but (hijacked (<[i := Registered x id c]> us)) (conns s') ∧
    ∃ id' l, byID (conns s) !! id' = None ∧ byID (conns s') = <[id' := l]> (byID (conns s))) s) as Hw.
  { unfold up_register. wp_pure. apply wp_on_conns. eapply wp_socketFD; [done|]. intros n Ho _. wp_pure.
    apply wp_on_world, wp_intro. intros id' w Eu. cbn in Eu. rewrite Eu in Hid. cbn in Hid. wp_pure.
    apply wp_on_world, wp_now. wp_pure. apply wp_on_world, wp_now. wp_pure. apply wp_on_conns, wp_intro.
    cbn [conns set_conns set_world]. intros l h' Er. wp_pure. cbn [conns set_conns].
    pose proof (conns_but_register _ (hijacked (<[i := Registered x id c]> us)) (conns s) x fd id' (wall w) (wall w) n H1 Hid
      ltac:(by exists i) Hh Hfd Ho) as [R1 R2].
    unfold with_net in R1, R2. cbn [world set_world set_conns] in Er. rewrite Er in R1, R2. cbn in R1, R2. split; [done|]. by exists id', l. }
  unfold wp in Hw. rewrite E in Hw. destruct Hw as (Hb & id' & l & Hn & Hby). cbn [fst snd] in Hb, Hby.
  assert (S (crowd (<[i := Registered x id c]> us)) = crowd us) as Hcr.
  { unfold crowd. by rewrite map_total_insert, (map_total_delete _ us i _ Hi). }
  split; [done| |lia|rewrite Hby, map_size_insert_None by done; lia].
  intros j k y [[_ ?]|[? ?]]%lookup_insert_Some [[_ ?]|[? ?]]%lookup_insert_Some; simplify_eq; eauto.
Qed.

Lemma up_ok_step K p p' : up_step K p p' → up_ok K p.1 p.2 → up_ok K p'.1 p'.2.
Proof.
  intros Hstep Hok. destruct Hstep as [s us i Hi Hd|s us i s' n Hi E Hn HK|s us i s' n Hi E Hn|s us i x s' Hi E|s us i e s' Hi E
    |s us i x id c s' Hi Hid E|s us i x id c n s' Hi E|s us i x id c n Hi|s us i x id c s' Hi E|s us i x id c e s' Hi E
    |s us i id Hi|s us i id c Hi|s us i id c Hi|s s' us Hr]; cbn [fst snd] in *.
  - pose proof Hok as [_ _ H3 H4]. pose proof (crowd_insert i us Hi Entered) as Hc. cbn in Hc.
    eapply up_requests; [done|by eapply hijacked_insert|lia|lia].
  - assert (s' = s ∧ n = Z.of_nat (size (byID (conns s)))) as [-> ->].
    { unfold on_conns, Count, get_hub, bind, ret in E. cbn in E. injection E as <- <-. by destruct s. }
    assert (crowd (<[i := Checked]> us) = S (crowd us)) as Hc.
    { unfold crowd. by rewrite map_total_insert, (map_total_delete _ us i _ Hi). }
    eapply up_requests; [done|by eapply hijacked_insert|lia|lia].
  - eapply up_delete; [eapply up_app; [done|eapply (conns_moves _ _ _ Count); [auto with mv|done]]|done|done].
  - by eapply up_upgrade.
  - eapply up_delete; [|done|done]. eapply up_app; [done|]. unfold on_conns, on_net in E.
    destruct (upgrade_http (net (conns s))) as [r n] eqn:Eu. injection E as -> <-. apply upgrade_err in Eu as [_ Ho].
    by apply (hr_net (R := but_hub _)).
  - by eapply up_registers.
  - eapply up_moves_on; [eapply up_app; [done|eapply (conns_moves _ _ _ Count); [auto with mv|done]]|done|done|done|done].
  - eapply up_moves_on; [eapply up_app; [done|by intros ?]|done|done|done|done].
  - eapply up_moves_on; [eapply up_app; [done|eapply (conns_moves _ _ _ (epoll_Add x)); [auto with mv|done]]|done|done|done|done].
  - eapply up_moves_on; [eapply up_app; [done|eapply (conns_moves _ _ _ (epoll_Add x)); [auto with mv|done]]|done|done|done|done].
  - eapply up_delete; [eapply up_app; [done|apply (mv_conns (but_hub _) (but_app _)); auto with mv]|done|done].
  - eapply up_moves_on; [eapply up_app; [done|apply (mv_world (but_hub _) (but_app _))]|done|done|done|done].
  - eapply up_delete; [eapply up_app; [done|apply (mv_reply (but_hub _) (but_app _))]|done|done].
  - by eapply up_app, rest_moves.
Qed.

(** C15: Connections upgraded concurrently.  When at most K requests are between the
    check of the limit and the registration at a time, no more than
    MaxConnections + K - 1 connections are ever registered: the limit holds when
    upgrades come one by one, and racing ones can pass it by K - 1.  At
    every point both registries lead to the same objects, and an open socket is
    the one of a registered connection or of a request that will register it,
    never of both; no two requests have the same socket. *)
Theorem upgrade_limit K s0 s us :
  0 ≤ MaxConnections config → (1 ≤ K)%nat → initial s0 → rtc (up_step K) (s0, ∅) (s, us) →
  Z.of_nat (size (byID (conns s))) ≤ MaxConnections config + Z.of_nat K - 1
  ∧ (∀ id l, byID (conns s) !! id = Some l ↔
       ∃ c, heap (conns s) !! l = Some c ∧ Connection.ID c = id ∧ byFd (conns s) !! Fd c = Some l)
  ∧ (∀ x, is_Some (opened (net (conns s)) !! x) ↔
       hijacked us x ∨ ∃ id l c, byID (conns s) !! id = Some l ∧ heap (conns s) !! l = Some c ∧ Conn c = x)
  ∧ (∀ x id l c, hijacked us x → byID (conns s) !! id = Some l → heap (conns s) !! l = Some c → Conn c ≠ x)
  ∧ (∀ i j x, us !! i = Some (Hijacked x) → us !! j = Some (Hijacked x) → i = j).
Proof.
  intros Hmax HK (n & Hn & Hc & _) Hr.
  assert (up_ok K s us) as [[H1 H2 H3 H4] Hj Hcr Hl].
  { assert (∀ p p', rtc (up_step K) p p' → up_ok K p.1 p.2 → up_ok K p'.1 p'.2) as Hgen.
    { intros p p'. induction 1 as [|p1 p2 p3 H12 _ IH]; [done|]. intros Hok. by eapply IH, up_ok_step. }
    assert (crowd ∅ = 0%nat) as Hz by apply map_fold_empty.
    apply (Hgen _ _ Hr). cbn [fst snd]. split; rewrite ?Hc, ?Hz; [|done|lia|cbn; rewrite map_size_empty; lia].
    split; cbn; try done; [by intros x [fd ?]; rewrite Hn in *|by intros x [i ?]]. }
  split_and!; [lia| | |intros x id l c Hx; by apply H4|done].
  - intros id l. split; [intros Hid; destruct (H1 _ _ Hid) as (c & ? & ? & ? & _); by exists c|].
    intros (c & Hcl & <- & Hf). destruct (H2 _ _ Hf) as (c' & ? & ? & ?). by simplify_eq.
  - intros x. split; [apply H3|]. intros [Hx|(id & l & c & Hid & Hcl & <-)]; [by apply H4|].
    destruct (H1 _ _ Hid) as (c' & ? & _ & _ & ?). simplify_eq. by eexists.
Qed.
End upgrades.

(** ** Two clients and one free slot *)

Abbreviation mem_app := (app mem mem_net (mem_broker callback) table).

Definition one_slot : ServerConfig :=
  {| ListenAddr := ":8080"; WorkerPoolSize := 256; MaxConnections := 1; ReadTimeout := 0; WriteTimeout := 0; MaxFrameSize := 4096 |}.

Definition two_sockets : mem_app :=
  (on_conns (on_net upgrade_http) (on_conns (on_net upgrade_http) empty_app).2).2.
Definition first_in : mem_app := (up_register 0%nat two_sockets).2.
Definition both_in : mem_app := (up_register 1%nat first_in).2.
(** The second request has set the gauge to two, the first one sets it to one. *)
Definition raced : mem_app :=
  (metric (set_ConnectionsTotal 1) (metric (set_ConnectionsTotal 2) both_in).2).2.
Definition id_of (r : string * loc * mem_app) : string := r.1.1.
Definition raced_requests : gmap nat up_pc :=
  <[0%nat := Metered 0%nat (id_of (up_register 0%nat two_sockets)) 0%nat]>
    (<[1%nat := Metered 1%nat (id_of (up_register 1%nat first_in)) 1%nat]> ∅).

Lemma raced_run : rtc (up_step one_slot "ws-1" DefaultHeartbeatConfig sample_filter 2) (empty_app, ∅) (raced, raced_requests).
Proof.
  eapply rtc_l; [apply (u_enter _ _ _ _ _ _ _ 0%nat); reflexivity|].
  eapply rtc_l; [apply (u_enter _ _ _ _ _ _ _ 1%nat); reflexivity|].
  eapply rtc_l; [apply (u_check _ _ _ _ _ _ _ 0%nat empty_app 0); [reflexivity|vm_compute; reflexivity|done|vm_compute; lia]|].
  eapply rtc_l; [apply (u_check _ _ _ _ _ _ _ 1%nat empty_app 0); [reflexivity|vm_compute; reflexivity|done|vm_compute; lia]|].
  eapply rtc_l; [apply (u_upgrade _ _ _ _ _ _ _ 0%nat 0%nat (on_conns (on_net upgrade_http) empty_app : _ * mem_app).2); [reflexivity|vm_compute; reflexivity]|].
  eapply rtc_l; [apply (u_upgrade _ _ _ _ _ _ _ 1%nat 1%nat two_sockets); [reflexivity|vm_compute; reflexivity]|].
  eapply rtc_l; [apply (u_register _ _ _ _ _ _ _ 0%nat 0%nat (id_of (up_register 0%nat two_sockets)) 0%nat first_in); [reflexivity|vm_compute; reflexivity..]|].
  eapply rtc_l; [apply (u_count _ _ _ _ _ _ _ 0%nat 0%nat (id_of (up_register 0%nat two_sockets)) 0%nat 1 first_in); [reflexivity|vm_compute; reflexivity]|].
  eapply rtc_l; [apply (u_register _ _ _ _ _ _ _ 1%nat 1%nat (id_of (up_register 1%nat first_in)) 1%nat both_in); [reflexivity|vm_compute; reflexivity..]|].
  eapply rtc_l; [apply (u_count _ _ _ _ _ _ _ 1%nat 1%nat (id_of (up_register 1%nat first_in)) 1%nat 2 both_in); [reflexivity|vm_compute; reflexivity]|].
  eapply rtc_l; [apply (u_gauge _ _ _ _ _ _ _ 1%nat 1%nat (id_of (up_register 1%nat first_in)) 1%nat 2); reflexivity|].
  eapply rtc_l; [apply (u_gauge _ _ _ _ _ _ _ 0%nat 0%nat (id_of (up_register 0%nat two_sockets)) 0%nat 1); reflexivity|].
  match goal with |- rtc _ ?a ?b => replace a with b by (vm_compute; reflexivity) end. apply rtc_refl.
Qed.

(** Both are let in although the limit is one, and the gauge is left at one with
    two connections registered. *)
Example limit_passed_and_gauge_stale :
  MaxConnections one_slot = 1 ∧ size (byID (conns raced)) = 2%nat ∧ ConnectionsTotal (metrics raced) = 1.
Proof. vm_compute. done. Qed.

Lemma upgrade_limit_witness :
  Z.of_nat (size (byID (conns raced))) ≤ MaxConnections one_slot + Z.of_nat 2 - 1
  ∧ (∀ i j x, raced_requests !! i = Some (Hijacked x) → raced_requests !! j = Some (Hijacked x) → i = j).
Proof.
  destruct (upgrade_limit one_slot "ws-1" DefaultHeartbeatConfig sample_filter 2 empty_app raced raced_requests)
    as (H1 & _ & _ & _ & H5).
  - done.
  - lia.
  - exists (MemNet ∅ [] []). split_and!; [|reflexivity..]. apply map_eq. intros x. by rewrite lookup_empty.
  - apply raced_run.
  - split; [exact H1|exact H5].
Defined.

(** ** A connection that is gone before its session is stored *)

Definition first_socket : mem_app := (on_conns (on_net upgrade_http) empty_app).2.
Definition first_id : string := id_of (up_register 0%nat first_socket).
Definition registered_one : mem_app := (up_register 0%nat first_socket).2.
Definition metered_one : mem_app := (metric (set_ConnectionsTotal 1) registered_one).2.
Definition watched_one : mem_app := (on_conns (epoll_Add 0%nat) metered_one).2.
(** The goroutine of the request is held up, and the heartbeat drops the
    connection. *)
Definition dropped_one : mem_app :=
  (checkConnections onDisconnect DefaultHeartbeatConfig (set_world (elapse 41000 (world watched_one)) watched_one)).2.
Definition stored_late : mem_app := (on_world (SessionStore.Create "ws-1" first_id) dropped_one).2.

Lemma stored_late_run : ∃ us,
  rtc (up_step DefaultServerConfig "ws-1" DefaultHeartbeatConfig sample_filter 1) (empty_app, ∅) (stored_late, us).
Proof.
  eexists. eapply rtc_l; [apply (u_enter _ _ _ _ _ _ _ 0%nat); reflexivity|].
  eapply rtc_l; [apply (u_check _ _ _ _ _ _ _ 0%nat empty_app 0); [reflexivity|vm_compute; reflexivity|done|vm_compute; lia]|].
  eapply rtc_l; [apply (u_upgrade _ _ _ _ _ _ _ 0%nat 0%nat first_socket); [reflexivity|vm_compute; reflexivity]|].
  eapply rtc_l; [apply (u_register _ _ _ _ _ _ _ 0%nat 0%nat first_id 0%nat registered_one); [reflexivity|vm_compute; reflexivity..]|].
  eapply rtc_l; [apply (u_count _ _ _ _ _ _ _ 0%nat 0%nat first_id 0%nat 1 registered_one); [reflexivity|vm_compute; reflexivity]|].
  eapply rtc_l; [apply (u_gauge _ _ _ _ _ _ _ 0%nat 0%nat first_id 0%nat 1); reflexivity|].
  eapply rtc_l; [apply (u_watch _ _ _ _ _ _ _ 0%nat 0%nat first_id 0%nat watched_one); [reflexivity|vm_compute; reflexivity]|].
  eapply rtc_l; [apply u_rest, (rest_world _ _ _ _ (elapse 41000 (world watched_one)))|].
  eapply rtc_l; [apply u_rest, rest_heartbeat|].
  apply rtc_once, (u_session _ _ _ _ _ dropped_one _ 0%nat first_id 0%nat). reflexivity.
Qed.

(** The session stays in Redis without a connection. *)
Example session_without_connection :
  byID (conns stored_late) = ∅ ∧ is_Some (keyspace (world stored_late) !! (SessionPrefix +:+ first_id)).
Proof. vm_compute. split; [done|by eexists]. Qed.
