(* ===== verification/Metrics.v ===== *)
(** * internal/metrics/metrics.go, and the scraper that reads it

    The metrics the process registers with Prometheus, and what the load tests
    make of the page they appear on.  The client library is outside: its registry,
    its way to write numbers and the page it serves are parameters, with what the
    text exposition format documents as hypotheses. *)

From Stdlib Require Import Ascii ZArith Lia SpecFloat.
From Stdlib Require Import DecimalString.
From stdpp Require Import base gmap strings numbers list_basics list_relations list.
From S2P Require Import Prelude GoStd Counters Utf8 Filter Scraper Json Env Connection App.
Open Scope Z_scope.

(** ** The collectors *)

(** Bounds of histogram buckets in thousandths. *)
Inductive metric_kind : Type :=
  | Gauge
  | CounterVec (labels : list string)
  | Histogram (buckets : list Z).

Record collector : Type := Collector { m_Name : string; m_Help : string; m_kind : metric_kind }.

Definition ConnectionsTotal_desc : collector :=
  Collector "whisper_connections_total" "Current number of active WebSocket connections" Gauge.
Definition MessagesTotal_desc : collector :=
  Collector "whisper_messages_total" "Total number of messages processed" (CounterVec ["type"]).
Definition MessageLatency_desc : collector :=
  Collector "whisper_message_latency_seconds" "Message processing latency in seconds"
    (Histogram [1; 5; 10; 25; 50; 100; 250; 500; 1000]).
Definition MatchDuration_desc : collector :=
  Collector "whisper_match_duration_seconds" "Time from match request to match found"
    (Histogram [1000; 2000; 5000; 10000; 15000; 20000; 25000; 30000]).
Definition ActiveChats_desc : collector :=
  Collector "whisper_active_chats" "Current number of active chat sessions" Gauge.
Definition MatchQueueSize_desc : collector :=
  Collector "whisper_match_queue_size" "Current number of users in matching queue" Gauge.

(** The arguments of MustRegister. *)
Definition collectors : list collector :=
  [ConnectionsTotal_desc; MessagesTotal_desc; MessageLatency_desc; MatchDuration_desc; ActiveChats_desc;
   MatchQueueSize_desc].

(** The names under which a collector's values are on the page; those of the
    buckets of a histogram are left out. *)
Definition family (c : collector) : list string :=
  match m_kind c with
  | Histogram _ => [m_Name c +:+ "_sum"; m_Name c +:+ "_count"]
  | _ => [m_Name c]
  end.

(** ** Registration *)

(** What the library asks of a metric: a name of letters, digits, underscores and
    colons that does not start with a digit, labels likewise, and bounds that
    increase. *)
Definition name_start (a : ascii) : bool :=
  let n := Z.of_N (N_of_ascii a) in
  bool_decide (65 ≤ n ≤ 90) || bool_decide (97 ≤ n ≤ 122) || bool_decide (n = 95) || bool_decide (n = 58).
Definition name_char (a : ascii) : bool :=
  name_start a || bool_decide (48 ≤ Z.of_N (N_of_ascii a) ≤ 57).
Definition valid_name (s : string) : bool :=
  match s with "" => false | String a s => name_start a && string_all name_char s end%string.
Fixpoint increasing (l : list Z) : bool :=
  match l with x :: ((y :: _) as l) => bool_decide (x < y) && increasing l | _ => true end.
Definition valid_collector (c : collector) : bool :=
  valid_name (m_Name c) &&
  match m_kind c with
  | Gauge => true
  | CounterVec labels => forallb valid_name labels
  | Histogram buckets => increasing buckets
  end.

Section register.
(** The registry: registering gives the new one or an error. *)
Context {R : Type} (Register : collector → R → option R) (registered : R → list string).
(** MustRegister registers its arguments one by one and panics on an error: [None]. *)
Fixpoint MustRegister (cs : list collector) (r : R) : option R :=
  match cs with
  | [] => Some r
  | c :: cs => r' ← Register c r; MustRegister cs r'
  end.

(** The package's init. *)
Definition metrics_init (r : R) : option R := MustRegister collectors r.

(** A valid metric whose name is not taken is accepted, and takes its name. *)
Context (Register_fresh : ∀ c r, valid_collector c = true → m_Name c ∉ registered r →
  ∃ r', Register c r = Some r' ∧ registered r' = m_Name c :: registered r).

Lemma MustRegister_fresh cs r :
  forallb valid_collector cs = true → NoDup (m_Name <$> cs) → (∀ c, c ∈ cs → m_Name c ∉ registered r) →
  ∃ r', MustRegister cs r = Some r' ∧ registered r' = reverse (m_Name <$> cs) ++ registered r.
Proof.
  revert r. induction cs as [|c cs IH]; intros r; cbn [forallb MustRegister]; [intros; by exists r|].
  rewrite fmap_cons.
  intros [Hc Hcs]%andb_true_iff [Hn Hnd]%NoDup_cons Hfree.
  destruct (Register_fresh c r Hc) as (r1 & E1 & Hr1); [apply Hfree; set_solver|].
  destruct (IH r1 Hcs Hnd) as (r' & E & Hr').
  { intros d Hd. rewrite Hr1. apply not_elem_of_cons. split; [|apply Hfree; set_solver].
    intros Heq. apply Hn. rewrite <-Heq. by apply list_elem_of_fmap_2. }
  exists r'. rewrite E1. split; [done|]. by rewrite Hr', Hr1, reverse_cons, <-app_assoc.
Qed.

(** The init of the package does not panic: the six metrics are valid, no two
    share a name, and they are registered in their order, unless another package
    has taken one of the names. *)
Theorem metrics_init_registers r :
  (∀ c, c ∈ collectors → m_Name c ∉ registered r) →
  ∃ r', metrics_init r = Some r' ∧ registered r' = reverse (m_Name <$> collectors) ++ registered r.
Proof.
  intros Hfree. apply MustRegister_fresh; [reflexivity| |done].
  apply (bool_decide_unpack _). vm_compute. exact I.
Qed.
End register.

(** ** The page *)

(** An element of a list that is written out. *)
Ltac find_elem := first [apply list_elem_of_here | apply list_elem_of_further; find_elem].

(** [float64] of an integer, where it is one. *)
Definition f_of_Z (n : Z) : spec_float := binary_normalize 53 1024 n 0 false.

Section page.
(** How the library writes the integral values of gauges and counters, and how
    strconv reads them. *)
Context (write : Z → string) (ParseFloat : string → option spec_float).

(** The children of the counter, which exist from their first increment. *)
Definition message_counters (m : metrics_t) : list (string * Z) :=
  filter (λ p : string * Z, p.2 ≠ 0)
    [("blocked", MessagesBlocked m); ("received", MessagesReceived m); ("sent", MessagesSent m)].

(** The value of a gauge; nothing sets the size of the queue. *)
Definition gauge_value (m : metrics_t) (c : collector) : Z :=
  if bool_decide (m_Name c = m_Name ConnectionsTotal_desc) then ConnectionsTotal m
  else if bool_decide (m_Name c = m_Name ActiveChats_desc) then ActiveChats m
  else 0.

(** The samples of a collector on the page of a process with these values; no
    code observes a histogram, so its buckets are empty. *)
Definition family_samples (m : metrics_t) (c : collector) : list sample :=
  match m_kind c with
  | Gauge => [Sample (m_Name c) None (write (gauge_value m c))]
  | CounterVec _ =>
      (λ p : string * Z, Sample (m_Name c) (Some ("type=" +:+ String "034" (p.1 +:+ String "034" ""))) (write p.2))
        <$> message_counters m
  | Histogram _ => [Sample (m_Name c +:+ "_sum") None (write 0); Sample (m_Name c +:+ "_count") None (write 0)]
  end.

(** The page of the process: its lines, comments and empty ones apart, are samples
    the format allows, and those of each registered metric have its values, in the
    order of their labels.  Samples of other packages may be among them. *)
Definition page_of (m : metrics_t) (samples : list sample) (page : list string) : Prop :=
  filter (λ l, is_comment l = false) page = sample_line <$> samples
  ∧ Forall (λ s, sample_ok s = true) samples
  ∧ ∀ c, c ∈ collectors → filter (λ s, s_name s ∈ family c) samples = family_samples m c.

(** Integral values are read back as they were written. *)
Context (parse_write : ∀ n, Z.abs n < 2 ^ 53 → ParseFloat (write n) = Some (f_of_Z n)).

Lemma values_of_page name samples page :
  filter (λ l, is_comment l = false) page = sample_line <$> samples →
  Forall (λ s, sample_ok s = true) samples →
  values_of ParseFloat name page = omap (λ s, ParseFloat (s_value s)) (filter (λ s, s_name s = name) samples).
Proof.
  intros Hp. assert (values_of ParseFloat name page = values_of ParseFloat name (filter (λ l, is_comment l = false) page)) as ->.
  { clear Hp. induction page as [|l page IH]; [done|]. rewrite filter_cons. unfold values_of in *. cbn.
    destruct (decide _) as [Hc|Hc]; cbn; [by rewrite IH|]. rewrite IH. unfold line_sample.
    by destruct (is_comment l). }
  assert (∀ s, s ∈ samples → is_comment (sample_line s) = false) as Hnc.
  { intros s Hs. assert (sample_line s ∈ filter (λ l, is_comment l = false) page) as Hin
      by (rewrite Hp; by apply list_elem_of_fmap_2). by apply list_elem_of_filter in Hin as [? _]. }
  rewrite Hp. clear page Hp. induction 1 as [|s samples Hs _ IH]; [done|]. rewrite filter_cons. unfold values_of in *. cbn.
  rewrite IH by (intros; apply Hnc; set_solver). unfold line_sample. rewrite (Hnc s), metric_line_roundtrip by set_solver.
  destruct (ParseFloat (s_value s)) as [v|] eqn:Ev; cbn.
  - destruct (decide (s_name s = name)); [rewrite bool_decide_true by done; cbn; by rewrite Ev|by rewrite bool_decide_false].
  - destruct (decide (s_name s = name)); [cbn; by rewrite Ev|done].
Qed.

(** A name of a family is looked up among the samples of the family. *)
Lemma family_values m name c samples page :
  page_of m samples page → c ∈ collectors → name ∈ family c →
  values_of ParseFloat name page =
    omap (λ s, ParseFloat (s_value s)) (filter (λ s, s_name s = name) (family_samples m c)).
Proof.
  intros (Hp & Hok & Hf) Hc Hn. rewrite (values_of_page name samples page Hp Hok), <-(Hf c Hc). f_equal.
  rewrite list_filter_filter. apply list_filter_iff. intros s. naive_solver.
Qed.

(** The values of the gauges and of the counters are small enough to be exact. *)
Definition metrics_exact (m : metrics_t) : Prop :=
  Forall (λ n, Z.abs n < 2 ^ 53) [ConnectionsTotal m; ActiveChats m; MessagesBlocked m; MessagesReceived m; MessagesSent m].

Lemma gauge_values m c samples page :
  page_of m samples page → c ∈ collectors → m_kind c = Gauge → Z.abs (gauge_value m c) < 2 ^ 53 →
  values_of ParseFloat (m_Name c) page = [f_of_Z (gauge_value m c)].
Proof.
  intros Hp Hc Hk Hv. rewrite (family_values m _ c samples page Hp Hc) by (unfold family; rewrite Hk; set_solver).
  unfold family_samples. rewrite Hk, filter_cons_True by done. cbn. by rewrite parse_write.
Qed.

Lemma histogram_values m c bs name samples page :
  page_of m samples page → c ∈ collectors → m_kind c = Histogram bs → name ∈ family c →
  values_of ParseFloat name page = [f_zero].
Proof.
  intros Hp Hc Hk Hn. rewrite (family_values m _ c samples page Hp Hc Hn). unfold family_samples, family in *. rewrite Hk in *.
  assert (m_Name c +:+ "_sum" ≠ m_Name c +:+ "_count") as Hne by by intros ?%(inj _).
  apply elem_of_cons in Hn as [Hn|Hn%list_elem_of_singleton]; subst name.
  - rewrite filter_cons_True by done. rewrite filter_cons_False by (cbn; congruence). cbn. by rewrite parse_write.
  - rewrite filter_cons_False by (cbn; congruence). rewrite filter_cons_True by done. cbn. by rewrite parse_write.
Qed.

Lemma counter_values m samples page :
  page_of m samples page → metrics_exact m →
  values_of ParseFloat (m_Name MessagesTotal_desc) page = (λ p : string * Z, f_of_Z p.2) <$> message_counters m.
Proof.
  intros Hp Hm. rewrite (family_values m _ MessagesTotal_desc samples page Hp) by find_elem. cbn [family_samples m_kind MessagesTotal_desc].
  assert (∀ p, p ∈ message_counters m → Z.abs p.2 < 2 ^ 53) as Hs.
  { intros p [_ Hin]%list_elem_of_filter. unfold metrics_exact in Hm. rewrite Forall_forall in Hm. apply Hm. set_solver. }
  induction (message_counters m) as [|p ps IH]; [done|]. rewrite !fmap_cons, filter_cons_True by done. cbn [omap list_omap s_value].
  rewrite parse_write by (apply Hs; set_solver). f_equal. apply IH. intros q Hq. apply Hs. set_solver.
Qed.

End page.

(** ** A page *)

Lemma parse_integer_itoa n : Z.abs n < 2 ^ 53 → parse_integer (itoa n) = Some (f_of_Z n).
Proof. intros Hn. unfold parse_integer. rewrite ParseInt_itoa; [done|]. unfold min_int64, max_int64. lia. Qed.

Abbreviation sample_metrics := (Metrics 3 1 5 7 0).
Abbreviation sample_page :=
  (["# TYPE go_goroutines gauge"; "go_goroutines 12"; "# TYPE whisper_active_chats gauge"] ++
   (sample_line <$> concat (family_samples itoa sample_metrics <$> collectors))).


(** The registry as the list of its names. *)
Definition list_register (c : collector) (r : list string) : option (list string) :=
  if bool_decide (m_Name c ∈ r) || negb (valid_collector c) then None else Some (m_Name c :: r).

Example metrics_registered :
  metrics_init list_register ["go_goroutines"] =
  Some ["whisper_match_queue_size"; "whisper_active_chats"; "whisper_match_duration_seconds";
        "whisper_message_latency_seconds"; "whisper_messages_total"; "whisper_connections_total"; "go_goroutines"]
  ∧ metrics_init list_register ["whisper_active_chats"] = None.
Proof. vm_compute. done. Qed.

Lemma list_register_fresh c r : valid_collector c = true → m_Name c ∉ r →
  ∃ r', list_register c r = Some r' ∧ r' = m_Name c :: r.
Proof. intros Hv Hn. unfold list_register. rewrite bool_decide_false, Hv by done. by eexists. Qed.
