(* ===== verification/EndChat.v ===== *)
(** * Ending a chat, and the gauge of active chats

    The end_chat handler of cmd/wsserver/main.go runs in the worker of its
    connection, so the two partners can end their chat at the same time.  Here the
    handler is cut at the one point that matters for the gauge ActiveChats: after
    the look at the chat, on which the rest depends. *)

From stdpp Require Import base gmap strings numbers relations list_basics list_relations list.
From S2P Require Import Prelude GoStd Json Env Keys MemEnv ChatBuffer ChatStore SessionStore Report Filter Protocol Messaging Subscriptions Matcher Connection App WsServer Handlers HandlerProofs LifeCycle ChatStart.
Open Scope Z_scope.

Section end_chat.
Context {W NW B D : Type}.
Context `{!Env W, !Net NW, !NetLaws NW, !Broker callback B, !ReportDB D, !Unicode}.
Abbreviation A := (app W NW B D).
Implicit Types (s : A).

(** Up to the check: the sender, if it takes part in the chat. *)
Definition end_lookup (conn : loc) (chatID : string) : M A (option string) :=
  let! sid := conn_id conn in
  let! cs := get_chat chatID in
  ret match cs with
      | None => None
      | Some cs => if negb (IsParticipant cs sid) then None else Some sid
      end.

(** What the handler does for a participant. *)
Definition end_rest (chatID sid : string) : M A unit :=
  do! ignore (on_world (PublishChatMessage chatID (left_event sid))) in
  do! metric (add_ActiveChats (-1)) in
  do! ignore (on_nats (UnsubscribeFromChat sid)) in
  do! ignore (on_nats (UnsubscribeModerationResult sid)) in
  do! ignore (on_world (ChatStore.Delete chatID)) in
  do! ignore (on_world (ClearChatID sid)) in
  buffer_Remove chatID.

(** The two parts, one after the other, are the handler. *)
Lemma end_chat_parts conn m s :
  handle_end_chat conn m s =
  (let! r := end_lookup conn (ec_ChatID m) in
   match r with None => ret tt | Some sid => end_rest (ec_ChatID m) sid end) s.
Proof.
  unfold handle_end_chat, end_lookup, conn_id, get_app, bind, ret. cbv beta iota.
  destruct (get_chat (ec_ChatID m) s) as [[cs|] s1]; [|done]. by destruct (IsParticipant cs _).
Qed.

Lemma ignore_world {X} (m : M W X) s : ignore (on_world m) s = (tt, set_world (m (world s)).2 s).
Proof. unfold ignore, on_world, bind, ret. by destruct (m (world s)). Qed.
Lemma ignore_nats {X} (m : M (NATSClient B) X) s : ignore (on_nats m) s = (tt, set_nats (m (nats s)).2 s).
Proof. unfold ignore, on_nats, bind, ret. by destruct (m (nats s)). Qed.

(** Once past the check, the chat is counted as ended, whatever has become of it
    since and whether or not it was ever active. *)
Lemma end_rest_gauge chatID sid s :
  ActiveChats (metrics (end_rest chatID sid s).2) = ActiveChats (metrics s) - 1.
Proof.
  unfold end_rest, bind, metric. repeat rewrite ?ignore_world, ?ignore_nats. reflexivity.
Qed.

(** So is every chat end that got past the check, one by one. *)
Lemma ends_gauge (ends : list (string * string)) s :
  ActiveChats (metrics (range_do ends (λ e, end_rest e.1 e.2) s).2) = ActiveChats (metrics s) - Z.of_nat (length ends).
Proof.
  revert s. induction ends as [|e ends IH]; intros s; cbn [range_do length]; [cbn; lia|].
  unfold bind. pose proof (end_rest_gauge e.1 e.2 s) as He. destruct (end_rest e.1 e.2 s) as [[] s1].
  rewrite IH. cbn in He. lia.
Qed.
End end_chat.

(** ** Two runs *)

(** Both partners of the one active chat pass the check before either deletes it:
    one chat is over and two are counted. *)
Definition active_chat : app mem mem_net (mem_broker callback) table :=
  (handle_accept_match 0%nat alice_accepts (half_accepted "alice")).2.

Example both_end_at_once :
  ActiveChats (metrics active_chat) = 1
  ∧ (end_lookup 0%nat "c1" active_chat).1 = Some "alice"
  ∧ (end_lookup 1%nat "c1" (end_lookup 0%nat "c1" active_chat).2).1 = Some "bob"
  ∧ ActiveChats (metrics (range_do [("c1", "alice"); ("c1", "bob")] (λ e, end_rest e.1 e.2) active_chat).2) = -1.
Proof. vm_compute. done. Qed.

(** A participant ends a chat that was proposed and not accepted by both: it was
    never counted. *)
Example pending_chat_ended :
  let s := half_accepted "alice" in
  hget (keyspace (world s)) ("chat:" +:+ "c1") !! "status" = Some "pending_accept"
  ∧ ActiveChats (metrics s) = 0
  ∧ ActiveChats (metrics (handle_end_chat 0%nat {| ec_Type := "end_chat"; ec_ChatID := "c1" |} s).2) = -1.
Proof. vm_compute. done. Qed.
