(* ===== verification/SaturateTest.v ===== *)
(** * The saturation test, and the progress lines of the load tests

    loadtest/cmd/loadtest/saturate.go from its options to its report, and the
    goroutines of saturate.go, match.go and chat.go that print how far a phase has
    come.  What a line prints is kept as numbers; its layout is left out. *)

From Stdlib Require Import ZArith Lia SpecFloat.
From stdpp Require Import base gmap strings numbers list_basics list_relations list.
From S2P Require Import Prelude GoStd Json Env Keys Counters Scraper Protocol App WsServer LoadClient Harness Stats Ramp LoadTests.
Open Scope Z_scope.

(** ** Options *)

Record saturate_options : Type := SaturateOptions {
  so_url : string; so_connections : Z; so_rampUp : Z; so_hold : Z; so_concurrency : Z;
}.
(** The values of the flags that are not given. *)
Definition saturate_defaults : saturate_options :=
  SaturateOptions "ws://localhost:8080/ws" 1000 (10 * Second) (30 * Second) 50.

Record match_options : Type := MatchOptions {
  mo_url : string; mo_asked : Z; mo_rampUp : Z; mo_matchTimeout : Z; mo_interests : string; mo_concurrency : Z;
  mo_metricsURL : string; mo_scrapeInterval : Z;
}.
Definition match_defaults : match_options :=
  MatchOptions "ws://localhost:8080/ws" 500 (10 * Second) (30 * Second) "" 50 "http://localhost:8080/metrics" (2 * Second).

Record chat_options : Type := ChatOptions {
  co_url : string; co_pairs : Z; co_rampUp : Z; co_chatDuration : Z; co_msgInterval : Z; co_msgSize : Z; co_concurrency : Z;
  co_matchTimeout : Z; co_metricsURL : string; co_scrapeInterval : Z;
}.
Definition chat_defaults : chat_options :=
  ChatOptions "ws://localhost:8080/ws" 100 (10 * Second) (30 * Second) (2 * Second) 128 50 (30 * Second)
    "http://localhost:8080/metrics" (2 * Second).

(** ** Progress *)

(** [Duration.Seconds] *)
Definition Seconds (d : Z) : spec_float :=
  f_add (binary_normalize 53 1024 (Z.quot d Second) 0 false)
    (f_div (binary_normalize 53 1024 (Z.rem d Second) 0 false) (binary_normalize 53 1024 1000000000 0 false)).

(** [float64(delta) / dt] *)
Definition rate (delta elapsed : Z) : spec_float := f_div (binary_normalize 53 1024 delta 0 false) (Seconds elapsed).

(** What the select of the goroutine takes: a tick, with what it then reads, or the
    closed channel. *)
Inductive progress_event : Type :=
  | ProgressTick (now current errors : Z)
  | ProgressStop.

(** A line: the count, the one asked for, the errors, and what the rate is computed
    from. *)
Record progress_line : Type := ProgressLine {
  pl_current : Z; pl_total : Z; pl_errors : Z; pl_delta : Z; pl_elapsed : Z; pl_rate : spec_float;
}.

(** The goroutine of the connection phase. *)
Fixpoint ramp_progress (total lastCount lastTime : Z) (evs : list progress_event) : list progress_line :=
  match evs with
  | [] | ProgressStop :: _ => []
  | ProgressTick now current errs :: evs =>
      ProgressLine current total errs (current - lastCount) (now - lastTime) (rate (current - lastCount) (now - lastTime))
        :: ramp_progress total current now evs
  end.

(** The same goroutine in the connection phases of match.go and chat.go, for the
    clients of the pairs asked for. *)
Definition match_connect_progress (pairs lastTime : Z) : list progress_event → list progress_line :=
  ramp_progress (pairs * 2) 0 lastTime.
Definition chat_connect_progress (pairs lastTime : Z) : list progress_event → list progress_line :=
  ramp_progress (pairs * 2) 0 lastTime.

(** The goroutine of the matching phase reads one more counter. *)
Inductive match_progress_event : Type :=
  | MatchTick (now matched accepted errors : Z)
  | MatchStop.
Record match_line : Type := MatchLine { ml_pairs : Z; ml_accepted : Z; ml_line : progress_line }.

Fixpoint match_progress (pairs lastMatched lastTime : Z) (evs : list match_progress_event) : list match_line :=
  match evs with
  | [] | MatchStop :: _ => []
  | MatchTick now matched accepted errs :: evs =>
      MatchLine (Z.quot accepted 2) accepted
        (ProgressLine matched pairs errs (matched - lastMatched) (now - lastTime) (rate (matched - lastMatched) (now - lastTime)))
        :: match_progress pairs matched now evs
  end.

(** The goroutine of the chat phase prints the counters as they are. *)
Record chat_counters : Type := ChatCounters { cc_active : Z; cc_completed : Z; cc_sent : Z; cc_recv : Z; cc_errors : Z }.
Fixpoint chat_progress (actualPairs : Z) (evs : list (option chat_counters)) : list (Z * chat_counters) :=
  match evs with
  | [] | None :: _ => []
  | Some c :: evs => (actualPairs, c) :: chat_progress actualPairs evs
  end.

(** The matching phase prints the lines of the connection phase, for the counter of
    matches. *)
Definition forget_accepted (ev : match_progress_event) : progress_event :=
  match ev with MatchTick now matched _ errs => ProgressTick now matched errs | MatchStop => ProgressStop end.

Lemma match_progress_lines pairs last time evs :
  ml_line <$> match_progress pairs last time evs = ramp_progress pairs last time (forget_accepted <$> evs).
Proof.
  revert last time. induction evs as [|[now matched accepted errs|] evs IH]; intros last time; cbn; [done| |done]. by rewrite IH.
Qed.

Definition sum (l : list Z) : Z := foldr Z.add 0 l.

(** The lines account for the whole phase: what they report as new adds up to the
    last count, the intervals add up to the time of the last line, each line has the
    counters as they were, and there is a line for every tick before the stop and
    none after it. *)
Theorem progress_adds_up total n0 t0 ticks rest :
  let evs := ((λ t : Z * Z * Z, ProgressTick t.1.1 t.1.2 t.2) <$> ticks) ++ ProgressStop :: rest in
  let lines := ramp_progress total n0 t0 evs in
  ((λ l, (pl_current l, pl_errors l)) <$> lines) = ((λ t : Z * Z * Z, (t.1.2, t.2)) <$> ticks)
  ∧ sum (pl_delta <$> lines) = default n0 (last ((λ t : Z * Z * Z, t.1.2) <$> ticks)) - n0
  ∧ sum (pl_elapsed <$> lines) = default t0 (last ((λ t : Z * Z * Z, t.1.1) <$> ticks)) - t0.
Proof.
  cbn zeta. revert n0 t0. induction ticks as [|[[now current] errs] ticks IH]; intros n0 t0; [cbn; split_and!; [done|lia|lia]|].
  rewrite !fmap_cons, !last_cons. cbn [Datatypes.app ramp_progress fst snd]. rewrite !fmap_cons. unfold sum in *. cbn [foldr].
  destruct (IH current now) as (H1 & H2 & H3). rewrite H1, H2, H3. cbn [pl_current pl_errors pl_delta pl_elapsed].
  split; [done|]. split; repeat case_match; cbn; lia.
Qed.

(** ** The test as a whole *)

Inductive saturate_end (NW : Type) : Type :=
  | SPanic
  | SUnfinished
  | SFinished (clients : list (peer NW)) (dropped : Z) (c : Collector) (interrupted : bool).
Arguments SPanic {_}. Arguments SUnfinished {_}. Arguments SFinished {_}.

(** The hold loop has left its select for good. *)
Definition hold_over (evs : list hold_event) : bool :=
  existsb (λ ev, match ev with HoldCtx | HoldTimer => true | _ => false end) evs.

(** [make] panics on a negative capacity, the interval on a division by zero. *)
Definition saturate_test `{!ClientNet NW} (o : saturate_options) (now : Z)
    (ramp_evs : list (ramp_event NW)) (hold_evs : list hold_event) : saturate_end NW :=
  if bool_decide (so_connections o < 0) then SPanic
  else if bool_decide (ramp_interval (so_rampUp o) (so_connections o) = None) then SPanic
  else if bool_decide (so_concurrency o < 0) then SPanic
  else
    let r := ramp_run (so_connections o) (Z.to_nat (so_concurrency o)) ramp_evs (ramp_start (NewCollector now)) in
    match r_pc r with
    | RampDone =>
        if interrupted r || hold_over hold_evs then
          let '(clients, dropped) := runSaturate r hold_evs in
          SFinished (clients ++ refused r) dropped (r_collector r) (interrupted r)
        else SUnfinished
    | _ => SUnfinished
    end.

Section whole.
Context `{!ClientNet NW, !ClientNetLaws NW}.

Lemma alive_bounds (ps : list (peer NW)) : 0 ≤ alive ps ≤ Z.of_nat (length ps).
Proof.
  unfold alive. induction ps as [|p ps IH] using rev_ind; [cbn; lia|]. rewrite foldl_app, length_app. cbn.
  case_bool_decide; lia.
Qed.

Lemma holdLoop_bounds n evs (ps : list (peer NW)) dropped :
  n = Z.of_nat (length ps) → 0 ≤ dropped ≤ n →
  let '(ps', dropped') := holdLoop n evs ps dropped in length ps' = length ps ∧ 0 ≤ dropped' ≤ n.
Proof.
  revert ps dropped. induction evs as [|[| | |j ev] evs IH]; intros ps dropped Hn Hd; cbn; try done.
  - apply IH; [done|]. pose proof (alive_bounds ps). lia.
  - destruct (ps !! j) as [p|]; [|by apply IH]. specialize (IH (<[j := (peer_read ev p).2]> ps) dropped).
    rewrite length_insert in IH. by apply IH.
Qed.

(** The saturation test, from its options to its report, under every
    interleaving: it panics only on options that make no sense; when it has
    finished every client it ever connected is closed, those that were refused
    included, the drops reported are at most the connections held, and unless it
    was interrupted every connection asked for is counted, as one that stood or as
    an error. *)
Theorem saturate_test_accounts o now ramp_evs hold_evs :
  match saturate_test (NW := NW) o now ramp_evs hold_evs with
  | SPanic => so_connections o ≤ 0 ∨ so_concurrency o < 0
  | SUnfinished => True
  | SFinished clients dropped c interrupted =>
      Forall (λ p, done (cl p) = true) clients ∧ 0 ≤ dropped ≤ connections c
      ∧ (interrupted = false → connections c + errors c = so_connections o)
  end.
Proof.
  unfold saturate_test. case_bool_decide as Hneg; [lia|]. case_bool_decide as Hint.
  { left. unfold ramp_interval in Hint. case_bool_decide; [lia|done]. }
  case_bool_decide as Hcon; [lia|]. set (r := ramp_run _ _ _ _).
  destruct (ramp_accounted (so_connections o) (Z.to_nat (so_concurrency o)) (NewCollector now) ramp_evs ltac:(lia) : accounted _ _ _ r).
  destruct (r_pc r) eqn:Hpc; try done. cbn in rm_outcomes, rm_clients, rm_errors. specialize (rm_done ltac:(done)).
  specialize (rm_exit ltac:(by right)). cbn in rm_attempts. rewrite Z.sub_0_r in *.
  destruct (interrupted r || hold_over hold_evs); [|done]. unfold runSaturate.
  assert (∃ ps d, (if interrupted r then (clients r, 0) else holdLoop (Z.of_nat (length (clients r))) hold_evs (clients r) 0) = (ps, d)
    ∧ 0 ≤ d ≤ Z.of_nat (length (clients r))) as (ps & d & -> & Hd).
  { destruct (interrupted r); [exists (clients r), 0; split; [done|lia]|].
    pose proof (holdLoop_bounds (Z.of_nat (length (clients r))) hold_evs (clients r) 0 eq_refl ltac:(lia)) as Hb.
    destruct (holdLoop _ _ _ _) as [ps d]. exists ps, d. split; [done|apply Hb]. }
  split; [apply Forall_app; split; [apply cleanup_done|done]|]. split; [lia|].
  intros Hi. specialize (rm_attempts Hi). lia.
Qed.
End whole.

(** ** A run *)

(** The defaults make sense: an attempt every ten milliseconds. *)
Example default_interval :
  ramp_interval (so_rampUp saturate_defaults) (so_connections saturate_defaults) = Some (10 * Millisecond)
  ∧ ramp_interval (mo_rampUp match_defaults) (mo_asked match_defaults * 2) = Some (10 * Millisecond)
  ∧ ramp_interval (co_rampUp chat_defaults) (co_pairs chat_defaults * 2) = Some (50 * Millisecond).
Proof. vm_compute. done. Qed.
