(* ===== verification/ClientTypes.v ===== *)
(** * The message types of the load test client

    loadtest/client/client.go keeps its own copy of the type names of
    internal/protocol/messages.go, as the two are different Go modules. *)

From stdpp Require Import base gmap strings numbers list_basics list_relations list.
From S2P Require Import Prelude GoStd Json Env Filter Utf8 Protocol Subscriptions Connection Report App WsServer Handlers.
Open Scope Z_scope.

(** What the client sends. *)
Definition client_sent_types : list string :=
  ["set_fingerprint"; "find_match"; "cancel_match"; "accept_match"; "decline_match"; "message"; "typing"; "end_chat"; "ping"].
(** What it looks for in what it gets. *)
Definition client_received_types : list string :=
  ["session_created"; "matching_started"; "match_found"; "match_accepted"; "match_declined"; "match_timeout";
   "partner_left"; "rate_limited"; "error"; "pong"].

(** The types of the server's messages. *)
Definition server_types : list string :=
  [TypeSessionCreated; TypeMatchingStarted; TypeMatchFound; TypeMatchAccepted; TypeMatchDeclined; TypeMatchTimeout;
   TypePartnerLeft; TypeRateLimited; TypeBanned; TypeError; TypePong].

Section agree.
Context {W NW B D : Type}.
Context `{!Env W, !Net NW, !Broker callback B, !ReportDB D, !Unicode}.
Context (f : Filter).

(** The copy has not drifted: every type the client sends is the heartbeat or has a
    handler in the server, every type it looks for is one the server sends, and of
    these it leaves out the ban only. *)
Theorem client_types_agree :
  Forall (λ t, t = TypePing ∨ is_Some (handlers (W := W) (NW := NW) (B := B) (D := D) f !! t)) client_sent_types
  ∧ client_received_types ⊆ server_types
  ∧ ∀ t, t ∈ server_types → t ∈ client_received_types ∨ t = TypeBanned.
Proof.
  assert (∀ t, t ∈ [TypeReport; TypeEndChat; TypeTyping; TypeMessage; TypeDeclineMatch; TypeAcceptMatch; TypeCancelMatch;
    TypeFindMatch; TypeSetFingerprint] → is_Some (handlers (W := W) (NW := NW) (B := B) (D := D) f !! t)) as Hh.
  { intros t Ht. unfold handlers, Register. cbn [foldl fst snd]. rewrite !lookup_insert_is_Some'. rewrite !elem_of_cons in Ht.
    repeat (destruct Ht as [->|Ht]; [tauto|]). by apply elem_of_nil in Ht. }
  split; [|split].
  - assert (Forall (λ t, t = TypePing ∨ t ∈ [TypeReport; TypeEndChat; TypeTyping; TypeMessage; TypeDeclineMatch; TypeAcceptMatch;
      TypeCancelMatch; TypeFindMatch; TypeSetFingerprint]) client_sent_types) as Hs
      by (apply (bool_decide_unpack _); vm_compute; exact I).
    eapply Forall_impl; [exact Hs|]. intros t [?|?]; auto.
  - apply (bool_decide_unpack _). vm_compute. exact I.
  - apply Forall_forall. apply (bool_decide_unpack _). vm_compute. exact I.
Qed.
End agree.
