(* ===== verification/WriteLocks.v ===== *)
(** * Writing to a connection

    Every write to a connection goes through the mutex writeMu of
    internal/ws/connection.go: replies of the handlers (WriteMessage), messages for
    a session (Server.SendMessage, which also sets and clears the write deadline of
    the socket, outside the mutex), and the pings of the heartbeat goroutine
    (heartbeat.go), which visits the connections one after the other.  The other
    files take a write as one step; here its operations are steps of their own, a
    write to a peer that does not read blocks, and only a deadline ends it. *)

From stdpp Require Import base gmap strings numbers relations list_basics list_relations list fin_maps.
From S2P Require Import Prelude GoStd Json Connection WsServer.
Open Scope Z_scope.

(** ** State *)

(** The mutex with its holder, the write deadline, the time of the last frame
    read, whether the peer's window is full, whether the socket is closed, and the
    frames written; [None] is a ping. *)
Record wconn : Type := WConn {
  writeMu : option nat;
  writeDeadline : option Z;
  w_LastPing : Z;
  windowFull : bool;
  w_closed : bool;
  written : list (option json);
}.

(** A goroutine that writes: SendMessage from the deadline on, WriteMessage, or the
    heartbeat in its range over the connections; [started] is the [now] of
    checkConnections. *)
Inductive writer : Type :=
  | SendDeadline (c : loc) (data : json)
  | SendLock (c : loc) (data : json)
  | SendWrite (c : loc) (data : json)
  | SendClear (c : loc)
  | ReplyLock (c : loc) (data : json)
  | ReplyWrite (c : loc) (data : json)
  | BeatCheck (started : Z) (all : list loc)
  | BeatLock (started : Z) (c : loc) (all : list loc)
  | BeatWrite (started : Z) (c : loc) (all : list loc).

Record writing : Type := Writing {
  w_conns : gmap loc wconn;
  w_clock : Z;
  writers : gmap nat writer;
}.

Definition set_wconn (l : loc) (c : wconn) (w : writing) : writing :=
  Writing (<[l := c]> (w_conns w)) (w_clock w) (writers w).
Definition set_writer (i : nat) (t : writer) (w : writing) : writing :=
  Writing (w_conns w) (w_clock w) (<[i := t]> (writers w)).
Definition end_writer (i : nat) (w : writing) : writing :=
  Writing (w_conns w) (w_clock w) (delete i (writers w)).

Definition set_writeMu (o : option nat) (c : wconn) : wconn :=
  WConn o (writeDeadline c) (w_LastPing c) (windowFull c) (w_closed c) (written c).
Definition set_writeDeadline (d : option Z) (c : wconn) : wconn :=
  WConn (writeMu c) d (w_LastPing c) (windowFull c) (w_closed c) (written c).
Definition set_closed (c : wconn) : wconn :=
  WConn (writeMu c) (writeDeadline c) (w_LastPing c) (windowFull c) true (written c).
Definition add_frame (x : option json) (c : wconn) : wconn :=
  WConn (writeMu c) (writeDeadline c) (w_LastPing c) (windowFull c) (w_closed c) (written c ++ [x]).

Section writing.
Context (config : ServerConfig) (hc : HeartbeatConfig).
Implicit Types (w : writing) (c : wconn).

(** ** Operations *)

(** [Lock]: blocks while someone holds it. *)
Definition lock (i : nat) (l : loc) w : option writing :=
  c ← w_conns w !! l;
  match writeMu c with
  | Some _ => None
  | None => Some (set_wconn l (set_writeMu (Some i) c) w)
  end.

Definition unlock (l : loc) w : writing :=
  match w_conns w !! l with Some c => set_wconn l (set_writeMu None c) w | None => w end.

(** The write of a frame: an error on a closed socket; a full window blocks, up to
    the deadline if there is one. *)
Definition write_frame (l : loc) (x : option json) w : option (option error * writing) :=
  c ← w_conns w !! l;
  if w_closed c then Some (Some "use of closed network connection", w)
  else if windowFull c then
    match writeDeadline c with
    | Some d => if bool_decide (d ≤ w_clock w) then Some (Some "i/o timeout", w) else None
    | None => None
    end
  else Some (None, set_wconn l (add_frame x c) w).

(** RemoveConnection, as far as it concerns writers. *)
Definition drop (l : loc) w : writing :=
  match w_conns w !! l with Some c => set_wconn l (set_closed c) w | None => w end.

Definition deadline_of (l : loc) (d : option Z) w : writing :=
  match w_conns w !! l with Some c => set_wconn l (set_writeDeadline d c) w | None => w end.

(** One step of a goroutine; [None] when it blocks. *)
Definition writer_step (i : nat) w : option writing :=
  t ← writers w !! i;
  match t with
  | SendDeadline l data =>
      let w := if bool_decide (0 < WriteTimeout config) then deadline_of l (Some (w_clock w + WriteTimeout config)) w else w in
      Some (set_writer i (SendLock l data) w)
  | SendLock l data => w ← lock i l w; Some (set_writer i (SendWrite l data) w)
  | SendWrite l data => '(_, w) ← write_frame l (Some data) w; Some (set_writer i (SendClear l) (unlock l w))
  | SendClear l => Some (end_writer i (deadline_of l None w))
  | ReplyLock l data => w ← lock i l w; Some (set_writer i (ReplyWrite l data) w)
  | ReplyWrite l data => '(_, w) ← write_frame l (Some data) w; Some (end_writer i (unlock l w))
  | BeatCheck _ [] => Some (end_writer i w)
  | BeatCheck t (l :: all) =>
      c ← w_conns w !! l;
      if bool_decide (Interval hc + Timeout hc < t - w_LastPing c)
      then Some (set_writer i (BeatCheck t all) (drop l w))
      else Some (set_writer i (BeatLock t l all) w)
  | BeatLock t l all => w ← lock i l w; Some (set_writer i (BeatWrite t l all) w)
  | BeatWrite t l all =>
      '(e, w) ← write_frame l None w;
      let w := unlock l w in
      Some (set_writer i (BeatCheck t all) match e with Some _ => drop l w | None => w end)
  end.

(** ** Runs *)

(** A goroutine begins with a call. *)
Definition begins (t : writer) : bool :=
  match t with SendDeadline _ _ | ReplyLock _ _ | BeatCheck _ _ => true | _ => false end.

Inductive write_event : Type :=
  | WStep (i : nat)
  | WSpawn (i : nat) (t : writer)
  | WTime (d : Z)
  | WFull (l : loc)
  | WPeerReads (l : loc)
  | WFrame (l : loc)
  | WClose (l : loc).

Definition on_wconn (l : loc) (g : wconn → wconn) w : option writing :=
  c ← w_conns w !! l; Some (set_wconn l (g c) w).

Definition write_step (ev : write_event) w : option writing :=
  match ev with
  | WStep i => writer_step i w
  | WSpawn i t =>
      match writers w !! i with
      | Some _ => None
      | None => if begins t then Some (set_writer i t w) else None
      end
  | WTime d => if bool_decide (0 ≤ d) then Some (Writing (w_conns w) (w_clock w + d) (writers w)) else None
  | WFull l => on_wconn l (λ c, WConn (writeMu c) (writeDeadline c) (w_LastPing c) true (w_closed c) (written c)) w
  | WPeerReads l => on_wconn l (λ c, WConn (writeMu c) (writeDeadline c) (w_LastPing c) false (w_closed c) (written c)) w
  | WFrame l => on_wconn l (λ c, WConn (writeMu c) (writeDeadline c) (w_clock w) (windowFull c) (w_closed c) (written c)) w
  | WClose l => on_wconn l set_closed w
  end.

Fixpoint write_run (evs : list write_event) w : option writing :=
  match evs with [] => Some w | ev :: evs => w' ← write_step ev w; write_run evs w' end.

(** ** The mutex *)

(** The goroutine is between Lock and Unlock of this connection. *)
Definition in_write (t : writer) (l : loc) : Prop :=
  match t with SendWrite c _ | ReplyWrite c _ | BeatWrite _ c _ => c = l | _ => False end.

(** The mutex of a connection is held by the goroutine that writes to it. *)
Definition locks_ok w : Prop :=
  (∀ l c i, w_conns w !! l = Some c → writeMu c = Some i → ∃ t, writers w !! i = Some t ∧ in_write t l)
  ∧ (∀ i t l, writers w !! i = Some t → in_write t l → ∃ c, w_conns w !! l = Some c ∧ writeMu c = Some i).

(** Fields of a connection other than the mutex. *)
Lemma locks_conn w l (g : wconn → wconn) w' :
  locks_ok w → (∀ c, writeMu (g c) = writeMu c) → on_wconn l g w = Some w' → locks_ok w'.
Proof.
  intros [H1 H2] Hg (c & Hc & [= <-])%bind_Some. split; cbn.
  - intros l' c' i [[<- <-]|[_ Hc']]%lookup_insert_Some; [rewrite Hg|]; eauto.
  - intros i t l' Ht Hin. destruct (H2 i t l' Ht Hin) as (c' & Hc' & Hm). destruct (decide (l' = l)) as [->|Hne].
    + exists (g c). rewrite lookup_insert_eq, Hg. split; [done|]. congruence.
    + exists c'. by rewrite lookup_insert_ne.
Qed.

Lemma locks_deadline w l d : locks_ok w → locks_ok (deadline_of l d w).
Proof.
  intros Hw. unfold deadline_of. destruct (w_conns w !! l) as [c|] eqn:E; [|done].
  apply (locks_conn w l (set_writeDeadline d)); [done|done|]. unfold on_wconn. by rewrite E.
Qed.
Lemma locks_drop w l : locks_ok w → locks_ok (drop l w).
Proof.
  intros Hw. unfold drop. destruct (w_conns w !! l) as [c|] eqn:E; [|done].
  apply (locks_conn w l set_closed); [done|done|]. unfold on_wconn. by rewrite E.
Qed.
Lemma locks_write w l x e w' : locks_ok w → write_frame l x w = Some (e, w') → locks_ok w'.
Proof.
  intros Hw (c & Hc & Hwr)%bind_Some. repeat case_match; simplify_eq; try done.
  apply (locks_conn w l (add_frame x)); [done|done|]. unfold on_wconn. by rewrite Hc.
Qed.

(** A goroutine moves between states in which it writes to nothing. *)
Lemma locks_writer w i t t' :
  locks_ok w → writers w !! i = t → (∀ t0 l, t = Some t0 → ¬ in_write t0 l) → (∀ l, ¬ in_write t' l) →
  locks_ok (set_writer i t' w).
Proof.
  intros [H1 H2] Hi Ht Ht'. split; cbn.
  - intros l c j Hc Hj. destruct (H1 l c j Hc Hj) as (u & Hu & Hin). exists u. rewrite lookup_insert_ne; [done|].
    intros ->. eapply Ht; [|done]. congruence.
  - intros j u l [[<- <-]|[_ Hu]]%lookup_insert_Some Hin; [by apply Ht' in Hin|eauto].
Qed.
Lemma locks_end w i t : locks_ok w → writers w !! i = Some t → (∀ l, ¬ in_write t l) → locks_ok (end_writer i w).
Proof.
  intros [H1 H2] Hi Ht. split; cbn.
  - intros l c j Hc Hj. destruct (H1 l c j Hc Hj) as (u & Hu & Hin). exists u. rewrite lookup_delete_ne; [done|].
    intros ->. apply (Ht l). congruence.
  - intros j u l [_ Hu]%lookup_delete_Some. eauto.
Qed.

(** Lock, and the write begins. *)
Lemma locks_lock w i t t' l w1 :
  locks_ok w → writers w !! i = Some t → (∀ l', ¬ in_write t l') → (∀ l', in_write t' l' ↔ l' = l) →
  lock i l w = Some w1 → locks_ok (set_writer i t' w1).
Proof.
  intros [H1 H2] Hi Ht Ht' (c & Hc & Hm)%bind_Some. destruct (writeMu c) eqn:Em; simplify_eq. split; cbn.
  - intros l' c' j [[<- <-]|[Hne Hc']]%lookup_insert_Some; cbn.
    + intros [= <-]. exists t'. rewrite lookup_insert_eq. split; [done|]. by apply Ht'.
    + intros Hj. destruct (H1 l' c' j Hc' Hj) as (u & Hu & Hin). exists u. rewrite lookup_insert_ne; [done|].
      intros ->. apply (Ht l'). congruence.
  - intros j u l' [[<- <-]|[Hne Hu]]%lookup_insert_Some Hin.
    + apply Ht' in Hin as ->. exists (set_writeMu (Some i) c). by rewrite lookup_insert_eq.
    + destruct (H2 j u l' Hu Hin) as (c' & Hc' & Hm'). exists c'. rewrite lookup_insert_ne; [done|]. intros <-. congruence.
Qed.

(** The write is over, Unlock. *)
Lemma locks_unlock w i t l (f : gmap nat writer → gmap nat writer) :
  locks_ok w → writers w !! i = Some t → in_write t l → (∀ l', in_write t l' → l' = l) →
  (∀ j, j ≠ i → f (writers w) !! j = writers w !! j) → (∀ u l', f (writers w) !! i = Some u → ¬ in_write u l') →
  locks_ok (Writing (w_conns (unlock l w)) (w_clock w) (f (writers w))).
Proof.
  intros [H1 H2] Hi Ht Hone Hj Hfi. destruct (H2 i t l Hi Ht) as (c & Hc & Hm). unfold unlock. rewrite Hc. split; cbn.
  - intros l' c' j [[<- <-]|[Hne Hc']]%lookup_insert_Some; [done|]. intros Hj'.
    destruct (H1 l' c' j Hc' Hj') as (u & Hu & Hin). exists u. rewrite Hj; [done|].
    intros ->. apply Hne. rewrite Hi in Hu. injection Hu as <-. symmetry. by apply Hone.
  - intros j u l' Hu Hin. destruct (decide (j = i)) as [->|Hne]; [by eapply Hfi in Hin|]. rewrite Hj in Hu by done.
    destruct (H2 j u l' Hu Hin) as (c' & Hc' & Hm'). exists c'. rewrite lookup_insert_ne; [done|]. intros <-. congruence.
Qed.

Lemma write_frame_writers l x w e w' : write_frame l x w = Some (e, w') → writers w' = writers w ∧ w_clock w' = w_clock w.
Proof. intros (c & Hc & Hwr)%bind_Some. by repeat case_match; simplify_eq. Qed.

Lemma unlock_writers l w : writers (unlock l w) = writers w ∧ w_clock (unlock l w) = w_clock w.
Proof. unfold unlock. by destruct (w_conns w !! l). Qed.

(** After its write a goroutine releases the mutex and goes on. *)
Lemma locks_after_write w i t l x e w1 t' :
  locks_ok w → writers w !! i = Some t → in_write t l → (∀ l', in_write t l' → l' = l) → (∀ l', ¬ in_write t' l') →
  write_frame l x w = Some (e, w1) → locks_ok (set_writer i t' (unlock l w1)) ∧ locks_ok (end_writer i (unlock l w1)).
Proof.
  intros Hw Hi Ht Hone Ht' E. destruct (write_frame_writers _ _ _ _ _ E) as [Ew Ec]. pose proof (locks_write _ _ _ _ _ Hw E) as Hw1.
  rewrite <-Ew in Hi. destruct (unlock_writers l w1) as [Eu Euc]. split.
  - pose proof (locks_unlock w1 i t l (λ m, <[i := t']> m) Hw1 Hi Ht Hone) as Hl. cbn in Hl.
    unfold set_writer. rewrite Eu, Euc. apply Hl.
    + intros j Hj. by rewrite lookup_insert_ne.
    + intros u l'. rewrite lookup_insert_eq. by intros [= <-].
  - pose proof (locks_unlock w1 i t l (λ m, delete i m) Hw1 Hi Ht Hone) as Hl. cbn in Hl.
    unfold end_writer. rewrite Eu, Euc. apply Hl.
    + intros j Hj. by rewrite lookup_delete_ne.
    + intros u l'. by rewrite lookup_delete_eq.
Qed.

Lemma deadline_writers l d w : writers (deadline_of l d w) = writers w.
Proof. unfold deadline_of. by destruct (w_conns w !! l). Qed.
Lemma drop_writers l w : writers (drop l w) = writers w.
Proof. unfold drop. by destruct (w_conns w !! l). Qed.

Lemma locks_writer_step i w w' : locks_ok w → writer_step i w = Some w' → locks_ok w'.
Proof.
  intros Hw (t & Hi & Hs)%bind_Some.
  destruct t as [l data|l data|l data|l|l data|l data|t [|l all]|t l all|t l all].
  - injection Hs as <-. assert (locks_ok (if bool_decide (0 < WriteTimeout config)
      then deadline_of l (Some (w_clock w + WriteTimeout config)) w else w)) by (case_bool_decide; auto using locks_deadline).
    apply (locks_writer _ i (Some (SendDeadline l data))); [done| |by intros ? ? [= <-] []|by intros ? []].
    case_bool_decide; rewrite ?deadline_writers; exact Hi.
  - apply bind_Some in Hs as (w1 & Hl & [= <-]). eapply locks_lock; [done|exact Hi|by intros ? []|naive_solver|done].
  - apply bind_Some in Hs as ([e w1] & Hl & [= <-]). eapply locks_after_write; [done|exact Hi|done|by intros ? <-|by intros ? []|done].
  - injection Hs as <-. eapply locks_end; [by apply locks_deadline|rewrite deadline_writers; exact Hi|by intros ? []].
  - apply bind_Some in Hs as (w1 & Hl & [= <-]). eapply locks_lock; [done|exact Hi|by intros ? []|naive_solver|done].
  - apply bind_Some in Hs as ([e w1] & Hl & [= <-]).
    eapply (locks_after_write _ _ _ _ _ _ _ (SendClear l)); [done|exact Hi|done|by intros ? <-|by intros ? []|done].
  - injection Hs as <-. eapply locks_end; [done|exact Hi|by intros ? []].
  - apply bind_Some in Hs as (c & Hc & Hs). case_bool_decide; injection Hs as <-.
    + eapply locks_writer; [by apply locks_drop|rewrite drop_writers; exact Hi|by intros ? ? [= <-] []|by intros ? []].
    + eapply locks_writer; [done|exact Hi|by intros ? ? [= <-] []|by intros ? []].
  - apply bind_Some in Hs as (w1 & Hl & [= <-]). eapply locks_lock; [done|exact Hi|by intros ? []|naive_solver|done].
  - apply bind_Some in Hs as ([e w1] & Hl & [= <-]).
    assert (locks_ok (set_writer i (BeatCheck t all) (unlock l w1))) as Hok
      by (eapply locks_after_write; [done|exact Hi|done|by intros ? <-|by intros ? []|done]).
    destruct e as [e|]; [|done]. apply (locks_drop _ l) in Hok. unfold drop in Hok |- *. cbn in Hok.
    by destruct (w_conns (unlock l w1) !! l).
Qed.

Lemma locks_step ev w w' : locks_ok w → write_step ev w = Some w' → locks_ok w'.
Proof.
  intros Hw Hs. destruct ev as [i|i t|d|l|l|l|l]; cbn [write_step] in Hs.
  - by eapply locks_writer_step.
  - destruct (writers w !! i) eqn:Hi; [done|]. destruct (begins t) eqn:Hb; simplify_eq.
    apply (locks_writer _ i None); [done|exact Hi|done|]. intros l Hl. by destruct t.
  - by case_bool_decide; simplify_eq.
  - by eapply locks_conn in Hs.
  - by eapply locks_conn in Hs.
  - by eapply locks_conn in Hs.
  - by eapply locks_conn in Hs.
Qed.

(** No goroutine writes and every mutex is free. *)
Definition idle w : Prop :=
  (∀ l c, w_conns w !! l = Some c → writeMu c = None) ∧ ∀ i t, writers w !! i = Some t → begins t = true.

Lemma idle_locks w : idle w → locks_ok w.
Proof.
  intros [H1 H2]. split.
  - intros l c i Hc Hm. apply H1 in Hc. congruence.
  - intros i t l Ht Hin. apply H2 in Ht. by destruct t.
Qed.

Lemma locks_run evs w w' : locks_ok w → write_run evs w = Some w' → locks_ok w'.
Proof.
  revert w. induction evs as [|ev evs IH]; intros w Hw; cbn; [by intros [= <-]|].
  intros (w1 & Hs & Hr)%bind_Some. eapply IH; [|done]. by eapply locks_step.
Qed.

(** C16: However the writers of a connection are interleaved, a frame is written while
    its goroutine holds the mutex, and no two goroutines are in a write to one
    connection.  A write under a deadline that has passed, to a socket that is
    closed, or to a peer that reads, does not block. *)
Theorem writes_exclusive evs w0 w :
  idle w0 → write_run evs w0 = Some w →
  (∀ i j t u l, writers w !! i = Some t → writers w !! j = Some u → in_write t l → in_write u l → i = j)
  ∧ (∀ i t l c, writers w !! i = Some t → in_write t l → w_conns w !! l = Some c →
       writeMu c = Some i
       ∧ (w_closed c = true ∨ windowFull c = false ∨ (∃ d, writeDeadline c = Some d ∧ d ≤ w_clock w) ↔
          is_Some (writer_step i w))).
Proof.
  intros Hidle Hr. destruct (locks_run _ _ _ (idle_locks _ Hidle) Hr) as [H1 H2]. split.
  - intros i j t u l Hi Hj Ht Hu. destruct (H2 i t l Hi Ht) as (c & Hc & Hm). destruct (H2 j u l Hj Hu) as (c' & Hc' & Hm').
    congruence.
  - intros i t l c Hi Ht Hc. destruct (H2 i t l Hi Ht) as (c' & Hc' & Hm). simplify_eq. split; [done|].
    assert (∀ x, (w_closed c = true ∨ windowFull c = false ∨ (∃ d, writeDeadline c = Some d ∧ d ≤ w_clock w)) ↔
      is_Some (write_frame l x w)) as Hx.
    { intros x. unfold write_frame. rewrite Hc. cbn. destruct (w_closed c); [split; [by eexists|by left]|].
      destruct (windowFull c); [|split; [by eexists|by right; left]].
      destruct (writeDeadline c) as [d|]; [|split; [intros [?|[?|(? & ? & _)]]; done|by intros []]].
      case_bool_decide; split; naive_solver. }
    unfold writer_step. rewrite Hi. cbn. destruct t as [| |l' data| | |l' data|t []| |t l' all]; try done; cbn in Ht; subst l';
      [rewrite (Hx (Some data))|rewrite (Hx (Some data))|rewrite (Hx None)];
      destruct (write_frame l _ w) as [[e w1]|]; cbn;
      first [split; intros _; by eexists | split; by intros [? ?]].
Qed.

(** ** A peer that does not read *)

(** A goroutine that could set a deadline on the connection or close it. *)
Definition may_free (l : loc) (t : writer) : Prop :=
  match t with
  | SendDeadline c _ => c = l
  | BeatCheck _ all => l ∈ all
  | BeatLock _ c all | BeatWrite _ c all => c = l ∨ l ∈ all
  | _ => False
  end.

(** Events that leave the connection to itself: its peer does not read, nobody
    closes it, and no call of SendMessage for it and no second heartbeat begins. *)
Definition calm (l : loc) (ev : write_event) : Prop :=
  match ev with
  | WPeerReads l' | WClose l' => l' ≠ l
  | WSpawn _ t => ¬ may_free l t
  | _ => True
  end.

(** Held by [i], full, open and without a deadline. *)
Definition blocked_by (i : nat) (l : loc) w : Prop :=
  ∃ c, w_conns w !! l = Some c ∧ writeMu c = Some i ∧ windowFull c = true ∧ w_closed c = false ∧ writeDeadline c = None.

(** A reply [i] is in its write to a peer whose window is full, and the heartbeat
    [b] waits for the mutex. *)
Record stuck (l : loc) (i b : nat) (data : json) (t : Z) (all : list loc) w : Prop := {
  st_locks : locks_ok w;
  st_conn : blocked_by i l w;
  st_reply : writers w !! i = Some (ReplyWrite l data);
  st_beat : writers w !! b = Some (BeatLock t l all);
  st_others : ∀ j u, writers w !! j = Some u → j ≠ b → ¬ may_free l u;
}.

Lemma blocked_set i l l' c' w : l ≠ l' → blocked_by i l w → blocked_by i l (set_wconn l' c' w).
Proof. intros Hne (c & Hc & HP). exists c. cbn. by rewrite lookup_insert_ne. Qed.
Lemma blocked_writer i l j t w : blocked_by i l w → blocked_by i l (set_writer j t w).
Proof. done. Qed.

Lemma blocked_deadline i l l' d w : l' ≠ l ∨ d = None → blocked_by i l w → blocked_by i l (deadline_of l' d w).
Proof.
  intros Hd Hb. unfold deadline_of. destruct (w_conns w !! l') as [c'|] eqn:E; [|done].
  destruct (decide (l' = l)) as [->|Hne]; [|by apply blocked_set]. destruct Hd as [?| ->]; [done|].
  destruct Hb as (c & Hc & HP). simplify_eq. exists (set_writeDeadline None c). cbn. rewrite lookup_insert_eq. naive_solver.
Qed.
Lemma blocked_drop i l l' w : l' ≠ l → blocked_by i l w → blocked_by i l (drop l' w).
Proof. intros Hne Hb. unfold drop. destruct (w_conns w !! l'); [by apply blocked_set|done]. Qed.
Lemma blocked_unlock i l l' w : l' ≠ l → blocked_by i l w → blocked_by i l (unlock l' w).
Proof. intros Hne Hb. unfold unlock. destruct (w_conns w !! l'); [by apply blocked_set|done]. Qed.
Lemma blocked_write i l l' x e w w1 : l' ≠ l → blocked_by i l w → write_frame l' x w = Some (e, w1) → blocked_by i l w1.
Proof. intros Hne Hb (c & Hc & Hw)%bind_Some. repeat case_match; simplify_eq; try done. by apply blocked_set. Qed.
Lemma blocked_lock i j l l' w w1 :
  blocked_by i l w → lock j l' w = Some w1 → blocked_by i l w1 ∧ writers w1 = writers w.
Proof.
  intros Hb (c1 & Hc1 & Hl)%bind_Some. destruct (writeMu c1) eqn:E; simplify_eq. split; [|done].
  apply blocked_set; [|done]. destruct Hb as (c & Hc & Hm & _). congruence.
Qed.

(** What any other goroutine does leaves the connection blocked. *)
Lemma other_writer l i j u w w' :
  locks_ok w → blocked_by i l w → writers w !! j = Some u → j ≠ i → ¬ may_free l u → writer_step j w = Some w' →
  blocked_by i l w' ∧ (writers w' = delete j (writers w) ∨ ∃ u', ¬ may_free l u' ∧ writers w' = <[j := u']> (writers w)).
Proof.
  intros [_ H2] Hb Hj Hne Hf Hs.
  assert (∀ l', in_write u l' → l' ≠ l) as Hin.
  { intros l' Hl ->. destruct (H2 j u l Hj Hl) as (c' & ? & ?). destruct Hb as (c & ? & ? & _). congruence. }
  unfold writer_step in Hs. rewrite Hj in Hs. cbn in Hs.
  destruct u as [l' data|l' data|l' data|l'|l' data|l' data|t [|l' all]|t l' all|t l' all]; cbn in Hf, Hin.
  - injection Hs as <-. split; [case_bool_decide; [apply blocked_writer, blocked_deadline; auto|done]|].
    right. exists (SendLock l' data). split; [by intros []|]. cbn. case_bool_decide; by rewrite ?deadline_writers.
  - apply bind_Some in Hs as (w1 & Hl & [= <-]). destruct (blocked_lock _ _ _ _ _ _ Hb Hl) as [Hb1 E].
    split; [done|]. right. exists (SendWrite l' data). cbn. by rewrite E.
  - apply bind_Some in Hs as ([e w1] & Hw & [= <-]). destruct (write_frame_writers _ _ _ _ _ Hw) as [E _].
    split; [apply blocked_writer, blocked_unlock, (blocked_write _ _ l' (Some data) e w); auto|].
    right. exists (SendClear l'). cbn. destruct (unlock_writers l' w1) as [-> _]. by rewrite E.
  - injection Hs as <-. split; [apply (blocked_deadline i l l' None w); auto|]. left. cbn. by rewrite deadline_writers.
  - apply bind_Some in Hs as (w1 & Hl & [= <-]). destruct (blocked_lock _ _ _ _ _ _ Hb Hl) as [Hb1 E].
    split; [done|]. right. exists (ReplyWrite l' data). cbn. by rewrite E.
  - apply bind_Some in Hs as ([e w1] & Hw & [= <-]). destruct (write_frame_writers _ _ _ _ _ Hw) as [E _].
    split; [apply (blocked_unlock i l l' w1), (blocked_write _ _ l' (Some data) e w); auto|].
    left. cbn. destruct (unlock_writers l' w1) as [-> _]. by rewrite E.
  - injection Hs as <-. split; [done|by left].
  - apply bind_Some in Hs as (c & Hc & Hs). apply not_elem_of_cons in Hf as [Hl Hall]. case_bool_decide; injection Hs as <-.
    + split; [apply blocked_writer, blocked_drop; auto|]. right. exists (BeatCheck t all). cbn. by rewrite drop_writers.
    + split; [done|]. right. exists (BeatLock t l' all). split; [|done]. cbn. naive_solver.
  - apply bind_Some in Hs as (w1 & Hl & [= <-]). destruct (blocked_lock _ _ _ _ _ _ Hb Hl) as [Hb1 E].
    split; [done|]. right. exists (BeatWrite t l' all). cbn. by rewrite E.
  - apply bind_Some in Hs as ([e w1] & Hw & [= <-]). destruct (write_frame_writers _ _ _ _ _ Hw) as [E _].
    assert (blocked_by i l (unlock l' w1)) as Hu by (apply blocked_unlock, (blocked_write _ _ l' None e w); auto).
    destruct (unlock_writers l' w1) as [Eu _].
    split; [destruct e; [apply blocked_writer, blocked_drop; auto|done]|]. right. exists (BeatCheck t all).
    split; [cbn; naive_solver|]. cbn. destruct e; by rewrite ?drop_writers, Eu, E.
Qed.

Lemma stuck_step l i b data t all ev w w' :
  i ≠ b → stuck l i b data t all w → calm l ev → write_step ev w = Some w' → stuck l i b data t all w'.
Proof.
  intros Hib [H0 H1 H2 H3 H4] Hcalm Hs. pose proof (locks_step ev w w' H0 Hs) as Hl'.
  assert (∀ l' g, (l' = l → ∀ c, writeMu (g c) = writeMu c ∧ (windowFull c = true → windowFull (g c) = true) ∧
    w_closed (g c) = w_closed c ∧ writeDeadline (g c) = writeDeadline c) → on_wconn l' g w = Some w' → stuck l i b data t all w') as Hconn.
  { intros l' g Hg (c' & Hc' & [= <-])%bind_Some. split; [done| |done|done|done].
    destruct (decide (l' = l)) as [->|Hne]; [|by apply blocked_set]. destruct H1 as (c & Hc & Hm & Hf & Hcl & Hd). simplify_eq.
    destruct (Hg eq_refl c) as (E1 & E2 & E3 & E4). exists (g c). cbn. rewrite lookup_insert_eq, E1, E3, E4. auto. }
  destruct ev as [j|j u|d|l'|l'|l'|l']; cbn [write_step calm] in *.
  - assert (j ≠ i) as Hji.
    { intros ->. unfold writer_step in Hs. rewrite H2 in Hs. cbn in Hs. apply bind_Some in Hs as ([e w1] & Hw & _).
      destruct H1 as (c & Hc & Hm & Hf & Hcl & Hd). unfold write_frame in Hw. rewrite Hc in Hw. cbn in Hw.
      by rewrite Hcl, Hf, Hd in Hw. }
    assert (j ≠ b) as Hjb.
    { intros ->. unfold writer_step in Hs. rewrite H3 in Hs. cbn in Hs. apply bind_Some in Hs as (w1 & Hw & _).
      destruct H1 as (c & Hc & Hm & _). unfold lock in Hw. rewrite Hc in Hw. cbn in Hw. by rewrite Hm in Hw. }
    destruct (writers w !! j) as [u|] eqn:Hj; [|unfold writer_step in Hs; by rewrite Hj in Hs].
    destruct (other_writer l i j u w w' H0 H1 Hj Hji (H4 j u Hj Hjb) Hs) as [Hb Hw].
    destruct Hw as [Hw|(u' & Hu' & Hw)].
    + split; [done|done|rewrite Hw, lookup_delete_ne; done..|]. intros k v. rewrite Hw. intros [_ Hv]%lookup_delete_Some; eauto.
    + split; [done|done|rewrite Hw, lookup_insert_ne; done..|].
      intros k v. rewrite Hw. intros [[<- <-]|[_ Hv]]%lookup_insert_Some; eauto.
  - destruct (writers w !! j) as [?|] eqn:Hj; [done|]. destruct (begins u); simplify_eq.
    split; [done|done|cbn; rewrite lookup_insert_ne; congruence..|].
    intros k v. cbn. intros [[<- <-]|[_ Hv]]%lookup_insert_Some; eauto.
  - case_bool_decide; simplify_eq. by split.
  - eapply Hconn; [|done]. intros _ c. by split_and!.
  - eapply Hconn; [|done]. by intros ->.
  - eapply Hconn; [|done]. intros _ c. by split_and!.
  - eapply Hconn; [|done]. by intros ->.
Qed.

End writing.

(** ** Runs *)

Definition quiet_conn (last : Z) : wconn := WConn None None last false false [].

(** Two connections, the second one silent since the start.  The first peer sends
    and does not read; ten seconds later the heartbeat begins its round. *)
Definition two_conns : writing :=
  Writing {[0%nat := quiet_conn (35 * Second); 1%nat := quiet_conn 0]} (40 * Second) ∅.
Abbreviation round_begins :=
  [WFull 0%nat; WSpawn 7%nat (ReplyLock 0%nat JNull); WStep 7%nat; WTime (10 * Second);
   WSpawn 8%nat (BeatCheck (50 * Second) [0%nat; 1%nat]); WStep 8%nat].
Abbreviation waiting_beat :=
  (default two_conns (write_run DefaultServerConfig DefaultHeartbeatConfig round_begins two_conns)).
(** An hour later, with other traffic. *)
Abbreviation hour_later :=
  [WTime (3600 * Second); WSpawn 9%nat (SendDeadline 1%nat JNull); WStep 9%nat; WStep 9%nat; WStep 9%nat; WStep 9%nat; WFrame 0%nat].
Abbreviation still_waiting :=
  (default two_conns (write_run DefaultServerConfig DefaultHeartbeatConfig hour_later waiting_beat)).


(** The second connection has been silent for an hour by then, and is open. *)
Example silent_connection_kept :
  (λ c, (w_closed c, w_clock still_waiting - w_LastPing c)) <$> w_conns still_waiting !! 1%nat = Some (false, 3650 * Second).
Proof. vm_compute. reflexivity. Qed.

(** Two calls of SendMessage for one connection: the first clears the deadline that
    the second has set, whose write then has none. *)
Example deadline_cleared_by_other :
  let w := default two_conns (write_run DefaultServerConfig DefaultHeartbeatConfig
    [WSpawn 1%nat (SendDeadline 0%nat JNull); WStep 1%nat; WStep 1%nat; WStep 1%nat;
     WSpawn 2%nat (SendDeadline 0%nat JNull); WStep 2%nat; WStep 1%nat; WFull 0%nat; WStep 2%nat; WTime (3600 * Second)] two_conns) in
  writers w !! 2%nat = Some (SendWrite 0%nat JNull) ∧ writer_step DefaultServerConfig DefaultHeartbeatConfig 2%nat w = None.
Proof. vm_compute. done. Qed.

Lemma writes_exclusive_witness :
  (∀ i j t u l, writers waiting_beat !! i = Some t → writers waiting_beat !! j = Some u → in_write t l → in_write u l → i = j)
  ∧ writeMu <$> w_conns waiting_beat !! 0%nat = Some (Some 7%nat).
Proof.
  destruct (writes_exclusive DefaultServerConfig DefaultHeartbeatConfig round_begins two_conns waiting_beat) as [H _].
  - split; [|by intros i t]. intros l c Hc. cbn in Hc.
    apply lookup_insert_Some in Hc as [[_ <-]|[_ Hc]]; [done|]. by apply lookup_singleton_Some in Hc as [_ <-].
  - vm_compute. reflexivity.
  - split; [exact H|vm_compute; reflexivity].
Defined.
